(* ===== verification/_CoqProject ===== *)
-Q . S2P
Prelude.v
Decimal.v
Errors.v
Effect.v
Retry.v
Time.v
Model.v
Json.v
Metrics.v
Store.v
BufferRepo.v
Spec.v
Scanner.v
Loop.v
LoopProps.v
Protocol.v
Publisher.v
PublisherProps.v
PublisherFlow.v
Delivery.v
DeliveryFair.v
AckChannel.v
Repos.v
ReposProps.v
Decoder.v
LogScanner.v
LogScannerProps.v
EndToEnd.v
TraceScanner.v
TraceProps.v
TraceEnd.v
Typed.v
Supervisor.v
SupervisorProps.v
Auditor.v
AuditorProps.v
AuditEnd.v
Notify.v
Config.v
Logger.v
Shutdown.v
HttpServer.v
Service.v
Process.v
ProcessProps.v
System.v
Interleave.v
Parallel.v
Overlap.v
