(* ===== verification/Prelude.v ===== *)
(** * Verification of the deposit listener (listener-go)

    The program watches EVM chains for deposits to known addresses and hands
    every one of them to an external Adapter over a WebSocket.  For each
    active chain two goroutines poll the node: a loop with the log scanner
    (native transfers and token logs) and one with the trace scanner
    (internal transfers).  A loop takes confirmed blocks in order, and stores
    the deposits of a block and the cursor in one Postgres transaction.  The
    publisher drains the buffer table to the Adapter and deletes a row once
    it is acknowledged.  The supervisor starts and stops the loops as the
    chain table changes, the auditor rescans old blocks and compares, the
    listener turns NOTIFY into a wake-up of the publisher.

    ** Conventions

    [Effect.M S A] is a Go function: it maps a state to a value, an error or a
    panic, and a new state.  The state of most code is a [Store.World E]: the
    database tables, the metrics registry, and an arbitrary [E] for
    everything outside.  Calls that leave the process are fields of type
    classes ([Env]: context, clock, database link; [ETHClient], [TraceCaller]:
    the node; [Conn]: the WebSocket; [Listening]: the LISTEN connection;
    [Schedule]: the other goroutines of the supervisor; [AuditEnv],
    [HttpEnv], [PgxPool], [RpcDialer], [Errgroup], [EnvParser]).
    Such a call may change the whole world, so other goroutines, processes
    and failures are covered by quantifying over the instance; what a theorem
    needs of them is a named class or hypothesis, and a witness gives a
    concrete instance.  go-ethereum's text functions and keccak ([Eth]) and
    SHA-256 ([Sha]) are parameters too.

    Integers are [Z]; [u64], [i64] are the conversions of Go, applied where the
    code converts or an operation can wrap.  Loops that run until the context
    ends take a number of iterations: [Ok tt] then means "still running after
    so many rounds", and since the Go functions never return nil there, the
    two do not overlap.  Theorems hold for every number of rounds.  Data
    loops (blocks, rows, frames, samples) recurse on their data and need no
    bound.  Block numbers are assumed below 2^64 - 1 ([Spec.maxBlock]), where
    [cursor + 1] would wrap.

    ** Files

    - this file: integers, strings, tactics, hint databases; [Decimal]: decimal
      printing; [Time]: the part of package time in use (calendar, RFC 3339);
      [Json]: JSON documents and the encoding of a deposit.
    - [Errors] (internal/common/errors, Go's errors package), [Effect] (the
      monad and its program logic), [Retry] (internal/common/retry).
    - [Model] (internal/model/deposit.go), [Metrics] (internal/metrics).
    - [Store] (migrations/, the world), [BufferRepo]
      (internal/database/buffer_repo.go).
    - [Spec]: the abstract ledger (cursors, buffered keys, keys handed over)
      whose steps are all the system may do, and the promise [no_loss].
    - [Scanner] (scanner.go, client.go, event_parser.go), [Loop] and [LoopProps]
      (internal/scanner/loop.go).
    - [Protocol] (internal/publisher/protocol.go), [Publisher],
      [PublisherProps], [PublisherFlow] (internal/publisher/publisher.go),
      [Delivery] (its liveness in ACK mode, over a window of in-flight
      messages) and [DeliveryFair] (every row leaves, new rows arriving),
      [AckChannel] (the read loop and the drain loop over their channel).
    - [Repos] and [ReposProps] (internal/database/account_repo.go,
      config_repo.go, database.go).
    - [Decoder] (internal/scanner/decoder, internal/decryption), [LogScanner],
      [LogScannerProps] (internal/scanner/log_scanner.go), [EndToEnd] (the
      loop, the log scanner and the buffer together); [TraceScanner],
      [TraceProps] (internal/scanner/trace_scanner.go), [TraceEnd] (the trace
      scanner as a [Scanner] whose memory is part of the world, end to end);
      [Typed] (what the scanners report fits the columns).
    - [Supervisor], [SupervisorProps] (internal/supervisor): a started chain is
      an instance with two goroutines; their ends, the closing of [done] and
      the cancellation of the parent are steps that interleave with the
      supervisor's own code.
    - [Auditor], [AuditorProps] (internal/audit), [AuditEnd] (the auditor
      against the loops), [Notify] (internal/notify).
    - [Config] (internal/config), [Logger] (internal/common/logger),
      [Shutdown] (internal/common/shutdown), [HttpServer]
      (internal/httpserver), [Service], [Process] (cmd/listener/main.go,
      internal/database/pool.go), [ProcessProps] (start-up, end and failure
      of the process, the RPC clients), [System] (all loops of all chains,
      publisher, monitor and auditor, their runs in sequence).
    - [Interleave] (what a goroutine may assume of and promises to the others,
      over the state they share), [Parallel] (the goroutines as threads that
      take turns between their calls; executable schedules), [Overlap]
      (several loops of one chain at once: nothing is lost).

    ** How components rely on each other

    [Spec.coop_rel own] is the contract between goroutines: only ledger steps
    and no write to the cursor [own].  What a component assumes of the calls
    it makes is [cooperates_with J own call] ([J] is an invariant of the
    outside world: a scanner's memory, say); it speaks of the calls alone,
    never of the component's own writes.  The theorems of a loop, of the
    publisher or of the auditor show that their whole runs satisfy the same
    contract ([loop_guarantee]), so the assumption of each is discharged by
    the guarantees of the others, and [system_nothing_lost] puts them
    together.  [Parallel.sys_step] needs no such assumption: a goroutine is
    a program of [main] run on what it is going to see, every call that leaves
    it is a point where any number of steps of the others may happen, and
    [goroutine_keeps] shows that a goroutine whose surroundings keep to the
    contract keeps to it in every prefix of its run.  The contract has one
    living loop per cursor; [Overlap] gives that up.  There a loop relies only
    on deposits not disappearing ([grows]), and keeps the tables [sound]: it
    stands where every block since the start is covered, a fact that
    nobody's step can undo.  [Loop.loop_logic] states what the loop needs of
    such a notion of standing, and both contracts are instances of it.  [Loop.Cooperative] and [ScannerSound] are the interface between
    the loop and a scanning strategy, [decoder_regular] between the log
    scanner and a decoder, [Publisher.Buffer] and [AuditBuffer] between the
    buffer and its readers.

    ** What is shown

    - Nothing is lost: a save is atomic ([SaveAndAdvance_atomic]); loop and
      publisher refine the ledger under every failure, so each deposit of a
      block the cursor passed is buffered or handed over
      ([Run_nothing_lost], [Publisher_at_least_once]); on an honest node this
      covers every watched transfer of the block ([LogScanner_reports_exactly],
      [log_loop_loses_nothing]) and, while every trace call and
      single-account lookup answers, every internal transfer
      ([TraceScanner_reports_exactly], [trace_loop_loses_nothing]); the loops
      [main] builds have these properties ([built_loops_lose_nothing]), and any
      history of all components does ([system_nothing_lost]), also when their
      calls interleave, goroutines are killed and restarted at any point, and
      the old and the new loop of a reactivated chain overlap
      ([interleaved_nothing_lost], [interleaved_monotone]).  In the
      interleaved model the publisher runs in the configured mode.  "Handed
      over" means acknowledged over the connection with
      PUBLISHER_REQUIRE_ACK, and only written to the connection without it:
      in that mode, the default, the Adapter may still lose the deposit
      ([fire_and_forget_can_lose]).
    - Nothing is invented or mixed up: only confirmed deposits are stored,
      keys of the three sources are disjoint, lookups are scoped to the chain,
      acknowledgement ids are injective, amounts and times are exact.
    - Progress and bounds: the loop catches up, with a responsive Adapter the
      publisher empties the buffer ([ack_mode_delivers]) and every row leaves
      it within a bound that its position gives, whatever arrives behind it
      ([every_deposit_delivered]), a flush returns,
      no acknowledgement is dropped
      ([no_ack_dropped]), in-flight messages, retries, backoffs, audit samples and ticker
      intervals are bounded.
    - The supervisor keeps one live instance per chain, registers only
      active chains with their current fingerprints (all of them, when their
      starts succeed: a chain whose start failed is logged and passed over
      until the next tick), isolates panics and stops everything at shutdown.
    - The auditor counts exactly the missing rows, only reads, and raises no
      alarm on what the loops stored where a rescan reports the chain exactly
      ([audit_no_false_alarm]).
    - Types: what the scanners report fits the columns it is stored in
      ([log_loop_well_typed]).
    - The process: a bad environment is named ([Load_names_the_variable]); the
      pool outlives the components and is closed once ([run_lifecycle]); what
      can end the process, and how it exits ([process_failure_causes]); a
      chain's RPC client is closed once, after both loops
      ([client_closed_once]); readiness, signals and log levels ([readiness],
      [shutdown_signals], [logger_levels]).

    ** What the guarantees rest on

    Nodes report the chain as it is when they answer ([honest_node],
    [honest_tracer]); they may fail otherwise, except for trace calls: a
    failing [debug_traceTransaction] makes the trace scanner skip the
    transaction, or switch itself off.  The same holds of the lookup of a
    single account: [Store.Env] has it as a round trip of its own
    ([env_has], the query of [Has]), because the trace scanner takes its
    failure for "not watched"; all other round trips of the database may fail
    anywhere ([accounts_readable] speaks of [env_has] alone).  The accounts
    watched do not change while loops run.  RPC_MAX_RETRIES is not negative.
    The rows of the buffer carry the payloads of their keys ([keyed]), which
    the program's own writes keep.

    The development also proves where the code falls short of its intent:
    [Do_negative_is_noop], [formatUnits_negative_panics], [cursor_zero_skips],
    [collect_swallows_lookup_error], [trace_index_unstable],
    [trace_disabled_for_good], [flush_never_returns], [fire_and_forget_can_lose],
    [audit_blind_spot], [negative_window_panics], [reactivation_overlaps],
    [timeout_ends_process], [second_signal_ignored].

    ** Not modelled

    Log records of the components (the logger itself is); read and write
    deadlines and the pong handler (they show as failures of the calls); the
    floating-point jitter of the reconnect delay (a parameter with its
    documented range); the parser of environment variables, the errgroup, the
    pool, the RPC client, pprof and the prometheus exporter (libraries:
    parameters with their documented behaviour); help texts of the metrics.

    Bounds of the interleaved model: a transaction is one step, at its COMMIT;
    the accounts table stays as it is ([AccountTable]); the supervisor appears
    as arbitrary starts and kills of loops, not as a thread.  In
    [every_deposit_delivered] new rows arrive behind the ones there: a row
    that commits later with a lower id than one already read is not covered.

    ** Open

    The supervisor as a thread of [sys_step], whose channels start and end
    the loops; the accounts table changing while loops run; the keepalive of
    the connection (ping period against read deadline) as a timed automaton. *)
From stdpp Require Import base gmap sets list strings sorting relations.
From Stdlib Require Import ZArith Lia Ascii String.
From stdpp Require Import base strings.

#[global] Open Scope Z_scope.

Declare Scope go_scope.
Delimit Scope go_scope with go.

(** ** Hint databases of the development
    [width] : integer conversions, [dec] : decimal printing, [eff] : program
    steps (see [Effect.v]). *)
Create HintDb width.
Create HintDb dec.
Create HintDb eff.
Create Rewrite HintDb width.
Create Rewrite HintDb dec.

(** ** Machine integers

    Go's [uint64], [int64]/[int] (64-bit targets) and the Postgres columns
    BIGINT / INT.  A value is a [Z]; the conversions wrap around. *)
Definition two63 : Z := 9223372036854775808.
Definition two64 : Z := 18446744073709551616.
Definition two31 : Z := 2147483648.

(** [uint64(x)] *)
Definition u64 (x : Z) : Z := x mod two64.
(** [int64(x)], [int(x)] *)
Definition i64 (x : Z) : Z := (x + two63) mod two64 - two63.

Definition is_u64 (x : Z) : Prop := 0 <= x < two64.
Definition is_i64 (x : Z) : Prop := - two63 <= x < two63.
Definition is_i32 (x : Z) : Prop := - two31 <= x < two31.

#[export] Instance is_u64_dec x : Decision (is_u64 x).
Proof. unfold is_u64. apply _. Defined.
#[export] Instance is_i64_dec x : Decision (is_i64 x).
Proof. unfold is_i64. apply _. Defined.
#[export] Instance is_i32_dec x : Decision (is_i32 x).
Proof. unfold is_i32. apply _. Defined.

(** [width] unfolds the width predicates and constants and calls [lia]. *)
Ltac width :=
  unfold is_u64, is_i64, is_i32, two63, two64, two31 in *;
  try Z.div_mod_to_equations; lia.

Lemma u64_small x : is_u64 x -> u64 x = x.
Proof. intros H. apply Z.mod_small. exact H. Qed.

Lemma i64_small x : is_i64 x -> i64 x = x.
Proof. unfold i64. intros H. rewrite Z.mod_small; width. Qed.

Lemma u64_range x : is_u64 (u64 x).
Proof. apply Z.mod_pos_bound. reflexivity. Qed.

Lemma i64_range x : is_i64 (i64 x).
Proof.
  unfold i64. pose proof (Z.mod_pos_bound (x + two63) two64 eq_refl). width.
Qed.

(** A [uint64] survives the trip through a BIGINT column: the code stores
    [int64(block)] and reads back [uint64(last)]. *)
Lemma u64_i64 x : is_u64 x -> u64 (i64 x) = x.
Proof.
  intros H. unfold i64, u64.
  replace ((x + two63) mod two64 - two63) with (x - two64 * ((x + two63) / two64)).
  2:{ rewrite (Z.mod_eq (x + two63) two64) by (unfold two64; lia). lia. }
  rewrite Z.mul_comm, <- Z.add_opp_r, <- Z.mul_opp_l, Z.mod_add by (unfold two64; lia).
  apply Z.mod_small. exact H.
Qed.

#[export] Hint Resolve u64_range i64_range : width.
#[export] Hint Rewrite u64_small i64_small u64_i64 using (first [assumption | width]) : width.

(** ** Strings *)

(** [s[:n]] and [s[n:]], clamped like a Go slice whose bounds were checked. *)
Fixpoint stake (n : nat) (s : string) : string :=
  match n, s with
  | S n', String c s' => String c (stake n' s')
  | _, _ => EmptyString
  end.

Fixpoint sdrop (n : nat) (s : string) : string :=
  match n, s with
  | S n', String _ s' => sdrop n' s'
  | O, _ => s
  | _, EmptyString => EmptyString
  end.

(** [strings.HasPrefix(s, p)] *)
Fixpoint has_prefix (p s : string) : bool :=
  match p, s with
  | EmptyString, _ => true
  | String a p', String b s' => Ascii.eqb a b && has_prefix p' s'
  | String _ _, EmptyString => false
  end.

(** [strings.TrimPrefix(s, p)] *)
Definition trim_prefix (p s : string) : string :=
  if has_prefix p s then sdrop (String.length p) s else s.

(** [strings.Contains(s, sub)] *)
Fixpoint contains (sub s : string) : bool :=
  has_prefix sub s ||
  match s with
  | EmptyString => false
  | String _ s' => contains sub s'
  end.

(** [strings.Repeat(c, n)] for a one-byte string *)
Fixpoint srepeat (c : ascii) (n : nat) : string :=
  match n with
  | O => EmptyString
  | S n' => String c (srepeat c n')
  end.

(** [strings.ToLower] and Postgres [lower()] on ASCII text. *)
Definition lower_ascii (c : ascii) : ascii :=
  let n := nat_of_ascii c in
  if (65 <=? n)%nat && (n <=? 90)%nat then ascii_of_nat (n + 32) else c.

Fixpoint to_lower (s : string) : string :=
  match s with
  | EmptyString => EmptyString
  | String c s' => String (lower_ascii c) (to_lower s')
  end.

(** Every character of [s] satisfies [p]. *)
Fixpoint all_chars (p : ascii -> bool) (s : string) : bool :=
  match s with
  | EmptyString => true
  | String c s' => p c && all_chars p s'
  end.

Definition is_digit (c : ascii) : bool :=
  let n := nat_of_ascii c in (48 <=? n)%nat && (n <=? 57)%nat.

#[global] Arguments String.append !_ _ / : simpl nomatch.

Lemma sappend_assoc (a b c : string) : a +:+ (b +:+ c) = (a +:+ b) +:+ c.
Proof. induction a as [|x a IH]; [done|]. cbn. by rewrite IH. Qed.

Lemma sappend_nil_r (a : string) : a +:+ "" = a.
Proof. induction a as [|x a IH]; [done|]. cbn. by rewrite IH. Qed.

Lemma slength_append (a b : string) :
  String.length (a +:+ b) = (String.length a + String.length b)%nat.
Proof. induction a as [|x a IH]; [done|]. cbn. by rewrite IH. Qed.

Lemma slength_repeat c n : String.length (srepeat c n) = n.
Proof. induction n; [done|]. cbn. by f_equal. Qed.

Lemma stake_sdrop n s : stake n s +:+ sdrop n s = s.
Proof. revert s. induction n as [|n IH]; intros [|c s]; cbn; [done..|]. by rewrite IH. Qed.

Lemma slength_stake n s : (n <= String.length s)%nat -> String.length (stake n s) = n.
Proof.
  revert s. induction n as [|n IH]; intros [|c s] H; cbn in *; [done..|lia|].
  rewrite IH; lia.
Qed.

Lemma slength_sdrop n s : String.length (sdrop n s) = (String.length s - n)%nat.
Proof. revert s. induction n as [|n IH]; intros [|c s]; cbn; done. Qed.

Lemma stake_append (a b : string) : stake (String.length a) (a +:+ b) = a.
Proof. induction a as [|c a IH]; cbn; [by destruct b|]. by rewrite IH. Qed.

Lemma sdrop_append (a b : string) : sdrop (String.length a) (a +:+ b) = b.
Proof. induction a as [|c a IH]; cbn; [by destruct b|]. exact IH. Qed.

Lemma all_chars_append p a b : all_chars p (a +:+ b) = all_chars p a && all_chars p b.
Proof. induction a as [|c a IH]; [done|]. cbn. rewrite IH. by destruct (p c). Qed.

Lemma to_lower_idemp_char c : lower_ascii (lower_ascii c) = lower_ascii c.
Proof. by destruct c as [[] [] [] [] [] [] [] []]. Qed.

Lemma to_lower_idemp s : to_lower (to_lower s) = to_lower s.
Proof. induction s as [|c s IH]; [done|]. cbn. by rewrite to_lower_idemp_char, IH. Qed.

(** Two strings that agree and whose prefixes avoid the separator [sep]
    split at the same place. *)
Lemma split_first_sep (sep : ascii) (a a' b b' : string) :
  all_chars (fun c => negb (Ascii.eqb c sep)) a = true ->
  all_chars (fun c => negb (Ascii.eqb c sep)) a' = true ->
  a +:+ String sep b = a' +:+ String sep b' ->
  a = a' /\ b = b'.
Proof.
  revert a'. induction a as [|c a IH]; intros [|c' a'] Ha Ha' Heq; cbn in *.
  - by simplify_eq.
  - exfalso. simplify_eq. by rewrite Ascii.eqb_refl in Ha'.
  - exfalso. simplify_eq. by rewrite Ascii.eqb_refl in Ha.
  - injection Heq as -> Heq.
    apply andb_prop in Ha as [_ Ha]. apply andb_prop in Ha' as [_ Ha'].
    destruct (IH a' Ha Ha' Heq) as [-> ->]. done.
Qed.

(** The same at the last separator: the suffixes avoid [sep]. *)
Lemma split_last_sep (sep : ascii) (a a' b b' : string) :
  all_chars (fun c => negb (Ascii.eqb c sep)) b = true ->
  all_chars (fun c => negb (Ascii.eqb c sep)) b' = true ->
  a +:+ String sep b = a' +:+ String sep b' ->
  a = a' /\ b = b'.
Proof.
  revert a'. induction a as [|c a IH]; intros [|c' a'] Hb Hb' Heq; cbn in *.
  - by simplify_eq.
  - exfalso. injection Heq as <- ->.
    rewrite all_chars_append in Hb. cbn in Hb.
    rewrite Ascii.eqb_refl in Hb. by destruct (all_chars _ a').
  - exfalso. injection Heq as -> <-.
    rewrite all_chars_append in Hb'. cbn in Hb'.
    rewrite Ascii.eqb_refl in Hb'. by destruct (all_chars _ a).
  - injection Heq as -> Heq. destruct (IH a' Hb Hb' Heq) as [-> ->]. done.
Qed.

Lemma filter_all {A} (P : A -> Prop) `{!forall x, Decision (P x)} (l : list A) : (forall x, x ∈ l -> P x) -> filter P l = l.
Proof.
  induction l as [|x l IH]; intros Hl; [done|]. rewrite filter_cons_True by (apply Hl; left).
  f_equal. apply IH. intros y Hy. apply Hl. by right.
Qed.

Lemma take_delete {A} (l : list A) k i : (k < i)%nat -> take (i - 1) (delete k l) = delete k (take i l).
Proof.
  revert k i. induction l as [|x l IH]; intros k i Hk; [by destruct k; cbn; rewrite !take_nil|].
  destruct i as [|i]; [lia|]. cbn [Nat.sub]. rewrite Nat.sub_0_r. destruct k as [|k]; [done|].
  destruct i as [|i]; [lia|]. cbn. f_equal. rewrite <- IH by lia. cbn. by rewrite Nat.sub_0_r.
Qed.

Lemma elem_of_delete {A B} (f : A -> B) (l : list A) k x y :
  NoDup (f <$> l) -> l !! k = Some x -> y ∈ f <$> delete k l <-> y ∈ f <$> l /\ y <> f x.
Proof.
  intros Hnd Hx. rewrite delete_take_drop. rewrite <- (take_drop_middle l k x Hx) in Hnd |- * at 3.
  rewrite fmap_app, fmap_cons in Hnd. apply NoDup_app in Hnd as (_ & Hd & [Hn _]%NoDup_cons).
  rewrite !fmap_app, fmap_cons, !elem_of_app, elem_of_cons. split; [|naive_solver].
  intros [Hy|Hy]; (split; [tauto|]); intros ->; [apply (Hd _ Hy); left|done].
Qed.
