(* ===== verification/Decimal.v ===== *)
(** * Decimal text

    What the program uses of Go's decimal formatting: [big.Int.String] and
    [fmt]'s [%d] ([dec]), zero-padded fields ([%03d], the [2006]/[01]/... of
    time layouts: [pad0]), and reading a run of digits back ([undec]). *)
From stdpp Require Import base list strings.
From Stdlib Require Import ZArith Lia Ascii String.
From stdpp Require Import base strings.
From S2P Require Import Prelude.

Definition digit (d : Z) : ascii := ascii_of_nat (48 + Z.to_nat d).
Definition digit_val (c : ascii) : Z := Z.of_nat (nat_of_ascii c) - 48.

(** The digits of [n], most significant first, in front of [acc]. *)
Fixpoint dec_aux (fuel : nat) (n : Z) (acc : string) : string :=
  match fuel with
  | O => acc
  | S fuel' =>
      let acc' := String (digit (n mod 10)) acc in
      if n <? 10 then acc' else dec_aux fuel' (n / 10) acc'
  end.

(** [log2 n + 1] rounds are enough: each divides by ten. *)
Definition dec_nonneg (n : Z) : string := dec_aux (S (Z.to_nat (Z.log2 n))) n "".

(** [%d], [big.Int.String], [strconv.FormatInt(_, 10)] *)
Definition dec (n : Z) : string :=
  if n <? 0 then String "-" (dec_nonneg (- n)) else dec_nonneg n.

(** [%0wd] of a non-negative number *)
Definition pad0 (w : nat) (n : Z) : string :=
  srepeat "0" (w - String.length (dec_nonneg n)) +:+ dec_nonneg n.

Fixpoint undec_acc (a : Z) (s : string) : Z :=
  match s with
  | EmptyString => a
  | String c s' => undec_acc (a * 10 + digit_val c) s'
  end.
Definition undec (s : string) : Z := undec_acc 0 s.

Definition all_digits (s : string) : bool := all_chars is_digit s.

(** [first_char s] is the first byte, for leading-zero statements. *)
Definition first_char (s : string) : option ascii :=
  match s with EmptyString => None | String c _ => Some c end.

#[global] Arguments dec_nonneg : simpl never.
#[global] Arguments dec : simpl never.
#[global] Arguments pad0 : simpl never.

(** ** Digits *)

Lemma digit_cases (P : Z -> Prop) :
  P 0 -> P 1 -> P 2 -> P 3 -> P 4 -> P 5 -> P 6 -> P 7 -> P 8 -> P 9 ->
  forall d, 0 <= d < 10 -> P d.
Proof.
  intros. assert (d = 0 \/ d = 1 \/ d = 2 \/ d = 3 \/ d = 4 \/ d = 5 \/ d = 6 \/
    d = 7 \/ d = 8 \/ d = 9) as Hd by lia.
  by repeat destruct Hd as [->|Hd]; [..|subst].
Qed.

Lemma digit_val_digit d : 0 <= d < 10 -> digit_val (digit d) = d.
Proof. revert d. by apply digit_cases. Qed.

Lemma is_digit_digit d : 0 <= d < 10 -> is_digit (digit d) = true.
Proof. revert d. by apply digit_cases. Qed.

Lemma digit_nonzero d : 0 < d < 10 -> digit d <> "0"%char.
Proof.
  intros H. cut (d = 0 \/ digit d <> "0"%char); [intros [->|?]; [lia|done]|].
  assert (0 <= d < 10) as Hd by lia. clear H. revert d Hd.
  apply digit_cases; (by left) || (right; discriminate).
Qed.

Lemma digit_val_range c : is_digit c = true -> 0 <= digit_val c < 10.
Proof.
  unfold is_digit, digit_val. intros [H1 H2]%andb_prop.
  apply Nat.leb_le in H1, H2. lia.
Qed.

Lemma digit_digit_val c : is_digit c = true -> digit (digit_val c) = c.
Proof.
  unfold is_digit, digit, digit_val. intros [H1 H2]%andb_prop.
  apply Nat.leb_le in H1, H2.
  rewrite Z2Nat.inj_sub, Nat2Z.id by lia. change (Z.to_nat 48) with 48%nat.
  replace (48 + (nat_of_ascii c - 48))%nat with (nat_of_ascii c) by lia.
  apply ascii_nat_embedding.
Qed.

(** ** Reading digits back *)

Lemma undec_acc_shift a s :
  undec_acc a s = a * 10 ^ Z.of_nat (String.length s) + undec s.
Proof.
  unfold undec. revert a. induction s as [|c s IH]; intros a; cbn [undec_acc String.length].
  - lia.
  - rewrite IH, (IH (0 * 10 + digit_val c)).
    rewrite Nat2Z.inj_succ, Z.pow_succ_r by lia. ring.
Qed.

Lemma undec_cons c s :
  undec (String c s) = digit_val c * 10 ^ Z.of_nat (String.length s) + undec s.
Proof. unfold undec at 1. cbn [undec_acc]. by rewrite undec_acc_shift, Z.add_0_l. Qed.

Lemma undec_append a b :
  undec (a +:+ b) = undec a * 10 ^ Z.of_nat (String.length b) + undec b.
Proof.
  induction a as [|c a IH]; [done|].
  cbn [String.append]. rewrite !undec_cons, IH, slength_append, Nat2Z.inj_add, Z.pow_add_r by lia.
  ring.
Qed.

Lemma undec_repeat0 n : undec (srepeat "0" n) = 0.
Proof. induction n; [done|]. cbn [srepeat]. rewrite undec_cons, IHn. change (digit_val "0") with 0. lia. Qed.

Lemma undec_range s :
  all_digits s = true -> 0 <= undec s < 10 ^ Z.of_nat (String.length s).
Proof.
  unfold all_digits. induction s as [|c s IH]; [cbn; lia|].
  intros [Hc Hs]%andb_prop. specialize (IH Hs).
  apply digit_val_range in Hc. rewrite undec_cons. cbn [String.length].
  rewrite Nat2Z.inj_succ, Z.pow_succ_r by lia. nia.
Qed.

(** Digit strings of one length are determined by their value. *)
Lemma undec_inj_length a b :
  all_digits a = true -> all_digits b = true ->
  String.length a = String.length b -> undec a = undec b -> a = b.
Proof.
  unfold all_digits.
  revert b. induction a as [|c a IH]; intros [|c' b] Ha Hb Hl Hv; try done.
  cbn in Ha, Hb. apply andb_prop in Ha as [Hc Ha], Hb as [Hc' Hb].
  injection Hl as Hl. rewrite !undec_cons, Hl in Hv.
  pose proof (undec_range a Ha). pose proof (undec_range b Hb). rewrite Hl in *.
  pose proof (digit_val_range c Hc). pose proof (digit_val_range c' Hc').
  assert (digit_val c = digit_val c') as Hd by nia.
  f_equal; [by rewrite <- (digit_digit_val c), <- (digit_digit_val c'), Hd|].
  apply IH; [done..|]. rewrite Hd in Hv. lia.
Qed.

(** ** Printing *)

Lemma dec_aux_spec fuel n acc :
  0 <= n < 2 ^ Z.of_nat fuel -> (0 < fuel)%nat ->
  exists d, dec_aux fuel n acc = d +:+ acc /\ all_digits d = true /\ undec d = n /\
    d <> "" /\ (n <> 0 -> first_char d <> Some "0"%char) /\ (n = 0 -> d = "0").
Proof.
  revert n acc. induction fuel as [|fuel IH]; intros n acc Hn Hf; [lia|].
  assert (0 <= n mod 10 < 10) as Hm by (apply Z.mod_pos_bound; lia).
  cbn [dec_aux]. destruct (Z.ltb_spec n 10) as [Hlt|Hge].
  - rewrite Z.mod_small by lia. exists (String (digit n) "").
    unfold all_digits. cbn [all_chars first_char]. rewrite is_digit_digit by lia.
    split_and!; try done.
    + rewrite undec_cons, digit_val_digit by lia. cbn. lia.
    + intros Hn0 [= Heq]. by apply (digit_nonzero n); [lia|].
    + intros ->. done.
  - destruct fuel as [|fuel]; [change (2 ^ Z.of_nat 1) with 2 in Hn; lia|].
    destruct (IH (n / 10) (String (digit (n mod 10)) acc)) as (d & -> & Hd & Hv & Hne & Hz & _).
    { rewrite Nat2Z.inj_succ, Z.pow_succ_r in Hn by lia.
      split; [apply Z.div_pos; lia|]. apply Z.div_lt_upper_bound; lia. }
    { lia. }
    exists (d +:+ String (digit (n mod 10)) "").
    unfold all_digits in *. rewrite all_chars_append, Hd. cbn [all_chars].
    rewrite is_digit_digit by lia. split_and!; try done.
    + by rewrite <- sappend_assoc.
    + rewrite undec_append, Hv, undec_cons, digit_val_digit by lia.
      cbn. pose proof (Z.div_mod n 10). lia.
    + by destruct d.
    + intros _. assert (n / 10 <> 0) as H10 by (pose proof (Z.div_le_lower_bound n 10 1); lia).
      specialize (Hz H10). by destruct d.
    + lia.
Qed.

Lemma dec_nonneg_spec n :
  0 <= n ->
  all_digits (dec_nonneg n) = true /\ undec (dec_nonneg n) = n /\ dec_nonneg n <> "" /\
  (n <> 0 -> first_char (dec_nonneg n) <> Some "0"%char) /\ (n = 0 -> dec_nonneg n = "0").
Proof.
  intros Hn. unfold dec_nonneg.
  destruct (dec_aux_spec (S (Z.to_nat (Z.log2 n))) n "") as (d & -> & ?); [|lia|].
  { split; [done|]. rewrite Nat2Z.inj_succ, Z2Nat.id by apply Z.log2_nonneg.
    destruct (decide (n = 0)) as [->|]; [done|]. apply Z.log2_spec. lia. }
  by rewrite sappend_nil_r.
Qed.

Lemma undec_dec n : 0 <= n -> undec (dec_nonneg n) = n.
Proof. intros H. by apply dec_nonneg_spec in H as (_ & -> & _). Qed.

Lemma all_digits_dec n : 0 <= n -> all_digits (dec_nonneg n) = true.
Proof. intros H. by apply dec_nonneg_spec in H as (-> & _). Qed.

Lemma dec_nonneg_inj n m : 0 <= n -> 0 <= m -> dec_nonneg n = dec_nonneg m -> n = m.
Proof. intros Hn Hm H. by rewrite <- (undec_dec n), <- (undec_dec m), H. Qed.

(** The printed form of a positive number has [k] digits or fewer exactly
    when the number is below [10^k]. *)
Lemma dec_nonneg_length n k :
  0 <= n -> (1 <= k)%nat ->
  (String.length (dec_nonneg n) <= k)%nat <-> n < 10 ^ Z.of_nat k.
Proof.
  intros Hn Hk. pose proof (dec_nonneg_spec n Hn) as (Hd & Hv & Hne & Hz & H0).
  pose proof (undec_range _ Hd) as Hr. rewrite Hv in Hr. split; intros H.
  - eapply Z.lt_le_trans; [apply Hr|]. apply Z.pow_le_mono_r; lia.
  - destruct (decide (n = 0)) as [->|Hn0]; [by rewrite H0|].
    specialize (Hz Hn0). destruct (dec_nonneg n) as [|c s] eqn:E; [cbn; lia|].
    cbn [first_char] in Hz. unfold all_digits in Hd. cbn in Hd. apply andb_prop in Hd as [Hc Hs].
    rewrite undec_cons in Hv. pose proof (undec_range s Hs).
    assert (0 < digit_val c) as Hpos.
    { pose proof (digit_val_range c Hc). destruct (decide (digit_val c = 0)) as [H00|]; [|lia].
      exfalso. apply Hz. f_equal. by rewrite <- (digit_digit_val c Hc), H00. }
    cbn [String.length]. assert (10 ^ Z.of_nat (String.length s) < 10 ^ Z.of_nat k) as Hlt by nia.
    apply Z.pow_lt_mono_r_iff in Hlt; lia.
Qed.

Lemma dec_inj n m : dec n = dec m -> n = m.
Proof.
  assert (forall k s, 0 <= k -> dec_nonneg k <> String "-" s) as Hminus.
  { intros k s Hk Heq. pose proof (all_digits_dec k Hk) as Hd.
    rewrite Heq in Hd. done. }
  unfold dec. destruct (Z.ltb_spec n 0), (Z.ltb_spec m 0); intros Heq.
  - injection Heq as Heq. apply dec_nonneg_inj in Heq; lia.
  - symmetry in Heq. exfalso. by eapply Hminus, Heq.
  - exfalso. by eapply Hminus, Heq.
  - apply dec_nonneg_inj in Heq; lia.
Qed.

(** A printed integer contains no separator. *)
Lemma dec_no_char (sep : ascii) n :
  is_digit sep = false -> sep <> "-"%char ->
  all_chars (fun c => negb (Ascii.eqb c sep)) (dec n) = true.
Proof.
  intros Hs Hm.
  assert (forall s, all_digits s = true -> all_chars (fun c => negb (Ascii.eqb c sep)) s = true)
    as Hall.
  { induction s as [|c s IH]; [done|]. unfold all_digits. cbn. intros [Hc H]%andb_prop.
    rewrite IH by done. destruct (Ascii.eqb_spec c sep) as [->|]; [congruence|done]. }
  unfold dec. destruct (Z.ltb_spec n 0).
  - cbn [all_chars]. rewrite Hall by (apply all_digits_dec; lia).
    destruct (Ascii.eqb_spec "-"%char sep) as [<-|]; [congruence|done].
  - apply Hall, all_digits_dec. lia.
Qed.

(** ** Zero padding *)

Lemma pad0_spec w n :
  0 <= n < 10 ^ Z.of_nat w -> (1 <= w)%nat ->
  all_digits (pad0 w n) = true /\ undec (pad0 w n) = n /\ String.length (pad0 w n) = w.
Proof.
  intros Hn Hw. unfold pad0.
  assert (String.length (dec_nonneg n) <= w)%nat as Hl by (apply dec_nonneg_length; lia).
  split_and!.
  - unfold all_digits. rewrite all_chars_append. rewrite andb_true_iff. split.
    + generalize (w - String.length (dec_nonneg n))%nat as k. induction k as [|k IH]; [done|exact IH].
    + apply all_digits_dec. lia.
  - rewrite undec_append, undec_repeat0, undec_dec by lia. lia.
  - rewrite slength_append, slength_repeat. lia.
Qed.

#[export] Hint Resolve undec_dec all_digits_dec : dec.

(** ** Canonical digit strings *)

Lemma nonzero_first_lower s :
  all_digits s = true -> s <> "" -> first_char s <> Some "0"%char ->
  10 ^ (Z.of_nat (String.length s) - 1) <= undec s.
Proof.
  destruct s as [|c s]; [done|]. unfold all_digits. cbn [all_chars first_char].
  intros [Hc Hs]%andb_prop _ Hz. pose proof (undec_range s Hs).
  pose proof (digit_val_range c Hc).
  assert (digit_val c <> 0).
  { intros H00. apply Hz. by rewrite <- (digit_digit_val c Hc), H00. }
  rewrite undec_cons. cbn [String.length].
  replace (Z.of_nat (S (String.length s)) - 1) with (Z.of_nat (String.length s)) by lia. nia.
Qed.

(** A digit string without a leading zero is the printed form of its value. *)
Lemma dec_nonneg_unique s :
  all_digits s = true -> s <> "" -> first_char s <> Some "0"%char ->
  dec_nonneg (undec s) = s.
Proof.
  intros Hd Hne Hz.
  pose proof (nonzero_first_lower s Hd Hne Hz) as Hlow. pose proof (undec_range s Hd) as Hup.
  assert (0 < String.length s)%nat as Hl by (destruct s; [done|cbn; lia]).
  assert (undec s <> 0) as Hn0.
  { pose proof (Z.pow_pos_nonneg 10 (Z.of_nat (String.length s) - 1)). lia. }
  pose proof (dec_nonneg_spec (undec s) ltac:(lia)) as (Hd' & Hv' & Hne' & Hz' & _).
  specialize (Hz' Hn0).
  apply undec_inj_length; [done..| |done].
  pose proof (nonzero_first_lower _ Hd' Hne' Hz') as Hlow'. rewrite Hv' in Hlow'.
  apply Nat.le_antisymm.
  - apply dec_nonneg_length; lia.
  - destruct (decide (String.length s <= String.length (dec_nonneg (undec s)))%nat) as [|Hgt]; [done|].
    exfalso. pose proof (undec_range _ Hd') as Hup'. rewrite Hv' in Hup'.
    assert (10 ^ Z.of_nat (String.length (dec_nonneg (undec s)))
            <= 10 ^ (Z.of_nat (String.length s) - 1)) by (apply Z.pow_le_mono_r; lia).
    lia.
Qed.
