(* ===== verification/Errors.v ===== *)
(** * Error values

    [internal/common/errors/errors.go] and the part of Go's [errors] package
    the program relies on.  A Go error is a chain linked by [Unwrap];
    [errors.Is] looks for a sentinel along the chain, [errors.As] for the
    first value of a type, [Error()] renders the text. *)
From stdpp Require Import base list strings.
From Stdlib Require Import ZArith Lia Ascii String.
From stdpp Require Import base strings.
From S2P Require Import Prelude Decimal.

(** The sentinel values the code compares with. *)
Inductive sentinel :=
| Canceled            (* context.Canceled *)
| DeadlineExceeded    (* context.DeadlineExceeded *)
| NoRows              (* pgx.ErrNoRows *)
| EOF | UnexpectedEOF (* io *)
| NetClosed           (* net.ErrClosed *)
| ConnReset | ConnRefused (* syscall *)
| NotImplemented.     (* decryption.ErrNotImplemented *)

#[export] Instance sentinel_eq_dec : EqDecision sentinel.
Proof. solve_decision. Defined.

Inductive goerr :=
| ErrSentinel (s : sentinel)
| ErrNew (msg : string)                       (* errors.New, any other opaque error *)
| ErrRPC (code : Z) (msg : string)            (* rpc.Error: has ErrorCode() *)
| ErrHTTP (status : Z) (text : string)        (* rpc.HTTPError *)
| ErrNet (timeout : bool) (op : string) (inner : goerr) (* net.Error around a cause *)
| ConfigError (key msg : string)
| RetryableError (inner : goerr)
| Errorf (prefix : string) (inner : goerr).   (* fmt.Errorf("prefix: %w", inner) *)

#[export] Instance goerr_eq_dec : EqDecision goerr.
Proof. solve_decision. Defined.

Definition Unwrap (e : goerr) : option goerr :=
  match e with
  | ErrNet _ _ i | RetryableError i | Errorf _ i => Some i
  | _ => None
  end.

(** [errors.Is(e, target)] *)
Fixpoint errors_Is (e : goerr) (target : sentinel) : bool :=
  match e with
  | ErrSentinel s => bool_decide (s = target)
  | ErrNet _ _ i | RetryableError i | Errorf _ i => errors_Is i target
  | _ => false
  end.

(** [errors.As(e, *RetryableError)] *)
Fixpoint As_Retryable (e : goerr) : bool :=
  match e with
  | RetryableError _ => true
  | ErrNet _ _ i | Errorf _ i => As_Retryable i
  | _ => false
  end.

(** [errors.As(e, rpc.Error)]: the code of the first error that has one *)
Fixpoint As_RPC (e : goerr) : option Z :=
  match e with
  | ErrRPC code _ => Some code
  | ErrNet _ _ i | RetryableError i | Errorf _ i => As_RPC i
  | _ => None
  end.

(** [errors.As(e, rpc.HTTPError)] *)
Fixpoint As_HTTP (e : goerr) : option Z :=
  match e with
  | ErrHTTP status _ => Some status
  | ErrNet _ _ i | RetryableError i | Errorf _ i => As_HTTP i
  | _ => None
  end.

(** [errors.As(e, net.Error)], with its [Timeout()].  [DeadlineExceeded], the
    errno values and [net.ErrClosed] implement the interface themselves. *)
Fixpoint As_Net (e : goerr) : option bool :=
  match e with
  | ErrNet t _ _ => Some t
  | ErrSentinel DeadlineExceeded => Some true
  | ErrSentinel (NetClosed | ConnReset | ConnRefused) => Some false
  | RetryableError i | Errorf _ i => As_Net i
  | _ => None
  end.

(** [errors.As(e, *ConfigError)]: its key and message *)
Fixpoint As_Config (e : goerr) : option (string * string) :=
  match e with
  | ConfigError key msg => Some (key, msg)
  | ErrNet _ _ i | RetryableError i | Errorf _ i => As_Config i
  | _ => None
  end.

Definition sentinel_text (s : sentinel) : string :=
  match s with
  | Canceled => "context canceled"
  | DeadlineExceeded => "context deadline exceeded"
  | NoRows => "no rows in result set"
  | EOF => "EOF"
  | UnexpectedEOF => "unexpected EOF"
  | NetClosed => "use of closed network connection"
  | ConnReset => "connection reset by peer"
  | ConnRefused => "connection refused"
  | NotImplemented => "eERC Poseidon decryption not yet implemented (awaiting test vectors)"
  end.

(** [e.Error()] *)
Fixpoint Error (e : goerr) : string :=
  match e with
  | ErrSentinel s => sentinel_text s
  | ErrNew msg => msg
  | ErrRPC _ msg => msg
  | ErrHTTP _ text => text
  | ErrNet _ op i => op +:+ ": " +:+ Error i
  | ConfigError key msg => "config error (" +:+ key +:+ "): " +:+ msg
  | RetryableError i => Error i
  | Errorf prefix i => prefix +:+ ": " +:+ Error i
  end.
