(* ===== verification/Effect.v ===== *)
(** * Effects

    The code threads a world (database, metrics, the outside) through calls
    that return a value, return a Go error, or panic.  [M S A] is that: a
    state-passing function with a three-way outcome.  The file also holds the
    small program logic ([hoare], [preserves]) the components' proofs use. *)
From stdpp Require Import base list strings.
From Stdlib Require Import ZArith Lia Ascii String.
From stdpp Require Import base strings.
From S2P Require Import Prelude Errors.

Inductive res (A : Type) :=
| Ok (a : A)
| Err (e : goerr)
| Panic (msg : string).
Arguments Ok {A} a.
Arguments Err {A} e.
Arguments Panic {A} msg.

Definition M (S A : Type) : Type := S -> res A * S.

Definition ret {S A} (a : A) : M S A := fun s => (Ok a, s).
Definition fail {S A} (e : goerr) : M S A := fun s => (Err e, s).
Definition panic {S A} (msg : string) : M S A := fun s => (Panic msg, s).

Definition bind {S A B} (m : M S A) (k : A -> M S B) : M S B := fun s =>
  match m s with
  | (Ok a, s') => k a s'
  | (Err e, s') => (Err e, s')
  | (Panic p, s') => (Panic p, s')
  end.

(** [x, err := m]: the error becomes a value, a panic still unwinds. *)
Definition attempt {S A} (m : M S A) : M S (A + goerr) := fun s =>
  match m s with
  | (Ok a, s') => (Ok (inl a), s')
  | (Err e, s') => (Ok (inr e), s')
  | (Panic p, s') => (Panic p, s')
  end.

(** [if err := m; err != nil { return fmt.Errorf("prefix: %w", err) }] *)
Definition wrapf {S A} (prefix : string) (m : M S A) : M S A := fun s =>
  match m s with
  | (Err e, s') => (Err (Errorf prefix e), s')
  | r => r
  end.

(** A pure state change *)
Definition modify {S} (f : S -> S) : M S unit := fun s => (Ok tt, f s).
Definition gets {S A} (f : S -> A) : M S A := fun s => (Ok (f s), s).

Notation "'let*' x ':=' m 'in' k" := (bind m (fun x => k))
  (at level 10, x name, m at level 200, k at level 200,
   format "'[v' 'let*'  x  ':='  m  'in' '/' k ']'") : go_scope.
Notation "'let*' ' p ':=' m 'in' k" := (bind m (fun x => match x with p => k end))
  (at level 10, p pattern, m at level 200, k at level 200) : go_scope.
Notation "m ';;;' k" := (bind m (fun _ => k))
  (at level 100, k at level 200, right associativity) : go_scope.
#[global] Open Scope go_scope.

(** [defer cleanup()]: runs whatever the outcome *)
Definition deferred {S A} (cleanup : M S unit) (m : M S A) : M S A := fun s =>
  let '(r, s') := m s in
  match cleanup s' with
  | (Panic p, s'') => (Panic p, s'')
  | (_, s'') => (r, s'')
  end.

(** [time.NewTicker(d)] *)
Definition newTicker {S} (d : Z) : M S unit :=
  if i64 d <=? 0 then panic "non-positive interval for NewTicker" else ret tt.

(** [for _, x := range l { acc = f(acc, x) }] *)
Fixpoint foldM {S A B} (f : B -> A -> M S B) (b : B) (l : list A) : M S B :=
  match l with
  | [] => ret b
  | x :: l' => let* b' := f b x in foldM f b' l'
  end.

Lemma bind_ext {S A B} (m : M S A) (k k' : A -> M S B) (s : S) :
  (forall a s', k a s' = k' a s') -> bind m k s = bind m k' s.
Proof. intros Hk. unfold bind. by destruct (m s) as [[] ?]. Qed.

(** ** Program logic *)

(** From a world satisfying [P] the run ends in an outcome satisfying [Q]. *)
Definition hoare {S A} (P : S -> Prop) (m : M S A) (Q : res A -> S -> Prop) : Prop :=
  forall s, P s -> Q (m s).1 (m s).2.

(** [I] holds after the run whatever the outcome. *)
Definition preserves {S A} (I : S -> Prop) (m : M S A) : Prop := hoare I m (fun _ => I).

(** A run that gives a value satisfying [Q], no error; if [killed], it may
    also end in the middle of a call, with the goroutine. *)
Definition outcome {S A} (killed : Prop) (r : res A * S) (Q : A -> S -> Prop) : Prop :=
  match r with
  | (Ok a, s) => Q a s
  | (Err _, _) => False
  | (Panic _, _) => killed
  end.

Lemma outcome_bind {S A B} killed (m : M S A) (k : A -> M S B) s (R : A -> S -> Prop) (Q : B -> S -> Prop) :
  outcome killed (m s) R -> (forall a s', R a s' -> outcome killed (k a s') Q) -> outcome killed (bind m k s) Q.
Proof. unfold bind, outcome at 1. destruct (m s) as [[a|e|p] s']; auto. Qed.

(** Whenever the run gives a value, the value satisfies [Q]: about the values
    only, in any environment. *)
Definition answers {S A} (m : M S A) (Q : A -> Prop) : Prop := forall s a, (m s).1 = Ok a -> Q a.

Section Answers.
Context {S : Type}.

Lemma answers_ret {A} (a : A) (Q : A -> Prop) : Q a -> answers (S:=S) (ret a) Q.
Proof. by intros Hq s a' [= <-]. Qed.
Lemma answers_fail {A} e (Q : A -> Prop) : answers (S:=S) (fail e) Q.
Proof. by intros s a'. Qed.
Lemma answers_True {A} (m : M S A) : answers m (fun _ => True).
Proof. by intros s a. Qed.
Lemma answers_bind {A B} (m : M S A) (k : A -> M S B) (R : A -> Prop) (Q : B -> Prop) :
  answers m R -> (forall a, R a -> answers (k a) Q) -> answers (bind m k) Q.
Proof.
  intros Hm Hk s b. specialize (Hm s). unfold bind.
  destruct (m s) as [[a|e|p] s']; [|done..]. by apply Hk, Hm.
Qed.
Lemma answers_wrapf {A} p (m : M S A) (Q : A -> Prop) : answers m Q -> answers (wrapf p m) Q.
Proof. intros Hm s a. specialize (Hm s a). unfold wrapf. by destruct (m s) as [[] ?]. Qed.
Lemma answers_if {A} (b : bool) (m n : M S A) (Q : A -> Prop) :
  answers m Q -> answers n Q -> answers (if b then m else n) Q.
Proof. by destruct b. Qed.
(** an accumulator's invariant, in a loop *)
Lemma answers_foldM {A B} (f : B -> A -> M S B) (l : list A) (Q : B -> Prop) b :
  (forall b a, a ∈ l -> Q b -> answers (f b a) Q) -> Q b -> answers (foldM f b l) Q.
Proof.
  revert b. induction l as [|a l IH]; intros b Hf Hb; cbn; [by apply answers_ret|].
  eapply answers_bind; [apply Hf; [left|done]|]. intros b' Hb'. apply IH; [|done].
  intros b'' a' Ha'. apply Hf. by right.
Qed.
End Answers.

Section Rules.
Context {S : Type}.
Implicit Types (P I : S -> Prop).

Lemma hoare_weaken {A} P P' (m : M S A) (Q Q' : res A -> S -> Prop) :
  hoare P' m Q' -> (forall s, P s -> P' s) -> (forall r s, Q' r s -> Q r s) ->
  hoare P m Q.
Proof. intros H HP HQ s Hs. apply HQ, H, HP, Hs. Qed.

Lemma hoare_bind {A B} P (m : M S A) (k : A -> M S B)
    (R : res A -> S -> Prop) (Q : res B -> S -> Prop) :
  hoare P m R ->
  (forall a, hoare (R (Ok a)) (k a) Q) ->
  (forall e s, R (Err e) s -> Q (Err e) s) ->
  (forall p s, R (Panic p) s -> Q (Panic p) s) ->
  hoare P (bind m k) Q.
Proof.
  intros Hm Hk He Hp s Hs. specialize (Hm s Hs). unfold bind.
  destruct (m s) as [[a|e|p] s'] eqn:E; cbn in Hm |- *; [by apply Hk|eauto..].
Qed.

Lemma preserves_ret {A} I (a : A) : preserves I (ret a).
Proof. by intros s. Qed.
Lemma preserves_fail {A} I e : preserves I (fail (A:=A) e).
Proof. by intros s. Qed.
Lemma preserves_panic {A} I p : preserves I (panic (A:=A) p).
Proof. by intros s. Qed.
Lemma preserves_gets {A} I (f : S -> A) : preserves I (gets f).
Proof. by intros s. Qed.
Lemma preserves_modify I f : (forall s, I s -> I (f s)) -> preserves I (modify f).
Proof. intros H s Hs. by apply H. Qed.

Lemma preserves_bind {A B} I (m : M S A) (k : A -> M S B) :
  preserves I m -> (forall a, preserves I (k a)) -> preserves I (bind m k).
Proof. intros Hm Hk. eapply hoare_bind; eauto. Qed.

Lemma preserves_attempt {A} I (m : M S A) : preserves I m -> preserves I (attempt m).
Proof. intros H s Hs. specialize (H s Hs). unfold attempt. by destruct (m s) as [[] ?]. Qed.

Lemma preserves_wrapf {A} I p (m : M S A) : preserves I m -> preserves I (wrapf p m).
Proof. intros H s Hs. specialize (H s Hs). unfold wrapf. by destruct (m s) as [[] ?]. Qed.

Lemma preserves_deferred {A} I (c : M S unit) (m : M S A) :
  preserves I c -> preserves I m -> preserves I (deferred c m).
Proof.
  intros Hc Hm s Hs. specialize (Hm s Hs). unfold deferred. destruct (m s) as [r s'].
  specialize (Hc s' Hm). by destruct (c s') as [[] ?].
Qed.

Lemma preserves_newTicker I d : preserves I (newTicker d).
Proof. intros s Hs. unfold newTicker. by destruct (_ <=? _). Qed.

Lemma preserves_foldM {A B} I (f : B -> A -> M S B) l b :
  (forall b a, preserves I (f b a)) -> preserves I (foldM f b l).
Proof.
  intros Hf. revert b. induction l as [|a l IH]; intros b.
  - apply preserves_ret.
  - apply preserves_bind; auto.
Qed.

Lemma preserves_if {A} I (b : bool) (m n : M S A) :
  preserves I m -> preserves I n -> preserves I (if b then m else n).
Proof. by destruct b. Qed.
End Rules.

#[export] Hint Resolve preserves_ret preserves_fail preserves_panic preserves_gets
  preserves_attempt preserves_wrapf preserves_if preserves_deferred preserves_newTicker : eff.

(** [eff] walks through a program applying the preservation rules, case
    splitting on the code's matches, and leaves the calls it does not know. *)
Ltac eff_step :=
  match goal with
  | |- preserves _ (bind _ _) => apply preserves_bind; [|intros]
  | |- preserves _ (foldM _ _ _) => apply preserves_foldM; intros
  | |- preserves _ (if ?b then _ else _) => destruct b
  | |- preserves _ (match ?x with _ => _ end) => destruct x
  | |- preserves _ _ => solve [eauto 3 with eff]
  end.
Ltac eff := repeat eff_step.
