(* ===== verification/Retry.v ===== *)
(** * Retry policy ([internal/common/retry])

    [IsRetryable] classifies errors, [Do] runs a call with exponential
    backoff.  The callback's captured result variable is the value of [Do];
    it keeps its zero value when the callback never runs. *)
From stdpp Require Import base list strings.
From Stdlib Require Import ZArith Lia Ascii String.
From stdpp Require Import base strings.
From S2P Require Import Prelude Errors Effect.

Definition rpcCodeInternalError : Z := -32603.
Definition rpcCodeNotificationsUnsup : Z := -32001.
Definition rpcCodeResponseTooLarge : Z := -32003.
Definition rpcCodeServerErrorMax : Z := -32000.
Definition rpcCodeServerErrorMin : Z := -32099.

Definition httpRetryCodes : list Z := [429; 500; 502; 503; 504].

(** The argument is a non-nil error: the [err == nil] guard of the source is
    the type. *)
Definition IsRetryable (err : goerr) : bool :=
  if errors_Is err Canceled || errors_Is err DeadlineExceeded then false
  else if As_Retryable err then true
  else match As_RPC err with
  | Some code =>
      if code =? rpcCodeInternalError then true
      else if (code =? rpcCodeNotificationsUnsup) || (code =? rpcCodeResponseTooLarge) then false
      else (code <=? rpcCodeServerErrorMax) && (rpcCodeServerErrorMin <=? code)
  | None =>
    match As_HTTP err with
    | Some status => bool_decide (status ∈ httpRetryCodes)
    | None =>
      if match As_Net err with Some timeout => timeout | None => false end then true
      else errors_Is err EOF || errors_Is err UnexpectedEOF || errors_Is err NetClosed
           || errors_Is err ConnReset || errors_Is err ConnRefused
    end
  end.

Record Options := { MaxRetries : Z; BaseDelay : Z (* ns *) }.

(** [select { case <-ctx.Done(): return ctx.Err(); case <-time.After(d): }] *)
Class Clock (S : Type) := { wait : Z -> M S unit }.

(** [opt.BaseDelay << attempt], an [int64] shift *)
Definition backoff (opt : Options) (attempt : Z) : Z := i64 (Z.shiftl (BaseDelay opt) attempt).

Section Do.
Context {S : Type} `{Clock S} {A : Type}.

(** The loop body from attempt number [attempt], with [left] attempts after it. *)
Fixpoint do_from (opt : Options) (fn : M S A) (left : nat) (attempt_ : Z) : M S A :=
  let* r := attempt fn in
  match r with
  | inl a => ret a
  | inr err =>
      if negb (IsRetryable err) then fail err
      else match left with
           | O => fail err
           | Datatypes.S left' =>
               wait (backoff opt attempt_) ;;; do_from opt fn left' (attempt_ + 1)
           end
  end.

Definition Do (opt : Options) (zero : A) (fn : M S A) : M S A :=
  if MaxRetries opt <? 0 then ret zero
  else do_from opt fn (Z.to_nat (MaxRetries opt)) 0.
End Do.

(** the value of [Do] is one the callback gave, or the zero value *)
Lemma answers_Do {S A} `{Clock S} (Q : A -> Prop) opt zero (fn : M S A) :
  answers fn Q -> Q zero -> answers (Do opt zero fn) Q.
Proof.
  intros Hfn Hz. unfold Do. apply answers_if; [by apply answers_ret|].
  generalize 0 as i. induction (Z.to_nat (MaxRetries opt)) as [|left IH]; intros i s a; specialize (Hfn s);
    cbn; unfold bind, attempt; destruct (fn s) as [[a'|e|p] s']; cbn; try done; try (by apply Hfn);
    destruct (IsRetryable e); cbn; try done.
  destruct (wait _ s') as [[[]|e'|p] s'']; [|done..]. apply IH.
Qed.

(** ** Classification *)

Lemma IsRetryable_ctx err :
  errors_Is err Canceled = true \/ errors_Is err DeadlineExceeded = true ->
  IsRetryable err = false.
Proof. unfold IsRetryable. intros [-> | ->]; [done|]. by rewrite orb_true_r. Qed.

(** ** Backoff *)

Lemma backoff_exact opt i :
  0 <= i -> 0 <= BaseDelay opt -> BaseDelay opt * 2 ^ i < two63 ->
  backoff opt i = BaseDelay opt * 2 ^ i.
Proof.
  intros Hi Hb Ho. unfold backoff. rewrite Z.shiftl_mul_pow2 by done.
  apply i64_small. unfold is_i64, two63 in *.
  pose proof (Z.pow_nonneg 2 i). nia.
Qed.

(** ** Attempts

    The world extended with a log of the calls of the callback, of the errors
    they returned (in order) and of the requested waits. *)
Record rlog := { calls : nat; errs : list goerr; delays : list Z }.
Definition rlog0 : rlog := {| calls := 0; errs := []; delays := [] |}.

Definition err_of {A} (r : res A) : list goerr :=
  match r with Err e => [e] | _ => [] end.

Lemma fmap_seqZ_one {B} (f : Z -> B) i : [f i] = f <$> seqZ i (Z.of_nat 1).
Proof. by rewrite seqZ_cons. Qed.

Section Attempts.
Context {S : Type} `{Clock S} {A : Type}.

Definition counted (fn : M S A) : M (S * rlog) A := fun '(s, l) =>
  let '(r, s') := fn s in
  (r, (s', {| calls := Datatypes.S (calls l); errs := errs l ++ err_of r; delays := delays l |})).

#[export] Instance logged_clock : Clock (S * rlog) := {| wait d := fun '(s, l) =>
  let '(r, s') := wait d s in (r, (s', {| calls := calls l; errs := errs l; delays := delays l ++ [d] |})) |}.

(** What a run of the loop does to the log, [left] attempts being left: the
    first [length ds] calls failed with retryable errors, each followed by a
    wait; then either one more call ended the run, or the last wait did. *)
Definition ended (left n w : nat) (es : list goerr) (r : res A) : Prop :=
  match r with
  | Ok _ => n = Datatypes.S w /\ length es = w
  | Err e =>
      (n = Datatypes.S w /\ (exists es', es = es' ++ [e] /\ length es' = w) /\
       (IsRetryable e = false \/ n = Datatypes.S left)) \/
      (n = w /\ length es = w /\ exists d (s : S), (wait d s).1 = Err e)
  | Panic _ => n = Datatypes.S w \/ n = w
  end.

Definition attempts_ok (opt : Options) (left : nat) (i : Z) (l : rlog)
    (r : res A) (l' : rlog) : Prop :=
  exists n es ds,
    calls l' = (calls l + n)%nat /\ errs l' = errs l ++ es /\ delays l' = delays l ++ ds /\
    ds = backoff opt <$> seqZ i (Z.of_nat (length ds)) /\
    (1 <= n <= Datatypes.S left)%nat /\ (length ds <= left)%nat /\
    Forall (fun e => IsRetryable e = true) (take (length ds) es) /\
    ended left n (length ds) es r.

(** one more failed attempt and its wait in front of a run *)
Lemma ended_cons left n w es r e :
  ended left n w es r -> ended (Datatypes.S left) (Datatypes.S n) (Datatypes.S w) (e :: es) r.
Proof.
  destruct r as [a|e'|p]; cbn; [lia| |lia].
  intros [(-> & (es' & -> & <-) & He)|(-> & Hl & Hw)]; [left|right; split_and!; auto].
  split; [done|]. split; [by exists (e :: es')|]. destruct He; [by left|right; lia].
Qed.

Lemma do_from_attempts opt fn left : forall i s l,
  let '(r, (s', l')) := do_from opt (counted fn) left i (s, l) in
  attempts_ok opt left i l r l'.
Proof.
  assert (forall s l, counted fn (s, l) = let '(r, s') := fn s in
    (r, (s', {| calls := Datatypes.S (calls l); errs := errs l ++ err_of r;
                delays := delays l |}))) as Hfn by done.
  revert Hfn. generalize (counted fn) as g. intros g Hg.
  assert (forall left i l r, (forall e, r = Err e -> IsRetryable e = false \/ left = 0%nat) ->
    attempts_ok opt left i l r {| calls := Datatypes.S (calls l);
      errs := errs l ++ err_of r; delays := delays l |}) as Hone.
  { intros k i l r Hr. exists 1%nat, (err_of r), []. cbn. rewrite app_nil_r.
    split_and!; auto; try lia. destruct r as [a|e|p]; cbn; [done| |by left].
    left. split; [done|]. split; [by exists []|]. destruct (Hr e eq_refl); auto. }
  induction left as [|left IH]; intros i s l; cbn [do_from];
    unfold bind, attempt; rewrite Hg; destruct (fn s) as [[a|e|p] s1]; cbn.
  1,4: by apply (Hone _ _ _ (Ok a)).
  2,4: by apply (Hone _ _ _ (Panic p)).
  - destruct (IsRetryable e); apply (Hone 0%nat _ _ (Err e)); auto.
  - destruct (IsRetryable e) eqn:He; cbn; [|apply (Hone (Datatypes.S left) _ _ (Err e)); naive_solver].
    destruct (wait (backoff opt i) s1) as [[[]|e'|p] s2] eqn:Ew; cbn.
    2,3: exists 1%nat, [e], [backoff opt i]; cbn [length];
      split_and!; auto using fmap_seqZ_one; cbn; try lia;
      try (by repeat constructor).
    + specialize (IH (i + 1) s2 {| calls := Datatypes.S (calls l); errs := errs l ++ [e];
        delays := delays l ++ [backoff opt i] |}).
      destruct (do_from opt g left (i + 1) _) as [r [s' l']].
      destruct IH as (n & es & ds & Hc & Hes & Hd & Hds & Hn & Hl & Hall & Hr).
      cbn in Hc, Hes, Hd.
      exists (Datatypes.S n), (e :: es), (backoff opt i :: ds). cbn [length take].
      split_and!; [lia| | | |lia|lia|lia|by constructor|by apply ended_cons].
      * by rewrite Hes, <- app_assoc.
      * by rewrite Hd, <- app_assoc.
      * rewrite Nat2Z.inj_succ, seqZ_cons by lia. cbn. f_equal.
        rewrite Z.pred_succ. rewrite Z.add_1_r in Hds. exact Hds.
    + right. split_and!; auto. exists (backoff opt i), s1. by rewrite Ew.
Qed.
End Attempts.

Section Properties.
Context {S : Type} `{Clock S} {A : Type}.

(** C35. [Do] retries retryable failures only, a bounded number of times.
    For a non-negative [MaxRetries] and [BaseDelay] whose largest shift stays
    below [2^63], the callback is run at least once and at most [MaxRetries + 1]
    times; the waits are [BaseDelay * 2^i], each one following a call that
    failed with a retryable error.  On success there was one wait per failed
    call.  When [Do] returns an error, either it is the error of the last call,
    which was not retryable or was the last of [MaxRetries + 1] calls, or it
    is the error with which the context ended a wait. *)
Theorem Do_bounded_backoff (opt : Options) (zero : A) (fn : M S A) (s : S) :
  0 <= MaxRetries opt -> 0 <= BaseDelay opt ->
  BaseDelay opt * 2 ^ MaxRetries opt < two63 ->
  let '(r, (_, log)) := Do opt zero (counted fn) (s, rlog0) in
  let n := length (delays log) in
  1 <= Z.of_nat (calls log) <= MaxRetries opt + 1 /\
  Z.of_nat n <= MaxRetries opt /\
  delays log = (fun i => BaseDelay opt * 2 ^ i) <$> seqZ 0 (Z.of_nat n) /\
  Forall (fun e => IsRetryable e = true) (take n (errs log)) /\
  match r with
  | Ok _ => calls log = Datatypes.S n /\ length (errs log) = n
  | Err e =>
      (calls log = Datatypes.S n /\
       (exists es, errs log = es ++ [e] /\ length es = n) /\
       (IsRetryable e = false \/ Z.of_nat (calls log) = MaxRetries opt + 1)) \/
      (calls log = n /\ length (errs log) = n /\
       exists d (s' : S), (wait d s').1 = Err e)
  | Panic _ => calls log = Datatypes.S n \/ calls log = n
  end.
Proof.
  intros Hm Hb Ho. unfold Do.
  replace (MaxRetries opt <? 0) with false by (symmetry; apply Z.ltb_ge; lia).
  pose proof (do_from_attempts opt fn (Z.to_nat (MaxRetries opt)) 0 s rlog0) as Hd.
  destruct (do_from _ _ _ _ _) as [r [s' log]].
  destruct Hd as (n & es & ds & Hc & Hes & Hds & Heq & Hn & Hl & Hall & Hr). cbn in Hc, Hes, Hds.
  rewrite Hds, Hc, Hes. split_and!; try lia; [|done|].
  - rewrite Heq at 1. apply list_fmap_ext. intros j x [-> Hj]%lookup_seqZ.
    apply backoff_exact; [lia..|]. eapply Z.le_lt_trans; [|exact Ho].
    apply Z.mul_le_mono_nonneg_l; [done|]. apply Z.pow_le_mono_r; lia.
  - destruct r as [a|e|p]; cbn in Hr; [done| |done].
    destruct Hr as [(-> & He & Hr)|?]; [left|by right].
    split_and!; [done..|]. destruct Hr; [by left|right; lia].
Qed.

(** A callback that fails [k] times with retryable errors, the context
    staying alive through the waits, and then succeeds. *)
Fixpoint flaky (opt : Options) (fn : M S A) (k : nat) (i : Z) (s : S) (a : A) (s' : S) : Prop :=
  match k with
  | O => fn s = (Ok a, s')
  | Datatypes.S k' => exists e s1 s2,
      fn s = (Err e, s1) /\ IsRetryable e = true /\
      wait (backoff opt i) s1 = (Ok tt, s2) /\ flaky opt fn k' (i + 1) s2 a s'
  end.

Lemma do_from_flaky opt fn k : forall left i s a s',
  (k <= left)%nat -> flaky opt fn k i s a s' -> do_from opt fn left i s = (Ok a, s').
Proof.
  induction k as [|k IH]; intros left i s a s' Hle Hf.
  - cbn in Hf. destruct left; cbn; unfold bind, attempt; by rewrite Hf.
  - destruct Hf as (e & s1 & s2 & Hfn & He & Hw & Hf).
    destruct left as [|left]; [lia|].
    cbn. unfold bind, attempt. rewrite Hfn, He. cbn. rewrite Hw. apply IH; [lia|done].
Qed.

(** Transient failures are absorbed: a call that succeeds after at most
    [MaxRetries] retryable failures makes [Do] succeed with its value. *)
Theorem Do_absorbs_transient (opt : Options) (zero : A) (fn : M S A) (k : nat) (s s' : S) (a : A) :
  Z.of_nat k <= MaxRetries opt -> flaky opt fn k 0 s a s' ->
  Do opt zero fn s = (Ok a, s').
Proof.
  intros Hk Hf. unfold Do.
  replace (MaxRetries opt <? 0) with false by (symmetry; apply Z.ltb_ge; lia).
  eapply do_from_flaky; [|done]. lia.
Qed.

(** With a negative [RPC_MAX_RETRIES] the callback is never run and
    [Do] reports success with the zero value. *)
Theorem Do_negative_is_noop (opt : Options) (zero : A) (fn : M S A) (s : S) :
  MaxRetries opt < 0 -> Do opt zero fn s = (Ok zero, s).
Proof. intros H0. unfold Do. by rewrite (proj2 (Z.ltb_lt _ _) H0). Qed.

Lemma Do_first_try (opt : Options) (zero : A) (fn : M S A) (s s' : S) (a : A) :
  0 <= MaxRetries opt -> fn s = (Ok a, s') -> Do opt zero fn s = (Ok a, s').
Proof.
  intros Hm Hf. unfold Do. rewrite (proj2 (Z.ltb_ge _ _) Hm).
  by apply (do_from_flaky opt fn 0); [lia|].
Qed.

(** a callback that always answers is called once *)
Lemma outcome_Do killed (opt : Options) (zero : A) (fn : M S A) (s : S) (Q : A -> S -> Prop) :
  0 <= MaxRetries opt -> outcome killed (fn s) Q -> outcome killed (Do opt zero fn s) Q.
Proof.
  intros Hm Hf. unfold Do. rewrite (proj2 (Z.ltb_ge _ _) Hm).
  destruct (Z.to_nat _); cbn; unfold bind, attempt; by destruct (fn s) as [[a|e|p] s'].
Qed.

Lemma preserves_Do (I : S -> Prop) opt zero (fn : M S A) :
  preserves I fn -> (forall d, preserves I (wait d)) -> preserves I (Do opt zero fn).
Proof.
  intros Hfn Hw. unfold Do. destruct (_ <? _); [apply preserves_ret|].
  generalize 0 as i. induction (Z.to_nat (MaxRetries opt)) as [|left IH]; intros i; cbn; eff.
Qed.

(** The value returned by [Do] is a value the callback returned, or the
    zero value of a [Do] that never ran it. *)
Lemma hoare_Do (I : S -> Prop) (Q : A -> Prop) opt zero (fn : M S A) :
  0 <= MaxRetries opt ->
  hoare I fn (fun r s => I s /\ forall a, r = Ok a -> Q a) ->
  (forall d, preserves I (wait d)) ->
  hoare I (Do opt zero fn) (fun r s => I s /\ forall a, r = Ok a -> Q a).
Proof.
  intros Hm Hfn Hw. unfold Do.
  replace (MaxRetries opt <? 0) with false by (symmetry; apply Z.ltb_ge; lia).
  generalize 0 as i. induction (Z.to_nat (MaxRetries opt)) as [|left IH]; intros i s Hs;
    specialize (Hfn s Hs); cbn; unfold bind, attempt;
    destruct (fn s) as [[a|e|p] s1]; cbn in Hfn |- *; destruct Hfn as [Hs1 Hq];
    try (destruct (IsRetryable e)); cbn; try naive_solver.
  specialize (Hw (backoff opt i) s1 Hs1).
  destruct (wait _ s1) as [[[]|e'|p] s2]; cbn in Hw |- *; [by apply IH|naive_solver..].
Qed.
End Properties.

(** ** Witnesses: three transient failures, then success, five retries allowed. *)
Module RetryWitness.
(* the world is the number of calls made so far; waits never end early *)
#[export] Instance clk : Clock nat := {| wait _ := ret tt |}.
Definition fn3 : M nat Z := fun n =>
  if decide (n < 3)%nat then (Err (ErrHTTP 503 "503"), Datatypes.S n) else (Ok 7, Datatypes.S n).
Definition opt5 : Options := {| MaxRetries := 5; BaseDelay := 1000000000 |}.

(* two transient failures, then one that is not retryable *)
Definition fn_bad : M nat Z := fun n =>
  if decide (n < 2)%nat then (Err (ErrHTTP 503 "503"), Datatypes.S n)
  else (Err (ErrHTTP 404 "404"), Datatypes.S n).

Lemma Do_bounded_backoff_witness :
  (let '(r, (_, log)) := Do opt5 0 (counted fn3) (0%nat, rlog0) in
   r = Ok 7 /\ delays log = [1000000000; 2000000000; 4000000000] /\ calls log = 4%nat /\
   1 <= Z.of_nat (calls log) <= 6) /\
  (let '(r, (_, log)) := Do opt5 0 (counted fn_bad) (0%nat, rlog0) in
   r = Err (ErrHTTP 404 "404") /\ calls log = 3%nat /\ length (delays log) = 2%nat /\
   exists es, errs log = es ++ [ErrHTTP 404 "404"] /\ length es = 2%nat).
Proof.
  pose proof (Do_bounded_backoff opt5 0 fn3 0%nat ltac:(vm_compute; congruence)
    ltac:(vm_compute; congruence) ltac:(vm_compute; congruence)) as H.
  pose proof (Do_bounded_backoff opt5 0 fn_bad 0%nat ltac:(vm_compute; congruence)
    ltac:(vm_compute; congruence) ltac:(vm_compute; congruence)) as H'.
  vm_compute in H, H' |- *. split; [split_and!; tauto || lia|].
  destruct H' as (_ & _ & _ & _ & [(? & ? & _)|(? & _)]); [|discriminate].
  split_and!; done.
Defined.

Lemma Do_absorbs_transient_witness : Do opt5 0 fn3 0%nat = (Ok 7, 4%nat).
Proof.
  apply (Do_absorbs_transient opt5 0 fn3 3 0%nat 4%nat 7); [vm_compute; congruence|].
  cbn. repeat (do 3 eexists; split_and!; [reflexivity..|]). reflexivity.
Defined.

Lemma Do_negative_is_noop_witness :
  Do {| MaxRetries := -1; BaseDelay := 1 |} 0 fn3 5%nat = (Ok 0, 5%nat).
Proof. apply Do_negative_is_noop. reflexivity. Defined.
End RetryWitness.
