(* ===== verification/Time.v ===== *)
(** * Time text

    What the program uses of Go's [time]: [time.Unix(t, 0).UTC().Format(
    time.RFC3339)] (the scanners stamp blocks with it), [time.Parse(
    time.RFC3339Nano, s)] and the [20060102150405] layout in KST
    ([internal/model/deposit.go]).  Dates are proleptic Gregorian. *)
From stdpp Require Import base list strings.
From Stdlib Require Import ZArith Lia Ascii String.
From stdpp Require Import base strings.
From S2P Require Import Prelude Decimal.

(** A [time.Time]: seconds since 1970-01-01T00:00:00Z and nanoseconds. *)
Record instant := { sec : Z; nsec : Z }.

(** ** Calendar *)

Definition isLeap (y : Z) : bool :=
  (y mod 4 =? 0) && (negb (y mod 100 =? 0) || (y mod 400 =? 0)).

(** days before month [m] of a non-leap year, [m] from 1; entry 13 is the year's length *)
Definition daysBefore (m : Z) : Z :=
  nth (Z.to_nat m) [0; 0; 31; 59; 90; 120; 151; 181; 212; 243; 273; 304; 334; 365] 0.

Definition daysBeforeMonth (leap : bool) (m : Z) : Z :=
  daysBefore m + (if leap && (2 <? m) then 1 else 0).

Definition daysIn (m y : Z) : Z :=
  if (m =? 2) && isLeap y then 29 else daysBefore (m + 1) - daysBefore m.

(** days from 0001-01-01 to the first of January of [y] *)
Definition daysBeforeYear (y : Z) : Z :=
  let p := y - 1 in 365 * p + p / 4 - p / 100 + p / 400.

(** 1970-01-01 is day 719162 *)
Definition epochDay : Z := 719162.

(** (year, day of the year) of day [d] since 0001-01-01: 400-, 100-, 4- and
    1-year cycles; the last century of a cycle and the last year of a
    four-year group absorb the extra day. *)
Definition yearOfDay (d : Z) : Z * Z :=
  let n400 := d / 146097 in
  let r := d mod 146097 in
  let n100 := Z.min 3 (r / 36524) in
  let r := r - 36524 * n100 in
  let n4 := r / 1461 in
  let r := r - 1461 * n4 in
  let n1 := Z.min 3 (r / 365) in
  (1 + 400 * n400 + 100 * n100 + 4 * n4 + n1, r - 365 * n1).

(** (month, day) of a day of the year *)
Definition monthOfDay (leap : bool) (yday : Z) : Z * Z :=
  if leap && (yday =? 59) then (2, 29)
  else
    let day := if leap && (59 <? yday) then yday - 1 else yday in
    let m := day / 31 + 1 in
    let m := if daysBefore (m + 1) <=? day then m + 1 else m in
    (m, day - daysBefore m + 1).

Record civil := { year : Z; month : Z; day : Z; hour : Z; minute : Z; second : Z }.

Definition civilOf (t : Z) : civil :=
  let d := t / 86400 + epochDay in
  let s := t mod 86400 in
  let '(y, yd) := yearOfDay d in
  let '(m, dd) := monthOfDay (isLeap y) yd in
  {| year := y; month := m; day := dd;
     hour := s / 3600; minute := s / 60 mod 60; second := s mod 60 |}.

(** [time.Date(y, m, d, hh, mm, ss, 0, time.UTC).Unix()] for fields in range *)
Definition unixOf (c : civil) : Z :=
  (daysBeforeYear (year c) + daysBeforeMonth (isLeap (year c)) (month c) + day c - 1 - epochDay)
    * 86400 + hour c * 3600 + minute c * 60 + second c.

(** ** Formatting *)

(** Go's [appendInt(x, width)] *)
Definition appendInt (x : Z) (w : nat) : string :=
  if x <? 0 then String "-" (pad0 w (- x)) else pad0 w x.

(** [time.Unix(t, 0).UTC().Format(time.RFC3339)] *)
Definition formatRFC3339 (t : Z) : string :=
  let c := civilOf t in
  appendInt (year c) 4 +:+ String "-" (pad0 2 (month c) +:+ String "-" (pad0 2 (day c) +:+
  String "T" (pad0 2 (hour c) +:+ String ":" (pad0 2 (minute c) +:+ String ":" (pad0 2 (second c) +:+
  "Z"))))).

(** ** Parsing the layout [2006-01-02T15:04:05.999999999Z07:00] *)

(** exactly [k] digits *)
Definition digits (k : nat) (s : string) : option (Z * string) :=
  let p := stake k s in
  if (String.length p =? k)%nat && all_digits p then Some (undec p, sdrop k s) else None.

(** [getnum(s, fixed = false)]: two digits, or one *)
Definition getnum (s : string) : option (Z * string) :=
  match digits 2 s with Some r => Some r | None => digits 1 s end.

(** the literal byte [c] of the layout *)
Definition skip (c : ascii) (s : string) : option string :=
  match s with String c' s' => if Ascii.eqb c' c then Some s' else None | _ => None end.

Definition commaOrPeriod (c : ascii) : bool := Ascii.eqb c "." || Ascii.eqb c ",".

(** the leading run of digits *)
Fixpoint spanDigits (s : string) : string :=
  match s with
  | String c s' => if is_digit c then String c (spanDigits s') else ""
  | EmptyString => ""
  end.

(** [parseNanoseconds]: at most nine digits count *)
Definition nanosOf (ds : string) : Z :=
  let ds := stake 9 ds in undec ds * 10 ^ (9 - Z.of_nat (String.length ds)).

(** optional fraction *)
Definition parseFrac (s : string) : Z * string :=
  match s with
  | String c ((String d _) as s') =>
      if commaOrPeriod c && is_digit d
      then let ds := spanDigits s' in (nanosOf ds, sdrop (String.length ds) s')
      else (0, s)
  | _ => (0, s)
  end.

(** [Z] or [±hh:mm], and nothing after it; the offset in seconds *)
Definition parseZone (s : string) : option Z :=
  match s with
  | String c rest =>
      if Ascii.eqb c "Z" then (if decide (rest = "") then Some 0 else None)
      else
        '(hh, rest) ← digits 2 rest;
        rest ← skip ":" rest;
        '(mm, rest) ← digits 2 rest;
        if negb (bool_decide (rest = "")) then None
        else if (24 <? hh) || (60 <? mm) then None
        else let off := (hh * 60 + mm) * 60 in
             if Ascii.eqb c "+" then Some off
             else if Ascii.eqb c "-" then Some (- off) else None
  | EmptyString => None
  end.

(** [time.Parse(time.RFC3339Nano, s)]; [None] is the error *)
Definition parseRFC3339Nano (s : string) : option instant :=
  '(y, s) ← digits 4 s;
  s ← skip "-" s;
  '(mo, s) ← digits 2 s;
  s ← skip "-" s;
  '(d, s) ← digits 2 s;
  s ← skip "T" s;
  '(hh, s) ← getnum s;
  s ← skip ":" s;
  '(mi, s) ← digits 2 s;
  s ← skip ":" s;
  '(ss, s) ← digits 2 s;
  let '(ns, s) := parseFrac s in
  off ← parseZone s;
  if (1 <=? mo) && (mo <=? 12) && (hh <? 24) && (mi <? 60) && (ss <? 60)
     && (1 <=? d) && (d <=? daysIn mo y)
  then Some {| sec := unixOf {| year := y; month := mo; day := d; hour := hh; minute := mi;
                               second := ss |} - off; nsec := ns |}
  else None.

(** ** KST *)
Definition kstOffset : Z := 9 * 60 * 60.

(** layout [20060102150405] *)
Definition format14 (c : civil) : string :=
  appendInt (year c) 4 +:+ pad0 2 (month c) +:+ pad0 2 (day c) +:+
  pad0 2 (hour c) +:+ pad0 2 (minute c) +:+ pad0 2 (second c).

(** ** Calendar round trip *)

(** days before a year of the 400-year cycle, and the year's residues *)
Lemma cycle_year a b c e (y := 1 + 400 * a + 100 * b + 4 * c + e) :
  0 <= b <= 3 -> 0 <= c <= 24 -> 0 <= e <= 3 ->
  daysBeforeYear y = 146097 * a + 36524 * b + 1461 * c + 365 * e /\
  y mod 4 = (1 + e) mod 4 /\ y mod 100 = (1 + 4 * c + e) mod 100 /\ y mod 400 = (1 + 100 * b + 4 * c + e) mod 400.
Proof.
  intros Hb Hc He. subst y. split_and!.
  - unfold daysBeforeYear. replace (_ - 1) with (400 * a + 100 * b + 4 * c + e) by lia.
    replace ((400 * a + 100 * b + 4 * c + e) / 4) with (100 * a + 25 * b + c)
      by (apply Z.div_unique with e; lia).
    replace ((400 * a + 100 * b + 4 * c + e) / 100) with (4 * a + b)
      by (apply Z.div_unique with (4 * c + e); lia).
    replace ((400 * a + 100 * b + 4 * c + e) / 400) with a
      by (apply Z.div_unique with (100 * b + 4 * c + e); lia).
    lia.
  - replace (_ + e) with (1 + e + (100 * a + 25 * b + c) * 4) at 1 by lia. apply Z.mod_add. lia.
  - replace (_ + e) with (1 + 4 * c + e + (4 * a + b) * 100) at 1 by lia. apply Z.mod_add. lia.
  - replace (_ + e) with (1 + 100 * b + 4 * c + e + a * 400) at 1 by lia. apply Z.mod_add. lia.
Qed.

Lemma yearOfDay_spec d :
  let '(y, yd) := yearOfDay d in
  daysBeforeYear y + yd = d /\ 0 <= yd < (if isLeap y then 366 else 365).
Proof.
  unfold yearOfDay.
  assert (0 <= d mod 146097 < 146097) as Hr by (apply Z.mod_pos_bound; lia).
  pose proof (Z.div_mod d 146097 ltac:(lia)) as Hd.
  set (a := d / 146097) in *. set (r := d mod 146097) in *.
  set (b := Z.min 3 (r / 36524)).
  assert (0 <= b <= 3 /\ 0 <= r - 36524 * b /\ r - 36524 * b <= 36524 /\
    (r - 36524 * b = 36524 -> b = 3)) as (Hb & Hr1 & Hr1' & Hb3)
    by (subst b; Z.div_mod_to_equations; lia).
  set (r1 := r - 36524 * b) in *. set (c := r1 / 1461).
  assert (0 <= c <= 24 /\ 0 <= r1 - 1461 * c < 1461 /\ (c = 24 -> r1 - 1461 * c <= 1460) /\
    (c = 24 -> r1 - 1461 * c = 1460 -> b = 3)) as (Hc & Hr2 & Hc24 & Hc24')
    by (subst c; Z.div_mod_to_equations; lia).
  set (r2 := r1 - 1461 * c) in *. set (e := Z.min 3 (r2 / 365)).
  assert (0 <= e <= 3 /\ 0 <= r2 - 365 * e <= 365 /\ (r2 - 365 * e = 365 -> e = 3 /\ r2 = 1460))
    as (He & Hyd & Hyd') by (subst e; Z.div_mod_to_equations; lia).
  destruct (cycle_year a b c e Hb Hc He) as (Hdays & Hm4 & Hm100 & Hm400).
  split; [rewrite Hdays; subst r2 r1; lia|].
  split; [lia|]. unfold isLeap. rewrite Hm4, Hm100, Hm400.
  destruct (decide (r2 - 365 * e = 365)) as [Hlast|Hne].
  - destruct (Hyd' Hlast) as [-> Hr2']. cbn [Z.add]. change ((1 + 3) mod 4 =? 0) with true.
    cbn [andb].
    destruct (decide (c = 24)) as [->|Hc'].
    + rewrite (Hc24' eq_refl Hr2'). change (negb _ || _) with true. lia.
    + rewrite (Z.mod_small (1 + 4 * c + 3)) by lia.
      replace (1 + 4 * c + 3 =? 0) with false by lia. cbn. lia.
  - destruct (_ && _); lia.
Qed.

(** Both year shapes, day by day. *)
Lemma monthOfDay_table :
  forallb (fun leap : bool =>
    forallb (fun yd =>
      let '(m, d) := monthOfDay leap yd in
      (daysBeforeMonth leap m + d - 1 =? yd) && (1 <=? m) && (m <=? 12) && (1 <=? d) &&
      (d <=? if (m =? 2) && leap then 29 else daysBefore (m + 1) - daysBefore m))
    (seqZ 0 (if leap then 366 else 365))) [true; false] = true.
Proof. vm_compute. reflexivity. Qed.

Lemma monthOfDay_spec leap yd :
  0 <= yd < (if leap : bool then 366 else 365) ->
  let '(m, d) := monthOfDay leap yd in
  daysBeforeMonth leap m + d - 1 = yd /\ 1 <= m <= 12 /\ 1 <= d /\
  d <= if (m =? 2) && leap then 29 else daysBefore (m + 1) - daysBefore m.
Proof.
  intros Hyd. pose proof monthOfDay_table as H. rewrite forallb_forall in H.
  specialize (H leap). rewrite forallb_forall in H.
  specialize (H ltac:(destruct leap; cbn; auto) yd). rewrite <- list_elem_of_In, elem_of_seqZ in H.
  specialize (H ltac:(lia)). destruct (monthOfDay leap yd) as [m d]. lia.
Qed.

Lemma civilOf_spec t :
  let c := civilOf t in
  unixOf c = t /\ 1 <= month c <= 12 /\ 1 <= day c <= daysIn (month c) (year c) /\
  0 <= hour c < 24 /\ 0 <= minute c < 60 /\ 0 <= second c < 60.
Proof.
  unfold civilOf. pose proof (yearOfDay_spec (t / 86400 + epochDay)) as Hy.
  destruct (yearOfDay _) as [y yd]. destruct Hy as [Hy Hyd].
  pose proof (monthOfDay_spec (isLeap y) yd Hyd) as Hm.
  destruct (monthOfDay _ _) as [m d]. destruct Hm as (Hmd & Hm & Hd & Hd').
  unfold unixOf, daysIn. cbn [year month day hour minute second].
  split_and!; try lia; try exact Hd'; Z.div_mod_to_equations; lia.
Qed.

(** year of an instant in the four-digit range *)
Definition minRFC3339 : Z := -62167219200.  (* 0000-01-01T00:00:00Z *)
Definition maxRFC3339 : Z := 253402300800.  (* 10000-01-01T00:00:00Z *)

Lemma daysBeforeYear_mono y y' : y <= y' -> daysBeforeYear y <= daysBeforeYear y'.
Proof. unfold daysBeforeYear. intros. Z.div_mod_to_equations. lia. Qed.

Lemma civilOf_year_range t :
  minRFC3339 <= t < maxRFC3339 -> 0 <= year (civilOf t) < 10000.
Proof.
  intros Ht. unfold civilOf. pose proof (yearOfDay_spec (t / 86400 + epochDay)) as Hy.
  destruct (yearOfDay _) as [y yd]. destruct Hy as [Hy Hyd].
  destruct (monthOfDay _ _) as [m d]. cbn.
  assert (-366 <= daysBeforeYear y + yd < 3652059) as Hr.
  { rewrite Hy. unfold minRFC3339, maxRFC3339, epochDay in *. Z.div_mod_to_equations. lia. }
  assert (0 <= yd <= 365) as Hyd' by (destruct (isLeap y); lia).
  split.
  - destruct (decide (0 <= y)) as [|Hneg]; [done|]. exfalso.
    pose proof (daysBeforeYear_mono y (-1) ltac:(lia)) as Hm.
    change (daysBeforeYear (-1)) with (-731) in Hm. destruct (isLeap y) eqn:E; try lia.
    assert (y <> -1) by (intros ->; done).
    pose proof (daysBeforeYear_mono y (-2) ltac:(lia)) as Hm'.
    change (daysBeforeYear (-2)) with (-1096) in Hm'. lia.
  - destruct (decide (y < 10000)) as [|Hbig]; [done|]. exfalso.
    pose proof (daysBeforeYear_mono 10000 y ltac:(lia)) as Hm.
    change (daysBeforeYear 10000) with 3652059 in Hm. lia.
Qed.

(** ** Text round trip *)

Lemma digits_pad0 w n rest :
  0 <= n < 10 ^ Z.of_nat w -> (1 <= w)%nat -> digits w (pad0 w n +:+ rest) = Some (n, rest).
Proof.
  intros Hn Hw. destruct (pad0_spec w n Hn Hw) as (Hd & Hv & Hl).
  revert Hd Hv Hl. generalize (pad0 w n) as p. intros p Hd Hv <-.
  unfold digits. by rewrite stake_append, sdrop_append, Nat.eqb_refl, Hd, Hv.
Qed.

Lemma skip_char c s : skip c (String c s) = Some s.
Proof. unfold skip. by rewrite Ascii.eqb_refl. Qed.

Lemma digits2_pad0 n rest : 0 <= n < 100 -> digits 2 (pad0 2 n +:+ rest) = Some (n, rest).
Proof. intros Hn. apply digits_pad0; [exact Hn|lia]. Qed.

Lemma getnum_pad0 n rest : 0 <= n < 100 -> getnum (pad0 2 n +:+ rest) = Some (n, rest).
Proof. intros Hn. unfold getnum. by rewrite digits2_pad0. Qed.

Lemma appendInt_nonneg x w : 0 <= x -> appendInt x w = pad0 w x.
Proof. intros H. unfold appendInt. by rewrite (proj2 (Z.ltb_ge _ _)). Qed.

Lemma daysIn_31 m y : 1 <= m <= 12 -> daysIn m y <= 31.
Proof.
  intros Hm. unfold daysIn. destruct (_ && _); [lia|].
  assert (m = 1 \/ m = 2 \/ m = 3 \/ m = 4 \/ m = 5 \/ m = 6 \/ m = 7 \/ m = 8 \/
    m = 9 \/ m = 10 \/ m = 11 \/ m = 12) as Hc by lia.
  by repeat destruct Hc as [->|Hc]; [..|subst].
Qed.

(** Parsing the text the scanners write gives the block time back. *)
Lemma parse_formatRFC3339 t :
  minRFC3339 <= t < maxRFC3339 ->
  parseRFC3339Nano (formatRFC3339 t) = Some {| sec := t; nsec := 0 |}.
Proof.
  intros Ht. pose proof (civilOf_year_range t Ht) as Hy.
  pose proof (civilOf_spec t) as (Hu & Hmo & Hd & Hh & Hmi & Hs). cbn zeta in *.
  assert (daysIn (month (civilOf t)) (year (civilOf t)) <= 31) as Hdi by (by apply daysIn_31).
  unfold formatRFC3339, parseRFC3339Nano. rewrite appendInt_nonneg by lia.
  rewrite digits_pad0; [cbn [mbind option_bind]|change (10 ^ Z.of_nat 4) with 10000; lia|lia].
  repeat (first [rewrite skip_char | rewrite digits2_pad0 by lia
                | rewrite getnum_pad0 by lia]; cbn [mbind option_bind]).
  change (parseFrac "Z") with (0, "Z"). cbv beta iota.
  replace (_ && _) with true by lia.
  change (parseZone "Z") with (Some 0). cbn [mbind option_bind].
  rewrite Z.sub_0_r. f_equal. f_equal. rewrite <- Hu at 7. by destruct (civilOf t).
Qed.

Lemma formatRFC3339_inj t t' :
  minRFC3339 <= t < maxRFC3339 -> minRFC3339 <= t' < maxRFC3339 ->
  formatRFC3339 t = formatRFC3339 t' -> t = t'.
Proof.
  intros H H' Heq. apply parse_formatRFC3339 in H, H'. rewrite Heq in H. congruence.
Qed.

(** The 14-digit text determines the second, for years 0 to 9999. *)
Lemma format14_inj t t' :
  minRFC3339 <= t < maxRFC3339 -> minRFC3339 <= t' < maxRFC3339 ->
  format14 (civilOf t) = format14 (civilOf t') -> t = t'.
Proof.
  intros Ht Ht' Heq.
  pose proof (civilOf_year_range t Ht) as Hy. pose proof (civilOf_year_range t' Ht') as Hy'.
  rewrite <- (proj1 (civilOf_spec t)), <- (proj1 (civilOf_spec t')).
  destruct (civilOf_spec t) as (_ & Hmo & Hd & Hh & Hmi & Hs).
  destruct (civilOf_spec t') as (_ & Hmo' & Hd' & Hh' & Hmi' & Hs').
  assert (forall m y, 1 <= m <= 12 -> daysIn m y <= 31) as Hdi by apply daysIn_31.
  pose proof (Hdi _ (year (civilOf t)) Hmo). pose proof (Hdi _ (year (civilOf t')) Hmo').
  unfold format14 in Heq. rewrite !appendInt_nonneg in Heq by lia.
  destruct (civilOf t) as [y mo d h mi s], (civilOf t') as [y' mo' d' h' mi' s']. cbn in *.
  assert (forall w n n' r r', 0 <= n < 10 ^ Z.of_nat w -> 0 <= n' < 10 ^ Z.of_nat w -> (1 <= w)%nat ->
    pad0 w n +:+ r = pad0 w n' +:+ r' -> n = n' /\ r = r') as Hsplit.
  { intros w n n' r r' Hn Hn' Hw H1. pose proof (digits_pad0 w n r Hn Hw) as E1.
    rewrite H1, digits_pad0 in E1 by done. by simplify_eq. }
  rewrite <- (sappend_nil_r (pad0 2 s)), <- (sappend_nil_r (pad0 2 s')) in Heq.
  apply Hsplit in Heq as [-> Heq]; [|change (10 ^ Z.of_nat 4) with 10000; lia..|lia].
  repeat (apply Hsplit in Heq as [-> Heq]; [|change (10 ^ Z.of_nat 2) with 100; lia..|lia]).
  done.
Qed.
