(* ===== verification/Model.v ===== *)
(** * Domain model ([internal/model/deposit.go])

    [DepositEvent] (what a scanner extracts), [Deposit] (what the Adapter
    receives) and the conversion between them. *)
From stdpp Require Import base list strings.
From Stdlib Require Import ZArith Lia Ascii String.
From stdpp Require Import base strings.
From S2P Require Import Prelude Decimal Errors Effect Time.

Inductive DepositStatus := StatusConfirmed | StatusPending.

#[export] Instance DepositStatus_eq_dec : EqDecision DepositStatus.
Proof. solve_decision. Defined.

(** the constant behind the status *)
Definition status_text (s : DepositStatus) : string :=
  match s with StatusConfirmed => "TXCF" | StatusPending => "TXPD" end.

Record DepositEvent := mkEvent {
  ev_ChainID : Z;
  ev_TxHash : string;
  ev_LogIndex : Z;
  ev_FromAddress : string;
  ev_ToAddress : string;
  ev_Amount : option Z;        (* *big.Int *)
  ev_Symbol : string;
  ev_Decimals : Z;
  ev_Confirmations : Z;
  ev_TransactionDatetime : string
}.

Record Deposit := mkDeposit {
  ChainID : Z;
  TxHash : string;
  LogIndex : Z;
  FromAddress : string;
  ToAddress : string;
  Amount : string;
  ConfirmCount : Z;
  Symbol : string;
  Status : string;
  TransactionDatetime : string;
  ReceivedDatetimeMs : string
}.

#[export] Instance DepositEvent_eq_dec : EqDecision DepositEvent.
Proof. solve_decision. Defined.
#[export] Instance Deposit_eq_dec : EqDecision Deposit.
Proof. solve_decision. Defined.

(** The identity of a deposit: UNIQUE (chain_id, tx_hash, log_index). *)
Definition key : Type := Z * string * Z.
Definition key_of (d : Deposit) : key := (ChainID d, TxHash d, LogIndex d).
Definition ev_key (e : DepositEvent) : key := (ev_ChainID e, ev_TxHash e, ev_LogIndex e).

(** [formatUnits(wei, decimals)].  Slicing past the end panics, which a
    negative [decimals] reaches. *)
Definition formatUnits (wei : option Z) (decimals : Z) : res string :=
  let wei := default 0 wei in
  let s := dec wei in
  let '(sign, s) := if has_prefix "-" s then ("-", sdrop 1 s) else ("", s) in
  if decimals =? 0 then Ok (sign +:+ s)
  else
    let len := Z.of_nat (String.length s) in
    let s := if len <=? decimals
             then srepeat "0" (Z.to_nat (decimals - len + 1)) +:+ s else s in
    let len := Z.of_nat (String.length s) in
    let pos := len - decimals in
    if (0 <=? pos) && (pos <=? len)
    then Ok (sign +:+ stake (Z.to_nat pos) s +:+ String "." (sdrop (Z.to_nat pos) s))
    else Panic "slice bounds out of range".

(** [formatKst(t, includeMs)] *)
Definition formatKst (t : instant) (includeMs : bool) : string :=
  let base := format14 (civilOf (sec t + kstOffset)) in
  if includeMs then base +:+ pad0 3 (nsec t / 1000000) else base.

(** [ToDeposit(e, minConfirmations)] at time [now]; [Ok None] is [(nil, false)] *)
Definition ToDeposit (now : instant) (e : DepositEvent) (minConfirmations : Z) : res (option Deposit) :=
  match parseRFC3339Nano (ev_TransactionDatetime e) with
  | None => Ok None
  | Some tx =>
      let status := if minConfirmations <=? ev_Confirmations e
                    then StatusConfirmed else StatusPending in
      match formatUnits (ev_Amount e) (ev_Decimals e) with
      | Ok amount => Ok (Some {|
          ChainID := ev_ChainID e;
          TxHash := ev_TxHash e;
          LogIndex := ev_LogIndex e;
          FromAddress := ev_FromAddress e;
          ToAddress := ev_ToAddress e;
          Amount := amount;
          ConfirmCount := ev_Confirmations e;
          Symbol := ev_Symbol e;
          Status := status_text status;
          TransactionDatetime := formatKst tx false;
          ReceivedDatetimeMs := formatKst now true |})
      | Err err => Err err
      | Panic p => Panic p
      end
  end.

(** ** Amounts *)

Lemma dec_sign n :
  (if has_prefix "-" (dec n) then ("-", sdrop 1 (dec n)) else ("", dec n)) =
  (if n <? 0 then "-" else "", dec_nonneg (Z.abs n)).
Proof.
  unfold dec. destruct (Z.ltb_spec n 0) as [H|H].
  - cbn. by rewrite Z.abs_neq by lia; destruct (dec_nonneg (- n)).
  - rewrite Z.abs_eq by lia. pose proof (all_digits_dec n H) as Hd.
    destruct (dec_nonneg n) as [|c s]; [done|].
    unfold all_digits in Hd. cbn [all_chars] in Hd. apply andb_prop in Hd as [Hd _].
    cbn [has_prefix]. destruct (Ascii.eqb_spec "-" c) as [<-|]; [done|]. done.
Qed.

(** The integer and fractional digits of [n] scaled by [10^d]. *)
Lemma split_digits (n d : Z) (s : string) :
  0 <= n -> 0 < d ->
  all_digits s = true -> undec s = n -> d < Z.of_nat (String.length s) ->
  (stake (Z.to_nat (Z.of_nat (String.length s) - d)) s <> "0" ->
   first_char s <> Some "0"%char) ->
  stake (Z.to_nat (Z.of_nat (String.length s) - d)) s = dec_nonneg (n / 10 ^ d) /\
  sdrop (Z.to_nat (Z.of_nat (String.length s) - d)) s = pad0 (Z.to_nat d) (n mod 10 ^ d).
Proof.
  intros Hn Hd Hdig Hv Hl Hz.
  set (p := Z.to_nat (Z.of_nat (String.length s) - d)) in *.
  assert (0 < p)%nat as Hp0 by (subst p; lia).
  pose proof (stake_sdrop p s) as Hs.
  assert (String.length (stake p s) = p) as Hl1 by (apply slength_stake; lia).
  pose proof (slength_sdrop p s) as Hl2.
  assert (String.length (sdrop p s) = Z.to_nat d) as Hl2' by lia. clear Hl2.
  rewrite <- Hs in Hdig, Hv. unfold all_digits in Hdig. rewrite all_chars_append in Hdig.
  apply andb_prop in Hdig as [Hd1 Hd2].
  rewrite undec_append, Hl2', Z2Nat.id in Hv by lia.
  pose proof (undec_range _ Hd2) as Hr2. rewrite Hl2', Z2Nat.id in Hr2 by lia.
  assert (undec (stake p s) = n / 10 ^ d) as Hq
    by (apply (Z.div_unique_pos _ _ _ (undec (sdrop p s))); lia).
  assert (undec (sdrop p s) = n mod 10 ^ d) as Hm
    by (apply (Z.mod_unique_pos _ _ (undec (stake p s))); lia).
  split.
  - rewrite <- Hq. destruct (decide (stake p s = "0")) as [->|Hne]; [done|].
    symmetry. apply dec_nonneg_unique; [done| |].
    + intros H0. rewrite H0 in Hl1. cbn in Hl1. lia.
    + specialize (Hz Hne). destruct s as [|c s']; [by destruct p|].
      destruct p as [|p']; [lia|]. exact Hz.
  - destruct (pad0_spec (Z.to_nat d) (n mod 10 ^ d)) as (Hp1 & Hp2 & Hp3).
    { rewrite Z2Nat.id by lia. apply Z.mod_pos_bound. lia. }
    { lia. }
    apply undec_inj_length; [done..|lia|lia].
Qed.

(** The reference rendering: sign, integer part, and exactly [decimals]
    fractional digits. *)
Definition units_ref (wei decimals : Z) : string :=
  (if wei <? 0 then "-" else "") +:+ dec_nonneg (Z.abs wei / 10 ^ decimals) +:+
  (if decimals =? 0 then "" else String "." (pad0 (Z.to_nat decimals) (Z.abs wei mod 10 ^ decimals))).

Lemma formatUnits_ref (wei : option Z) (decimals : Z) :
  0 <= decimals -> formatUnits wei decimals = Ok (units_ref (default 0 wei) decimals).
Proof.
  intros Hd. unfold formatUnits, units_ref. generalize (default 0 wei) as w. clear wei. intros w.
  rewrite dec_sign. destruct (Z.eqb_spec decimals 0) as [->|Hd0].
  { by rewrite Z.pow_0_r, Z.div_1_r, sappend_nil_r. }
  pose proof (dec_nonneg_spec (Z.abs w) ltac:(lia)) as (Hdig & Hv & Hne & Hz & Hz0).
  set (s := dec_nonneg (Z.abs w)) in *. cbv zeta.
  set (s' := if _ <=? _ then _ else s).
  assert (all_digits s' = true /\ undec s' = Z.abs w /\ decimals < Z.of_nat (String.length s') /\
    (stake (Z.to_nat (Z.of_nat (String.length s') - decimals)) s' <> "0" ->
     first_char s' <> Some "0"%char)) as (H1 & H2 & H3 & H4).
  { subst s'. destruct (Z.leb_spec (Z.of_nat (String.length s)) decimals) as [Hle|Hgt].
    - set (k := Z.to_nat (decimals - Z.of_nat (String.length s) + 1)).
      assert (0 < k)%nat as Hk by (subst k; lia).
      unfold all_digits in *. rewrite all_chars_append, Hdig, slength_append, slength_repeat.
      rewrite undec_append, undec_repeat0, Hv. split_and!; [|lia|subst k; lia|].
      + rewrite andb_true_r. clear. induction k; [done|exact IHk].
      + intros Hn. exfalso. apply Hn.
        replace (Z.to_nat _) with 1%nat by (subst k; lia).
        destruct k as [|k']; [lia|]. cbn. by destruct (srepeat "0" k' +:+ s).
    - split_and!; [done..|]. intros _. apply Hz. intros H0.
      rewrite Hz0 in Hgt by done. cbn in Hgt. lia. }
  replace (_ && _) with true by lia.
  destruct (split_digits (Z.abs w) decimals s') as [-> ->]; [lia..|done|done|done|done|].
  done.
Qed.

Lemma units_ref_inj w w' d : 0 <= d -> units_ref w d = units_ref w' d -> w = w'.
Proof.
  intros Hd Heq. unfold units_ref in Heq.
  set (q := Z.abs w / 10 ^ d) in *. set (q' := Z.abs w' / 10 ^ d) in *.
  assert (0 < 10 ^ d) as Hp by lia.
  assert (0 <= q /\ 0 <= q') as [Hq Hq'] by (split; apply Z.div_pos; lia).
  assert (forall (a b : string) k k', 0 <= k -> 0 <= k' ->
    (if w <? 0 then "-" else "") +:+ dec_nonneg k +:+ a =
    (if w' <? 0 then "-" else "") +:+ dec_nonneg k' +:+ b ->
    (w <? 0) = (w' <? 0) /\ dec_nonneg k +:+ a = dec_nonneg k' +:+ b) as Hsign.
  { intros a b k k' Hk Hk' H.
    pose proof (all_digits_dec k Hk) as Ha. pose proof (all_digits_dec k' Hk') as Ha'.
    pose proof (dec_nonneg_spec k Hk) as (_ & _ & Hne & _).
    pose proof (dec_nonneg_spec k' Hk') as (_ & _ & Hne' & _).
    destruct (w <? 0), (w' <? 0); cbn in H; [by simplify_eq| | |done].
    - destruct (dec_nonneg k') as [|c ?]; [done|]. cbn in H. injection H as <- _. done.
    - destruct (dec_nonneg k) as [|c ?]; [done|]. cbn in H. injection H as -> _. done. }
  apply Hsign in Heq as [Hs Heq]; [|lia..].
  assert (q = q' /\ Z.abs w mod 10 ^ d = Z.abs w' mod 10 ^ d) as [Hqq Hmm].
  { destruct (Z.eqb_spec d 0) as [->|Hd0].
    - rewrite !sappend_nil_r in Heq. apply dec_nonneg_inj in Heq; [|lia..].
      split; [done|]. by rewrite !Z.mod_1_r.
    - apply split_first_sep in Heq as [H1 H2].
      + apply dec_nonneg_inj in H1; [|lia..]. split; [done|].
        assert (forall x, 0 <= x mod 10 ^ d < 10 ^ Z.of_nat (Z.to_nat d)) as Hr.
        { intros x. rewrite Z2Nat.id by lia. apply Z.mod_pos_bound. lia. }
        destruct (pad0_spec _ _ (Hr (Z.abs w)) ltac:(lia)) as (_ & <- & _).
        destruct (pad0_spec _ _ (Hr (Z.abs w')) ltac:(lia)) as (_ & <- & _). by rewrite H2.
      + pose proof (dec_no_char "." q eq_refl ltac:(done)) as H. unfold dec in H.
        by rewrite (proj2 (Z.ltb_ge _ _)) in H by lia.
      + pose proof (dec_no_char "." q' eq_refl ltac:(done)) as H. unfold dec in H.
        by rewrite (proj2 (Z.ltb_ge _ _)) in H by lia. }
  assert (Z.abs w = Z.abs w') as Habs.
  { rewrite (Z.div_mod (Z.abs w) (10 ^ d)), (Z.div_mod (Z.abs w') (10 ^ d)) by lia.
    fold q q'. by rewrite Hqq, Hmm. }
  lia.
Qed.

(** ** Properties *)

(** C33. The amount sent to the Adapter is exact: for every non-negative
    [decimals], [formatUnits] never panics and prints the sign, the integer
    quotient by [10^decimals], and the remainder on exactly [decimals] digits;
    two different wei amounts never print alike. *)
Theorem formatUnits_exact (wei : option Z) (decimals : Z) :
  0 <= decimals ->
  formatUnits wei decimals = Ok (units_ref (default 0 wei) decimals) /\
  forall wei', formatUnits wei' decimals = formatUnits wei decimals ->
    default 0 wei' = default 0 wei.
Proof.
  intros Hd. split; [by apply formatUnits_ref|].
  intros wei'. rewrite !formatUnits_ref by done. intros [= H]. by eapply units_ref_inj.
Qed.

Lemma formatUnits_exact_witness :
  formatUnits (Some 1500000000000000000) 18 = Ok "1.500000000000000000" /\
  formatUnits (Some (-7)) 3 = Ok "-0.007".
Proof.
  split; [etrans; [apply (formatUnits_exact _ 18); lia|reflexivity]|reflexivity].
Defined.

(** A negative [decimals] column makes the conversion panic. *)
Lemma formatUnits_negative_panics wei decimals :
  decimals < 0 -> formatUnits wei decimals = Panic "slice bounds out of range".
Proof.
  intros Hd. unfold formatUnits. destruct (if has_prefix _ _ then _ else _) as [sign s].
  replace (decimals =? 0) with false by lia.
  cbv zeta. rewrite (proj2 (Z.leb_gt (Z.of_nat (String.length s)) decimals)) by lia.
  rewrite (proj2 (Z.leb_gt (Z.of_nat (String.length s) - decimals) _)) by lia.
  by rewrite andb_false_r.
Qed.

(** The shape of the deposit an event becomes. *)
Definition deposit_of (now : instant) (minConfirmations : Z) (t : Z) (e : DepositEvent) : Deposit := {|
  ChainID := ev_ChainID e; TxHash := ev_TxHash e; LogIndex := ev_LogIndex e;
  FromAddress := ev_FromAddress e; ToAddress := ev_ToAddress e;
  Amount := units_ref (default 0 (ev_Amount e)) (ev_Decimals e);
  ConfirmCount := ev_Confirmations e; Symbol := ev_Symbol e;
  Status := if minConfirmations <=? ev_Confirmations e then "TXCF" else "TXPD";
  TransactionDatetime := format14 (civilOf (t + kstOffset));
  ReceivedDatetimeMs := formatKst now true |}.

Lemma ToDeposit_ok (now : instant) (e : DepositEvent) (minConfirmations t : Z) :
  minRFC3339 <= t < maxRFC3339 -> ev_TransactionDatetime e = formatRFC3339 t ->
  0 <= ev_Decimals e ->
  ToDeposit now e minConfirmations = Ok (Some (deposit_of now minConfirmations t e)).
Proof.
  intros Ht He Hd. unfold ToDeposit. rewrite He, parse_formatRFC3339 by done.
  rewrite formatUnits_ref by done. unfold deposit_of. by destruct (_ <=? _).
Qed.

(** C34. An event stamped with a block time of years 0 to 9999 is always
    converted, never skipped: identity, parties and symbol are kept, the
    amount is exact, the KST time is the block time plus nine hours, and the
    status is [TXCF] exactly when the confirmations reach the minimum. *)
Theorem ToDeposit_complete (now : instant) (e : DepositEvent) (minConfirmations t : Z) :
  minRFC3339 <= t < maxRFC3339 -> ev_TransactionDatetime e = formatRFC3339 t ->
  0 <= ev_Decimals e ->
  exists d, ToDeposit now e minConfirmations = Ok (Some d) /\
    d = deposit_of now minConfirmations t e /\ key_of d = ev_key e /\
    (Status d = "TXCF" <-> minConfirmations <= ev_Confirmations e).
Proof.
  intros Ht He Hd. eexists. split_and!; [by apply ToDeposit_ok|done|done|].
  cbn. destruct (Z.leb_spec minConfirmations (ev_Confirmations e)); split; [done..|lia].
Qed.

Lemma ToDeposit_complete_witness :
  let e := mkEvent 1 "0xaa" 3 "0xf" "0xt" (Some 25) "ETH" 1 12 "2023-11-14T22:13:20Z" in
  ToDeposit {| sec := 0; nsec := 7000000 |} e 12 =
  Ok (Some (mkDeposit 1 "0xaa" 3 "0xf" "0xt" "2.5" 12 "ETH" "TXCF" "20231115071320"
    "19700101090000007")).
Proof.
  cbv zeta.
  edestruct (ToDeposit_complete {| sec := 0; nsec := 7000000 |}
    (mkEvent 1 "0xaa" 3 "0xf" "0xt" (Some 25) "ETH" 1 12 "2023-11-14T22:13:20Z") 12 1700000000)
    as (d & Hd & Heq & _); [unfold minRFC3339, maxRFC3339; lia|reflexivity|cbn; lia|].
  rewrite Hd, Heq. reflexivity.
Defined.

(** Converting keeps the key. *)
Lemma ToDeposit_key now e m d : ToDeposit now e m = Ok (Some d) -> key_of d = ev_key e.
Proof.
  unfold ToDeposit. destruct (parseRFC3339Nano _); [|done].
  destruct (formatUnits _ _); [|done..]. intros [= <-]. done.
Qed.
