(* ===== verification/Json.v ===== *)
(** * JSON documents

    [encoding/json] as the program uses it: the [Deposit] document stored in
    [deposit_buffer.payload] and sent to the Adapter, and decoding a document
    into a struct (keys match field names case-insensitively, later keys
    overwrite, [null] leaves the field, a value of the wrong type is an
    error).  Documents are trees; concrete text and JSONB's key order are not
    represented, since decoding does not depend on them. *)
From stdpp Require Import base list strings.
From Stdlib Require Import ZArith Lia Ascii String.
From stdpp Require Import base strings.
From S2P Require Import Prelude Errors Effect Model.

Inductive json :=
| JNull
| JBool (b : bool)
| JNum (z : Z)
| JStr (s : string)
| JArr (l : list json)
| JObj (fields : list (string * json)).

#[export] Instance json_eq_dec : EqDecision json.
Proof.
  unfold EqDecision, Decision. fix json_eq_dec 1. intros x y.
  destruct x as [|a|a|a|l|l], y as [|b|b|b|l'|l']; try (right; discriminate).
  - by left.
  - destruct (decide (a = b)) as [->|]; [by left|right; congruence].
  - destruct (decide (a = b)) as [->|]; [by left|right; congruence].
  - destruct (decide (a = b)) as [->|]; [by left|right; congruence].
  - assert ({l = l'} + {l <> l'}) as [->|]; [|by left|right; congruence].
    revert l'. induction l as [|x l IH]; intros [|y l']; try (right; discriminate); [by left|].
    destruct (json_eq_dec x y) as [->|]; [|right; congruence].
    destruct (IH l') as [->|]; [by left|right; congruence].
  - assert ({l = l'} + {l <> l'}) as [->|]; [|by left|right; congruence].
    revert l'. induction l as [|[k x] l IH]; intros [|[k' y] l']; try (right; discriminate); [by left|].
    destruct (decide (k = k')) as [->|]; [|right; congruence].
    destruct (json_eq_dec x y) as [->|]; [|right; congruence].
    destruct (IH l') as [->|]; [by left|right; congruence].
Defined.

(** [json.Marshal(d)] for a [model.Deposit] (no tags: Go field names) *)
Definition marshalDeposit (d : Deposit) : json :=
  JObj [("ChainID", JNum (ChainID d)); ("TxHash", JStr (TxHash d));
        ("LogIndex", JNum (LogIndex d)); ("FromAddress", JStr (FromAddress d));
        ("ToAddress", JStr (ToAddress d)); ("Amount", JStr (Amount d));
        ("ConfirmCount", JNum (ConfirmCount d)); ("Symbol", JStr (Symbol d));
        ("Status", JStr (Status d)); ("TransactionDatetime", JStr (TransactionDatetime d));
        ("ReceivedDatetimeMs", JStr (ReceivedDatetimeMs d))].

Definition json_type_error : goerr := ErrNew "json: cannot unmarshal value into Go struct field".

(** decoding one value into an [int]/[int64] or a [string] holding [old] *)
Definition decodeInt (old : Z) (v : json) : res Z :=
  match v with
  | JNull => Ok old
  | JNum z => if decide (is_i64 z) then Ok z else Err json_type_error
  | _ => Err json_type_error
  end.
Definition decodeStr (old : string) (v : json) : res string :=
  match v with JNull => Ok old | JStr s => Ok s | _ => Err json_type_error end.

Definition rmap {A B} (f : A -> B) (r : res A) : res B :=
  match r with Ok a => Ok (f a) | Err e => Err e | Panic p => Panic p end.

(** one key of the document into the struct under construction *)
Definition setDepositField (d : Deposit) (k : string) (v : json) : res Deposit :=
  let '(mkDeposit c tx li fr to am cc sy st td rd) := d in
  let k := to_lower k in
  if String.eqb k "chainid" then rmap (fun x => mkDeposit x tx li fr to am cc sy st td rd) (decodeInt c v)
  else if String.eqb k "txhash" then rmap (fun x => mkDeposit c x li fr to am cc sy st td rd) (decodeStr tx v)
  else if String.eqb k "logindex" then rmap (fun x => mkDeposit c tx x fr to am cc sy st td rd) (decodeInt li v)
  else if String.eqb k "fromaddress" then rmap (fun x => mkDeposit c tx li x to am cc sy st td rd) (decodeStr fr v)
  else if String.eqb k "toaddress" then rmap (fun x => mkDeposit c tx li fr x am cc sy st td rd) (decodeStr to v)
  else if String.eqb k "amount" then rmap (fun x => mkDeposit c tx li fr to x cc sy st td rd) (decodeStr am v)
  else if String.eqb k "confirmcount" then rmap (fun x => mkDeposit c tx li fr to am x sy st td rd) (decodeInt cc v)
  else if String.eqb k "symbol" then rmap (fun x => mkDeposit c tx li fr to am cc x st td rd) (decodeStr sy v)
  else if String.eqb k "status" then rmap (fun x => mkDeposit c tx li fr to am cc sy x td rd) (decodeStr st v)
  else if String.eqb k "transactiondatetime" then rmap (fun x => mkDeposit c tx li fr to am cc sy st x rd) (decodeStr td v)
  else if String.eqb k "receiveddatetimems" then rmap (fun x => mkDeposit c tx li fr to am cc sy st td x) (decodeStr rd v)
  else Ok d.

Fixpoint setDepositFields (d : Deposit) (fs : list (string * json)) : res Deposit :=
  match fs with
  | [] => Ok d
  | (k, v) :: fs' =>
      match setDepositField d k v with
      | Ok d' => setDepositFields d' fs'
      | r => r
      end
  end.

Definition zeroDeposit : Deposit := mkDeposit 0 "" 0 "" "" "" 0 "" "" "" "".

(** [json.Unmarshal(raw, &d)] into a fresh [model.Deposit] *)
Definition unmarshalDeposit (j : json) : res Deposit :=
  match j with
  | JNull => Ok zeroDeposit
  | JObj fs => setDepositFields zeroDeposit fs
  | _ => Err json_type_error
  end.

(** the integers of a [Deposit] are Go [int]s *)
Definition deposit_ints (d : Deposit) : Prop :=
  is_i64 (ChainID d) /\ is_i64 (LogIndex d) /\ is_i64 (ConfirmCount d).

Lemma decodeInt_num old z : is_i64 z -> decodeInt old (JNum z) = Ok z.
Proof. intros H. unfold decodeInt. by rewrite decide_True. Qed.

(** Decoding the stored document gives the deposit back. *)
Lemma unmarshal_marshal d : deposit_ints d -> unmarshalDeposit (marshalDeposit d) = Ok d.
Proof.
  destruct d as [c tx li fr to am cc sy st td rd]. intros (H1 & H2 & H3). cbn in H1, H2, H3.
  unfold unmarshalDeposit, marshalDeposit, zeroDeposit.
  do 4 (lazy -[decodeInt is_i64]; rewrite ?decodeInt_num by done). done.
Qed.

Lemma decodeInt_Ok old z z' : decodeInt old (JNum z) = Ok z' -> z' = z.
Proof. unfold decodeInt. destruct (decide _); [by intros [= ->]|done]. Qed.

(** whatever decodes from the stored document is the deposit *)
Lemma unmarshal_marshal_Ok d d' : unmarshalDeposit (marshalDeposit d) = Ok d' -> d' = d.
Proof.
  destruct d as [c tx li fr to am cc sy st td rd].
  unfold unmarshalDeposit, marshalDeposit, zeroDeposit. lazy -[decodeInt is_i64].
  destruct (decodeInt 0 (JNum c)) as [c'|e|p] eqn:Hc; [|done..]. apply decodeInt_Ok in Hc as ->.
  destruct (decodeInt 0 (JNum li)) as [li'|e|p] eqn:Hli; [|done..]. apply decodeInt_Ok in Hli as ->.
  destruct (decodeInt 0 (JNum cc)) as [cc'|e|p] eqn:Hcc; [|done..]. apply decodeInt_Ok in Hcc as ->.
  by intros [= <-].
Qed.
