(* ===== verification/Metrics.v ===== *)
(** * Metrics ([internal/metrics/metrics.go])

    The prometheus registry as a finite map from (name, label values) to a
    value.  The program only ever stores integers, except the two age gauges,
    which are kept here in microseconds and nanoseconds as their setters
    write them. *)
From stdpp Require Import base gmap list strings.
From Stdlib Require Import ZArith Lia Ascii String.
From stdpp Require Import base strings.
From S2P Require Import Prelude.

Abbreviation Registry := (gmap (string * list string) Z).

(** a metric vector (or scalar, with no labels) by its fully qualified name *)
Definition namespace : string := "listener".
Definition metric (subsystem name : string) : string :=
  namespace +:+ "_" +:+ subsystem +:+ "_" +:+ name.

Definition ScannerCursorBlock := metric "scanner" "cursor_block".
Definition ScannerLatestBlock := metric "scanner" "latest_block".
Definition ScannerLagBlocks := metric "scanner" "lag_blocks".
Definition ScannerBlocksProcessed := metric "scanner" "blocks_processed_total".
Definition ScannerDepositsFound := metric "scanner" "deposits_found_total".
Definition ScannerErrors := metric "scanner" "errors_total".
Definition BufferPendingTotal := metric "buffer" "pending_total".
Definition BufferOldestAgeSeconds := metric "buffer" "oldest_age_seconds".
Definition PublisherSent := metric "publisher" "sent_total".
Definition PublisherSendErrors := metric "publisher" "send_errors_total".
Definition PublisherConnected := metric "publisher" "connected".
Definition PublisherReconnects := metric "publisher" "reconnects_total".
Definition PublisherAcksReceived := metric "publisher" "acks_received_total".
Definition PublisherAckTimeouts := metric "publisher" "ack_timeouts_total".
Definition PublisherInFlight := metric "publisher" "in_flight".
Definition SupervisorChainsRunning := metric "supervisor" "chains_running".
Definition SupervisorReconciles := metric "supervisor" "reconciles_total".
Definition SupervisorPanics := metric "supervisor" "panics_total".
Definition AuditCycles := metric "audit" "cycles_total".
Definition AuditBlocksChecked := metric "audit" "blocks_checked_total".
Definition AuditMismatchPendingMissing := metric "audit" "mismatch_pending_missing_total".
Definition AuditErrors := metric "audit" "errors_total".
Definition AuditLastCycleAgeSeconds := metric "audit" "last_cycle_age_seconds".
Definition NotifyReceived := metric "notify" "received_total".
Definition NotifyReconnects := metric "notify" "reconnects_total".

(** [m.WithLabelValues(labels...).Get()], 0 before the first write *)
Definition mget (r : Registry) (m : string) (labels : list string) : Z :=
  default 0 (r !! (m, labels)).
(** [.Set(v)], [.Add(v)], [.Inc()] *)
Definition mset (m : string) (labels : list string) (v : Z) (r : Registry) : Registry :=
  <[(m, labels) := v]> r.
Definition madd (m : string) (labels : list string) (v : Z) (r : Registry) : Registry :=
  mset m labels (mget r m labels + v) r.
Definition minc (m : string) (labels : list string) (r : Registry) : Registry :=
  madd m labels 1 r.

Lemma mget_mset_eq r m ls v : mget (mset m ls v r) m ls = v.
Proof. unfold mget, mset. by rewrite lookup_insert_eq. Qed.
Lemma mget_mset_ne r m ls v m' ls' :
  (m, ls) <> (m', ls') -> mget (mset m ls v r) m' ls' = mget r m' ls'.
Proof. intros H. unfold mget, mset. by rewrite lookup_insert_ne. Qed.
