(* ===== verification/Store.v ===== *)
(** * The database and the world

    The tables of [migrations/] and the Adapter-owned tables the code reads,
    the world a goroutine runs in, and its environment.

    A world holds the database, the metrics registry and an arbitrary
    external state [E].  Calls that leave the process (RPC, waits, database
    round trips) are fields of environment classes: functions on worlds about
    which nothing is assumed, so the other goroutines may commit to the
    database and the network may fail during any of them.  Inside a
    transaction a round trip only sees [E]: the transaction is serial. *)
From stdpp Require Import base gmap list strings sorting.
From Stdlib Require Import ZArith Lia Ascii String.
From stdpp Require Import base strings.
From S2P Require Import Prelude Errors Effect Retry Time Model Json Metrics.

(** ** Tables *)

Record BufferRow := mkRow {
  row_id : Z;               (* BIGSERIAL *)
  row_chain_id : Z;
  row_tx_hash : string;
  row_log_index : Z;        (* INT *)
  row_payload : json;       (* JSONB *)
  row_created_at : Z;       (* microseconds *)
  row_block_number : option Z (* 0002: nullable BIGINT *)
}.

Definition row_key (r : BufferRow) : key := (row_chain_id r, row_tx_hash r, row_log_index r).

(** Adapter-owned tables *)
Record ChainRow := mkChainRow {
  ch_chain_id : Z; ch_name : string; ch_rpc_url : string; ch_native : string;
  ch_decimals : Z; ch_block_time : Z; ch_confirmations : Z;
  ch_chain_type : option string; ch_active : bool
}.
Record TokenRow := mkTokenRow {
  tk_chain_id : Z; tk_contract_address : string; tk_symbol : string;
  tk_decimals : Z; tk_active : bool
}.

Record DB := mkDB {
  deposit_buffer : list BufferRow;
  buffer_seq : Z;                       (* next value of deposit_buffer_id_seq *)
  scan_cursor : gmap (Z * string) Z;    (* PRIMARY KEY (chain_id, scanner) *)
  notified : Z;                         (* NOTIFY deposits delivered so far *)
  accounts : list (Z * string);         (* (chain_id, address) *)
  chain : list ChainRow;
  token : list TokenRow
}.

#[export] Instance BufferRow_eq_dec : EqDecision BufferRow.
Proof. solve_decision. Defined.
#[export] Instance ChainRow_eq_dec : EqDecision ChainRow.
Proof. solve_decision. Defined.
#[export] Instance TokenRow_eq_dec : EqDecision TokenRow.
Proof. solve_decision. Defined.
#[export] Instance DB_eq_dec : EqDecision DB.
Proof. solve_decision. Defined.

Definition set_buffer (b : list BufferRow) (db : DB) : DB :=
  mkDB b (buffer_seq db) (scan_cursor db) (notified db) (accounts db) (chain db) (token db).

(** ** World *)

Record World (E : Type) := mkWorld { w_db : DB; w_metrics : Registry; w_ext : E }.
Arguments mkWorld {E}.
Arguments w_db {E}.
Arguments w_metrics {E}.
Arguments w_ext {E}.

(** How COMMIT ends: the last case is a commit whose acknowledgement is lost. *)
Inductive fate := Committed | RolledBack (e : goerr) | InDoubt (e : goerr).

(** The process environment of a goroutine: context, clock, database link. *)
Class Env (E : Type) := {
  (* select on ctx.Done() and time.After(d) *)
  env_wait : Z -> M (World E) unit;
  (* ctx.Err(): [Ok] while the context is alive *)
  ctx_Err : M (World E) unit;
  (* time.Now() *)
  time_Now : M (World E) instant;
  (* one database round trip outside a transaction, BEGIN included *)
  env_db : M (World E) unit;
  (* the round trip of the single-account lookup: a name of its own, so that
     what is assumed of it is not assumed of every round trip *)
  env_has : M (World E) unit;
  (* one statement's round trip inside a transaction *)
  env_tx : E -> option goerr * E;
  (* COMMIT *)
  env_commit : E -> fate * E;
  (* now() of the current transaction, microseconds *)
  db_now : E -> Z
}.

#[export] Instance env_clock {E} `{Env E} : Clock (World E) := {| wait := env_wait |}.

Section Access.
Context {E : Type} `{Env E}.

(** metric updates *)
Definition emit (f : Registry -> Registry) : M (World E) unit :=
  modify (fun w => mkWorld (w_db w) (f (w_metrics w)) (w_ext w)).

(** a single-statement query at the database's [now()]; a failed round trip
    comes back wrapped with the caller's prefix *)
Definition query_at {A} (prefix : string) (f : Z -> DB -> res A) : M (World E) A :=
  wrapf prefix env_db ;;; fun w => (f (db_now (w_ext w)) (w_db w), w).
Definition query {A} (prefix : string) (f : DB -> res A) : M (World E) A :=
  query_at prefix (fun _ => f).
(** the single-account lookup *)
Definition query_account {A} (prefix : string) (f : DB -> res A) : M (World E) A :=
  wrapf prefix env_has ;;; fun w => (f (w_db w), w).

Lemma preserves_query {A} (I : World E -> Prop) prefix (f : DB -> res A) :
  preserves I env_db -> preserves I (query prefix f).
Proof. intros Hdb. apply preserves_bind; [by apply preserves_wrapf|]. by intros _ w. Qed.
Lemma preserves_query_account {A} (I : World E -> Prop) prefix (f : DB -> res A) :
  preserves I env_has -> preserves I (query_account prefix f).
Proof. intros Hdb. apply preserves_bind; [by apply preserves_wrapf|]. by intros _ w. Qed.
Lemma preserves_emit (I : World E -> Prop) f :
  (forall w r, I w -> I (mkWorld (w_db w) r (w_ext w))) -> preserves I (emit f).
Proof. intros HI. apply preserves_modify. auto. Qed.

(** a single-statement write *)
Definition exec (f : DB -> DB) : M (World E) unit :=
  env_db ;;; modify (fun w => mkWorld (f (w_db w)) (w_metrics w) (w_ext w)).

(** a statement inside a transaction, on the transaction's view *)
Definition tx_exec (f : DB -> res DB) : M (DB * E) unit := fun '(db, e) =>
  match env_tx e with
  | (Some err, e') => (Err err, (db, e'))
  | (None, e') =>
      match f db with
      | Ok db' => (Ok tt, (db', e'))
      | Err err => (Err err, (db, e'))
      | Panic p => (Panic p, (db, e'))
      end
  end.

(** BEGIN; body; COMMIT with [defer tx.Rollback]: only a commit publishes
    the transaction's view.  The body gets the transaction's [now()]. *)
Definition with_tx (body : Z -> M (DB * E) unit) : M (World E) unit :=
  wrapf "begin tx" env_db ;;;
  fun w =>
    match body (db_now (w_ext w)) (w_db w, w_ext w) with
    | (Ok _, (db', e')) =>
        match env_commit e' with
        | (Committed, e'') => (Ok tt, mkWorld db' (w_metrics w) e'')
        | (RolledBack err, e'') =>
            (Err (Errorf "commit tx" err), mkWorld (w_db w) (w_metrics w) e'')
        | (InDoubt err, e'') =>
            (Err (Errorf "commit tx" err), mkWorld db' (w_metrics w) e'')
        end
    | (Err err, (_, e')) => (Err err, mkWorld (w_db w) (w_metrics w) e')
    | (Panic p, (_, e')) => (Panic p, mkWorld (w_db w) (w_metrics w) e')
    end.
End Access.

(** ** A quiet environment: nothing fails and nobody interferes.  Used to
    exhibit concrete runs; the external state is the clock in seconds. *)
Module Quiet.
#[export] Instance quiet : Env Z := {|
  env_wait _ := ret tt;
  ctx_Err := ret tt;
  time_Now := gets (fun w => {| sec := w_ext w; nsec := 0 |});
  env_db := ret tt;
  env_has := ret tt;
  env_tx e := (None, e);
  env_commit e := (Committed, e);
  db_now e := e * 1000000
|}.
Definition emptyDB : DB := mkDB [] 1 ∅ 0 [] [] [].
Definition start : World Z := mkWorld emptyDB ∅ 1700000000.
End Quiet.
