(* ===== verification/BufferRepo.v ===== *)
(** * Durable buffer and scan cursor ([internal/database/buffer_repo.go]) *)
From stdpp Require Import base gmap list strings sorting.
From Stdlib Require Import ZArith Lia Ascii String.
From stdpp Require Import base strings.
From S2P Require Import Prelude Decimal Errors Effect Retry Time Model Json Metrics Store.

(** ** Statements *)

(** The INT column: pgx refuses to encode a Go [int] outside int4. *)
Definition int4_error : goerr := ErrNew "unable to encode into int4".

(** INSERT INTO deposit_buffer ... ON CONFLICT (chain_id, tx_hash, log_index) DO NOTHING *)
Definition sql_insert_deposit (now : Z) (block : Z) (d : Deposit) (db : DB) : res DB :=
  if decide (is_i32 (LogIndex d)) then
    let id := buffer_seq db in
    let row := mkRow id (ChainID d) (TxHash d) (LogIndex d) (marshalDeposit d) now (Some (i64 block)) in
    let rows := if decide (row_key row ∈ row_key <$> deposit_buffer db)
                then deposit_buffer db else deposit_buffer db ++ [row] in
    Ok (mkDB rows (id + 1) (scan_cursor db) (notified db) (accounts db) (chain db) (token db))
  else Err int4_error.

(** INSERT INTO scan_cursor ... ON CONFLICT DO UPDATE SET last_block = EXCLUDED.last_block *)
Definition sql_upsert_cursor (chainID : Z) (scanner : string) (last : Z) (db : DB) : DB :=
  mkDB (deposit_buffer db) (buffer_seq db) (<[(chainID, scanner) := last]> (scan_cursor db))
       (notified db) (accounts db) (chain db) (token db).

(** NOTIFY deposits, delivered at commit *)
Definition sql_notify (db : DB) : DB :=
  mkDB (deposit_buffer db) (buffer_seq db) (scan_cursor db) (notified db + 1)
       (accounts db) (chain db) (token db).

(** DELETE FROM deposit_buffer WHERE chain_id = .. AND tx_hash = .. AND log_index = .. *)
Definition sql_delete (k : key) (db : DB) : DB :=
  set_buffer (filter (fun r => row_key r <> k) (deposit_buffer db)) db.

(** ORDER BY id ASC *)
Definition by_id (r r' : BufferRow) : Prop := row_id r <= row_id r'.
#[export] Instance by_id_dec r r' : Decision (by_id r r').
Proof. unfold by_id. apply _. Defined.
Definition order_by_id (rows : list BufferRow) : list BufferRow := merge_sort by_id rows.

(** [scanDeposits(rows)] *)
Fixpoint scanDeposits (rows : list BufferRow) : res (list Deposit) :=
  match rows with
  | [] => Ok []
  | r :: rows' =>
      match unmarshalDeposit (row_payload r) with
      | Ok d => rmap (cons d) (scanDeposits rows')
      | Err e => Err (Errorf "unmarshal payload" e)
      | Panic p => Panic p
      end
  end.

Record Stats := { PendingCount : Z; OldestAgeMicros : Z }.

(** ** Operations *)
Section Repo.
Context {E : Type} `{Env E}.

Definition SaveAndAdvance (chainID : Z) (scanner : string) (block : Z) (deposits : list Deposit)
    : M (World E) unit :=
  with_tx (fun now =>
    foldM (fun _ d => wrapf "insert deposit_buffer"
             (tx_exec (sql_insert_deposit now block d))) tt deposits ;;;
    wrapf "upsert scan_cursor"
      (tx_exec (fun db => Ok (sql_upsert_cursor chainID scanner (i64 block) db))) ;;;
    match deposits with
    | [] => ret tt
    | _ :: _ => wrapf "notify deposits" (tx_exec (fun db => Ok (sql_notify db)))
    end).

Definition Pending (chainID : Z) : M (World E) (list Deposit) :=
  query "query pending" (fun db => scanDeposits
    (order_by_id (filter (fun r => row_chain_id r = chainID) (deposit_buffer db)))).

(** rows with a NULL block_number satisfy no range *)
Definition in_range (chainID lo hi : Z) (r : BufferRow) : Prop :=
  row_chain_id r = chainID /\
  match row_block_number r with Some b => lo <= b <= hi | None => False end.
#[export] Instance in_range_dec chainID lo hi r : Decision (in_range chainID lo hi r).
Proof. unfold in_range. destruct (row_block_number r); apply _. Defined.

Definition PendingInRange (chainID fromBlock toBlock : Z) : M (World E) (list Deposit) :=
  query "query pending in range" (fun db => scanDeposits
    (order_by_id (filter (in_range chainID (i64 fromBlock) (i64 toBlock)) (deposit_buffer db)))).

Definition PendingAll (limit : Z) : M (World E) (list Deposit) :=
  query "query pending all" (fun db =>
    if limit <? 0 then Err (Errorf "query pending all" (ErrNew "LIMIT must not be negative"))
    else scanDeposits (take (Z.to_nat limit) (order_by_id (deposit_buffer db)))).

Definition Ack (chainID : Z) (txHash : string) (logIndex : Z) : M (World E) unit :=
  wrapf ("delete deposit_buffer (" +:+ dec chainID +:+ ", " +:+ txHash +:+ ", " +:+ dec logIndex +:+ ")") (
    if decide (is_i32 logIndex) then exec (sql_delete (chainID, txHash, logIndex))
    else fail int4_error).

Definition Buffer_Stats : M (World E) Stats :=
  query_at "query buffer stats" (fun now db =>
    let ages := (fun r => now - row_created_at r) <$> deposit_buffer db in
    Ok {| PendingCount := Z.of_nat (length (deposit_buffer db));
          OldestAgeMicros := match ages with
                             | [] => 0 | a :: l => foldr Z.max a l end |}).

(** a missing row is [pgx.ErrNoRows], mapped to 0 *)
Definition Cursor (chainID : Z) (scanner : string) : M (World E) Z :=
  query ("query cursor (" +:+ dec chainID +:+ ", " +:+ scanner +:+ ")")
    (fun db => match scan_cursor db !! (chainID, scanner) with
                   | None => Ok 0
                   | Some last => Ok (u64 last)
                   end).
End Repo.

(** ** The transaction as a function on databases *)

Definition new_row (now block : Z) (d : Deposit) (db : DB) : BufferRow :=
  mkRow (buffer_seq db) (ChainID d) (TxHash d) (LogIndex d) (marshalDeposit d) now (Some (i64 block)).

Definition insert_db (now block : Z) (db : DB) (d : Deposit) : DB :=
  mkDB (if decide (key_of d ∈ row_key <$> deposit_buffer db)
        then deposit_buffer db else deposit_buffer db ++ [new_row now block d db])
       (buffer_seq db + 1) (scan_cursor db) (notified db) (accounts db) (chain db) (token db).

Definition save_db (now chainID : Z) (scanner : string) (block : Z) (ds : list Deposit) (db : DB) : DB :=
  let db' := sql_upsert_cursor chainID scanner (i64 block) (foldl (insert_db now block) db ds) in
  match ds with [] => db' | _ :: _ => sql_notify db' end.

Lemma sql_insert_ok now block d db :
  is_i32 (LogIndex d) -> sql_insert_deposit now block d db = Ok (insert_db now block db d).
Proof. intros Hd. unfold sql_insert_deposit. by rewrite decide_True. Qed.

(** ** Well-formed databases

    Keys are unique, ids increase along the table and stay below the
    sequence, and every stored document is the marshalled deposit of its key. *)
Definition row_ok (r : BufferRow) : Prop :=
  exists d, deposit_ints d /\ row_payload r = marshalDeposit d /\ key_of d = row_key r /\
    is_i32 (row_log_index r).

Record db_wf (db : DB) : Prop := {
  wf_nodup : NoDup (row_key <$> deposit_buffer db);
  wf_sorted : StronglySorted (fun r r' => row_id r < row_id r') (deposit_buffer db);
  wf_seq : Forall (fun r => row_id r < buffer_seq db) (deposit_buffer db);
  wf_rows : Forall row_ok (deposit_buffer db)
}.

Lemma insert_db_wf now block db d :
  db_wf db -> deposit_ints d -> is_i32 (LogIndex d) -> db_wf (insert_db now block db d).
Proof.
  intros [Hn Hs Hq Hr] Hd Hi. unfold insert_db.
  destruct (decide (key_of d ∈ _)) as [Hin|Hout].
  - split; cbn; [done..| |done]. eapply Forall_impl; [exact Hq|]. intros ? ?; cbn in *; lia.
  - split; cbn.
    + rewrite fmap_app, NoDup_app. split_and!; [done| |apply NoDup_singleton].
      intros k Hk Hk'. cbn in Hk'. apply list_elem_of_singleton in Hk' as ->. exact (Hout Hk).
    + apply StronglySorted_app_2; [|done|repeat constructor].
      intros r r' Hr1 ->%list_elem_of_singleton. rewrite Forall_forall in Hq. by apply Hq.
    + apply Forall_app; split; [eapply Forall_impl; [exact Hq|]; intros ? ?; cbn in *; lia|].
      constructor; [cbn; lia|done].
    + apply Forall_app; split; [done|]. constructor; [|done]. by exists d.
Qed.

Lemma upsert_wf c s b db : db_wf db -> db_wf (sql_upsert_cursor c s b db).
Proof. intros []. by split. Qed.
Lemma notify_wf db : db_wf db -> db_wf (sql_notify db).
Proof. intros []. by split. Qed.

Lemma insert_all_wf now block ds db :
  db_wf db -> Forall deposit_ints ds -> Forall (fun d => is_i32 (LogIndex d)) ds ->
  db_wf (foldl (insert_db now block) db ds).
Proof.
  revert db. induction ds as [|d ds IH]; intros db Hw Hd Hi; [done|].
  inversion Hd; subst. inversion Hi; subst. cbn. apply IH; [|done..]. by apply insert_db_wf.
Qed.

Lemma save_db_wf now c s block ds db :
  db_wf db -> Forall deposit_ints ds -> Forall (fun d => is_i32 (LogIndex d)) ds ->
  db_wf (save_db now c s block ds db).
Proof.
  intros. unfold save_db. destruct ds; [|apply notify_wf]; by apply upsert_wf, insert_all_wf.
Qed.

Lemma Forall_filter_2 {A} (P Q : A -> Prop) `{!forall x, Decision (Q x)} l :
  Forall P l -> Forall P (filter Q l).
Proof. rewrite !Forall_forall. intros Hl x [_ Hx]%list_elem_of_filter. auto. Qed.

Lemma StronglySorted_filter_2 {A} (R : A -> A -> Prop) (Q : A -> Prop) `{!forall x, Decision (Q x)} l :
  StronglySorted R l -> StronglySorted R (filter Q l).
Proof.
  induction 1 as [|r l Hs IH Hf]; [constructor|].
  rewrite filter_cons. destruct (decide _); [|done]. constructor; [done|]. by apply Forall_filter_2.
Qed.

Lemma delete_wf k db : db_wf db -> db_wf (sql_delete k db).
Proof.
  intros [Hn Hs Hq Hr]. unfold sql_delete. split; cbn.
  - eapply sublist_NoDup; [exact Hn|]. apply fmap_sublist, sublist_filter.
  - by apply StronglySorted_filter_2.
  - by apply Forall_filter_2.
  - by apply Forall_filter_2.
Qed.

(** ** What the queries see *)

Lemma order_by_id_sorted rows :
  StronglySorted (fun r r' => row_id r < row_id r') rows -> order_by_id rows = rows.
Proof.
  intros Hs. unfold order_by_id.
  assert (Transitive by_id) as Ht by (intros ???; unfold by_id; lia).
  assert (Total by_id) as Htot by (intros ??; unfold by_id; lia).
  apply (StronglySorted_unique_strong by_id).
  - intros r r' Hr Hr' H1 H2. rewrite (merge_sort_Permutation by_id) in Hr.
    assert (row_id r = row_id r') as Heq by (unfold by_id in *; lia).
    clear -Hs Hr Hr' Heq. induction Hs as [|x l Hs IH Hf]; [by apply not_elem_of_nil in Hr|].
    rewrite Forall_forall in Hf.
    apply elem_of_cons in Hr as [->|Hr], Hr' as [->|Hr']; [done|..|by apply IH].
    + specialize (Hf _ Hr'). lia.
    + specialize (Hf _ Hr). lia.
  - by apply StronglySorted_merge_sort.
  - clear -Hs. induction Hs as [|x l Hs IH Hf]; constructor; [done|].
    eapply Forall_impl; [exact Hf|]. unfold by_id; intros; lia.
  - apply merge_sort_Permutation.
Qed.

Lemma scanDeposits_ok rows :
  Forall row_ok rows -> exists ds, scanDeposits rows = Ok ds /\
    Forall2 (fun r d => row_payload r = marshalDeposit d /\ deposit_ints d /\ key_of d = row_key r) rows ds.
Proof.
  induction 1 as [|r rows (d & Hd & Hp & Hk & _) _ (ds & Hds & Hf)].
  - by exists [].
  - exists (d :: ds). cbn. rewrite Hp, unmarshal_marshal by done. rewrite Hds. cbn.
    split; [done|]. by constructor.
Qed.

(** ** Specifications *)
Section Specs.
Context {E : Type} `{Env E}.

(** the world as the first round trip of an operation leaves it *)
Definition after_roundtrip (w : World E) : World E := (env_db w).2.

(** a statement succeeds on the view, or fails and leaves an error *)
Lemma tx_exec_cases (f : DB -> res DB) (db : DB) (e : E) p :
  (forall msg, f db <> Panic msg) ->
  exists r v, wrapf p (tx_exec f) (db, e) = (r, v) /\
    ((r = Ok tt /\ f db = Ok v.1) \/ exists err, r = Err err).
Proof.
  intros Hp. unfold wrapf, tx_exec. destruct (env_tx e) as [[err|] e1]; [by eauto 10|].
  destruct (f db) as [db'|err|msg]; [by eauto 10..|]. by destruct (Hp msg).
Qed.

Lemma tx_inserts_cases now block ds : forall db (e : E),
  exists r v, foldM (fun _ d => wrapf "insert deposit_buffer"
      (tx_exec (sql_insert_deposit now block d))) tt ds (db, e) = (r, v) /\
    ((r = Ok tt /\ v.1 = foldl (insert_db now block) db ds /\
      Forall (fun d => is_i32 (LogIndex d)) ds) \/ exists err, r = Err err).
Proof.
  induction ds as [|d ds IH]; intros db e; cbn [foldM]; [by eauto 10|].
  destruct (tx_exec_cases (sql_insert_deposit now block d) db e "insert deposit_buffer")
    as (r & [db1 e1] & Hx & Hr).
  { intros msg. unfold sql_insert_deposit. by destruct (decide _). }
  unfold bind. rewrite Hx. destruct Hr as [[-> Hf]|[err ->]]; [|by eauto 10].
  destruct (IH db1 e1) as (r & v & -> & [(-> & Hv & Hi)|Herr]); [|by eauto].
  exists (Ok tt), v. split; [done|]. left. cbn in Hf. unfold sql_insert_deposit in Hf.
  destruct (decide (is_i32 (LogIndex d))) as [Hid|]; [|done].
  injection Hf as <-. by split_and!; [| |constructor].
Qed.

(** Atomicity: whatever fails and wherever, the database afterwards is
    either untouched or holds the whole transaction; it holds the whole
    transaction when [nil] is returned. *)
Lemma SaveAndAdvance_cases c s block ds (w : World E) :
  let w1 := after_roundtrip w in
  let saved := save_db (db_now (w_ext w1)) c s block ds (w_db w1) in
  let '(r, w') := SaveAndAdvance c s block ds w in
  (r = Ok tt /\ w_db w' = saved /\ Forall (fun d => is_i32 (LogIndex d)) ds) \/
  ((exists err, r = Err err) /\
    (w_db w' = w_db w1 \/ w_db w' = saved /\ Forall (fun d => is_i32 (LogIndex d)) ds)) \/
  ((exists p, r = Panic p) /\ w' = w1).
Proof.
  cbv zeta. unfold SaveAndAdvance, with_tx, after_roundtrip. unfold bind at 1, wrapf at 1.
  destruct (env_db w) as [[[]|err|p] w1]; cbn; [|by eauto 10..].
  set (now := db_now (w_ext w1)).
  destruct (tx_inserts_cases now block ds (w_db w1) (w_ext w1))
    as (r & [db1 e1] & Hx & Hr).
  unfold bind at 1. rewrite Hx. destruct Hr as [(-> & Hv & Hi)|[err ->]]; [|cbn; by eauto 10].
  cbn in Hv. subst db1. set (db1 := foldl (insert_db now block) (w_db w1) ds) in *.
  destruct (tx_exec_cases (fun db => Ok (sql_upsert_cursor c s (i64 block) db)) db1 e1
    "upsert scan_cursor") as (r & [db2 e2] & Hy & Hr); [done|].
  unfold bind at 1. rewrite Hy. destruct Hr as [[-> [= <-]]|[err ->]]; [|cbn; by eauto 10].
  destruct ds as [|d ds].
  - cbn. destruct (env_commit e2) as [[|err|err] e3]; cbn; eauto 10.
  - destruct (tx_exec_cases (fun db => Ok (sql_notify db))
      (sql_upsert_cursor c s (i64 block) db1) e2 "notify deposits") as (r & [db3 e3] & Hz & Hr);
      [done|].
    rewrite Hz. destruct Hr as [[-> [= <-]]|[err ->]]; [|cbn; by eauto 10].
    destruct (env_commit e3) as [[|err|err] e4]; cbn; eauto 10.
Qed.
End Specs.

(** ** The effect of a saved block *)

Definition keys_of (db : DB) : list key := row_key <$> deposit_buffer db.

Lemma insert_db_keys now block db d k :
  k ∈ keys_of (insert_db now block db d) <-> k ∈ keys_of db \/ k = key_of d.
Proof.
  unfold keys_of, insert_db. cbn. destruct (decide _) as [Hin|Hout].
  - split; [by left|]. intros [?| ->]; done.
  - rewrite fmap_app, elem_of_app. cbn. rewrite list_elem_of_singleton. done.
Qed.

Lemma insert_all_keys now block ds db k :
  k ∈ keys_of (foldl (insert_db now block) db ds) <-> k ∈ keys_of db \/ k ∈ key_of <$> ds.
Proof.
  revert db. induction ds as [|d ds IH]; intros db; cbn.
  - rewrite elem_of_nil. tauto.
  - rewrite IH, insert_db_keys, elem_of_cons. tauto.
Qed.

Lemma insert_db_prefix now block db d :
  deposit_buffer db `prefix_of` deposit_buffer (insert_db now block db d).
Proof. unfold insert_db. cbn. destruct (decide _); [done|]. by eexists. Qed.

Lemma insert_all_prefix now block ds db :
  deposit_buffer db `prefix_of` deposit_buffer (foldl (insert_db now block) db ds).
Proof.
  revert db. induction ds as [|d ds IH]; intros db; cbn; [done|].
  etrans; [apply insert_db_prefix|apply IH].
Qed.

Lemma insert_all_cursor now block ds db :
  scan_cursor (foldl (insert_db now block) db ds) = scan_cursor db.
Proof. revert db. induction ds as [|d ds IH]; intros db; cbn; [done|]. by rewrite IH. Qed.

Lemma insert_all_known now block ds db :
  (forall d, d ∈ ds -> key_of d ∈ keys_of db) ->
  deposit_buffer (foldl (insert_db now block) db ds) = deposit_buffer db.
Proof.
  revert db. induction ds as [|d ds IH]; intros db Hk; cbn; [done|].
  assert (deposit_buffer (insert_db now block db d) = deposit_buffer db) as Heq.
  { unfold insert_db. cbn. rewrite decide_True; [done|]. apply Hk. by left. }
  rewrite IH; [done|]. intros d' Hd'. unfold keys_of. rewrite Heq. apply Hk. by right.
Qed.

Lemma save_db_buffer now c s block ds db :
  deposit_buffer (save_db now c s block ds db) = deposit_buffer (foldl (insert_db now block) db ds).
Proof. unfold save_db. by destruct ds. Qed.

Lemma save_db_cursor now c s block ds db :
  scan_cursor (save_db now c s block ds db) = <[(c, s) := i64 block]> (scan_cursor db).
Proof. unfold save_db. destruct ds; cbn; by rewrite ?insert_all_cursor. Qed.

Lemma save_db_keys now c s block ds db k :
  k ∈ keys_of (save_db now c s block ds db) <-> k ∈ keys_of db \/ k ∈ key_of <$> ds.
Proof. unfold keys_of at 1. rewrite save_db_buffer. apply insert_all_keys. Qed.

Lemma delete_keys k db k' : k' ∈ keys_of (sql_delete k db) <-> k' ∈ keys_of db /\ k' <> k.
Proof.
  unfold keys_of, sql_delete. cbn. rewrite !list_elem_of_fmap.
  setoid_rewrite list_elem_of_filter. naive_solver.
Qed.

(** What a completed [SaveAndAdvance(c, s, block, ds)] leaves of [before]. *)
Definition durably_saved (c : Z) (s : string) (block : Z) (ds : list Deposit) (before after : DB) : Prop :=
  scan_cursor after = <[(c, s) := i64 block]> (scan_cursor before) /\
  (forall k, k ∈ keys_of after <-> k ∈ keys_of before \/ k ∈ key_of <$> ds) /\
  deposit_buffer before `prefix_of` deposit_buffer after.

Lemma save_db_durable now c s block ds db :
  durably_saved c s block ds db (save_db now c s block ds db).
Proof.
  split_and!; [apply save_db_cursor|apply save_db_keys|].
  rewrite save_db_buffer. apply insert_all_prefix.
Qed.

Section Properties.
Context {E : Type} `{Env E}.

(** C9. The cursor moves only together with durable storage.  Whatever
    statement, round trip or commit fails, after [SaveAndAdvance] the
    database (as the opening round trip left it) is either unchanged, or has
    the cursor at [block], every deposit of the block among its keys, no
    other new key, and all earlier rows in place; when [nil] is returned it
    is the latter. *)
Theorem SaveAndAdvance_atomic (c : Z) (s : string) (block : Z) (ds : list Deposit) (w : World E) :
  let before := w_db (after_roundtrip w) in
  let '(r, w') := SaveAndAdvance c s block ds w in
  (w_db w' = before \/ durably_saved c s block ds before (w_db w')) /\
  (r = Ok tt -> durably_saved c s block ds before (w_db w')).
Proof.
  pose proof (SaveAndAdvance_cases c s block ds w) as Hc. cbv zeta in *.
  destruct (SaveAndAdvance c s block ds w) as [r w'].
  destruct Hc as [(-> & -> & _)|[([err ->] & [-> |[-> _]])|([p ->] & ->)]];
    eauto using save_db_durable.
  all: split; eauto using save_db_durable; discriminate.
Qed.

Lemma save_wf c s block ds :
  preserves (fun w : World E => db_wf (w_db w)) env_db -> Forall deposit_ints ds ->
  preserves (fun w : World E => db_wf (w_db w)) (SaveAndAdvance c s block ds).
Proof.
  intros Henv Hds w Hw. pose proof (SaveAndAdvance_cases c s block ds w) as Hc.
  cbv zeta in Hc. specialize (Henv w Hw). fold (after_roundtrip w) in Henv. cbn in Henv.
  destruct (SaveAndAdvance c s block ds w) as [r w']. cbn.
  destruct Hc as [(-> & -> & Hi)|[([err ->] & [-> | [-> Hi]])|([p ->] & ->)]];
    auto using save_db_wf.
Qed.

(** C20. Table invariant: unique keys, ids increasing along the table and
    below the sequence, every payload decodable to a deposit of its key.
    [SaveAndAdvance] and [Ack] keep it on every outcome, if the other
    sessions do. *)
Theorem buffer_invariant :
  preserves (fun w : World E => db_wf (w_db w)) env_db ->
  (forall c s block ds, Forall deposit_ints ds ->
     preserves (fun w : World E => db_wf (w_db w)) (SaveAndAdvance c s block ds)) /\
  (forall c tx li, preserves (fun w : World E => db_wf (w_db w)) (Ack c tx li)).
Proof.
  intros Henv. split.
  - intros c s block ds. by apply save_wf.
  - intros c tx li. unfold Ack, exec. apply preserves_wrapf. destruct (decide _); eff.
    apply preserves_modify. cbn. intros. by apply delete_wf.
Qed.

(** Re-scanning is idempotent: saving deposits whose keys are already
    buffered adds no row and changes none; it only moves the cursor. *)
Theorem rescan_idempotent (c : Z) (s : string) (block : Z) (ds : list Deposit) (w : World E) :
  (forall d, d ∈ ds -> key_of d ∈ keys_of (w_db (after_roundtrip w))) ->
  deposit_buffer (w_db (SaveAndAdvance c s block ds w).2) =
  deposit_buffer (w_db (after_roundtrip w)).
Proof.
  intros Hk. pose proof (SaveAndAdvance_cases c s block ds w) as Hc. cbv zeta in Hc.
  destruct (SaveAndAdvance c s block ds w) as [r w']. cbn.
  destruct Hc as [(_ & -> & _)|[(_ & [-> |[-> _]])|(_ & ->)]]; try done;
    rewrite save_db_buffer; by apply insert_all_known.
Qed.

(** the query on the table the round trip left *)
Lemma PendingAll_rows (limit : Z) (w w1 : World E) :
  env_db w = (Ok tt, w1) -> 0 <= limit -> db_wf (w_db w1) ->
  exists ds, PendingAll limit w = (Ok ds, w1) /\
    Forall2 (fun r d => row_payload r = marshalDeposit d /\ deposit_ints d /\ key_of d = row_key r)
      (take (Z.to_nat limit) (deposit_buffer (w_db w1))) ds.
Proof.
  intros Hok Hl Hwf. unfold PendingAll, query, query_at, wrapf, bind. rewrite Hok.
  rewrite (proj2 (Z.ltb_ge _ _)) by done.
  rewrite order_by_id_sorted by apply Hwf.
  destruct (scanDeposits_ok (take (Z.to_nat limit) (deposit_buffer (w_db w1)))) as (ds & -> & Hf).
  { apply Forall_take, Hwf. }
  by exists ds.
Qed.

Lemma rows_keys rows ds :
  Forall2 (fun r d => row_payload r = marshalDeposit d /\ deposit_ints d /\ key_of d = row_key r) rows ds ->
  key_of <$> ds = row_key <$> rows.
Proof. induction 1 as [|r d rows ds (_ & _ & Hk) _ IH]; [done|]. cbn. by rewrite Hk, IH. Qed.

(** C22. [PendingAll(limit)] hands out the oldest [limit] rows in insertion
    order, each decoded to the very deposit that was stored: no stored row
    can make the query fail. *)
Theorem PendingAll_oldest_first (limit : Z) (w : World E) :
  let w1 := after_roundtrip w in
  (env_db w).1 = Ok tt -> 0 <= limit -> db_wf (w_db w1) ->
  exists ds, PendingAll limit w = (Ok ds, w1) /\
    key_of <$> ds = take (Z.to_nat limit) (keys_of (w_db w1)) /\
    marshalDeposit <$> ds = take (Z.to_nat limit) (row_payload <$> deposit_buffer (w_db w1)).
Proof.
  cbv zeta. intros Hok Hl Hwf.
  destruct (PendingAll_rows limit w (after_roundtrip w)) as (ds & Hp & Hf); [|done..|].
  { unfold after_roundtrip. by rewrite <- Hok, <- surjective_pairing. }
  exists ds. split_and!; [done| |].
  - rewrite (rows_keys _ _ Hf). unfold keys_of. by rewrite fmap_take.
  - rewrite <- fmap_take. clear -Hf. induction Hf as [|r d rows ds (Hr & _) _ IH]; [done|].
    cbn. by rewrite Hr, IH.
Qed.

Lemma save_db_cursor_read now c s block ds db :
  is_u64 block ->
  match scan_cursor (save_db now c s block ds db) !! (c, s) with
  | None => 0 | Some last => u64 last end = block.
Proof. intros Hb. rewrite save_db_cursor, lookup_insert_eq. by apply u64_i64. Qed.
End Properties.

(** ** Rows under their own keys

    A stored document decodes, if at all, to a deposit of its row's key.  It
    holds of whatever this code stores, in any state of the table. *)
Definition keyed_row (r : BufferRow) : Prop := forall d, unmarshalDeposit (row_payload r) = Ok d -> key_of d = row_key r.
Definition keyed (db : DB) : Prop := Forall keyed_row (deposit_buffer db).

Lemma keyed_delete k db : keyed db -> keyed (sql_delete k db).
Proof. intros Hk. by apply Forall_filter_2. Qed.

Lemma keyed_insert_all now block ds db : keyed db -> keyed (foldl (insert_db now block) db ds).
Proof.
  revert db. induction ds as [|d ds IH]; intros db Hk; [done|]. apply IH. unfold keyed, insert_db. cbn.
  destruct (decide _); [done|]. apply Forall_app. split; [done|]. constructor; [|done].
  by intros d' ->%unmarshal_marshal_Ok.
Qed.

Lemma keyed_save now c s block ds db : keyed db -> keyed (save_db now c s block ds db).
Proof. intros Hk. unfold keyed. rewrite save_db_buffer. by apply keyed_insert_all. Qed.

(** whatever becomes of a save *)
Lemma save_keyed {E : Type} `{Env E} c s block ds (w : World E) :
  keyed (w_db (after_roundtrip w)) -> keyed (w_db (SaveAndAdvance c s block ds w).2).
Proof.
  intros Hk. pose proof (SaveAndAdvance_cases c s block ds w) as Hc. cbv zeta in Hc.
  destruct (SaveAndAdvance c s block ds w) as [r w']. cbn.
  destruct Hc as [(_ & -> & _)|[(_ & [-> |[-> _]])|(_ & ->)]]; try done; by apply keyed_save.
Qed.

Lemma scanDeposits_keys rows ds : Forall keyed_row rows -> scanDeposits rows = Ok ds -> key_of <$> ds = row_key <$> rows.
Proof.
  intros Hk. revert ds. induction Hk as [|r rows Hr _ IH]; intros ds; cbn; [by intros [= <-]|].
  destruct (unmarshalDeposit _) as [d|e|p] eqn:Hd; [|done..].
  destruct (scanDeposits rows) as [ds'|e|p]; [|done..]. intros [= <-]. cbn. by rewrite (Hr d Hd), (IH ds' eq_refl).
Qed.

(** what [PendingAll] hands out is in the table *)
Lemma PendingAll_listed {E : Type} `{Env E} (limit : Z) (w w' : World E) ds :
  PendingAll limit w = (Ok ds, w') -> keyed (w_db w') -> Forall (fun d => key_of d ∈ keys_of (w_db w')) ds.
Proof.
  unfold PendingAll, query, query_at, wrapf, bind. destruct (env_db w) as [[[]|e|p] w1]; [|done..].
  destruct (limit <? 0); [done|]. intros [= Hs <-] Hk.
  assert (forall r, r ∈ take (Z.to_nat limit) (order_by_id (deposit_buffer (w_db w1))) -> r ∈ deposit_buffer (w_db w1)) as Hin.
  { intros r Hr. eapply elem_of_sublist in Hr; [|apply sublist_take]. unfold order_by_id in Hr.
    by rewrite (merge_sort_Permutation by_id) in Hr. }
  apply scanDeposits_keys in Hs; [|apply Forall_forall; intros r Hr; by apply (proj1 (Forall_forall _ _) Hk), Hin].
  apply Forall_forall. intros d Hd. apply (list_elem_of_fmap_2 key_of) in Hd. rewrite Hs in Hd.
  apply list_elem_of_fmap in Hd as (r & -> & Hr). by apply list_elem_of_fmap_2, Hin.
Qed.

(** What transactions keep of the outside holds after [SaveAndAdvance] when
    it holds after its opening round trip. *)
Section ExtFrame.
Context {E : Type} `{Env E} (P : E -> Prop).
Hypothesis P_tx : forall e, P e -> P (env_tx e).2.
Hypothesis P_commit : forall e, P e -> P (env_commit e).2.

Lemma tx_exec_frame g : preserves (fun v : DB * E => P v.2) (tx_exec g).
Proof.
  intros [db e] He. unfold tx_exec. pose proof (P_tx e He) as Ht.
  destruct (env_tx e) as [[err|] e']; cbn in *; [done|]. by destruct (g db).
Qed.

Lemma with_tx_frame body w :
  (forall now, preserves (fun v : DB * E => P v.2) (body now)) ->
  P (w_ext (after_roundtrip w)) -> P (w_ext (with_tx body w).2).
Proof.
  intros Hb Hw. unfold with_tx, after_roundtrip, bind, wrapf in *.
  destruct (env_db w) as [[[]|err|p] w1]; cbn in *; [|done..].
  specialize (Hb (db_now (w_ext w1)) (w_db w1, w_ext w1) Hw).
  destruct (body _ _) as [[[]|err|p] [db e]]; cbn in *; [|done..].
  pose proof (P_commit e Hb). by destruct (env_commit e) as [[] e'].
Qed.

Lemma SaveAndAdvance_frame c s block ds w :
  P (w_ext (after_roundtrip w)) -> P (w_ext (SaveAndAdvance c s block ds w).2).
Proof.
  apply with_tx_frame. intros now. pose proof tx_exec_frame as Hf.
  eff; apply preserves_wrapf, Hf.
Qed.
End ExtFrame.

(** ** Concrete runs *)
Module BufferWitness.
Import Quiet.

Definition dep (tx : string) (li : Z) : Deposit :=
  mkDeposit 1 tx li "0xf" "0xt" "2.5" 12 "ETH" "TXCF" "20231115071320" "20231115071320007".
Definition two : World Z := (SaveAndAdvance 1 "erc20" 7 [dep "0xaa" 0; dep "0xaa" 1] start).2.

Lemma two_wf : db_wf (w_db two).
Proof.
  change (w_db two) with
    (save_db 1700000000000000 1 "erc20" 7 [dep "0xaa" 0; dep "0xaa" 1] emptyDB).
  apply save_db_wf; [split; cbn; constructor|repeat constructor..];
    vm_compute; intuition congruence.
Qed.

Lemma buffer_invariant_witness : db_wf (w_db (Ack 1 "0xaa" 0 two).2) /\
  keys_of (w_db (Ack 1 "0xaa" 0 two).2) = [(1, "0xaa", 1)].
Proof.
  split; [|reflexivity].
  apply (proj2 (buffer_invariant (E := Z) ltac:(intros w Hw; exact Hw)) 1 "0xaa" 0), two_wf.
Defined.

Lemma rescan_idempotent_witness :
  deposit_buffer (w_db (SaveAndAdvance 1 "erc20" 7 [dep "0xaa" 1] two).2) = deposit_buffer (w_db two) /\
  length (deposit_buffer (w_db two)) = 2%nat.
Proof.
  split; [|reflexivity]. etrans; [apply (rescan_idempotent (E := Z) 1 "erc20" 7 [dep "0xaa" 1] two)|reflexivity].
  intros d ->%list_elem_of_singleton. right. left.
Defined.

Lemma PendingAll_oldest_first_witness : exists ds,
  PendingAll 1 two = (Ok ds, two) /\ key_of <$> ds = [(1, "0xaa", 0)].
Proof.
  destruct (PendingAll_oldest_first (E := Z) 1 two) as (ds & Hp & Hk & _);
    [reflexivity|lia|exact two_wf|].
  exists ds. split; [exact Hp|exact Hk].
Defined.
End BufferWitness.
