(* ===== verification/Spec.v ===== *)
(** * What the listener promises

    The abstract ledger: per (chain, scanner) the last block processed and
    the block it started from, the keys waiting in the buffer, the keys handed
    over to the Adapter.  Its steps are the only changes the program may make
    to durable state; [no_loss] is the README's requirement, proved by rule
    induction over the steps.  [BufferRepo.v], [Loop.v] and [Publisher.v]
    refine it ([abs] relates a world to a ledger). *)
From stdpp Require Import base gmap list strings relations.
From Stdlib Require Import ZArith Lia Ascii String.
From stdpp Require Import base strings.
From S2P Require Import Prelude Effect Model Store BufferRepo.

Record ledger := mkLedger {
  l_cursor : gmap (Z * string) Z;
  l_base : gmap (Z * string) Z;
  l_buffer : gset key;
  l_handed : gset key
}.

(** Block numbers stay below [2^64 - 1], so [cursor + 1] does not wrap. *)
Definition maxBlock : Z := two64 - 1.

Section Spec.
(** the keys of the deposits the chain really has in a block, per scanner *)
Variable truth : Z -> string -> Z -> list key.

Inductive step : ledger -> ledger -> Prop :=
(* a chain with no cursor (or cursor 0) starts at block [b] *)
| step_start l c s b :
    (l_cursor l !! (c, s) = None \/ l_cursor l !! (c, s) = Some 0) ->
    b < maxBlock ->
    step l (mkLedger (<[(c, s) := b]> (l_cursor l)) (<[(c, s) := b]> (l_base l))
              (l_buffer l) (l_handed l))
(* the next block and everything in it, at once *)
| step_block l c s n :
    l_cursor l !! (c, s) = Some n ->
    n + 1 < maxBlock ->
    step l (mkLedger (<[(c, s) := n + 1]> (l_cursor l)) (l_base l)
              (l_buffer l ∪ list_to_set (truth c s (n + 1))) (l_handed l))
(* the Adapter takes over a waiting deposit *)
| step_hand l k :
    k ∈ l_buffer l ->
    step l (mkLedger (l_cursor l) (l_base l) (l_buffer l) ({[k]} ∪ l_handed l))
(* a deposit leaves the buffer only once handed over *)
| step_drop l k :
    k ∈ l_handed l ->
    step l (mkLedger (l_cursor l) (l_base l) (l_buffer l ∖ {[k]}) (l_handed l)).

(** Every deposit of every processed block is waiting or handed over. *)
Definition no_loss (l : ledger) : Prop :=
  forall c s base n b k,
    l_base l !! (c, s) = Some base -> l_cursor l !! (c, s) = Some n ->
    base < b <= n -> k ∈ truth c s b ->
    k ∈ l_buffer l \/ k ∈ l_handed l.

(** Nothing is made up: beyond what was there at the start ([k0]), a key is
    in some block between base and cursor. *)
Definition genuine (k0 : gset key) (l : ledger) : Prop :=
  forall k, k ∈ l_buffer l \/ k ∈ l_handed l -> k ∈ k0 \/
    exists c s b, k ∈ truth c s b.

(** a ledger whose blocks are still to come *)
Definition fresh (l : ledger) : Prop := l_base l = l_cursor l.

Lemma no_loss_fresh l : fresh l -> no_loss l.
Proof. intros Hf c s base n b k Hb Hn. unfold fresh in Hf. rewrite Hf, Hn in Hb. naive_solver lia. Qed.

Lemma no_loss_step l l' : step l l' -> no_loss l -> no_loss l'.
Proof.
  intros Hs Hl. destruct Hs as [l c s b0 Hc Hmax|l c s n0 Hc Hmax|l k0 Hk|l k0 Hk];
    intros c' s' base n b k Hbase Hcur Hb Hk'; cbn in *.
  - destruct (decide ((c, s) = (c', s'))) as [Heq|Hne].
    + rewrite Heq, lookup_insert_eq in Hbase, Hcur. naive_solver lia.
    + rewrite lookup_insert_ne in Hbase, Hcur by done. by eapply Hl.
  - destruct (decide ((c, s) = (c', s'))) as [[= <- <-]|Hne].
    + rewrite lookup_insert_eq in Hcur. injection Hcur as <-.
      destruct (decide (b = n0 + 1)) as [->|].
      * left. apply elem_of_union. right. by apply elem_of_list_to_set.
      * destruct (Hl c s base n0 b k Hbase Hc); [lia|done|set_solver..].
    + rewrite lookup_insert_ne in Hcur by done.
      destruct (Hl c' s' base n b k); [done..|set_solver|set_solver].
  - destruct (Hl c' s' base n b k); [done..|set_solver|set_solver].
  - destruct (decide (k = k0)) as [->|]; [by right|].
    destruct (Hl c' s' base n b k); [done..|set_solver|set_solver].
Qed.

Lemma genuine_step k0 l l' : step l l' -> genuine k0 l -> genuine k0 l'.
Proof.
  intros Hs Hl. destruct Hs as [l c s b0 Hc Hmax|l c s n0 Hc Hmax|l k1 Hk|l k1 Hk]; intros k Hk'; cbn in *.
  - by apply Hl.
  - rewrite elem_of_union, elem_of_list_to_set in Hk'.
    destruct Hk' as [[Hk'|Hk']|Hk']; [apply Hl; by left| |apply Hl; by right].
    right. by exists c, s, (n0 + 1).
  - apply Hl. set_solver.
  - apply Hl. set_solver.
Qed.

(** every cursor is a block number that can still be incremented *)
Definition bounded (l : ledger) : Prop :=
  forall c s n, l_cursor l !! (c, s) = Some n -> n < maxBlock.

Lemma bounded_step l l' : step l l' -> bounded l -> bounded l'.
Proof.
  intros Hs Hl. destruct Hs as [l c s b0 Hc Hmax|l c s n0 Hc Hmax|l k1 Hk|l k1 Hk];
    intros c' s' n Hn; cbn in *; try (by eapply Hl).
  all: destruct (decide ((c, s) = (c', s'))) as [Heq|Hne];
    [rewrite Heq, lookup_insert_eq in Hn; naive_solver|
     rewrite lookup_insert_ne in Hn by done; by eapply Hl].
Qed.

Lemma bounded_rtc l l' : rtc step l l' -> bounded l -> bounded l'.
Proof. induction 1; eauto using bounded_step. Qed.
Lemma no_loss_rtc l l' : rtc step l l' -> no_loss l -> no_loss l'.
Proof. induction 1; eauto using no_loss_step. Qed.
Lemma genuine_rtc k0 l l' : rtc step l l' -> genuine k0 l -> genuine k0 l'.
Proof. induction 1; eauto using genuine_step. Qed.

(** a started cursor never goes back, a waiting deposit stays until taken over *)
Lemma cursor_step l l' cs n : step l l' -> l_cursor l !! cs = Some n -> 0 < n ->
  exists n', l_cursor l' !! cs = Some n' /\ n <= n'.
Proof.
  intros [l1 c s b Hc Hm|l1 c s m Hc Hm|l1 k Hk|l1 k Hk] Hn Hpos; cbn; eauto using Z.le_refl;
    (destruct (decide ((c, s) = cs)) as [<-|]; [|rewrite lookup_insert_ne by done; eauto using Z.le_refl]).
  - rewrite Hn in Hc. destruct Hc as [|[= ->]]; [done|lia].
  - rewrite lookup_insert_eq. eexists. split; [done|]. simplify_eq. lia.
Qed.
Lemma cursor_rtc l l' cs n : rtc step l l' -> l_cursor l !! cs = Some n -> 0 < n ->
  exists n', l_cursor l' !! cs = Some n' /\ n <= n'.
Proof.
  intros Hr. revert n. induction Hr as [|l1 l2 l3 Hs _ IH]; intros n Hn Hpos; [eauto using Z.le_refl|].
  destruct (cursor_step _ _ _ _ Hs Hn Hpos) as (n2 & Hn2 & Hle). destruct (IH n2 Hn2) as (n3 & Hn3 & Hle3); [lia|].
  exists n3. split; [done|lia].
Qed.
Lemma waiting_rtc l l' k : rtc step l l' -> k ∈ l_buffer l \/ k ∈ l_handed l -> k ∈ l_buffer l' \/ k ∈ l_handed l'.
Proof.
  induction 1 as [|l1 l2 l3 Hs _ IH]; [done|]. intros Hk. apply IH.
  destruct Hs as [l1 c s b Hc Hm|l1 c s m Hc Hm|l1 k1 Hk1|l1 k1 Hk1]; cbn; [done|set_solver..|].
  destruct (decide (k = k1)) as [->|]; set_solver.
Qed.

(** where the bases started matters to no step *)
Lemma step_rebase l l' b0 : step l l' -> exists b1,
  step (mkLedger (l_cursor l) b0 (l_buffer l) (l_handed l)) (mkLedger (l_cursor l') b1 (l_buffer l') (l_handed l')).
Proof.
  intros [l1 c s b Hc Hm|l1 c s n Hc Hm|l1 k Hk|l1 k Hk]; eexists; cbn.
  - by apply (step_start (mkLedger (l_cursor l1) b0 (l_buffer l1) (l_handed l1))).
  - by apply (step_block (mkLedger (l_cursor l1) b0 (l_buffer l1) (l_handed l1))).
  - by apply (step_hand (mkLedger (l_cursor l1) b0 (l_buffer l1) (l_handed l1))).
  - by apply (step_drop (mkLedger (l_cursor l1) b0 (l_buffer l1) (l_handed l1))).
Qed.

Lemma rtc_rebase l l' b0 : rtc step l l' -> exists b1,
  rtc step (mkLedger (l_cursor l) b0 (l_buffer l) (l_handed l)) (mkLedger (l_cursor l') b1 (l_buffer l') (l_handed l')).
Proof.
  intros Hr. revert b0. induction Hr as [l|l1 l2 l3 Hs _ IH]; intros b0; [by exists b0|].
  destruct (step_rebase l1 l2 b0 Hs) as (b1 & Hs'). destruct (IH b1) as (b2 & Hr'). exists b2. by eapply rtc_l.
Qed.

(** ** Relating worlds to ledgers *)

(** Block numbers are stored as BIGINT and read back as [uint64]. *)
Record abs_db (db : DB) (handed : gset key) (l : ledger) : Prop := {
  abs_cursor : u64 <$> scan_cursor db = l_cursor l;
  abs_buffer : forall k, k ∈ keys_of db <-> k ∈ l_buffer l;
  abs_handed : handed = l_handed l
}.

Context {E : Type}.
(** which deposits the Adapter has taken over, a part of the outside *)
Variable handed : E -> gset key.

Definition abs (w : World E) (l : ledger) : Prop := abs_db (w_db w) (handed (w_ext w)) l.

(** the world is one the specification can reach from [l0] *)
Definition reachable (l0 : ledger) (w : World E) : Prop :=
  exists l, rtc step l0 l /\ abs w l.

(** the ledger of a database at start-up *)
Definition ledger_of (w : World E) : ledger :=
  mkLedger (u64 <$> scan_cursor (w_db w)) (u64 <$> scan_cursor (w_db w))
    (list_to_set (keys_of (w_db w))) (handed (w_ext w)).

Lemma reachable_refl w : reachable (ledger_of w) w.
Proof.
  exists (ledger_of w). split; [constructor|].
  split; cbn; [done| |done]. intros k. by rewrite elem_of_list_to_set.
Qed.

(** The requirement, on worlds: with [base] the cursor of (c, s) at
    start-up, every deposit of the blocks processed since is in
    [deposit_buffer] or with the Adapter. *)
Definition nothing_lost (w0 w : World E) : Prop :=
  forall c s base n b k,
    scan_cursor (w_db w0) !! (c, s) = Some base -> u64 base <> 0 ->
    scan_cursor (w_db w) !! (c, s) = Some n ->
    u64 base < b <= u64 n -> k ∈ truth c s b ->
    k ∈ keys_of (w_db w) \/ k ∈ handed (w_ext w).

(** the base of a started chain never moves *)
Lemma base_stable l l' c s b :
  step l l' -> l_base l !! (c, s) = Some b ->
  (exists n, l_cursor l !! (c, s) = Some n /\ 0 < b <= n) ->
  l_base l' !! (c, s) = Some b /\ exists n, l_cursor l' !! (c, s) = Some n /\ 0 < b <= n.
Proof.
  intros Hs Hb (n & Hn & Hle). destruct Hs as [l c' s' b0 Hc Hmax|l c' s' n0 Hc Hmax|l k1 Hk|l k1 Hk]; cbn.
  - destruct (decide ((c', s') = (c, s))) as [[= -> ->]|Hne].
    + rewrite Hn in Hc. naive_solver lia.
    + rewrite !lookup_insert_ne by done. eauto.
  - split; [done|]. destruct (decide ((c', s') = (c, s))) as [[= -> ->]|Hne].
    + rewrite lookup_insert_eq. eexists; split; [done|]. simplify_eq. lia.
    + rewrite lookup_insert_ne by done. eauto.
  - eauto.
  - eauto.
Qed.

Lemma base_stable_rtc l l' c s b :
  rtc step l l' -> l_base l !! (c, s) = Some b ->
  (exists n, l_cursor l !! (c, s) = Some n /\ 0 < b <= n) ->
  l_base l' !! (c, s) = Some b.
Proof.
  induction 1 as [|l1 l2 l3 Hs Hr IH]; intros Hb Hn; [done|].
  destruct (base_stable _ _ _ _ _ Hs Hb Hn). auto.
Qed.

Lemma reachable_nothing_lost w0 w : reachable (ledger_of w0) w -> nothing_lost w0 w.
Proof.
  intros (l & Hr & [Hc Hb Hh]) c s base n b k Hbase Hnz Hn Hrange Hk.
  assert (no_loss l) as Hl by (eapply no_loss_rtc; [exact Hr|by apply no_loss_fresh]).
  assert (l_base l !! (c, s) = Some (u64 base)) as Hbl.
  { eapply base_stable_rtc; [exact Hr|cbn; by rewrite lookup_fmap, Hbase|].
    exists (u64 base). cbn. rewrite lookup_fmap, Hbase. split; [done|].
    pose proof (u64_range base) as [? ?]. lia. }
  rewrite Hb, Hh. eapply Hl; [exact Hbl| |exact Hrange|exact Hk].
  by rewrite <- Hc, lookup_fmap, Hn.
Qed.

(** ** What one goroutine may assume of the others

    From [w] to [w'] only ledger steps were made, and the cursor [own] was
    not written: there is one loop per chain and scanner. *)
Definition coop_rel (own : Z * string) (w w' : World E) : Prop :=
  scan_cursor (w_db w') !! own = scan_cursor (w_db w) !! own /\
  forall l, abs w l -> exists l', rtc step l l' /\ abs w' l'.

#[export] Instance coop_rel_preorder own : PreOrder (coop_rel own).
Proof.
  split.
  - intros w. split; [done|]. intros l Hl. by exists l.
  - intros w1 w2 w3 [H1 H1'] [H2 H2']. split; [by rewrite H2|].
    intros l Hl. destruct (H1' l Hl) as (l' & Hr & Hl').
    destruct (H2' l' Hl') as (l'' & Hr' & Hl''). exists l''. split; [by etrans|done].
Qed.

(** A call during which the others do so.  A goroutine may have a memory of
    its own, a part of [E] that satisfies [J] between its steps and that the
    others leave intact. *)
Definition cooperates_with (J : E -> Prop) (own : Z * string) {A} (m : M (World E) A) : Prop :=
  forall w, J (w_ext w) -> coop_rel own w (m w).2 /\ J (w_ext (m w).2).

(** in the program logic of [Effect.v] *)
Lemma cooperates_with_preserves J own {A} (m : M (World E) A) :
  cooperates_with J own m <-> forall w0, preserves (fun w => coop_rel own w0 w /\ J (w_ext w)) m.
Proof.
  split.
  - intros Hm w0 w [Hw HJ]. destruct (Hm w HJ). split; [by etrans|done].
  - intros Hm w HJ. by apply Hm.
Qed.

(** worlds with the same tables and the same hand-overs *)
Lemma coop_same own w w' :
  w_db w' = w_db w -> handed (w_ext w') = handed (w_ext w) -> coop_rel own w w'.
Proof.
  intros Hdb Hh. split; [by rewrite Hdb|]. intros l [H1 H2 H3]. exists l. split; [done|].
  split; [by rewrite Hdb|intros k; by rewrite Hdb|by rewrite Hh].
Qed.

Lemma handed_step l l' : step l l' -> l_handed l ⊆ l_handed l'.
Proof. intros []; cbn; set_solver. Qed.

(** what was handed over stays handed over *)
Lemma handed_rtc l l' : rtc step l l' -> l_handed l ⊆ l_handed l'.
Proof. induction 1 as [|x y z Hs _ IH]; [done|]. apply handed_step in Hs. set_solver. Qed.

Lemma coop_handed own w w' k :
  coop_rel own w w' -> k ∈ handed (w_ext w) -> k ∈ handed (w_ext w').
Proof.
  intros [_ Hw] Hk. destruct (Hw (ledger_of w)) as (l' & Hr & [_ _ ->]).
  { split; cbn; [done| |done]. intros k'. by rewrite elem_of_list_to_set. }
  by apply (handed_rtc _ _ Hr).
Qed.

(** deleting a handed-over deposit is a ledger step *)
Lemma coop_delete own w k :
  k ∈ handed (w_ext w) -> coop_rel own w (mkWorld (sql_delete k (w_db w)) (w_metrics w) (w_ext w)).
Proof.
  intros Hk. split; [done|]. intros l [Hc Hb Hh]. eexists. split.
  - apply rtc_once, (step_drop l k). by rewrite <- Hh.
  - split; cbn [w_db w_ext l_cursor l_buffer l_handed]; [exact Hc| |exact Hh].
    intros k'. rewrite delete_keys, Hb. set_solver.
Qed.

End Spec.
