(* ===== verification/Scanner.v ===== *)
(** * Scanner interfaces ([internal/scanner/scanner.go], [client.go], [event_parser.go])

    The chain client as the scanners use it, the [Scanner] strategy the
    polling loop drives, and the symbol rewriting of the KCP chain. *)
From stdpp Require Import base gmap list strings.
From Stdlib Require Import ZArith Lia Ascii String.
From stdpp Require Import base strings.
From S2P Require Import Prelude Errors Effect Retry Time Model Json Metrics Store.

(** ** go-ethereum data.  A 20-byte address and a 32-byte hash are their
    big-endian values; bytes are integers below 256. *)
Definition Address := Z.
Definition Hash := Z.

Record Tx := mkTx { tx_Hash : Hash; tx_To : option Address; tx_Data : list Z; tx_Value : Z }.
Record Block := mkBlock { b_Time : Z; b_Hash : Hash; b_Transactions : list Tx }.
Record Log := mkLog {
  lg_Address : Address; lg_Topics : list Hash; lg_Data : list Z; lg_TxHash : Hash; lg_Index : Z }.

Record FilterQuery := mkQuery {
  q_FromBlock : Z; q_ToBlock : Z; q_Addresses : list Address; q_Topics : list Hash }.

(** Library functions of go-ethereum: checksummed address text, hash text,
    text to address, keccak256. *)
Class Eth := {
  addrHex : Address -> string;
  hashHex : Hash -> string;
  HexToAddress : string -> Address;
  Keccak256Hash : string -> Hash
}.

(** the chain node as the scanners see it *)
Class ETHClient (E : Type) := {
  BlockNumber : M (World E) Z;
  BlockByNumber : Z -> M (World E) (option Block);
  FilterLogs : FilterQuery -> M (World E) (list Log);
  CodeAt : Address -> M (World E) (list Z);
  TransactionSender : Tx -> Hash -> Z -> M (World E) Address
}.

(** [debug_traceTransaction] *)
Class TraceCaller (E : Type) := {
  CallTrace : string -> M (World E) json
}.

(** The [Scanner] interface *)
Record Scanner (E : Type) := mkScanner {
  Name : string;
  ScanBlock : Z -> Z -> M (World E) (list DepositEvent)
}.
Arguments Name {E}.
Arguments ScanBlock {E}.
Arguments mkScanner {E}.

(** [symbolForChain]: on the KCP chain a leading W is dropped *)
Definition symbolForChain (rawSymbol : string) (chainID kcpChainID : Z) (hasKcp : bool) : string :=
  if hasKcp && (chainID =? kcpChainID) && (1 <? Z.of_nat (String.length rawSymbol))
     && match rawSymbol with String c _ => Ascii.eqb c "W" | _ => false end
  then sdrop 1 rawSymbol else rawSymbol.
