(* ===== verification/Loop.v ===== *)
(** * Polling loop ([internal/scanner/loop.go])

    One (chain, scanner) goroutine: read the head, keep only confirmed
    blocks, scan them in order, save each block and its cursor in one
    transaction. *)
From stdpp Require Import base gmap list strings relations.
From Stdlib Require Import ZArith Lia Ascii String.
From stdpp Require Import base strings.
From S2P Require Import Prelude Decimal Errors Effect Retry Time Model Json Metrics Store BufferRepo Spec Scanner.

Record LoopConfig := {
  MinConfirmations : Z; MaxBlocksPerPoll : Z; BlockDelayMs : Z; PollingIntervalMs : Z;
  RetryOptions : Options
}.

Section Loop.
Context {E : Type} `{Env E, ETHClient E}.
Variables (chainID : Z) (strategy : Scanner E) (cfg : LoopConfig).

Definition chainLabel : string := dec chainID.

(** [convertEvents]: events that do not convert are logged and skipped *)
Definition convertEvents (events : list DepositEvent) (minConfirmations : Z)
    : M (World E) (list Deposit) :=
  foldM (fun out e =>
    let* now := time_Now in
    match ToDeposit now e minConfirmations with
    | Ok (Some d) => ret (out ++ [d])
    | Ok None => ret out
    | Err err => fail err
    | Panic p => panic p
    end) [] events.

(** the body of the block loop *)
Definition processBlock (latest endBlock block : Z) : M (World E) unit :=
  let confirmations := i64 (u64 (latest - block)) in
  let* events := wrapf ("scan block " +:+ dec block) (ScanBlock strategy block confirmations) in
  let* deposits := convertEvents events (MinConfirmations cfg) in
  let* saved := attempt (SaveAndAdvance chainID (Name strategy) block deposits) in
  match saved with
  | inr err =>
      emit (minc ScannerErrors [chainLabel; Name strategy]) ;;;
      fail (Errorf ("save block " +:+ dec block) err)
  | inl _ =>
      emit (mset ScannerCursorBlock [chainLabel; Name strategy] block) ;;;
      emit (mset ScannerLagBlocks [chainLabel; Name strategy] (u64 (latest - block))) ;;;
      emit (minc ScannerBlocksProcessed [chainLabel; Name strategy]) ;;;
      (match deposits with
       | [] => ret tt
       | _ :: _ => emit (madd ScannerDepositsFound [chainLabel; Name strategy]
                           (Z.of_nat (length deposits)))
       end) ;;;
      if block <? endBlock then wait (BlockDelayMs cfg * 1000000) else ret tt
  end.

(** [for block := startBlock; block <= endBlock; block++]: [n] blocks from [block] *)
Fixpoint processBlocks (latest endBlock : Z) (n : nat) (block : Z) : M (World E) unit :=
  match n with
  | O => ret tt
  | S n' => processBlock latest endBlock block ;;; processBlocks latest endBlock n' (block + 1)
  end.

Definition pollOnce : M (World E) unit :=
  let* head := attempt (Do (RetryOptions cfg) 0 BlockNumber) in
  match head with
  | inr err =>
      emit (minc ScannerErrors [chainLabel; Name strategy]) ;;;
      fail (Errorf "BlockNumber" err)
  | inl latest =>
      emit (mset ScannerLatestBlock [chainLabel] latest) ;;;
      if u64 (MinConfirmations cfg) <=? latest then
        let maxConfirmed := latest - u64 (MinConfirmations cfg) in
        let* cursor := wrapf "read cursor" (Cursor chainID (Name strategy)) in
        if cursor =? 0 then
          wrapf "init cursor" (SaveAndAdvance chainID (Name strategy) maxConfirmed [])
        else
          let startBlock := u64 (cursor + 1) in
          if maxConfirmed <? startBlock then ret tt
          else
            let endBlock := u64 (startBlock + u64 (MaxBlocksPerPoll cfg) - 1) in
            let endBlock := if maxConfirmed <? endBlock then maxConfirmed else endBlock in
            processBlocks latest endBlock (Z.to_nat (endBlock - startBlock + 1)) startBlock
      else ret tt
  end.

(** The select loop of [Run], [n] ticks of it: each tick polls, an error of
    a poll is logged and the loop goes on, a cancelled context ends it. *)
Fixpoint Run_ticks (n : nat) : M (World E) unit :=
  match n with
  | O => ret tt
  | S n' =>
      wait (PollingIntervalMs cfg * 1000000) ;;;
      attempt (pollOnce) ;;;
      Run_ticks n'
  end.

(** [Run] observed for [n] ticks; [time.NewTicker] panics on a non-positive
    interval. *)
Definition Run (n : nat) : M (World E) unit :=
  attempt pollOnce ;;;
  if i64 (PollingIntervalMs cfg * 1000000) <=? 0
  then panic "non-positive interval for NewTicker"
  else Run_ticks n.
End Loop.

(** ** What the loop leaves alone

    A property of worlds that the calls to the outside, the metrics and the
    saves keep is kept by the whole run. *)
Record calls_keep {E : Type} `{Env E, ETHClient E} (strategy : Scanner E) (I : World E -> Prop) : Prop := {
  keep_wait : forall d, preserves I (env_wait d);
  keep_now : preserves I time_Now;
  keep_db : preserves I env_db;
  keep_head : preserves I BlockNumber;
  keep_scan : forall b conf, preserves I (ScanBlock strategy b conf)
}.

Lemma calls_keep_and {E : Type} `{Env E, ETHClient E} (strategy : Scanner E) (I1 I2 : World E -> Prop) :
  calls_keep strategy I1 -> calls_keep strategy I2 -> calls_keep strategy (fun w => I1 w /\ I2 w).
Proof.
  intros H1 H2. split; intros; intros w [Hw1 Hw2]; split; by first [apply H1|apply H2].
Qed.

(** [BlockNumber] returns a [uint64] *)
Definition head_u64 {E : Type} `{ETHClient E} : Prop := forall w n, (BlockNumber w).1 = Ok n -> is_u64 n.

Section Frame.
Context {E : Type} `{Env E, ETHClient E}.
Variables (chainID : Z) (strategy : Scanner E) (cfg : LoopConfig) (I : World E -> Prop).
Hypothesis Hkeep : calls_keep strategy I.
Hypothesis Hemit : forall f, preserves I (emit f).

(** conversion makes up no deposit *)
Definition from_event (d : Deposit) (e : DepositEvent) : Prop :=
  key_of d = ev_key e /\ ConfirmCount d = ev_Confirmations e.
Abbreviation all_from evs ds := (forall d, d ∈ ds -> exists e, e ∈ evs /\ from_event d e).

Lemma convertEvents_from evs m : hoare I (convertEvents evs m)
  (fun r w => I w /\ forall ds, r = Ok ds -> all_from evs ds).
Proof.
  unfold convertEvents.
  enough (forall out, hoare I (foldM (fun out e => let* now := time_Now in
      match ToDeposit now e m with
      | Ok (Some d) => ret (out ++ [d]) | Ok None => ret out
      | Err err => fail err | Panic p => panic p end) out evs) (fun r w => I w /\ forall ds, r = Ok ds ->
    forall d, d ∈ ds -> d ∈ out \/ exists e, e ∈ evs /\ from_event d e)) as Hgen.
  { intros w Hw. destruct (Hgen [] w Hw) as [Hw' Hk]. split; [done|]. intros ds Hr d Hin.
    by destruct (Hk ds Hr d Hin) as [?%not_elem_of_nil|?]. }
  induction evs as [|e evs IH]; intros out.
  { intros w Hw. split; [done|]. intros ds [= <-]. by left. }
  cbn [foldM]. eapply hoare_bind with (R := fun r w => I w /\ forall out', r = Ok out' ->
    forall d, d ∈ out' -> d ∈ out \/ from_event d e).
  - intros w Hw. pose proof (keep_now _ _ Hkeep w Hw) as Hw1. unfold bind.
    destruct (time_Now w) as [[now|err|p] w1]; cbn in *; [|by split..].
    unfold ToDeposit. destruct (parseRFC3339Nano _); cbn; [|split; [done|intros ? [= <-]; by left]].
    destruct (formatUnits _ _); cbn; [|by split..]. split; [done|]. intros ? [= <-] d.
    rewrite elem_of_app. intros [?|Hd]; [by left|right]. by apply list_elem_of_singleton in Hd as ->.
  - intros out' w [Hw Ho]. destruct (IH out' w Hw) as [Hw' Hk]. split; [done|]. intros ds Hr d Hin.
    destruct (Hk ds Hr d Hin) as [Hd|(e' & ? & ?)]; [|right; exists e'; split; [by right|done]].
    destruct (Ho out' eq_refl d Hd); [by left|]. right. exists e. split; [left|done].
  - by intros err w [Hw _].
  - by intros p w [Hw _].
Qed.

(** the ticks add nothing to the polls *)
Lemma Run_keeps n : preserves I (pollOnce chainID strategy cfg) -> preserves I (Run chainID strategy cfg n).
Proof.
  intros Hp. pose proof (keep_wait _ _ Hkeep (PollingIntervalMs cfg * 1000000)) as Hw.
  assert (preserves I (Run_ticks chainID strategy cfg n)).
  { induction n; cbn [Run_ticks]; eff; auto with eff. }
  unfold Run. eff; auto with eff.
Qed.

(** [Q b] holds of the events a scan of block [b] may report *)
Lemma processBlock_keeps (Q : Z -> DepositEvent -> Prop) latest endB b :
  (forall conf w evs, is_i64 conf -> I w -> (ScanBlock strategy b conf w).1 = Ok evs -> Forall (Q b) evs) ->
  (forall evs ds, Forall (Q b) evs -> all_from evs ds -> preserves I (SaveAndAdvance chainID (Name strategy) b ds)) ->
  preserves I (processBlock chainID strategy cfg latest endB b).
Proof.
  intros HQ Hsave. pose proof (keep_wait _ _ Hkeep) as Hw. unfold processBlock. cbv zeta.
  eapply hoare_bind with (R := fun r w => I w /\ forall evs, r = Ok evs -> Forall (Q b) evs).
  { intros w HI. pose proof (keep_scan _ _ Hkeep b (i64 (u64 (latest - b))) w HI) as Hw1.
    pose proof (HQ (i64 (u64 (latest - b))) w) as Hs. unfold wrapf.
    destruct (ScanBlock _ _ _ w) as [[evs|err|p] w1]; cbn in *; (split; [done|]); intros evs' [= <-].
    apply Hs; [apply i64_range|done..]. }
  2,3: by intros ?? [? _].
  intros evs w [HI Hevs]. specialize (Hevs evs eq_refl). revert w HI.
  match goal with |- forall w, _ -> I (?m w).2 => change (preserves I m) end.
  eapply hoare_bind; [apply convertEvents_from| |by intros ?? [? _]|by intros ?? [? _]].
  intros ds w [HI Hds]. specialize (Hds ds eq_refl). revert w HI.
  match goal with |- forall w, _ -> I (?m w).2 => change (preserves I m) end.
  assert (preserves I (SaveAndAdvance chainID (Name strategy) b ds)) by eauto.
  eff; auto with eff.
Qed.

Lemma head_keeps : head_u64 ->
  hoare I (attempt (Do (RetryOptions cfg) 0 BlockNumber))
    (fun r w => I w /\ forall n, r = Ok (inl n) -> is_u64 n).
Proof.
  intros Hu. destruct (decide (0 <= MaxRetries (RetryOptions cfg))) as [Hm|Hm]; intros w Hw.
  - destruct (hoare_Do I is_u64 (RetryOptions cfg) 0 BlockNumber Hm) with w as [Hw1 Hq];
      [|apply (keep_wait _ _ Hkeep)|done|].
    { intros w' Hw'. split; [by apply (keep_head _ _ Hkeep)|]. intros n. apply Hu. }
    unfold attempt. destruct (Do _ _ _ w) as [[n|err|p] w1]; cbn in *; split; try done;
      intros v [= <-]; auto.
  - unfold attempt. rewrite Do_negative_is_noop by lia. cbn. split; [done|].
    intros v [= <-]. done.
Qed.

Lemma pollOnce_keeps : head_u64 ->
  (forall latest endB b, is_u64 b -> preserves I (processBlock chainID strategy cfg latest endB b)) ->
  (forall b, preserves I (SaveAndAdvance chainID (Name strategy) b [])) ->
  preserves I (pollOnce chainID strategy cfg).
Proof.
  intros Hu Hblock Hsave.
  assert (forall latest endB k b, 0 <= b -> b + Z.of_nat k <= two64 ->
    preserves I (processBlocks chainID strategy cfg latest endB k b)) as Hblocks.
  { intros latest endB k. induction k as [|k IH]; intros b Hb Hk; cbn [processBlocks]; [apply preserves_ret|].
    apply preserves_bind; [apply Hblock; width|intros _; apply IH; lia]. }
  assert (preserves I (Cursor chainID (Name strategy))) by apply preserves_query, Hkeep.
  unfold pollOnce. eapply hoare_bind; [by apply head_keeps| |by intros ?? [? _]|by intros ?? [? _]].
  intros [latest|err] w [HI Hl]; [|by apply Hemit]. specialize (Hl latest eq_refl). revert w HI.
  match goal with |- forall w, _ -> I (?m w).2 => change (preserves I m) end.
  apply preserves_bind; [done|]. intros _. destruct (_ <=? _) eqn:Hle; [|apply preserves_ret]. cbv zeta.
  pose proof (u64_range (MinConfirmations cfg)) as Hmc.
  apply preserves_bind; [by apply preserves_wrapf|]. intros c.
  destruct (c =? 0); [by apply preserves_wrapf|].
  destruct (Z.ltb_spec (latest - u64 (MinConfirmations cfg)) (u64 (c + 1))); [apply preserves_ret|].
  pose proof (u64_range (c + 1)) as Hc. match goal with |- preserves _ (processBlocks _ _ _ _ ?e _ _) =>
    assert (e <= latest - u64 (MinConfirmations cfg)) by
      (destruct (Z.ltb_spec (latest - u64 (MinConfirmations cfg)) (u64 (u64 (c + 1) + u64 (MaxBlocksPerPoll cfg) - 1))); lia);
    set (endB := e) in * end.
  apply Hblocks; unfold is_u64 in *; [lia|width].
Qed.
End Frame.

(** [BlockNumber] returns a [uint64] below the maximum *)
Definition head_range {E : Type} `{ETHClient E} : Prop := forall w n, (BlockNumber w).1 = Ok n -> 0 <= n < maxBlock.

(** An event the model always converts: stamped from a block time, with a
    non-negative scale. *)
Definition convertible (e : DepositEvent) : Prop :=
  0 <= ev_Decimals e /\
  exists t, minRFC3339 <= t < maxRFC3339 /\ ev_TransactionDatetime e = formatRFC3339 t.

(** ** Positions

    A loop stands at a block: the one it has saved last, or read as the
    cursor.  [at_ n] is what standing at [n] tells of the world, [unset] what
    reading no cursor (or 0) tells.  When the calls keep these and a save
    moves the loop one block on, the whole run keeps [I]. *)
Section Position.
Context {E : Type} `{Env E, ETHClient E}.
Variables (chainID : Z) (strategy : Scanner E) (cfg : LoopConfig).
Variables (I : World E -> Prop) (at_ : Z -> World E -> Prop) (unset : World E -> Prop) (block_keys : Z -> list key).

Abbreviation stands n := (fun w => I w /\ at_ n w).
Abbreviation holds ks b := (forall k, k ∈ ks <-> k ∈ block_keys b).

Record loop_logic : Prop := {
  ll_calls : calls_keep strategy I;
  ll_stands n : calls_keep strategy (stands n);
  ll_emit f : preserves I (emit f);
  ll_emit_at n f : preserves (stands n) (emit f);
  ll_scan b conf w evs : I w -> (ScanBlock strategy b conf w).1 = Ok evs ->
    Forall convertible evs /\ holds (ev_key <$> evs) b;
  ll_save n ds : 0 <= n + 1 < maxBlock -> holds (key_of <$> ds) (n + 1) ->
    hoare (stands n) (SaveAndAdvance chainID (Name strategy) (n + 1) ds)
      (fun r w => I w /\ (r = Ok tt -> at_ (n + 1) w));
  ll_start b : 0 <= b < maxBlock ->
    hoare (fun w => I w /\ unset w) (SaveAndAdvance chainID (Name strategy) b []) (fun _ w => I w);
  ll_cursor : hoare I (Cursor chainID (Name strategy)) (fun r w => I w /\ forall c, r = Ok c ->
    is_u64 c /\ (c = 0 /\ unset w \/ c <> 0 /\ at_ c w /\ c < maxBlock))
}.
Hypothesis HL : loop_logic.

(** conversion drops no event and keeps the keys *)
Lemma convert_hoare evs m n :
  Forall convertible evs ->
  hoare (stands n) (convertEvents evs m)
    (fun r w => stands n w /\ forall ds, r = Ok ds -> key_of <$> ds = ev_key <$> evs).
Proof.
  intros Hev. unfold convertEvents.
  enough (forall out, hoare (stands n)
    (foldM (fun out e => let* now := time_Now in
      match ToDeposit now e m with
      | Ok (Some d) => ret (out ++ [d]) | Ok None => ret out
      | Err err => fail err | Panic p => panic p end) out evs)
    (fun r w => stands n w /\ forall ds, r = Ok ds ->
       key_of <$> ds = (key_of <$> out) ++ (ev_key <$> evs))) as Hgen by exact (Hgen []).
  induction Hev as [|e evs (Hd & t & Ht & He) Hev IH]; intros out.
  - intros w Hw. split; [done|]. intros ds [= <-]. cbn. by rewrite app_nil_r.
  - cbn [foldM]. eapply hoare_bind with (R := fun r w => stands n w /\
      forall out', r = Ok out' -> key_of <$> out' = (key_of <$> out) ++ [ev_key e]).
    + intros w Hw. pose proof (keep_now _ _ (ll_stands HL n) w Hw) as Hw1.
      unfold bind. destruct (time_Now w) as [[now|err|p] w1]; cbn in Hw1 |- *; [|by split..].
      rewrite (ToDeposit_ok now e m t) by done. cbn. split; [done|].
      intros out' [= <-]. by rewrite fmap_app.
    + intros out' w [Hw Ho]. specialize (Ho out' eq_refl).
      destruct (IH out' w Hw) as [Hw' Hds]. split; [done|].
      intros ds Hr. rewrite (Hds ds Hr), Ho. cbn. by rewrite <- app_assoc.
    + intros e' w [Hw _]. by split.
    + intros p w [Hw _]. by split.
Qed.

Lemma processBlock_hoare latest endBlock n :
  0 <= n + 1 < maxBlock ->
  hoare (stands n) (processBlock chainID strategy cfg latest endBlock (n + 1))
    (fun r w => I w /\ (r = Ok tt -> at_ (n + 1) w)).
Proof.
  intros Hu. unfold processBlock. cbv zeta.
  eapply hoare_bind with (R := fun r w => stands n w /\ forall evs, r = Ok evs ->
    Forall convertible evs /\ holds (ev_key <$> evs) (n + 1)).
  { intros w Hw. pose proof (keep_scan _ _ (ll_stands HL n) (n + 1) (i64 (u64 (latest - (n + 1)))) w Hw) as Hw1.
    pose proof (ll_scan HL (n + 1) (i64 (u64 (latest - (n + 1)))) w) as Hs. destruct Hw as [HI _].
    unfold wrapf. destruct (ScanBlock _ _ _ w) as [[evs|err|p] w1]; cbn in *; (split; [done|]);
      intros evs' [= <-]; by apply Hs. }
  2,3: intros ? ? [[? _] _]; by split.
  intros evs. eapply hoare_bind with (R := fun r w => stands n w /\ forall ds, r = Ok ds ->
    holds (key_of <$> ds) (n + 1)).
  { intros w [Hw Hevs]. destruct (Hevs evs eq_refl) as [Hc Hk].
    destruct (convert_hoare evs (MinConfirmations cfg) n Hc w Hw) as [Hw1 Hds].
    split; [done|]. intros ds Hr. by rewrite (Hds ds Hr). }
  2,3: intros ? ? [[? _] _]; by split.
  intros ds. eapply hoare_bind with (R := fun r w => I w /\
    match r with Ok (inl _) => at_ (n + 1) w | _ => True end).
  { intros w [Hw Hds]. specialize (Hds ds eq_refl).
    pose proof (ll_save HL n ds Hu Hds w Hw) as [Hw1 Hok]. unfold attempt.
    destruct (SaveAndAdvance _ _ _ ds w) as [[[]|err|p] w1]; cbn in *; split; auto. }
  2,3: intros ? ? [? _]; by split.
  intros [[]|err] w [Hw Hn].
  - match goal with |- I (?m w).2 /\ _ => assert (preserves (stands (n + 1)) m) as Hpost end.
    { pose proof (ll_emit_at HL). pose proof (keep_wait _ _ (ll_stands HL (n + 1)) (BlockDelayMs cfg * 1000000)).
      eff; auto. }
    destruct (Hpost w (conj Hw Hn)) as [? ?]. by split.
  - split; [|done]. by apply (ll_emit HL).
Qed.

Lemma processBlocks_hoare latest endBlock k : forall n,
  0 <= n -> n + Z.of_nat k < maxBlock ->
  hoare (stands n) (processBlocks chainID strategy cfg latest endBlock k (n + 1)) (fun _ w => I w).
Proof.
  induction k as [|k IH]; intros n Hn Hk.
  - intros w [Hw _]. exact Hw.
  - cbn [processBlocks]. eapply hoare_bind; [apply processBlock_hoare; lia|..].
    + intros [] w [Hw Hc]. apply IH; [lia|lia|]. split; [exact Hw|exact (Hc eq_refl)].
    + intros e w [Hw _]. exact Hw.
    + intros p w [Hw _]. exact Hw.
Qed.

Lemma head_hoare :
  head_range -> hoare I (attempt (Do (RetryOptions cfg) 0 BlockNumber))
    (fun r w => I w /\ forall n, r = Ok (inl n) -> 0 <= n < maxBlock).
Proof.
  intros Hhead. destruct (decide (0 <= MaxRetries (RetryOptions cfg))) as [Hm|Hm]; intros w Hw.
  - destruct (hoare_Do I (fun n => 0 <= n < maxBlock) (RetryOptions cfg) 0 BlockNumber Hm) with w
      as [Hw1 Hq]; [|apply (keep_wait _ _ (ll_calls HL))|done|].
    { intros w' Hw'. split; [by apply (keep_head _ _ (ll_calls HL))|].
      intros n Hn. by apply (Hhead w'). }
    unfold attempt. destruct (Do _ _ _ w) as [[n|err|p] w1]; cbn in *; split; try done;
      intros v [= <-]; auto.
  - unfold attempt. rewrite Do_negative_is_noop by lia. cbn. split; [done|].
    intros v [= <-]. done.
Qed.

Lemma pollOnce_logic : head_range -> preserves I (pollOnce chainID strategy cfg).
Proof.
  intros Hhead. unfold pollOnce. pose proof (ll_emit HL) as Hemit.
  eapply hoare_bind; [by apply head_hoare| |by intros ?? [? _]|by intros ?? [? _]].
  intros [latest|err]; cycle 1.
  { intros w [Hw _]. by apply Hemit. }
  eapply hoare_bind with (R := fun r w => I w /\ 0 <= latest < maxBlock);
    [intros w [Hw Hv]; split; [by apply Hemit|by apply Hv]| |by intros ?? [? _]|by intros ?? [? _]].
  intros []. pose proof (u64_range (MinConfirmations cfg)) as Hmc.
  destruct (Z.leb_spec (u64 (MinConfirmations cfg)) latest) as [Hle|]; [|by intros w [? _]].
  set (mx := latest - u64 (MinConfirmations cfg)).
  eapply hoare_bind with (R := fun r w => (I w /\ 0 <= mx < maxBlock) /\ forall c, r = Ok c ->
    is_u64 c /\ (c = 0 /\ unset w \/ c <> 0 /\ at_ c w /\ c < maxBlock)).
  { intros w [Hw Hl]. pose proof (ll_cursor HL w Hw) as [Hw' Hc]. unfold wrapf.
    assert (0 <= mx < maxBlock) as Hmx by (unfold is_u64 in *; lia).
    destruct (Cursor _ _ w) as [[]]; cbn in *; by split. }
  2,3: by intros ?? [[? _] _].
  intros c w [[Hw Hmx] Hc]. specialize (Hc c eq_refl) as [Huc Hc].
  destruct (Z.eqb_spec c 0) as [->|Hnz].
  - pose proof (ll_start HL mx Hmx w) as Hs. unfold wrapf.
    destruct (SaveAndAdvance _ _ _ _ w) as [[] ?]; apply Hs; naive_solver.
  - destruct Hc as [[? _]|(_ & Hc & Hcm)]; [done|].
    rewrite (u64_small (c + 1)) by (unfold maxBlock in *; width).
    destruct (Z.ltb_spec mx (c + 1)); [exact Hw|]. cbv zeta.
    match goal with |- I (processBlocks _ _ _ _ ?e _ _ _).2 =>
      assert (e <= mx) as Hend by (destruct (Z.ltb_spec mx (u64 (c + 1 + u64 (MaxBlocksPerPoll cfg) - 1))); lia);
      set (endB := e) in * end.
    apply (processBlocks_hoare latest endB _ c); [unfold is_u64 in *; lia|lia|done].
Qed.

Lemma Run_logic n : head_range -> preserves I (Run chainID strategy cfg n).
Proof. intros Hh. apply Run_keeps; [apply HL|by apply pollOnce_logic]. Qed.
End Position.

(** ** The loop refines the ledger *)

Section Refinement.
Context {E : Type} `{Env E, ETHClient E}.
Variables (truth : Z -> string -> Z -> list key) (handed : E -> gset key).
Variables (chainID : Z) (strategy : Scanner E) (cfg : LoopConfig).
(** what the scanner's own memory, a part of [E], satisfies between calls *)
Variable J : E -> Prop.

Abbreviation own := (chainID, Name strategy).

(** the cursor of this goroutine, as a block number *)
Definition cur (w : World E) : option Z := u64 <$> scan_cursor (w_db w) !! own.

(** others make ledger steps only, and leave the scanner's memory intact *)
Abbreviation coop := (cooperates_with truth handed J own).

(** The interface of the environment and of the scanner to the loop. *)
Class Cooperative : Prop := {
  coop_wait : forall d, coop (env_wait d);
  coop_now : coop time_Now;
  coop_db : coop env_db;
  coop_head : coop BlockNumber;
  coop_scan : forall b conf, coop (ScanBlock strategy b conf);
  coop_tx : forall e, handed (env_tx e).2 = handed e /\ (J e -> J (env_tx e).2);
  coop_commit : forall e, handed (env_commit e).2 = handed e /\ (J e -> J (env_commit e).2)
}.

(** A scan that succeeds reports exactly the block's deposits. *)
Class ScannerSound : Prop := {
  scan_sound : forall b conf w evs, J (w_ext w) -> (ScanBlock strategy b conf w).1 = Ok evs ->
    Forall convertible evs /\ forall k, k ∈ ev_key <$> evs <-> k ∈ truth chainID (Name strategy) b
}.

(** The ledger a run is measured from may move: [base] reads it off the
    outside (the last moment at which the goroutine saw the others' work). *)
Variable base : E -> ledger.
Definition tracked_inv (w : World E) : Prop := reachable truth handed (base (w_ext w)) w /\ J (w_ext w).
Abbreviation R := tracked_inv.

(** a call after which the world is still reachable from the base *)
Abbreviation tracks := (preserves tracked_inv).
Class Tracked : Prop := {
  tr_wait : forall d, tracks (env_wait d);
  tr_now : tracks time_Now;
  tr_db : tracks env_db;
  tr_head : tracks BlockNumber;
  tr_scan : forall b conf, tracks (ScanBlock strategy b conf);
  tr_tx : forall e, base (env_tx e).2 = base e;
  tr_commit : forall e, base (env_commit e).2 = base e
}.

Lemma coop_hoare {A} (m : M (World E) A) x :
  coop m -> tracks m -> preserves (fun w => R w /\ cur w = x) m.
Proof.
  intros Hm Ht w [Hw Hx]. destruct (Hm w (proj2 Hw)) as [[Hc _] _].
  split; [by apply Ht|]. unfold cur in *. by rewrite Hc.
Qed.

Lemma emit_reach f x : preserves (fun w => R w /\ cur w = x) (emit f).
Proof. apply preserves_emit. intros w r [[(l & Hr & []) HJ] Hc]. split; [split; [by exists l|done]|done]. Qed.

Context `{!Cooperative, !ScannerSound, !Tracked}.

(** a committed block is a ledger step *)
Lemma abs_save_block w1 w2 l n ds now :
  abs handed w1 l -> cur w1 = Some n -> 0 <= n + 1 < maxBlock ->
  (forall k, k ∈ key_of <$> ds <-> k ∈ truth chainID (Name strategy) (n + 1)) ->
  w_db w2 = save_db now chainID (Name strategy) (n + 1) ds (w_db w1) ->
  handed (w_ext w2) = handed (w_ext w1) ->
  exists l', step truth l l' /\ abs handed w2 l' /\ cur w2 = Some (n + 1).
Proof.
  intros [Hc Hb Hh] Hn Hu Hk Hdb Hx. eexists. split_and!.
  - apply (step_block truth l chainID (Name strategy) n); [|lia].
    rewrite <- Hc, lookup_fmap. exact Hn.
  - split; cbn.
    + rewrite Hdb, save_db_cursor, fmap_insert, u64_i64 by (unfold maxBlock in *; width). by rewrite Hc.
    + intros k. rewrite Hdb, save_db_keys, Hb, Hk, elem_of_union, elem_of_list_to_set. done.
    + by rewrite Hx.
  - unfold cur. rewrite Hdb, save_db_cursor, lookup_insert_eq. cbn. rewrite u64_i64; [done|unfold maxBlock in *; width].
Qed.

Lemma abs_save_start w1 w2 l b now :
  abs handed w1 l -> cur w1 = None \/ cur w1 = Some 0 -> 0 <= b < maxBlock ->
  w_db w2 = save_db now chainID (Name strategy) b [] (w_db w1) ->
  handed (w_ext w2) = handed (w_ext w1) ->
  exists l', step truth l l' /\ abs handed w2 l'.
Proof.
  intros [Hc Hb Hh] Hn Hu Hdb Hx. eexists. split.
  - apply (step_start truth l chainID (Name strategy) b); [|lia].
    rewrite <- Hc, lookup_fmap. exact Hn.
  - split; cbn.
    + rewrite Hdb, save_db_cursor, fmap_insert, u64_i64 by (unfold maxBlock in *; width). by rewrite Hc.
    + intros k. rewrite Hdb, save_db_keys, Hb, elem_of_nil. tauto.
    + by rewrite Hx.
Qed.

Lemma save_frame c s b ds w : J (w_ext (after_roundtrip w)) ->
  handed (w_ext (SaveAndAdvance c s b ds w).2) = handed (w_ext (after_roundtrip w)) /\
  base (w_ext (SaveAndAdvance c s b ds w).2) = base (w_ext (after_roundtrip w)) /\
  J (w_ext (SaveAndAdvance c s b ds w).2).
Proof.
  intros HJ. apply (SaveAndAdvance_frame (fun e => handed e = handed (w_ext (after_roundtrip w)) /\
    base e = base (w_ext (after_roundtrip w)) /\ J e)); [..|done].
  - intros e (He & Hb & HJe). destruct (coop_tx e) as [Hh Hk]. rewrite (tr_tx e). split_and!; [congruence|done|auto].
  - intros e (He & Hb & HJe). destruct (coop_commit e) as [Hh Hk]. rewrite (tr_commit e). split_and!; [congruence|done|auto].
Qed.

Lemma save_block_hoare n ds :
  0 <= n + 1 < maxBlock ->
  (forall k, k ∈ key_of <$> ds <-> k ∈ truth chainID (Name strategy) (n + 1)) ->
  hoare (fun w => R w /\ cur w = Some n)
    (SaveAndAdvance chainID (Name strategy) (n + 1) ds)
    (fun r w => R w /\ (r = Ok tt -> cur w = Some (n + 1))).
Proof.
  intros Hu Hk w Hw. pose proof (coop_hoare env_db (Some n) coop_db tr_db w Hw) as Hw1.
  fold (after_roundtrip w) in Hw1. cbn in Hw1.
  pose proof (SaveAndAdvance_cases chainID (Name strategy) (n + 1) ds w) as Hc.
  destruct Hw1 as [[(l & Hr & Ha) HJ] Hn].
  pose proof (save_frame chainID (Name strategy) (n + 1) ds w HJ) as (Hx & Hx2 & HJ2). cbv zeta in Hc.
  destruct (SaveAndAdvance _ _ _ _ w) as [r w2]. cbn in Hx, Hx2, HJ2 |- *.
  assert (w_db w2 = w_db (after_roundtrip w) -> R w2) as Hsame.
  { intros Hdb. split; [|done]. exists l. rewrite Hx2. split; [done|]. destruct Ha as [Ha1 Ha2 Ha3].
    split; [by rewrite Hdb|intros k; by rewrite Hdb|by rewrite Hx]. }
  assert (forall now, w_db w2 = save_db now chainID (Name strategy) (n + 1) ds
      (w_db (after_roundtrip w)) -> R w2 /\ cur w2 = Some (n + 1)) as Hsaved.
  { intros now Hdb. edestruct abs_save_block as (l' & Hs & Ha' & Hc'); [done..|].
    split; [|done]. split; [|done]. exists l'. rewrite Hx2. split; [|done]. by eapply rtc_r. }
  destruct Hc as [(_ & Hdb & _)|[([err ->] & [Hdb | [Hdb _]])|([p ->] & ->)]].
  - destruct (Hsaved _ Hdb). auto.
  - split; [by apply Hsame|done].
  - destruct (Hsaved _ Hdb). auto.
  - split; [by apply Hsame|done].
Qed.

Lemma save_start_hoare b :
  0 <= b < maxBlock ->
  hoare (fun w => R w /\ (cur w = None \/ cur w = Some 0))
    (SaveAndAdvance chainID (Name strategy) b []) (fun _ w => R w).
Proof.
  intros Hu w [Hw Hcur]. pose proof (coop_hoare env_db _ coop_db tr_db w (conj Hw eq_refl)) as Hw1.
  fold (after_roundtrip w) in Hw1. cbn in Hw1.
  pose proof (SaveAndAdvance_cases chainID (Name strategy) b [] w) as Hc.
  destruct Hw1 as [[(l & Hr & Ha) HJ] Hn]. rewrite <- Hn in Hcur.
  pose proof (save_frame chainID (Name strategy) b [] w HJ) as (Hx & Hx2 & HJ2). cbv zeta in Hc.
  destruct (SaveAndAdvance _ _ _ _ w) as [r w2]. cbn in Hx, Hx2, HJ2 |- *.
  assert (w_db w2 = w_db (after_roundtrip w) -> R w2) as Hsame.
  { intros Hdb. split; [|done]. exists l. rewrite Hx2. split; [done|]. destruct Ha as [Ha1 Ha2 Ha3].
    split; [by rewrite Hdb|intros k; by rewrite Hdb|by rewrite Hx]. }
  assert (forall now, w_db w2 = save_db now chainID (Name strategy) b []
      (w_db (after_roundtrip w)) -> R w2) as Hsaved.
  { intros now Hdb.
    destruct (abs_save_start _ w2 l b now Ha Hcur Hu Hdb Hx) as (l' & Hs & Ha').
    split; [|done]. exists l'. rewrite Hx2. split; [by eapply rtc_r|done]. }
  destruct Hc as [(_ & Hdb & _)|[(_ & [Hdb | [Hdb _]])|(_ & ->)]]; eauto.
Qed.

Lemma Cursor_hoare :
  hoare R (Cursor chainID (Name strategy)) (fun r w => R w /\ forall c, r = Ok c ->
    is_u64 c /\ (cur w = Some c \/ c = 0 /\ cur w = None)).
Proof.
  intros w Hw. pose proof (tr_db w Hw) as Hw1.
  unfold Cursor, query, query_at, wrapf, bind. destruct (env_db w) as [[[]|err|p] w1]; cbn in *; [|by split..].
  split; [done|]. unfold cur. destruct (scan_cursor (w_db w1) !! own) as [v|]; cbn;
    intros c [= <-]; split; auto with width. width.
Qed.

Definition bases_bounded : Prop := forall e, J e -> bounded (base e).

Lemma reach_bounded w n : bases_bounded -> R w -> cur w = Some n -> n < maxBlock.
Proof.
  intros Hbnd [(l & Hr & [Hc _ _]) HJ] Hn. pose proof (Hbnd _ HJ) as Hb. eapply (bounded_rtc truth _ _ Hr Hb chainID (Name strategy)).
  by rewrite <- Hc, lookup_fmap.
Qed.

(** the loop stands where its cursor is *)
Lemma refinement_logic : bases_bounded ->
  loop_logic chainID strategy R (fun n w => cur w = Some n) (fun w => cur w = None \/ cur w = Some 0)
    (truth chainID (Name strategy)).
Proof.
  intros Hbnd. split.
  - split; intros; first [apply tr_wait|apply tr_now|apply tr_db|apply tr_head|apply tr_scan].
  - intros n. split; intros; apply coop_hoare;
      first [apply coop_wait|apply coop_now|apply coop_db|apply coop_head|apply coop_scan
            |apply tr_wait|apply tr_now|apply tr_db|apply tr_head|apply tr_scan].
  - intros f w Hw. by apply (emit_reach f (cur w) w).
  - intros n f. apply emit_reach.
  - intros b conf w evs [_ HJ]. by apply scan_sound.
  - intros n ds. apply save_block_hoare.
  - intros b. apply save_start_hoare.
  - intros w Hw. pose proof (Cursor_hoare w Hw) as [Hw' Hc]. split; [done|]. intros c Hr.
    destruct (Hc c Hr) as [Hu Hcur]. split; [done|]. destruct (decide (c = 0)) as [->|Hnz].
    + left. split; [done|]. destruct Hcur as [|[_ ?]]; auto.
    + right. destruct Hcur as [Hcur|[? _]]; [|done]. split_and!; [done..|]. by apply (reach_bounded _ c Hbnd Hw').
Qed.

Lemma Run_tracked n : bases_bounded -> head_range -> preserves R (Run chainID strategy cfg n).
Proof. intros Hb Hh. by eapply Run_logic; [apply refinement_logic|]. Qed.
End Refinement.

(** ** Measured from one ledger throughout *)
Section Fixed.
Context {E : Type} `{Env E, ETHClient E}.
Variables (truth : Z -> string -> Z -> list key) (handed : E -> gset key).
Variables (chainID : Z) (strategy : Scanner E) (cfg : LoopConfig) (J : E -> Prop) (l0 : ledger).

Definition loop_inv (w : World E) : Prop := reachable truth handed l0 w /\ J (w_ext w).

Lemma coop_reach own {A} (m : M (World E) A) : cooperates_with truth handed J own m -> preserves loop_inv m.
Proof.
  intros Hm w [(l & Hr & Ha) HJ]. destruct (Hm w HJ) as [[_ Hl] HJ'].
  destruct (Hl l Ha) as (l' & Hr' & Ha'). split; [|done]. exists l'. split; [by etrans|done].
Qed.

Lemma Run_reach `{!Cooperative truth handed chainID strategy J, !ScannerSound truth chainID strategy J} n :
  bounded l0 -> head_range -> preserves loop_inv (Run chainID strategy cfg n).
Proof.
  intros Hb Hh.
  assert (Tracked truth handed strategy J (fun _ => l0)).
  { split; intros; try done; apply (coop_reach (chainID, Name strategy));
      first [apply coop_wait|apply coop_now|apply coop_db|apply coop_head|apply coop_scan]; assumption. }
  apply (Run_tracked truth handed chainID strategy cfg J (fun _ => l0) n); [by intros e _|done].
Qed.
End Fixed.

Lemma ScannerSound_mono {E : Type} `{ETHClient E} truth chainID (strategy : Scanner E) (J J' : E -> Prop) :
  (forall e, J' e -> J e) -> ScannerSound truth chainID strategy J -> ScannerSound truth chainID strategy J'.
Proof. intros HJ [Hs]. split. eauto. Qed.

Lemma head_range_u64 {E : Type} `{ETHClient E} : head_range -> head_u64.
Proof. intros Hh w n Hn. specialize (Hh w n Hn). unfold maxBlock in *. width. Qed.
