(* ===== verification/LoopProps.v ===== *)
(** * What the polling loop guarantees

    On top of [Loop.v]: no deposit of a processed block is lost whatever
    fails, only confirmed deposits are buffered, and on a working chain the
    cursor catches up with the confirmed head. *)
From stdpp Require Import base gmap list strings relations.
From Stdlib Require Import ZArith Lia Ascii String.
From stdpp Require Import base strings.
From S2P Require Import Prelude Decimal Errors Effect Retry Time Model Json Metrics Store BufferRepo Spec Scanner Loop.

(** C3. No deposit is lost.  [w0] is any database at start-up, the loop runs
    for any number of ticks, and any RPC, database round trip, statement or
    commit may fail in it while the other goroutines make ledger steps.  When
    the scanner reports exactly the deposits of the blocks it succeeds on
    ([J] is the invariant of its own memory), every deposit of every block between the old cursor and the new one is in
    [deposit_buffer] or was taken over by the Adapter. *)
Theorem Run_nothing_lost {E : Type} `{Env E, ETHClient E}
    (truth : Z -> string -> Z -> list key) (handed : E -> gset key)
    (chainID : Z) (strategy : Scanner E) (cfg : LoopConfig) (J : E -> Prop) (ticks : nat) (w0 : World E) :
  Cooperative truth handed chainID strategy J -> ScannerSound truth chainID strategy J ->
  bounded (ledger_of handed w0) -> head_range -> J (w_ext w0) ->
  nothing_lost truth handed w0 (Run chainID strategy cfg ticks w0).2.
Proof.
  intros Hc Hs Hb Hh HJ. apply reachable_nothing_lost.
  apply (Run_reach truth handed chainID strategy cfg J _ ticks Hb Hh w0). split; [apply reachable_refl|done].
Qed.

(** ** Only confirmed deposits *)

(** the stored document is a deposit with enough confirmations, marked so *)
Definition confirmed_row (minConfirmations : Z) (r : BufferRow) : Prop :=
  exists d, row_payload r = marshalDeposit d /\ Status d = "TXCF" /\
    minConfirmations <= ConfirmCount d.

Section Confirmed.
Context {E : Type} `{Env E, ETHClient E}.
Variables (chainID : Z) (strategy : Scanner E) (cfg : LoopConfig) (top : Z).

(** Rows are confirmed, and the cursor is at a block confirmed at some head
    not above [top]. *)
Definition confirmed_world (w : World E) : Prop :=
  Forall (confirmed_row (MinConfirmations cfg)) (deposit_buffer (w_db w)) /\
  forall v, scan_cursor (w_db w) !! (chainID, Name strategy) = Some v ->
    u64 v <= top - MinConfirmations cfg.
Abbreviation I := confirmed_world.

(** heads the node reports never exceed [top]; block numbers fit [int64] *)
Definition head_below : Prop :=
  0 <= top < two63 /\ forall w n, (BlockNumber w).1 = Ok n -> 0 <= n <= top.

(** a scanner stamps its events with the confirmations it was given *)
Definition stamps : Prop := forall b conf w evs,
  (ScanBlock strategy b conf w).1 = Ok evs -> Forall (fun e => ev_Confirmations e = conf) evs.

Hypothesis Hkeep : calls_keep strategy I.
Hypothesis Hhead : head_below.
Hypothesis Hstamp : stamps.
Hypothesis Hmin : 0 <= MinConfirmations cfg < two63.

Lemma emit_I f : preserves I (emit f).
Proof. by apply preserves_emit. Qed.

Lemma insert_all_confirmed now block ds db :
  Forall (confirmed_row (MinConfirmations cfg)) (deposit_buffer db) ->
  Forall (fun d => Status d = "TXCF" /\ MinConfirmations cfg <= ConfirmCount d) ds ->
  Forall (confirmed_row (MinConfirmations cfg)) (deposit_buffer (foldl (insert_db now block) db ds)).
Proof.
  intros Hdb Hds. revert db Hdb. induction Hds as [|d ds [Hd1 Hd2] _ IH]; intros db Hdb; [done|].
  cbn. apply IH. unfold insert_db. cbn. destruct (decide _); [done|].
  apply Forall_app. split; [done|]. constructor; [|done]. by exists d.
Qed.

Lemma save_I block ds :
  0 <= block <= top - MinConfirmations cfg ->
  Forall (fun d => Status d = "TXCF" /\ MinConfirmations cfg <= ConfirmCount d) ds ->
  preserves I (SaveAndAdvance chainID (Name strategy) block ds).
Proof.
  intros Hb Hds w Hw. pose proof (keep_db _ _ Hkeep w Hw) as Hw1. fold (after_roundtrip w) in Hw1.
  pose proof (SaveAndAdvance_cases chainID (Name strategy) block ds w) as Hc. cbv zeta in Hc.
  destruct (SaveAndAdvance _ _ _ _ w) as [r w2]. cbn in *.
  assert (forall now, w_db w2 = save_db now chainID (Name strategy) block ds
    (w_db (after_roundtrip w)) -> I w2) as Hsaved.
  { intros now Hdb. destruct Hw1 as [Hr _]. split; rewrite Hdb.
    - rewrite save_db_buffer. by apply insert_all_confirmed.
    - intros v. rewrite save_db_cursor, lookup_insert_eq. intros [= <-].
      destruct Hhead. rewrite u64_i64; width. }
  unfold confirmed_world in Hw1 |- *.
  destruct Hc as [(_ & Hdb & _)|[(_ & [Hdb | [Hdb _]])|(_ & ->)]];
    [by eapply Hsaved|by rewrite Hdb|by eapply Hsaved|done].
Qed.

(** events with enough confirmations convert to confirmed deposits *)
Lemma convert_I evs conf :
  MinConfirmations cfg <= conf -> Forall (fun e => ev_Confirmations e = conf) evs ->
  hoare I (convertEvents evs (MinConfirmations cfg)) (fun r w => I w /\ forall ds, r = Ok ds ->
    Forall (fun d => Status d = "TXCF" /\ MinConfirmations cfg <= ConfirmCount d) ds).
Proof.
  intros Hm Hev. unfold convertEvents.
  enough (forall out, Forall (fun d => Status d = "TXCF" /\ MinConfirmations cfg <= ConfirmCount d) out ->
    hoare I (foldM (fun out e => let* now := time_Now in
      match ToDeposit now e (MinConfirmations cfg) with
      | Ok (Some d) => ret (out ++ [d]) | Ok None => ret out
      | Err err => fail err | Panic p => panic p end) out evs) (fun r w => I w /\ forall ds, r = Ok ds ->
    Forall (fun d => Status d = "TXCF" /\ MinConfirmations cfg <= ConfirmCount d) ds)) as Hgen
    by (apply Hgen; constructor).
  induction Hev as [|e evs He Hev IH]; intros out Hout.
  - intros w Hw. split; [done|]. by intros ds [= <-].
  - cbn [foldM]. eapply hoare_bind with (R := fun r w => I w /\ forall out', r = Ok out' ->
      Forall (fun d => Status d = "TXCF" /\ MinConfirmations cfg <= ConfirmCount d) out').
    + intros w Hw. pose proof (keep_now _ _ Hkeep w Hw) as Hw1. unfold bind.
      destruct (time_Now w) as [[now|err|p] w1]; cbn in *; [|by split..].
      unfold ToDeposit. destruct (parseRFC3339Nano _); cbn; [|split; [done|by intros ? [= <-]]].
      destruct (formatUnits _ _); cbn; [|by split..]. split; [done|]. intros ? [= <-].
      apply Forall_app. split; [done|]. constructor; [|done]. cbn.
      rewrite He, (proj2 (Z.leb_le _ _) Hm). done.
    + intros out' w [Hw Ho]. apply IH; auto.
    + intros err w [Hw _]. by split.
    + intros p w [Hw _]. by split.
Qed.

Lemma processBlock_I latest endBlock block :
  latest <= top -> 0 <= block <= latest - MinConfirmations cfg ->
  preserves I (processBlock chainID strategy cfg latest endBlock block).
Proof.
  intros Hl Hb. unfold processBlock. cbv zeta. destruct Hhead as [Htop _].
  replace (i64 (u64 (latest - block))) with (latest - block)
    by (rewrite u64_small, i64_small; width).
  eapply hoare_bind with (R := fun r w => I w /\ forall evs, r = Ok evs ->
    Forall (fun e => ev_Confirmations e = latest - block) evs).
  { intros w Hw. pose proof (keep_scan _ _ Hkeep block (latest - block) w Hw) as Hw1.
    pose proof (Hstamp block (latest - block) w) as Hs. unfold wrapf.
    destruct (ScanBlock _ _ _ w) as [[evs|err|p] w1]; cbn in *; by split. }
  2,3: by intros ?? [? _].
  intros evs. eapply hoare_bind with (R := fun r w => I w /\ forall ds, r = Ok ds ->
    Forall (fun d => Status d = "TXCF" /\ MinConfirmations cfg <= ConfirmCount d) ds).
  { intros w [Hw Hevs]. eapply (convert_I evs (latest - block)); auto. lia. }
  2,3: by intros ?? [? _].
  intros ds w [Hw Hds]. revert w Hw.
  assert (preserves I (SaveAndAdvance chainID (Name strategy) block ds)).
  { apply save_I; [lia|by apply Hds]. }
  pose proof emit_I. pose proof (keep_wait _ _ Hkeep).
  match goal with |- forall w, _ -> I (?m w).2 => change (preserves I m) end.
  eff; auto with eff.
Qed.

Lemma processBlocks_I latest endBlock k : forall block,
  latest <= top -> 0 <= block -> block + Z.of_nat k - 1 <= latest - MinConfirmations cfg ->
  preserves I (processBlocks chainID strategy cfg latest endBlock k block).
Proof.
  induction k as [|k IH]; intros block Hl Hb0 Hk; cbn [processBlocks]; [apply preserves_ret|].
  apply preserves_bind; [apply processBlock_I; lia|]. intros _. apply IH; lia.
Qed.

Lemma pollOnce_I : preserves I (pollOnce chainID strategy cfg).
Proof.
  destruct Hhead as [Htop Hn]. pose proof emit_I as Hemit. unfold pollOnce.
  eapply hoare_bind with (R := fun r w => I w /\ forall n, r = Ok (inl n) -> 0 <= n <= top).
  { intros w Hw. destruct (decide (0 <= MaxRetries (RetryOptions cfg))) as [Hm|Hm].
    - destruct (hoare_Do I (fun n => 0 <= n <= top) (RetryOptions cfg) 0 BlockNumber Hm) with w
        as [Hw1 Hq]; [|apply (keep_wait _ _ Hkeep)|done|].
      { intros w' Hw'. split; [by apply (keep_head _ _ Hkeep)|]. by apply Hn. }
      unfold attempt. destruct (Do _ _ _ w) as [[n|err|p] w1]; cbn in *; split; try done.
      intros v [= <-]. auto.
    - unfold attempt. rewrite Do_negative_is_noop by lia. cbn. split; [done|].
      intros v [= <-]. lia. }
  2,3: by intros ?? [? _].
  intros [latest|err]; [|intros w [Hw _]; revert w Hw;
    change (preserves I (emit (minc ScannerErrors [chainLabel chainID; Name strategy]) ;;;
      fail (A := unit) (Errorf "BlockNumber" err))); eff; apply Hemit].
  intros w [Hw Hl]. specialize (Hl latest eq_refl). revert w Hw.
  match goal with |- forall w, _ -> I (?m w).2 => change (preserves I m) end.
  apply preserves_bind; [apply Hemit|]. intros _.
  rewrite (u64_small (MinConfirmations cfg)) by width.
  destruct (Z.leb_spec (MinConfirmations cfg) latest); [|apply preserves_ret]. cbv zeta.
  apply preserves_bind.
  { apply preserves_wrapf, preserves_query, (keep_db _ _ Hkeep). }
  intros c. destruct (Z.eqb_spec c 0); [apply preserves_wrapf, save_I; [lia|constructor]|].
  destruct (Z.ltb_spec (latest - MinConfirmations cfg) (u64 (c + 1))); [apply preserves_ret|].
  match goal with |- preserves _ (processBlocks _ _ _ _ ?e _ _) =>
    assert (e <= latest - MinConfirmations cfg) by (destruct (Z.ltb_spec (latest - MinConfirmations cfg)
      (u64 (u64 (c + 1) + u64 (MaxBlocksPerPoll cfg) - 1))); lia);
    set (endB := e) in * end.
  pose proof (u64_range (c + 1)). apply processBlocks_I; unfold is_u64 in *; lia.
Qed.
End Confirmed.


(** C19. Only confirmed deposits reach the buffer.  If every row is confirmed
    and the cursor is at a block with at least [MinConfirmations]
    confirmations below the highest head [top], this stays so through any
    number of polls, whatever fails and whatever the scanner reports, as long
    as the scanner stamps its events with the confirmations it is given. *)
Theorem Run_only_confirmed {E : Type} `{Env E, ETHClient E}
    (chainID : Z) (strategy : Scanner E) (cfg : LoopConfig) (top : Z) (ticks : nat) (w0 : World E) :
  calls_keep strategy (confirmed_world chainID strategy cfg top) -> head_below top -> stamps strategy ->
  0 <= MinConfirmations cfg < two63 ->
  confirmed_world chainID strategy cfg top w0 ->
  confirmed_world chainID strategy cfg top (Run chainID strategy cfg ticks w0).2.
Proof.
  intros Hk Hh Hs Hm Hw.
  by apply (Run_keeps chainID strategy cfg _ Hk ticks (pollOnce_I _ _ _ _ Hk Hh Hs Hm)).
Qed.

(** ** Progress on a working chain

    Nothing fails, the head stays at [latest], the scanner reports [evs b]. *)
Section Progress.
Import Quiet.
Context `{ETHClient Z}.
Variables (chainID : Z) (strategy : Scanner Z) (cfg : LoopConfig).
Variables (latest : Z) (evs : Z -> Z -> list DepositEvent) (keysAt : Z -> list key).

Record working_chain : Prop := {
  wc_head : forall w, BlockNumber w = (Ok latest, w);
  wc_scan : forall b conf w, ScanBlock strategy b conf w = (Ok (evs b conf), w);
  wc_events : forall b conf, Forall convertible (evs b conf) /\
    Forall (fun e => is_i32 (ev_LogIndex e)) (evs b conf) /\ ev_key <$> evs b conf = keysAt b;
  wc_latest : 0 <= latest < maxBlock;
  wc_retries : 0 <= MaxRetries (RetryOptions cfg);
  wc_min : 0 <= MinConfirmations cfg <= latest
}.
Hypothesis Hwc : working_chain.
Abbreviation top := (latest - MinConfirmations cfg).

(** [w'] has processed the blocks after [c] up to [c'] on top of [w] *)
Definition processed (c c' : Z) (w w' : World Z) : Prop :=
  cur chainID strategy w' = Some c' /\
  forall k, k ∈ keys_of (w_db w') <->
    k ∈ keys_of (w_db w) \/ exists b, c < b <= c' /\ k ∈ keysAt b.

Lemma processed_trans c c1 c2 w w1 w2 :
  c <= c1 <= c2 -> processed c c1 w w1 -> processed c1 c2 w1 w2 -> processed c c2 w w2.
Proof.
  intros Hc [_ H1] [H2 H3]. split; [done|]. intros k. rewrite H3, H1. split.
  - intros [[?|(b & ? & ?)]|(b & ? & ?)]; [by left|right; exists b; split; [lia|done]..].
  - intros [?|(b & Hb & ?)]; [by left; left|].
    destruct (decide (b <= c1)); [left; right|right]; exists b; split; [lia|done|lia|done].
Qed.

Lemma save_quiet c s block ds (w : World Z) :
  Forall (fun d => is_i32 (LogIndex d)) ds ->
  SaveAndAdvance c s block ds w =
    (Ok tt, mkWorld (save_db (w_ext w * 1000000) c s block ds (w_db w)) (w_metrics w) (w_ext w)).
Proof.
  intros Hds. unfold SaveAndAdvance, with_tx, bind at 1, wrapf at 1. cbn.
  assert (forall db, foldM (fun _ d => wrapf "insert deposit_buffer"
    (tx_exec (sql_insert_deposit (w_ext w * 1000000) block d))) tt ds (db, w_ext w) =
    (Ok tt, (foldl (insert_db (w_ext w * 1000000) block) db ds, w_ext w))) as Hins.
  { induction Hds as [|d ds Hd Hds IH]; intros db; [done|]. cbn [foldM].
    unfold bind, wrapf, tx_exec at 1. cbn. rewrite sql_insert_ok by done. cbn. apply IH. }
  unfold bind at 1. rewrite Hins. unfold save_db. destruct ds; done.
Qed.

Lemma convert_quiet es m (w : World Z) :
  Forall convertible es -> exists ds, convertEvents es m w = (Ok ds, w) /\
    key_of <$> ds = ev_key <$> es.
Proof.
  intros Hes. unfold convertEvents.
  enough (forall out, exists ds, foldM (fun out e => let* now := time_Now in
    match ToDeposit now e m with
    | Ok (Some d) => ret (out ++ [d]) | Ok None => ret out
    | Err err => fail err | Panic p => panic p end) out es w = (Ok ds, w) /\
    key_of <$> ds = (key_of <$> out) ++ (ev_key <$> es)) as Hg by exact (Hg []).
  induction Hes as [|e es (Hd & t & Ht & He) _ IH]; intros out.
  - exists out. by rewrite app_nil_r.
  - cbn [foldM]. unfold bind at 1 2. cbn.
    rewrite (ToDeposit_ok _ e m t) by done. cbn.
    destruct (IH (out ++ [deposit_of {| sec := w_ext w; nsec := 0 |} m t e])) as (ds & Hf & Hk).
    exists ds. split; [exact Hf|]. rewrite Hk, fmap_app, <- app_assoc. done.
Qed.

Lemma keys_i32 (ds : list Deposit) (es : list DepositEvent) :
  key_of <$> ds = ev_key <$> es -> Forall (fun e => is_i32 (ev_LogIndex e)) es ->
  Forall (fun d => is_i32 (LogIndex d)) ds.
Proof.
  intros Hk He. revert ds Hk. induction He as [|e es He _ IH]; intros [|d ds] Hk; try done.
  injection Hk as _ _ Hl Hk. constructor; [by rewrite Hl|by apply IH].
Qed.

Lemma processBlock_quiet endBlock c (w : World Z) :
  0 <= c -> c + 1 <= top -> exists w',
    processBlock chainID strategy cfg latest endBlock (c + 1) w = (Ok tt, w') /\
    processed c (c + 1) w w'.
Proof.
  intros Hc Hle. destruct Hwc as [_ Hscan Hev Hl _ Hm]. unfold processBlock. cbv zeta.
  set (conf := i64 _). destruct (Hev (c + 1) conf) as (Hconv & Hi & Hk).
  destruct (convert_quiet _ (MinConfirmations cfg) w Hconv) as (ds & Hds & Hdk).
  unfold bind at 1, wrapf. rewrite Hscan. unfold bind at 1. rewrite Hds.
  unfold bind at 1, attempt. rewrite save_quiet by eauto using keys_i32.
  match goal with |- exists w', ?m ?w1 = _ /\ _ =>
    assert (exists w', m w1 = (Ok tt, w') /\ w_db w' = w_db w1) as (w' & -> & Hdb) end.
  { unfold bind, emit, modify. destruct ds; cbn; destruct (_ <? _); cbn; eauto. }
  exists w'. split; [done|]. cbn in Hdb. split; unfold cur; rewrite Hdb.
  - rewrite save_db_cursor, lookup_insert_eq. cbn. rewrite u64_i64; [done|unfold maxBlock in *; width].
  - intros k. rewrite save_db_keys, Hdk, Hk. split; (intros [?|Hk']; [by left|right]).
    + exists (c + 1). split; [lia|done].
    + destruct Hk' as (b & ? & ?). by replace (c + 1) with b by lia.
Qed.

Lemma processed_refl c w : cur chainID strategy w = Some c -> processed c c w w.
Proof. intros Hc. split; [done|]. intros k. split; [by left|]. intros [?|(b & ? & _)]; [done|lia]. Qed.

Lemma processBlocks_quiet endBlock k : forall c (w : World Z),
  0 <= c -> c + Z.of_nat k <= top -> cur chainID strategy w = Some c -> exists w',
    processBlocks chainID strategy cfg latest endBlock k (c + 1) w = (Ok tt, w') /\
    processed c (c + Z.of_nat k) w w'.
Proof.
  induction k as [|k IH]; intros c w Hc Hle Hcur.
  - exists w. split; [done|]. rewrite Z.add_0_r. by apply processed_refl.
  - destruct (processBlock_quiet endBlock c w) as (w1 & Hp & Hw1); [lia..|].
    destruct (IH (c + 1) w1) as (w2 & Hp2 & Hw2); [lia..|apply Hw1|].
    exists w2. split; [cbn [processBlocks]; unfold bind; by rewrite Hp|].
    replace (c + Z.of_nat (S k)) with (c + 1 + Z.of_nat k) by lia.
    by eapply processed_trans; [..|exact Hw1|exact Hw2]; lia.
Qed.

(** one poll advances by [MaxBlocksPerPoll], up to the confirmed head *)
Lemma pollOnce_quiet c (w : World Z) :
  0 < c <= top -> 1 <= MaxBlocksPerPoll cfg < two63 -> top + MaxBlocksPerPoll cfg < two64 ->
  cur chainID strategy w = Some c -> exists w',
    pollOnce chainID strategy cfg w = (Ok tt, w') /\
    processed c (Z.min (c + MaxBlocksPerPoll cfg) top) w w'.
Proof.
  intros Hc Hmax Hov Hcur. destruct Hwc as [Hhead _ _ Hl Hr Hm]. unfold pollOnce.
  unfold bind at 1, attempt. rewrite (Do_first_try _ _ _ w w latest) by done.
  unfold bind at 1, emit, modify. set (w1 := mkWorld _ _ _).
  assert (cur chainID strategy w1 = Some c) as Hcur1 by done.
  rewrite (u64_small (MinConfirmations cfg)) by (unfold maxBlock in *; width).
  rewrite (proj2 (Z.leb_le _ _)) by lia. cbv zeta.
  assert (wrapf "read cursor" (Cursor chainID (Name strategy)) w1 = (Ok c, w1)) as Hread.
  { unfold Cursor, query, query_at, wrapf, bind. cbn. unfold cur in Hcur1.
    change (scan_cursor (w_db w)) with (scan_cursor (w_db w1)).
    destruct (scan_cursor (w_db w1) !! _); cbn in *; [|done]. by injection Hcur1 as ->. }
  unfold bind at 1. rewrite Hread. rewrite (proj2 (Z.eqb_neq c 0)) by lia.
  rewrite (u64_small (c + 1)) by (unfold maxBlock in *; width).
  rewrite (u64_small (MaxBlocksPerPoll cfg)) by width.
  rewrite (u64_small (c + 1 + _ - 1)) by width.
  assert (keys_of (w_db w1) = keys_of (w_db w)) as Hkeys by done.
  destruct (Z.ltb_spec top (c + 1)) as [Hlt|Hge].
  - exists w1. split; [done|]. replace (Z.min _ _) with c by lia. exact (processed_refl c w1 Hcur1).
  - match goal with |- exists w', processBlocks _ _ _ _ ?e ?n _ _ = _ /\ _ =>
      destruct (processBlocks_quiet e n c w1) as (w2 & Hp & Hw2);
      [lia| |done|exists w2; split; [exact Hp|]; assert (c + Z.of_nat n =
        Z.min (c + MaxBlocksPerPoll cfg) top) as <-; [|exact Hw2]] end.
    all: destruct (Z.ltb_spec top (c + 1 + MaxBlocksPerPoll cfg - 1)); lia.
Qed.
Lemma Run_ticks_quiet n : forall c (w : World Z),
  0 < c <= top -> 1 <= MaxBlocksPerPoll cfg < two63 -> top + MaxBlocksPerPoll cfg < two64 ->
  cur chainID strategy w = Some c -> exists w',
    Run_ticks chainID strategy cfg n w = (Ok tt, w') /\
    processed c (Z.min (c + Z.of_nat n * MaxBlocksPerPoll cfg) top) w w'.
Proof.
  induction n as [|n IH]; intros c w Hc Hmax Hov Hcur.
  - exists w. split; [done|]. replace (Z.min _ _) with c by lia. by apply processed_refl.
  - destruct (pollOnce_quiet c w) as (w1 & Hp & Hw1); [done..|].
    destruct (IH (Z.min (c + MaxBlocksPerPoll cfg) top) w1) as (w2 & Hp2 & Hw2);
      [lia|done|done|apply Hw1|].
    exists w2. split; [cbn [Run_ticks]; unfold bind, attempt; cbn; by rewrite Hp|].
    replace (Z.min (c + Z.of_nat (S n) * _) _) with
      (Z.min (Z.min (c + MaxBlocksPerPoll cfg) top + Z.of_nat n * MaxBlocksPerPoll cfg) top) by nia.
    eapply processed_trans; [|exact Hw1|exact Hw2]. nia.
Qed.

(** C18. The loop catches up.  On a working chain whose head stays at
    [latest], the initial poll and [n] ticks take the cursor from [c] to
    [min (c + (n + 1) * MaxBlocksPerPoll) (latest - MinConfirmations)], and
    the buffer gains exactly the deposits of the blocks in between. *)
Theorem Run_catches_up (n : nat) (c : Z) (w : World Z) :
  0 < c <= top ->
  1 <= MaxBlocksPerPoll cfg < two63 ->
  top + MaxBlocksPerPoll cfg < two64 ->
  0 < i64 (PollingIntervalMs cfg * 1000000) ->
  cur chainID strategy w = Some c ->
  exists w', Run chainID strategy cfg n w = (Ok tt, w') /\
    processed c
      (Z.min (c + (Z.of_nat n + 1) * MaxBlocksPerPoll cfg) top) w w'.
Proof.
  intros Hc Hmax Hov Htick Hcur.
  destruct (pollOnce_quiet c w) as (w1 & Hp & Hw1); [done..|].
  destruct (Run_ticks_quiet n
    (Z.min (c + MaxBlocksPerPoll cfg) top) w1) as (w2 & Hp2 & Hw2);
    [lia|done|done|apply Hw1|].
  exists w2. split.
  - unfold Run. unfold bind, attempt. rewrite Hp, (proj2 (Z.leb_gt _ _)) by lia. done.
  - replace (Z.min (c + (Z.of_nat n + 1) * _) _) with
      (Z.min (Z.min (c + MaxBlocksPerPoll cfg) top + Z.of_nat n * MaxBlocksPerPoll cfg) top) by nia.
    eapply processed_trans; [|exact Hw1|exact Hw2]. nia.
Qed.
End Progress.

(** ** Boundary behaviour *)

(** A cursor row at block 0 is indistinguishable from a missing one: the
    poll jumps to the confirmed head and skips every block in between. *)
Theorem cursor_zero_skips {E : Type} `{Env E, ETHClient E} (chainID : Z) (strategy : Scanner E)
    (cfg : LoopConfig) (latest : Z) (w w1 w2 : World E) :
  Do (RetryOptions cfg) 0 BlockNumber w = (Ok latest, w1) ->
  u64 (MinConfirmations cfg) <= latest ->
  env_db (emit (mset ScannerLatestBlock [chainLabel chainID] latest) w1).2 = (Ok tt, w2) ->
  scan_cursor (w_db w2) !! (chainID, Name strategy) = Some 0 ->
  pollOnce chainID strategy cfg w =
  wrapf "init cursor"
    (SaveAndAdvance chainID (Name strategy) (latest - u64 (MinConfirmations cfg)) []) w2.
Proof.
  intros Hd Hm Hdb Hc. unfold pollOnce, bind at 1, attempt. rewrite Hd.
  unfold emit, modify in *. unfold bind at 1. cbn [snd] in Hdb. rewrite (proj2 (Z.leb_le _ _) Hm). cbv zeta.
  unfold bind at 1, wrapf at 1, Cursor, query, query_at, bind at 1, wrapf at 1. rewrite Hdb, Hc. done.
Qed.

(** ** A concrete chain: head 105, two confirmations, one deposit in block 102 *)
Module LoopWitness.
Import Quiet.

#[export] Instance node : ETHClient Z := {|
  BlockNumber := ret 105; BlockByNumber _ := ret None; FilterLogs _ := ret [];
  CodeAt _ := ret []; TransactionSender _ _ _ := ret 0 |}.
Definition evs (b conf : Z) : list DepositEvent :=
  if b =? 102 then
    [mkEvent 1 "0xaa" 0 "0xf" "0xt" (Some 25) "ETH" 1 conf "2023-11-14T22:13:20Z"]
  else [].
Definition scanner : Scanner Z := mkScanner "erc20" (fun b conf => ret (evs b conf)).
Definition cfg : LoopConfig := {|
  MinConfirmations := 2; MaxBlocksPerPoll := 2; BlockDelayMs := 0; PollingIntervalMs := 1000;
  RetryOptions := {| MaxRetries := 3; BaseDelay := 1000000000 |} |}.
Definition keysAt (b : Z) : list key := if b =? 102 then [(1, "0xaa", 0)] else [].
Definition truth (c : Z) (s : string) (b : Z) : list key := keysAt b.
Definition at100 : World Z :=
  mkWorld (mkDB [] 1 {[ (1, "erc20") := 100 ]} 0 [] [] []) ∅ 1700000000.

Lemma evs_ok b conf : Forall convertible (evs b conf) /\
  Forall (fun e => is_i32 (ev_LogIndex e)) (evs b conf) /\ ev_key <$> evs b conf = keysAt b.
Proof.
  unfold evs, keysAt. destruct (b =? 102); split_and!; repeat constructor; cbn; try lia; try done.
  exists 1700000000. split; [unfold minRFC3339, maxRFC3339; lia|reflexivity].
Qed.

Lemma coop : Cooperative truth (fun _ => ∅) 1 scanner (fun _ => True).
Proof. split; intros; try done; intros w; (split; [|done]); (split; [done|eauto using rtc_refl]). Qed.
Lemma sound : ScannerSound truth 1 scanner (fun _ => True).
Proof.
  split. intros b conf w evs' _ [= <-]. destruct (evs_ok b conf) as (? & _ & ->). done.
Qed.

(** three blocks to process: two in the first poll, one in the next tick *)
Lemma Run_nothing_lost_witness :
  nothing_lost truth (fun _ => ∅) at100 (Run 1 scanner cfg 1 at100).2 /\
  scan_cursor (w_db (Run 1 scanner cfg 1 at100).2) !! (1, "erc20") = Some 103 /\
  keys_of (w_db (Run 1 scanner cfg 1 at100).2) = [(1, "0xaa", 0)].
Proof.
  split; [|split; vm_compute; reflexivity].
  apply (Run_nothing_lost truth (fun _ : Z => ∅) 1 scanner cfg (fun _ => True) 1 at100 coop sound); [..|exact I].
  - intros c s n. cbn. rewrite map_fmap_singleton, lookup_singleton_Some.
    intros [_ <-]. reflexivity.
  - intros w n [= <-]. split; [done|reflexivity].
Defined.

Lemma Run_only_confirmed_witness :
  confirmed_world 1 scanner cfg 105 (Run 1 scanner cfg 1 at100).2.
Proof.
  apply Run_only_confirmed.
  - split; intros; intros w Hw; exact Hw.
  - split; [by vm_compute|]. intros w n [= <-]. lia.
  - intros b conf w evs' [= <-]. unfold evs. destruct (b =? 102); repeat constructor.
  - by vm_compute.
  - split; [constructor|]. intros v. cbn. rewrite lookup_singleton_Some. intros [_ <-].
    by vm_compute.
Defined.

Lemma Run_catches_up_witness : exists w',
  Run 1 scanner cfg 4 at100 = (Ok tt, w') /\ processed 1 scanner keysAt 100 103 at100 w'.
Proof.
  assert (working_chain scanner cfg 105 evs keysAt) as Hwc
    by (split; [done|done|apply evs_ok|by vm_compute..]).
  apply (Run_catches_up 1 scanner cfg 105 evs keysAt Hwc 4 100 at100); by vm_compute.
Defined.

Definition at0 : World Z :=
  mkWorld (mkDB [] 1 {[ (1, "erc20") := 0 ]} 0 [] [] []) ∅ 1700000000.
(** block 102 is skipped: the deposit never reaches the buffer *)
Lemma cursor_zero_skips_witness :
  let w' := (pollOnce 1 scanner cfg at0).2 in
  scan_cursor (w_db w') !! (1, "erc20") = Some 103 /\ keys_of (w_db w') = [].
Proof.
  cbv zeta. rewrite (cursor_zero_skips 1 scanner cfg 105 at0 at0
    (emit (mset ScannerLatestBlock [chainLabel 1] 105) at0).2);
    [split|..|by vm_compute| |]; vm_compute; reflexivity.
Defined.
End LoopWitness.
