(* ===== verification/Protocol.v ===== *)
(** * Wire protocol of the publisher ([internal/publisher/protocol.go])

    The message envelope, the acknowledgement id of a deposit, and what the
    read loop makes of an incoming message. *)
From stdpp Require Import base gmap list strings.
From Stdlib Require Import ZArith Lia Ascii String.
From stdpp Require Import base strings.
From S2P Require Import Prelude Decimal Errors Effect Model Json.

Record envelope := mkEnvelope {
  Type_ : string;          (* json:"type" *)
  ID : string;             (* json:"id,omitempty" *)
  Payload : option json    (* json:"payload,omitempty" *)
}.

Definition msgTypeDeposit : string := "deposit".
Definition msgTypeAck : string := "ack".

(** [ackID(chainID, txHash, logIndex)] = Sprintf("%d:%s:%d", ...) *)
Definition ackID (chainID : Z) (txHash : string) (logIndex : Z) : string :=
  dec chainID +:+ String ":" (txHash +:+ String ":" (dec logIndex)).

(** the id of a key *)
Definition key_id (k : key) : string := let '(c, tx, li) := k in ackID c tx li.

(** [json.Marshal(env)] *)
Definition marshalEnvelope (e : envelope) : json :=
  JObj ([("type", JStr (Type_ e))] ++
        (if String.eqb (ID e) "" then [] else [("id", JStr (ID e))]) ++
        match Payload e with None => [] | Some p => [("payload", p)] end).

(** [json.Unmarshal(data, &env)] into a fresh envelope *)
Definition setEnvelopeField (e : envelope) (k : string) (v : json) : res envelope :=
  let k := to_lower k in
  if String.eqb k "type" then rmap (fun x => mkEnvelope x (ID e) (Payload e)) (decodeStr (Type_ e) v)
  else if String.eqb k "id" then rmap (fun x => mkEnvelope (Type_ e) x (Payload e)) (decodeStr (ID e) v)
  else if String.eqb k "payload" then Ok (mkEnvelope (Type_ e) (ID e) (Some v))
  else Ok e.

Fixpoint setEnvelopeFields (e : envelope) (fs : list (string * json)) : res envelope :=
  match fs with
  | [] => Ok e
  | (k, v) :: fs' =>
      match setEnvelopeField e k v with
      | Ok e' => setEnvelopeFields e' fs'
      | r => r
      end
  end.

Definition unmarshalEnvelope (j : json) : res envelope :=
  match j with
  | JNull => Ok (mkEnvelope "" "" None)
  | JObj fs => setEnvelopeFields (mkEnvelope "" "" None) fs
  | _ => Err json_type_error
  end.

(** [encodeDeposit(d)]: the message and its id.  Marshalling a [Deposit] and
    an [envelope] cannot fail. *)
Definition encodeDeposit (d : Deposit) : json * string :=
  let payload := marshalDeposit d in
  let id := ackID (ChainID d) (TxHash d) (LogIndex d) in
  (marshalEnvelope (mkEnvelope msgTypeDeposit id (Some payload)), id).

(** ** The read loop ([startReadLoop]) *)

(** A message as [conn.ReadMessage] delivers it; [None] is text that is not JSON. *)
Inductive wsMessage := TextMessage (data : option json) | BinaryMessage.

(** One message that was read without error: [ackCh] is the buffered channel
    (nil in fire-and-forget mode), [cap] its capacity.  A full channel drops. *)
Definition onMessage (cap : Z) (ackCh : option (list string)) (m : wsMessage) : option (list string) :=
  match ackCh, m with
  | Some ch, TextMessage (Some data) =>
      match unmarshalEnvelope data with
      | Ok env =>
          if String.eqb (Type_ env) msgTypeAck && negb (String.eqb (ID env) "") then
            if Z.of_nat (length ch) <? cap then Some (ch ++ [ID env]) else Some ch
          else Some ch
      | _ => Some ch
      end
  | _, _ => ackCh
  end.

(** ** Lemmas *)

Lemma dec_no_colon n : all_chars (fun c => negb (Ascii.eqb c ":")) (dec n) = true.
Proof. by apply dec_no_char. Qed.

Lemma ackID_injective c tx li c' tx' li' :
  ackID c tx li = ackID c' tx' li' -> (c, tx, li) = (c', tx', li').
Proof.
  unfold ackID. intros H.
  apply split_first_sep in H as [Hc H]; [|apply dec_no_colon..].
  apply split_last_sep in H as [-> Hl]; [|apply dec_no_colon..].
  by apply dec_inj in Hc as ->; apply dec_inj in Hl as ->.
Qed.

#[export] Instance key_id_inj : Inj (=) (=) key_id.
Proof. intros [[c tx] li] [[c' tx'] li']. apply ackID_injective. Qed.

Lemma key_id_nonempty k : key_id k <> "".
Proof. destruct k as [[c tx] li]. cbn. unfold ackID. destruct (dec c); done. Qed.

Lemma unmarshal_encode d :
  unmarshalEnvelope (encodeDeposit d).1 =
  Ok (mkEnvelope msgTypeDeposit (key_id (key_of d)) (Some (marshalDeposit d))).
Proof.
  unfold encodeDeposit, marshalEnvelope. cbn [fst Type_ ID Payload].
  pose proof (key_id_nonempty (key_of d)) as Hne. cbn in Hne.
  rewrite (proj2 (String.eqb_neq _ _) Hne). reflexivity.
Qed.

(** C23. The acknowledgement id names exactly one deposit: two deposits with
    the same id have the same chain, transaction hash and log index, for any
    text in the hash.  So an ACK can never remove another deposit's row. *)
Theorem ackID_identifies (d d' : Deposit) :
  (encodeDeposit d).2 = (encodeDeposit d').2 <-> key_of d = key_of d'.
Proof.
  split.
  - apply (key_id_inj (key_of d) (key_of d')).
  - unfold key_of. intros [= Hc Htx Hl]. cbn. by rewrite Hc, Htx, Hl.
Qed.

(** C24. What the Adapter decodes from a deposit message is the deposit that
    was buffered, with its id. *)
Theorem envelope_roundtrip (d : Deposit) :
  deposit_ints d ->
  exists env p, unmarshalEnvelope (encodeDeposit d).1 = Ok env /\
    Type_ env = msgTypeDeposit /\ ID env = (encodeDeposit d).2 /\
    Payload env = Some p /\ unmarshalDeposit p = Ok d.
Proof.
  intros Hd. eexists _, _. rewrite unmarshal_encode. split_and!; [done..|].
  by apply unmarshal_marshal.
Qed.

(** The reply the Adapter sends for a deposit message. *)
Definition ackReply (env : envelope) : json := marshalEnvelope (mkEnvelope msgTypeAck (ID env) None).

Lemma onMessage_ack cap ch id :
  id <> "" -> Z.of_nat (length ch) < cap ->
  onMessage cap (Some ch) (TextMessage (Some (marshalEnvelope (mkEnvelope msgTypeAck id None)))) =
  Some (ch ++ [id]).
Proof.
  intros Hid Hc. destruct id as [|c id]; [done|]. unfold onMessage.
  change (unmarshalEnvelope _) with (Ok (mkEnvelope msgTypeAck (String c id) None)).
  cbn [Type_ ID]. rewrite String.eqb_refl. cbn [String.eqb andb negb].
  by rewrite (proj2 (Z.ltb_lt _ _) Hc).
Qed.

(** The read loop queues the id of every acknowledgement while the channel
    has room; it never queues anything for another message, and never exceeds
    the capacity. *)
Theorem onMessage_queues (cap : Z) (ch : list string) (m : wsMessage) :
  Z.of_nat (length ch) <= cap ->
  (forall d, m = TextMessage (Some (ackReply (mkEnvelope msgTypeDeposit (key_id (key_of d)) None))) ->
     Z.of_nat (length ch) < cap ->
     onMessage cap (Some ch) m = Some (ch ++ [(encodeDeposit d).2])) /\
  (forall d, m = TextMessage (Some (encodeDeposit d).1) -> onMessage cap (Some ch) m = Some ch) /\
  exists ch', onMessage cap (Some ch) m = Some ch' /\ ch `prefix_of` ch' /\
    Z.of_nat (length ch') <= cap /\ Forall (fun id => id <> "") (drop (length ch) ch').
Proof.
  intros Hcap. split_and!.
  - intros d -> Hc. unfold ackReply. cbn [ID].
    apply (onMessage_ack cap ch (key_id (key_of d))); [apply key_id_nonempty|done].
  - intros d ->. unfold onMessage. by rewrite unmarshal_encode.
  - assert (forall x : list string, x = ch -> ch `prefix_of` x /\ Z.of_nat (length x) <= cap /\
      Forall (fun id => id <> "") (drop (length ch) x)) as Hsame.
    { intros x ->. split_and!; [done..|]. by rewrite drop_all. }
    unfold onMessage. destruct m as [[data|]|]; [|eauto..].
    destruct (unmarshalEnvelope data) as [env|e|p]; [|eauto..].
    destruct (String.eqb_spec (Type_ env) msgTypeAck); [|eauto].
    destruct (String.eqb_spec (ID env) ""); [eauto|]. cbn.
    destruct (Z.ltb_spec (Z.of_nat (length ch)) cap); [|eauto].
    eexists. split; [done|]. split_and!; [by eexists| |].
    + rewrite length_app. cbn. lia.
    + rewrite drop_app_length. by constructor.
Qed.

Module ProtocolWitness.
Definition d0 : Deposit :=
  mkDeposit 1 "0xa:b" 3 "0xf" "0xt" "2.5" 12 "ETH" "TXCF" "20231115071320" "20231115071320007".

Lemma envelope_roundtrip_witness : exists env,
  unmarshalEnvelope (encodeDeposit d0).1 = Ok env /\ ID env = "1:0xa:b:3".
Proof.
  destruct (envelope_roundtrip d0) as (env & p & He & _ & Hid & _).
  - by vm_compute.
  - exists env. split; [exact He|exact Hid].
Defined.

Lemma onMessage_queues_witness :
  onMessage 2 (Some ["x"]) (TextMessage (Some (JObj [("type", JStr "ack"); ("id", JStr "1:0xa:b:3")])))
  = Some ["x"; "1:0xa:b:3"].
Proof.
  apply (proj1 (onMessage_queues 2 ["x"]
    (TextMessage (Some (JObj [("type", JStr "ack"); ("id", JStr "1:0xa:b:3")]))) ltac:(cbn; lia)) d0);
    [reflexivity|cbn; lia].
Defined.
End ProtocolWitness.
