(* ===== verification/Publisher.v ===== *)
(** * Publisher ([internal/publisher/publisher.go])

    Drains [deposit_buffer] into the Adapter's WebSocket.  With [RequireACK]
    a row is deleted only after the Adapter acknowledged it; without it, right
    after the write.

    Loops that run until the connection ends take a number of iterations
    ("fuel"); [Ok tt] from such a loop means it is still running after that
    many [select]s, an [Err] is what the Go function returned.  The Go
    functions never return nil, so the two do not overlap; [flushUntilEmpty],
    which does, returns a [flow]. *)
From stdpp Require Import base gmap list strings relations.
From Stdlib Require Import ZArith Lia Ascii String.
From stdpp Require Import base strings.
From S2P Require Import Prelude Decimal Errors Effect Retry Time Model Json Metrics Store BufferRepo Spec Protocol.

(** ** Interfaces *)

(** [type Buffer interface] *)
Class Buffer (E : Type) := {
  buf_PendingAll : Z -> M (World E) (list Deposit);
  buf_Ack : Z -> string -> Z -> M (World E) unit
}.

#[export] Instance BufferRepo_Buffer {E} `{Env E} : Buffer E := {|
  buf_PendingAll := PendingAll; buf_Ack := Ack |}.

(** which case of the drain loops' [select] fires *)
Inductive pub_event :=
| PeDone                 (* ctx.Done() *)
| PeReadErr (e : goerr)  (* readErr *)
| PeWake                 (* wake *)
| PeAck (id : string)    (* ackCh *)
| PePing | PePoll | PeTimeout.

(** The WebSocket, the selects on it, and the random jitter. *)
Class Conn (E : Type) := {
  DialContext : M (World E) unit;
  WriteMessage : json -> M (World E) unit;
  WritePing : M (World E) unit;
  select_drain : M (World E) pub_event;
  (* gracefulACK: an id from ackCh, or 100 ms passed *)
  select_graceful : M (World E) (option string);
  (* drainCtx.Err() of gracefulFireAndForget *)
  drainCtx_Err : M (World E) unit;
  (* int(float64(ms) * jitter), jitter random in [0.8, 1.2) *)
  jittered : Z -> M (World E) Z
}.

Record Config := mkConfig {
  URL : string; ReconnectIntervalMs : Z; DrainTimeoutMs : Z; PollIntervalMs : Z; MaxBatchSize : Z;
  WriteTimeout : Z; ReadTimeout : Z; PingInterval : Z; (* ns *)
  RequireACK : bool; ACKTimeout : Z (* ns *); MaxInFlight : Z
}.

Definition maxReconnectDelayMs : Z := 60000.

Definition second_ns : Z := 1000000000.

(** [New]: the defaults *)
Definition New (cfg : Config) : Config :=
  let wt := if WriteTimeout cfg <=? 0 then 10 * second_ns else WriteTimeout cfg in
  let rt := if ReadTimeout cfg <=? 0 then 60 * second_ns else ReadTimeout cfg in
  let pi := if PingInterval cfg <=? 0 then Z.quot rt 2 else PingInterval cfg in
  let at_ := if ACKTimeout cfg <=? 0 then 30 * second_ns else ACKTimeout cfg in
  let mi := if MaxInFlight cfg <=? 0 then 100 else MaxInFlight cfg in
  mkConfig (URL cfg) (ReconnectIntervalMs cfg) (DrainTimeoutMs cfg) (PollIntervalMs cfg)
    (MaxBatchSize cfg) wt rt pi (RequireACK cfg) at_ mi.

(** ** Outstanding messages *)

Record outstandingMsg := mkMsg {
  om_chainID : Z; om_txHash : string; om_logIndex : Z; om_sentAt : instant }.
Abbreviation outstanding := (gmap string outstandingMsg).
Definition newOutstanding : outstanding := ∅.

Definition instant_ns (t : instant) : Z := sec t * second_ns + nsec t.

(** the earliest [sentAt]; [None] is the zero time *)
Definition oldest (o : outstanding) : option Z :=
  map_fold (fun _ m acc => match acc with
    | None => Some (instant_ns (om_sentAt m))
    | Some t => if instant_ns (om_sentAt m) <? t then Some (instant_ns (om_sentAt m)) else Some t
    end) None o.

Definition out_len (o : outstanding) : Z := Z.of_nat (size o).

(** a publisher goroutine in ACK mode: the world and its [outstanding] *)
Definition PS (E : Type) : Type := World E * outstanding.

Definition lift {E A} (m : M (World E) A) : M (PS E) A := fun '(w, o) =>
  let '(r, w') := m w in (r, (w', o)).

Inductive flow := Returned | Running.

Section Publisher.
Context {E : Type} `{Env E, Buffer E, Conn E}.
Variable cfg : Config.

Definition out_has (id : string) : M (PS E) bool := gets (fun s => bool_decide (is_Some (s.2 !! id))).
Definition out_length : M (PS E) Z := gets (fun s => out_len s.2).
(** [out.add(id, ...)] stamps the message with [time.Now()] *)
Definition out_add (id : string) (chainID : Z) (txHash : string) (logIndex : Z) : M (PS E) unit :=
  let* now := lift time_Now in
  modify (fun s => (s.1, <[id := mkMsg chainID txHash logIndex now]> s.2)).
Definition out_take (id : string) : M (PS E) (option outstandingMsg) := fun s =>
  (Ok (s.2 !! id), (s.1, delete id s.2)).
(** [out.oldestAge()] *)
Definition oldestAge : M (PS E) Z :=
  let* o := gets snd in
  match oldest o with
  | None => ret 0
  | Some t => let* now := lift time_Now in ret (instant_ns now - t)
  end.

(** the sending loop of [topUp] *)
Fixpoint topUp_send (pending : list Deposit) (available : Z) : M (PS E) unit :=
  match pending with
  | [] => ret tt
  | d :: rest =>
      if available <=? 0 then ret tt
      else
        let '(raw, id) := encodeDeposit d in
        let* known := out_has id in
        if (known : bool) then topUp_send rest available
        else
          let* sent := lift (attempt (WriteMessage raw)) in
          match sent with
          | inr err =>
              lift (emit (minc PublisherSendErrors [])) ;;; fail (Errorf ("write " +:+ id) err)
          | inl _ =>
              out_add id (ChainID d) (TxHash d) (LogIndex d) ;;; topUp_send rest (available - 1)
          end
  end.

Definition setInFlight : M (PS E) unit :=
  let* n := out_length in lift (emit (mset PublisherInFlight [] n)).

Definition topUp : M (PS E) unit :=
  let* n := out_length in
  let available := MaxInFlight cfg - n in
  if available <=? 0 then ret tt
  else
    let limit := available + n in
    let limit := if MaxBatchSize cfg <? limit then MaxBatchSize cfg else limit in
    let* pending := lift (wrapf "PendingAll" (buf_PendingAll limit)) in
    topUp_send pending available ;;;
    setInFlight.

Definition handleAck (id : string) : M (PS E) unit :=
  let* m := out_take id in
  match m with
  | None => ret tt
  | Some msg =>
      lift (emit (minc PublisherAcksReceived [])) ;;;
      lift (wrapf "DB Ack" (buf_Ack (om_chainID msg) (om_txHash msg) (om_logIndex msg))) ;;;
      lift (emit (minc PublisherSent [])) ;;;
      setInFlight
  end.

(** the waiting loop of [gracefulACK] *)
Fixpoint gracefulACK_loop (deadline : Z) (n : nat) : M (PS E) unit :=
  match n with
  | O => ret tt
  | S n' =>
      let* len := out_length in
      if len <=? 0 then fail (ErrSentinel Canceled)
      else
        let* now := lift time_Now in
        if instant_ns now <? deadline then
          let* got := lift select_graceful in
          match got with
          | Some id => attempt (handleAck id) ;;; gracefulACK_loop deadline n'
          | None => gracefulACK_loop deadline n'
          end
        else fail (ErrSentinel Canceled)
  end.

Definition gracefulACK (n : nat) : M (PS E) unit :=
  let* now := lift time_Now in
  gracefulACK_loop (instant_ns now + DrainTimeoutMs cfg * 1000000) n.

Definition writePing : M (World E) unit := wrapf "ping write" WritePing.

(** one iteration of the [for/select] of [drainWithACK]; [n] bounds the
    graceful wait *)
Definition drainWithACK_step (n : nat) (ev : pub_event) : M (PS E) unit :=
  match ev with
  | PeDone => gracefulACK n
  | PeReadErr e => fail (Errorf "read loop ended" e)
  | PeWake | PePoll => topUp
  | PeAck id => attempt (handleAck id) ;;; topUp
  | PePing => lift writePing
  | PeTimeout =>
      let* age := oldestAge in
      if ACKTimeout cfg <? age then
        lift (emit (minc PublisherAckTimeouts [])) ;;;
        fail (ErrNew ("ACK timeout exceeded"))
      else ret tt
  end.

Fixpoint drainWithACK_loop (n : nat) : M (PS E) unit :=
  match n with
  | O => ret tt
  | S n' =>
      let* ev := lift select_drain in
      drainWithACK_step n' ev ;;;
      match ev with PeDone => ret tt | _ => drainWithACK_loop n' end
  end.

Definition drainWithACK_body (n : nat) : M (PS E) unit :=
  newTicker (PingInterval cfg) ;;;
  newTicker (PollIntervalMs cfg * 1000000) ;;;
  newTicker (Z.quot (ACKTimeout cfg) 3) ;;;
  topUp ;;;
  drainWithACK_loop n.

Definition drainWithACK (n : nat) : M (World E) unit := fun w =>
  let '(r, (w', _)) := drainWithACK_body n (w, newOutstanding) in (r, w').

(** ** Fire and forget *)

Definition sendBatch (pending : list Deposit) : M (World E) unit :=
  foldM (fun _ d =>
    let payload := marshalDeposit d in
    let* sent := attempt (WriteMessage payload) in
    match sent with
    | inr err =>
        emit (minc PublisherSendErrors []) ;;;
        fail (Errorf ("write " +:+ TxHash d +:+ "/" +:+ dec (LogIndex d)) err)
    | inl _ =>
        let* acked := attempt (buf_Ack (ChainID d) (TxHash d) (LogIndex d)) in
        match acked with
        | inr _ => ret tt
        | inl _ => emit (minc PublisherSent [])
        end
    end) tt pending.

Fixpoint flushUntilEmpty (ctxErr : M (World E) unit) (n : nat) : M (World E) flow :=
  match n with
  | O => ret Running
  | S n' =>
      ctxErr ;;;
      let* pending := wrapf "PendingAll" (buf_PendingAll (MaxBatchSize cfg)) in
      match pending with
      | [] => ret Returned
      | _ :: _ =>
          sendBatch pending ;;;
          if Z.of_nat (length pending) <? MaxBatchSize cfg then ret Returned
          else flushUntilEmpty ctxErr n'
      end
  end.

Definition gracefulFireAndForget (n : nat) : M (World E) unit :=
  let* r := attempt (flushUntilEmpty drainCtx_Err n) in
  match r with
  | inl Running => ret tt
  | _ => fail (ErrSentinel Canceled)
  end.

(** a flush inside the drain loop, then [k] *)
Definition flush_then (n : nat) (k : M (World E) unit) : M (World E) unit :=
  let* r := flushUntilEmpty ctx_Err n in
  match r with Returned => k | Running => ret tt end.

Fixpoint drainFireAndForget_loop (n : nat) : M (World E) unit :=
  match n with
  | O => ret tt
  | S n' =>
      let* ev := select_drain in
      match ev with
      | PeDone => gracefulFireAndForget n'
      | PeReadErr e => fail (Errorf "read loop ended" e)
      | PeWake | PePoll => flush_then n' (drainFireAndForget_loop n')
      | PePing => writePing ;;; drainFireAndForget_loop n'
      | PeAck _ | PeTimeout => drainFireAndForget_loop n' (* not cases of this select *)
      end
  end.

Definition drainFireAndForget (n : nat) : M (World E) unit :=
  newTicker (PingInterval cfg) ;;;
  flush_then n (newTicker (PollIntervalMs cfg * 1000000) ;;; drainFireAndForget_loop n).

(** ** Connection loop *)

Definition nextBackoff (currentMs : Z) : M (World E) Z :=
  let doubled := i64 (currentMs * 2) in
  let doubled := if maxReconnectDelayMs <? doubled then maxReconnectDelayMs else doubled in
  jittered doubled.

(** [false] when the context ended first *)
Definition sleep (ms : Z) : M (World E) bool :=
  let* r := attempt (wait (ms * 1000000)) in
  ret (match r with inl _ => true | inr _ => false end).

Definition dial : M (World E) unit := wrapf ("dial " +:+ URL cfg) DialContext.

Fixpoint Run_loop (n : nat) (delayMs : Z) : M (World E) unit :=
  match n with
  | O => ret tt
  | S n' =>
      ctx_Err ;;;
      emit (minc PublisherReconnects []) ;;;
      let* conn := attempt dial in
      match conn with
      | inr _ =>
          let* slept := sleep delayMs in
          if (slept : bool) then
            let* delayMs' := nextBackoff delayMs in
            Run_loop n' delayMs'
          else ctx_Err
      | inl _ =>
          emit (mset PublisherConnected [] 1) ;;;
          let* ended := attempt (if RequireACK cfg then drainWithACK n' else drainFireAndForget n') in
          match ended with
          | inl _ => ret tt
          | inr runErr =>
              emit (mset PublisherConnected [] 0) ;;;
              emit (mset PublisherInFlight [] 0) ;;;
              if errors_Is runErr Canceled || errors_Is runErr DeadlineExceeded
              then fail runErr
              else Run_loop n' (ReconnectIntervalMs cfg)
          end
      end
  end.

Definition Publisher_Run (n : nat) : M (World E) unit := Run_loop n (ReconnectIntervalMs cfg).
End Publisher.
