(* ===== verification/PublisherProps.v ===== *)
(** * What the publisher guarantees

    In ACK mode: a row leaves the buffer only after the Adapter took the
    deposit over, so the publisher is one of the goroutines the polling loops
    cooperate with; the number of messages in flight is bounded; what is sent
    is the oldest unsent part of the buffer.  In fire-and-forget mode a row
    leaves only after it was written to the connection; the buffer is drained
    on a working link, and a deposit can be lost.  The lemmas on the drain
    loops are proved for both notions of handing over ([steady]). *)
From stdpp Require Import base gmap list strings relations.
From Stdlib Require Import ZArith Lia Ascii String.
From stdpp Require Import base strings.
From S2P Require Import Prelude Decimal Errors Effect Retry Time Model Json Metrics Store BufferRepo Spec Protocol Publisher.

(** ** Lifting *)

Section Lift.
Context {E : Type}.

Lemma preserves_lift {A} (P : World E -> Prop) (Q : outstanding -> Prop) (m : M (World E) A) :
  preserves P m -> preserves (fun s : PS E => P s.1 /\ Q s.2) (lift m).
Proof.
  intros Hm [w o] [Hw Ho]. specialize (Hm w Hw). cbn in *. unfold lift.
  by destruct (m w) as [r w'].
Qed.

End Lift.

(** every entry is filed under the id of its key *)
Definition out_wf (o : outstanding) : Prop :=
  forall id m, o !! id = Some m -> id = ackID (om_chainID m) (om_txHash m) (om_logIndex m).

Lemma size_delete_le (o : outstanding) id : (size (delete id o) <= size o)%nat.
Proof. destruct (o !! id) eqn:Hid; [rewrite map_size_delete_Some by eauto|rewrite delete_id by done]; lia. Qed.

(** ** The invariant

    [P] is what the world keeps; [known w k]: the deposit [k] was stored by
    [w]; [gone w k]: it has been given over to the Adapter.  All three are
    instantiated below and in [Interleave.v]. *)
Definition om_key (m : outstandingMsg) : key := (om_chainID m, om_txHash m, om_logIndex m).

Section Invariant.
Context {E : Type} `{Env E, Buffer E, Conn E}.
Variables (P : World E -> Prop) (known gone : World E -> key -> Prop) (cfg : Config).

(** a call that keeps [P] and forgets no deposit *)
Definition steady {A} (m : M (World E) A) : Prop :=
  preserves P m /\ forall k, preserves (fun w => P w /\ known w k) m.

(** The calls the publisher makes: what [PendingAll] lists is stored; a
    deposit that was given over may be deleted; an acknowledgement with the id
    of a stored deposit gives it over. *)
Record publisher_calls : Prop := {
  pc_pending : forall n, steady (buf_PendingAll n);
  pc_listed : forall n w ds w', P w -> buf_PendingAll n w = (Ok ds, w') -> Forall (fun d => known w' (key_of d)) ds;
  pc_ack : forall c tx li w, P w -> gone w (c, tx, li) ->
    P (buf_Ack c tx li w).2 /\ forall k, known w k -> known (buf_Ack c tx li w).2 k;
  pc_write : forall raw, steady (WriteMessage raw);
  pc_ping : steady WritePing;
  pc_select : steady select_drain;
  pc_graceful : steady select_graceful;
  pc_now : steady time_Now;
  pc_emit : forall w r, P w -> P (mkWorld (w_db w) r (w_ext w));
  pc_known : forall w r k, known w k -> known (mkWorld (w_db w) r (w_ext w)) k;
  pc_gone : forall w r k, gone w k -> gone (mkWorld (w_db w) r (w_ext w)) k;
  pc_acked : forall w id k, P w -> known w k -> (select_drain w).1 = Ok (PeAck id) -> key_id k = id ->
    gone (select_drain w).2 k;
  pc_graceful_acked : forall w id k, P w -> known w k -> (select_graceful w).1 = Ok (Some id) -> key_id k = id ->
    gone (select_graceful w).2 k
}.
Hypothesis Hcalls : publisher_calls.

Definition pub_inv (s : PS E) : Prop :=
  P s.1 /\ out_wf s.2 /\ out_len s.2 <= MaxInFlight cfg /\ map_Forall (fun _ m => known s.1 (om_key m)) s.2.
Abbreviation I := pub_inv.

Lemma steady_attempt {A} (m : M (World E) A) : steady m -> steady (attempt m).
Proof. intros [Ha Hb]. split; [|intros k]; by apply preserves_attempt. Qed.
Lemma steady_wrapf {A} p (m : M (World E) A) : steady m -> steady (wrapf p m).
Proof. intros [Ha Hb]. split; [|intros k]; by apply preserves_wrapf. Qed.
Lemma steady_emit f : steady (emit f).
Proof.
  split; [|intros k]; apply preserves_emit; [apply Hcalls|]. intros w r [Hw Hk].
  split; [by apply (pc_emit Hcalls)|by apply (pc_known Hcalls)].
Qed.
Lemma emit_P f : preserves P (emit f).
Proof. apply steady_emit. Qed.

Lemma steady_all {A} (m : M (World E) A) w (ks : list key) : steady m -> P w ->
  Forall (known w) ks -> Forall (known (m w).2) ks.
Proof. intros [_ Hm] Hw Hks. eapply Forall_impl; [exact Hks|]. intros k Hk. by apply (Hm k w). Qed.

Lemma lift_inv {A} (m : M (World E) A) : steady m -> preserves I (lift m).
Proof.
  intros [Hm Hk] [w o] (Hw & Hwf & Hl & Ho). cbn in *. specialize (Hm w Hw).
  assert (map_Forall (fun _ msg => known (m w).2 (om_key msg)) o) as Ho'.
  { intros id msg Hmsg. apply (Hk (om_key msg) w). split; [done|]. by apply (Ho id). }
  unfold lift. by destruct (m w) as [r w'].
Qed.

Hint Resolve lift_inv emit_P steady_emit steady_wrapf pc_write pc_ping pc_select pc_graceful pc_now pc_pending : eff.

Lemma setInFlight_inv : preserves I setInFlight.
Proof. unfold setInFlight, out_length. eff; auto with eff. Qed.

(** the sending loop never exceeds [available] new messages *)
Lemma topUp_send_inv pending : forall available,
  hoare (fun s => I s /\ out_len s.2 + available <= MaxInFlight cfg /\ Forall (known s.1) (key_of <$> pending))
    (topUp_send pending available) (fun _ s => I s).
Proof.
  induction pending as [|d rest IH]; intros available; [by intros s [Hs _]|].
  cbn [topUp_send]. destruct (Z.leb_spec available 0); [by intros s [Hs _]|].
  intros [w o] (Hs & Hlen & Hkn). cbn [encodeDeposit]. cbn in Hlen, Hkn.
  set (id := ackID (ChainID d) (TxHash d) (LogIndex d)).
  unfold bind at 1, out_has, gets. cbn [snd].
  destruct (bool_decide_reflect (is_Some (o !! id))) as [|Hnew].
  { apply IH. split_and!; [done..|]. by apply Forall_cons in Hkn as [_ Hkn]. }
  unfold bind at 1. pose proof (steady_attempt _ (pc_write Hcalls (encodeDeposit d).1)) as Hw1.
  pose proof (lift_inv _ Hw1 (w, o) Hs) as Hs1. pose proof (steady_all _ w _ Hw1 (proj1 Hs) Hkn) as Hkn1.
  cbn in Hs1, Hkn1 |- *. destruct (attempt (WriteMessage _) w) as [[[[]|err]|err|p] w1]; cbn in Hs1, Hkn1 |- *; try done.
  - unfold bind at 1, out_add, bind at 1.
    pose proof (lift_inv time_Now (pc_now Hcalls) (w1, o) Hs1) as Hs2.
    pose proof (steady_all _ w1 _ (pc_now Hcalls) (proj1 Hs1) Hkn1) as Hkn2. cbn in Hs2, Hkn2 |- *.
    destruct (time_Now w1) as [[now|err|p] w2]; cbn in Hs2, Hkn2 |- *; [|done..].
    destruct Hs2 as (Hr & Hwf & Hl & Ho). cbn in Hr, Hwf, Hl, Ho. apply Forall_cons in Hkn2 as [Hd Hkn2].
    assert (o !! id = None) as Hnone by by apply eq_None_not_Some.
    apply IH. unfold pub_inv, out_len in *. cbn. rewrite map_size_insert_None by done.
    split_and!; [done| |lia| |lia|done].
    + intros id' m. rewrite lookup_insert_Some. intros [[<- <-]|[_ Hm]]; [done|by apply Hwf].
    + by apply map_Forall_insert_2.
  - by apply (lift_inv _ (steady_emit _) (w1, o)).
Qed.

Lemma topUp_inv : preserves I (topUp cfg).
Proof.
  unfold topUp. intros [w o] Hs. unfold bind at 1, out_length, gets. cbn [snd].
  destruct (Z.leb_spec (MaxInFlight cfg - out_len o) 0); [done|]. cbv zeta. set (limit := if _ <? _ then _ else _).
  pose proof (lift_inv _ (steady_wrapf "PendingAll" _ (pc_pending Hcalls limit)) (w, o) Hs) as Hs1.
  pose proof (pc_listed Hcalls limit w) as Hl. unfold bind at 1. unfold lift, wrapf in *.
  destruct (buf_PendingAll limit w) as [[pending|err|p] w1]; cbn in Hs1 |- *; [|done..].
  pose proof (topUp_send_inv pending (MaxInFlight cfg - out_len o) (w1, o)) as Hsend. unfold bind.
  destruct (topUp_send _ _ _) as [[[]|err|p] s2]; [apply setInFlight_inv|..]; apply Hsend;
    (split_and!; [done|cbn; lia|]); apply Forall_fmap; by apply (Hl _ _ (proj1 Hs)).
Qed.

(** an acknowledged id frees its slot and deletes a row given over *)
Lemma handleAck_inv id :
  hoare (fun s => I s /\ forall m, s.2 !! id = Some m -> gone s.1 (om_key m)) (handleAck id)
    (fun _ s => I s).
Proof.
  intros [w o] [(Hr & Hwf & Hl & Ho) Hk]. cbn in Hr, Hwf, Hl, Ho, Hk.
  unfold handleAck, bind at 1, out_take. cbn [snd fst].
  assert (out_wf (delete id o)) as Hwf'.
  { intros id' m. rewrite lookup_delete_Some. intros [_ Hm]. by apply Hwf. }
  assert (out_len (delete id o) <= MaxInFlight cfg) as Hl'.
  { unfold out_len in *. pose proof (size_delete_le o id). lia. }
  assert (map_Forall (fun _ m => known w (om_key m)) (delete id o)) as Ho' by by apply map_Forall_delete.
  destruct (o !! id) as [msg|] eqn:Hid; [|by split_and!].
  assert (I (mkWorld (w_db w) (minc PublisherAcksReceived [] (w_metrics w)) (w_ext w), delete id o)) as Hs1.
  { apply (lift_inv _ (steady_emit (minc PublisherAcksReceived [])) (w, delete id o)). by split_and!. }
  unfold bind at 1, lift at 1, emit, modify. cbn.
  set (w1 := mkWorld _ _ _) in *. unfold bind at 1, lift at 1.
  destruct Hs1 as (Hr1 & _ & _ & Ho1). cbn in Hr1, Ho1.
  destruct (pc_ack Hcalls (om_chainID msg) (om_txHash msg) (om_logIndex msg) w1 Hr1) as [Hr2 Hk2].
  { by apply (pc_gone Hcalls), (Hk msg). }
  assert (I ((buf_Ack (om_chainID msg) (om_txHash msg) (om_logIndex msg) w1).2, delete id o)) as Hs2.
  { split_and!; [done..|]. intros id' m Hm. apply Hk2. by apply (Ho1 id'). }
  unfold wrapf. destruct (buf_Ack _ _ _ w1) as [[[]|err|p] w2]; cbn [fst snd] in Hs2 |- *; [|done..].
  exact (preserves_bind I _ _ (lift_inv _ (steady_emit _)) (fun _ => setInFlight_inv) _ Hs2).
Qed.

(** an acknowledgement as it comes out of a [select] *)
Lemma acked_inv id w o w1 :
  I (w, o) -> I (w1, o) ->
  (forall k, P w -> known w k -> key_id k = id -> gone w1 k) ->
  forall m, o !! id = Some m -> gone w1 (om_key m).
Proof.
  intros (Hw & Hwf & _ & Ho) _ Hg m Hm. apply Hg; [done|by apply (Ho id)|]. symmetry. exact (Hwf id m Hm).
Qed.

Lemma gracefulACK_inv n : preserves I (gracefulACK cfg n).
Proof.
  unfold gracefulACK. apply preserves_bind; [apply lift_inv, (pc_now Hcalls)|]. intros now.
  generalize (instant_ns now + DrainTimeoutMs cfg * 1000000) as dl. intros dl.
  induction n as [|n IH]; cbn [gracefulACK_loop]; [apply preserves_ret|].
  apply preserves_bind; [by intros s|]. intros len. destruct (len <=? 0); [apply preserves_fail|].
  apply preserves_bind; [apply lift_inv, (pc_now Hcalls)|]. intros now'.
  destruct (_ <? _); [|apply preserves_fail].
  intros [w o] Hs. unfold bind at 1, lift.
  pose proof (lift_inv _ (pc_graceful Hcalls) (w, o) Hs) as Hs1. unfold lift in Hs1.
  pose proof (pc_graceful_acked Hcalls w) as Hack.
  destruct (select_graceful w) as [[[id|]|err|p] w1]; cbn in Hs1, Hack |- *; [|by apply IH|done..].
  pose proof (acked_inv id w o w1 Hs Hs1 (fun k Hw Hk => Hack id k Hw Hk eq_refl)) as Hg.
  unfold bind at 1, attempt. pose proof (handleAck_inv id (w1, o) (conj Hs1 Hg)) as Ha.
  destruct (handleAck id (w1, o)) as [[[]|err|p] s2]; cbn in Ha |- *; [by apply IH|by apply IH|done].
Qed.

Lemma drainWithACK_step_inv n ev w o w1 :
  I (w, o) -> I (w1, o) -> (forall id k, P w -> known w k -> ev = PeAck id -> key_id k = id -> gone w1 k) ->
  I (drainWithACK_step cfg n ev (w1, o)).2.
Proof.
  intros Hs Hs1 Hack. destruct ev as [|e| |id| | |]; cbn [drainWithACK_step].
  - by apply gracefulACK_inv.
  - done.
  - by apply topUp_inv.
  - pose proof (acked_inv id w o w1 Hs Hs1 (fun k Hw Hk => Hack id k Hw Hk eq_refl)) as Hg.
    pose proof (handleAck_inv id (w1, o) (conj Hs1 Hg)) as Ha. unfold bind at 1, attempt.
    destruct (handleAck id (w1, o)) as [[[]|err|p] s2]; cbn in Ha |- *; [by apply topUp_inv..|done].
  - by apply (lift_inv _ (steady_wrapf _ _ (pc_ping Hcalls)) (w1, o)).
  - by apply topUp_inv.
  - match goal with |- I (?m _).2 => assert (preserves I m) as Hp; [|by apply Hp] end.
    unfold oldestAge. eff; auto using (pc_now Hcalls) with eff.
Qed.

Lemma drainWithACK_loop_inv n : preserves I (drainWithACK_loop cfg n).
Proof.
  induction n as [|n IH]; cbn [drainWithACK_loop]; [apply preserves_ret|].
  intros [w o] Hs. unfold bind at 1, lift.
  pose proof (lift_inv _ (pc_select Hcalls) (w, o) Hs) as Hs1. unfold lift in Hs1.
  pose proof (pc_acked Hcalls w) as Hack.
  destruct (select_drain w) as [[ev|err|p] w1]; cbn in Hs1, Hack |- *; [|done..].
  pose proof (drainWithACK_step_inv n ev w o w1 Hs Hs1) as Hm. unfold bind.
  destruct (drainWithACK_step cfg n ev (w1, o)) as [[[]|err|p] s2]; cbn in Hm |- *;
    [destruct ev; try apply IH| |]; apply Hm; intros id' k ? ? [= ?] ?; by eapply Hack; subst.
Qed.

Lemma drainWithACK_body_inv n : preserves I (drainWithACK_body cfg n).
Proof.
  unfold drainWithACK_body.
  repeat (apply preserves_bind; [apply preserves_newTicker || apply topUp_inv|intros _]).
  apply drainWithACK_loop_inv.
Qed.

Lemma drainWithACK_P n : 0 <= MaxInFlight cfg -> preserves P (drainWithACK cfg n).
Proof.
  intros Hm w Hw. unfold drainWithACK.
  pose proof (drainWithACK_body_inv n (w, newOutstanding)) as Hb.
  destruct (drainWithACK_body _ _ _) as [r [w' o]]. apply Hb.
  split; [done|]. split; [by intros id m|]. split; [exact Hm|apply map_Forall_empty].
Qed.

(** *** Fire and forget *)

(** writing a stored deposit gives it over *)
Record flush_calls : Prop := {
  fc_sent : forall w d w', P w -> known w (key_of d) -> WriteMessage (marshalDeposit d) w = (Ok tt, w') ->
    gone w' (key_of d);
  fc_drain : preserves P drainCtx_Err
}.
Hypothesis Hflush : RequireACK cfg = false -> flush_calls.
Hypothesis Hctx : preserves P ctx_Err.

Lemma sendBatch_P (Hf : flush_calls) pending :
  hoare (fun w => P w /\ Forall (known w) (key_of <$> pending)) (sendBatch pending) (fun _ w => P w).
Proof.
  unfold sendBatch. induction pending as [|d rest IH]; intros w [Hw Hk]; [done|]. cbn [foldM].
  apply Forall_cons in Hk as [Hd Hk]. unfold bind at 1 2, attempt.
  pose proof (proj1 (pc_write Hcalls (marshalDeposit d)) w Hw) as Hw1.
  pose proof (steady_all _ w _ (pc_write Hcalls (marshalDeposit d)) Hw Hk) as Hk1. pose proof (fc_sent Hf w d) as Hg.
  destruct (WriteMessage _ w) as [[[]|err|p] w1]; cbn in Hw1, Hk1, Hg |- *; [|by apply (pc_emit Hcalls)|done].
  specialize (Hg w1 Hw Hd eq_refl).
  destruct (pc_ack Hcalls (ChainID d) (TxHash d) (LogIndex d) w1 Hw1 Hg) as [Hw2 Hk2]. unfold bind at 1.
  assert (Forall (known (buf_Ack (ChainID d) (TxHash d) (LogIndex d) w1).2) (key_of <$> rest)) as Hk3
    by (eapply Forall_impl; [exact Hk1|exact Hk2]).
  destruct (buf_Ack _ _ _ w1) as [[[]|err|p] w2]; cbn in Hw2, Hk3 |- *; [|by apply IH|done].
  apply IH. split; [by apply (pc_emit Hcalls)|]. eapply Forall_impl; [exact Hk3|]. intros k. apply (pc_known Hcalls).
Qed.

Lemma flushUntilEmpty_P (Hf : flush_calls) ctxErr n : preserves P ctxErr -> preserves P (flushUntilEmpty cfg ctxErr n).
Proof.
  intros Hc. induction n as [|n IH]; cbn [flushUntilEmpty]; [apply preserves_ret|].
  apply preserves_bind; [done|]. intros _ w Hw. unfold bind at 1, wrapf.
  pose proof (proj1 (pc_pending Hcalls (MaxBatchSize cfg)) w Hw) as Hw1.
  pose proof (pc_listed Hcalls (MaxBatchSize cfg) w) as Hl.
  destruct (buf_PendingAll _ w) as [[pending|err|p] w1]; cbn in Hw1 |- *; [|done..].
  specialize (Hl pending w1 Hw eq_refl). destruct pending as [|d rest]; [done|].
  pose proof (sendBatch_P Hf (d :: rest) w1 (conj Hw1 (proj2 (Forall_fmap _ _ _) Hl))) as Hw2. unfold bind.
  destruct (sendBatch _ w1) as [[[]|err|p] w2]; cbn in Hw2 |- *; [|done..].
  destruct (_ <? _); [done|]. by apply IH.
Qed.

Lemma drainFireAndForget_P (Hf : flush_calls) n : preserves P (drainFireAndForget cfg n).
Proof.
  assert (forall ctxErr n, preserves P ctxErr -> preserves P (flushUntilEmpty cfg ctxErr n)) as Hfl
    by (intros; by apply flushUntilEmpty_P).
  assert (forall n k, preserves P k -> preserves P (flush_then cfg n k)) as Hft.
  { intros m k Hk. unfold flush_then. apply preserves_bind; [by apply Hfl|]. intros []; [done|apply preserves_ret]. }
  unfold drainFireAndForget. apply preserves_bind; [apply preserves_newTicker|]. intros _. apply Hft.
  apply preserves_bind; [apply preserves_newTicker|]. intros _. clear -Hcalls Hfl Hft Hf.
  induction n as [|n IH]; cbn [drainFireAndForget_loop]; [apply preserves_ret|].
  apply preserves_bind; [apply (pc_select Hcalls)|]. intros [|e| |id| | |]; try done; [|apply preserves_fail|auto| |auto].
  - unfold gracefulFireAndForget. apply preserves_bind; [by apply preserves_attempt, Hfl, Hf|].
    intros [[]|e]; [apply preserves_fail|apply preserves_ret|apply preserves_fail].
  - apply preserves_bind; [|done]. apply preserves_wrapf, (pc_ping Hcalls).
Qed.

Lemma Publisher_Run_P n :
  0 <= MaxInFlight cfg ->
  preserves P DialContext -> (forall d, preserves P (env_wait d)) ->
  (forall d, preserves P (jittered d)) -> preserves P (Publisher_Run cfg n).
Proof.
  intros Hm Hdial Hwait Hj. pose proof emit_P. unfold Publisher_Run.
  generalize (ReconnectIntervalMs cfg) at 1 as d.
  induction n as [|n IH]; intros d; cbn [Run_loop]; [apply preserves_ret|].
  assert (preserves P (if RequireACK cfg then drainWithACK cfg n else drainFireAndForget cfg n)) as Hd.
  { destruct (RequireACK cfg) eqn:Hack; [by apply drainWithACK_P|]. by apply drainFireAndForget_P, Hflush. }
  unfold dial, nextBackoff, sleep. revert Hd. generalize (if RequireACK cfg then drainWithACK cfg n else drainFireAndForget cfg n).
  intros m Hd. eff; auto with eff.
Qed.
End Invariant.

(** ** ACK mode refines the ledger *)

(** what the publisher relies on in its [Buffer] *)
Class BufferContract {E} `{Buffer E} (truth : Z -> string -> Z -> list key) (handed : E -> gset key)
    (J : E -> Prop) : Prop := {
  bc_pending : forall own n, cooperates_with truth handed J own (buf_PendingAll n);
  bc_ack : forall own c tx li w, J (w_ext w) -> (c, tx, li) ∈ handed (w_ext w) ->
    coop_rel truth handed own w (buf_Ack c tx li w).2 /\ J (w_ext (buf_Ack c tx li w).2)
}.

(** During a call to the outside only ledger steps happen, and the Adapter
    acknowledges a deposit only after taking it over. *)
Class AdapterContract {E} `{Env E, Conn E} (truth : Z -> string -> Z -> list key) (handed : E -> gset key)
    (J : E -> Prop) : Prop := {
  ac_write : forall own raw, cooperates_with truth handed J own (WriteMessage raw);
  ac_ping : forall own, cooperates_with truth handed J own WritePing;
  ac_dial : forall own, cooperates_with truth handed J own DialContext;
  ac_select : forall own, cooperates_with truth handed J own select_drain;
  ac_graceful : forall own, cooperates_with truth handed J own select_graceful;
  ac_jitter : forall own d, cooperates_with truth handed J own (jittered d);
  ac_now : forall own, cooperates_with truth handed J own time_Now;
  ac_wait : forall own d, cooperates_with truth handed J own (env_wait d);
  ac_ctx : forall own, cooperates_with truth handed J own ctx_Err;
  ac_ack : forall w id k, (select_drain w).1 = Ok (PeAck id) -> key_id k = id ->
    k ∈ handed (w_ext (select_drain w).2);
  ac_graceful_ack : forall w id k, (select_graceful w).1 = Ok (Some id) -> key_id k = id ->
    k ∈ handed (w_ext (select_graceful w).2)
}.

Section Contracts.
Context {E : Type} `{Env E}.
Variables (truth : Z -> string -> Z -> list key) (handed : E -> gset key) (J : E -> Prop).

(** [BufferRepo] honours the contract: its only write deletes the row asked for. *)
Lemma BufferRepo_contract :
  (forall own, cooperates_with truth handed J own env_db) -> BufferContract truth handed J.
Proof.
  intros Hdb. split.
  - intros own n. apply cooperates_with_preserves. intros w0.
    apply preserves_query. by apply cooperates_with_preserves.
  - intros own c tx li w HJ Hk. cbn. unfold Ack, wrapf. destruct (decide _); [|by split].
    unfold exec, bind. destruct (Hdb own w HJ) as [Hw1 HJ1].
    pose proof (coop_handed _ _ _ _ _ _ Hw1 Hk) as Hk1.
    destruct (env_db w) as [[[]|err|p] w1]; cbn in *; [|done..].
    split; [|done]. etrans; [exact Hw1|]. by apply coop_delete.
Qed.

Context `{!Buffer E, !Conn E}.

Lemma contract_calls own w0 :
  BufferContract truth handed J -> AdapterContract truth handed J ->
  publisher_calls (fun w => coop_rel truth handed own w0 w /\ J (w_ext w)) (fun _ _ => True) (fun w k => k ∈ handed (w_ext w)).
Proof.
  intros Hb Ha. set (P := fun w => coop_rel truth handed own w0 w /\ J (w_ext w)).
  assert (forall A (m : M (World E) A), preserves P m -> steady P (fun _ _ => True) m) as Hst.
  { intros A m Hm. split; [done|]. intros k w [Hw _]. split; [by apply Hm|done]. }
  split; try (intros; by apply Hst, cooperates_with_preserves, Ha);
    try (intros; by apply Hst, cooperates_with_preserves, Hb); try done.
  - intros n w ds w' _ _. by apply Forall_true.
  - intros c tx li w [Hw HJ] Hk. destruct (bc_ack own c tx li w HJ Hk) as [Hw' HJ']. split; [|done]. split; [by etrans|done].
  - intros w id k _ _. by eapply ac_ack.
  - intros w id k _ _. by eapply ac_graceful_ack.
Qed.

(** a run of the publisher is a sequence of ledger steps *)
Lemma Publisher_Run_coop own cfg n :
  BufferContract truth handed J -> AdapterContract truth handed J ->
  RequireACK cfg = true -> 0 <= MaxInFlight cfg ->
  cooperates_with truth handed J own (Publisher_Run cfg n).
Proof.
  intros Hb Ha Hack Hm. apply cooperates_with_preserves. intros w0.
  apply (Publisher_Run_P _ _ _ cfg (contract_calls own w0 Hb Ha)); try done;
    try (intros; apply cooperates_with_preserves, Ha). by rewrite Hack.
Qed.
End Contracts.

Lemma coop_nothing_lost {E} (truth : Z -> string -> Z -> list key) (handed : E -> gset key) own w w' :
  coop_rel truth handed own w w' -> nothing_lost truth handed w w'.
Proof.
  intros [_ Hw]. apply reachable_nothing_lost.
  destruct (reachable_refl truth handed w) as (l & Hr & Ha).
  destruct (Hw l Ha) as (l' & Hr' & Ha'). exists l'. split; [by etrans|done].
Qed.

(** C6. At-least-once delivery.  In ACK mode, whatever the connection, the
    Adapter and the database do, for any number of reconnections: the
    publisher only makes ledger steps (a row is deleted only after the Adapter
    took the deposit over) and writes no scan cursor, so it is a goroutine the
    polling loops can run beside, and no deposit is lost. *)
Theorem Publisher_at_least_once {E : Type} `{Env E, Conn E}
    (truth : Z -> string -> Z -> list key) (handed : E -> gset key) (J : E -> Prop)
    (cfg : Config) (n : nat) (w : World E) :
  (forall own, cooperates_with truth handed J own env_db) -> AdapterContract truth handed J ->
  RequireACK cfg = true -> 0 <= MaxInFlight cfg -> J (w_ext w) ->
  (forall own, coop_rel truth handed own w (Publisher_Run cfg n w).2) /\
  nothing_lost truth handed w (Publisher_Run cfg n w).2.
Proof.
  intros Hdb Ha Hack Hm HJ.
  assert (forall own, coop_rel truth handed own w (Publisher_Run cfg n w).2) as Hrel.
  { intros own. by apply (Publisher_Run_coop truth handed J own cfg n (BufferRepo_contract truth handed J Hdb) Ha). }
  split; [done|]. by apply (coop_nothing_lost _ _ (0, "")).
Qed.

(** C25. Flow control.  For any environment at all: if at most [MaxInFlight]
    messages are outstanding, each under its own id, this still holds after
    any run of the ACK-mode loop. *)
Theorem in_flight_bounded {E : Type} `{Env E, Buffer E, Conn E} (cfg : Config) (n : nat) (s : PS E) :
  out_wf s.2 -> out_len s.2 <= MaxInFlight cfg ->
  let s' := (drainWithACK_body cfg n s).2 in
  out_wf s'.2 /\ out_len s'.2 <= MaxInFlight cfg.
Proof.
  intros Hwf Hl. destruct (drainWithACK_body_inv (fun _ => True) (fun _ _ => True) (fun _ _ => True) cfg) with (n := n) (s := s)
    as (_ & ? & ? & _); [|by split_and!|done].
  split; intros; try done; try (by split; intros; intros ? ?). by apply Forall_true.
Qed.
