(* ===== verification/PublisherFlow.v ===== *)
(** * The publisher on a working link

    What exactly is sent, acknowledged and drained when nothing fails, and the
    two ways fire-and-forget differs from ACK mode.  [Wire] is the concrete
    link: it records the messages written and plays a script of events. *)
From stdpp Require Import base gmap list strings relations.
From Stdlib Require Import ZArith Lia Ascii String.
From stdpp Require Import base strings.
From S2P Require Import Prelude Decimal Errors Effect Retry Time Model Json Metrics Store BufferRepo Spec Protocol Publisher PublisherProps.

Module Wire.
Record wire := mkWire { wr_now : Z; wr_sent : list json; wr_script : list pub_event }.

#[export] Instance env : Env wire := {|
  env_wait _ := ret tt;
  ctx_Err := ret tt;
  time_Now := gets (fun w => {| sec := wr_now (w_ext w); nsec := 0 |});
  env_db := ret tt;
  env_has := ret tt;
  env_tx e := (None, e);
  env_commit e := (Committed, e);
  db_now e := wr_now e * 1000000
|}.

Definition send (raw : json) (e : wire) : wire := mkWire (wr_now e) (wr_sent e ++ [raw]) (wr_script e).

#[export] Instance conn : Conn wire := {|
  DialContext := ret tt;
  WriteMessage raw := modify (fun w => mkWorld (w_db w) (w_metrics w) (send raw (w_ext w)));
  WritePing := ret tt;
  (* the script, then the context ends *)
  select_drain := fun w =>
    match wr_script (w_ext w) with
    | [] => (Ok PeDone, w)
    | ev :: evs => (Ok ev, mkWorld (w_db w) (w_metrics w) (mkWire (wr_now (w_ext w)) (wr_sent (w_ext w)) evs))
    end;
  select_graceful := ret None;
  drainCtx_Err := ret tt;
  jittered d := ret d
|}.
End Wire.
Import Wire.

(** ** ACK mode *)

(** the deposits of [pending] not yet in flight *)
Definition unsent (o : outstanding) (pending : list Deposit) : list Deposit :=
  filter (fun d => o !! key_id (key_of d) = None) pending.

Lemma filter_ext_in {A} (P Q : A -> Prop) `{!forall x, Decision (P x), !forall x, Decision (Q x)} (l : list A) :
  (forall x, x ∈ l -> P x <-> Q x) -> filter P l = filter Q l.
Proof.
  induction l as [|x l IH]; intros Hl; [done|]. rewrite !filter_cons.
  assert (P x <-> Q x) as Hx by (apply Hl; left).
  rewrite IH by (intros; apply Hl; by right).
  destruct (decide (P x)), (decide (Q x)); tauto.
Qed.

Lemma unsent_insert o d m pending :
  key_of d ∉ key_of <$> pending -> unsent (<[key_id (key_of d) := m]> o) pending = unsent o pending.
Proof.
  intros Hd. unfold unsent. apply filter_ext_in.
  intros d' Hin. rewrite lookup_insert_ne; [done|].
  intros Heq%(inj key_id). apply Hd. rewrite Heq. by apply list_elem_of_fmap_2.
Qed.

Lemma topUp_send_wire pending : forall available (w : World wire) (o : outstanding),
  NoDup (key_of <$> pending) -> 0 <= available ->
  let fresh := take (Z.to_nat available) (unsent o pending) in
  exists w' o', topUp_send pending available (w, o) = (Ok tt, (w', o')) /\
    w_db w' = w_db w /\
    wr_sent (w_ext w') = wr_sent (w_ext w) ++ ((fun d => (encodeDeposit d).1) <$> fresh) /\
    dom o' = dom o ∪ list_to_set ((fun d => key_id (key_of d)) <$> fresh).
Proof.
  induction pending as [|d rest IH]; intros available w o Hnd Ha; cbv zeta.
  - exists w, o. cbn. rewrite take_nil. cbn. rewrite app_nil_r. split_and!; [done..|set_solver].
  - apply NoDup_cons in Hnd as [Hd Hnd]. cbn [topUp_send].
    destruct (Z.leb_spec available 0) as [Hz|Hpos].
    { exists w, o. replace available with 0 by lia. cbn. rewrite app_nil_r. split_and!; [done..|set_solver]. }
    cbn [encodeDeposit]. unfold bind at 1, out_has, gets. cbn [snd].
    change (ackID (ChainID d) (TxHash d) (LogIndex d)) with (key_id (key_of d)).
    unfold unsent. rewrite filter_cons.
    destruct (bool_decide_reflect (is_Some (o !! key_id (key_of d)))) as [Hin|Hout].
    + rewrite decide_False by (intros Hn; rewrite Hn in Hin; by destruct Hin).
      by apply IH.
    + apply eq_None_not_Some in Hout. rewrite decide_True by done.
      unfold bind at 1, lift at 1, attempt. cbn.
      match goal with |- exists _ _, topUp_send rest _ (?w1, ?o1) = _ /\ _ =>
        destruct (IH (available - 1) w1 o1) as (w2 & o2 & Hrun & Hdb & Hs & Ho);
        [done|lia|exists w2, o2; split; [exact Hrun|]] end.
      change (<[ackID _ _ _ := ?m]> o) with (<[key_id (key_of d) := m]> o) in Hs, Ho.
      rewrite unsent_insert in Hs, Ho by done.
      replace (Z.to_nat available) with (S (Z.to_nat (available - 1))) by lia.
      cbn [take fmap list_fmap]. split_and!; [by rewrite Hdb| |].
      * rewrite Hs. cbn. by rewrite <- app_assoc.
      * rewrite Ho, dom_insert_L. cbn. set_solver.
Qed.

(** [topUp] sends, oldest first, the buffered deposits that are not in
    flight, as many as [MaxInFlight] leaves room for and out of the first
    [min MaxInFlight MaxBatchSize] rows; it sends none twice, marks exactly
    those as in flight, and leaves the buffer alone. *)
Theorem topUp_sends_oldest (cfg : Config) (w : World wire) (o : outstanding) :
  db_wf (w_db w) -> 0 <= MaxBatchSize cfg -> out_len o < MaxInFlight cfg ->
  exists ds fresh w' o', PendingAll (Z.min (MaxInFlight cfg) (MaxBatchSize cfg)) w = (Ok ds, w) /\
    fresh = take (Z.to_nat (MaxInFlight cfg - out_len o)) (unsent o ds) /\
    topUp cfg (w, o) = (Ok tt, (w', o')) /\ w_db w' = w_db w /\
    wr_sent (w_ext w') = wr_sent (w_ext w) ++ ((fun d => (encodeDeposit d).1) <$> fresh) /\
    dom o' = dom o ∪ list_to_set ((fun d => key_id (key_of d)) <$> fresh).
Proof.
  intros Hwf Hb Hl. pose proof (Zle_0_nat (size o)) as Hsz. fold (out_len o) in Hsz.
  destruct (PendingAll_rows (E := wire) (Z.min (MaxInFlight cfg) (MaxBatchSize cfg)) w w)
    as (ds & Hp & Hf); [done|lia|done|].
  assert (NoDup (key_of <$> ds)) as Hnd.
  { rewrite (rows_keys _ _ Hf), fmap_take.
    eapply sublist_NoDup; [apply (wf_nodup _ Hwf)|apply sublist_take]. }
  destruct (topUp_send_wire ds (MaxInFlight cfg - out_len o) w o) as (w1 & o1 & Hrun & Hdb & Hs & Ho);
    [done|lia|].
  unfold topUp, bind at 1, out_length, gets. cbn [snd].
  rewrite (proj2 (Z.leb_gt _ _)) by lia. cbv zeta.
  replace (if _ <? _ then _ else _) with (Z.min (MaxInFlight cfg) (MaxBatchSize cfg))
    by (destruct (Z.ltb_spec (MaxBatchSize cfg) (MaxInFlight cfg - out_len o + out_len o)); lia).
  unfold bind at 1, lift at 1, wrapf. cbn [buf_PendingAll BufferRepo_Buffer]. rewrite Hp.
  unfold bind at 1. rewrite Hrun. eexists ds, _, _, o1. split_and!; [done..|exact Hdb|exact Hs|exact Ho].
Qed.

(** An acknowledgement, on every branch.  An unknown id changes nothing.
    A known id leaves [outstanding]; if the database answers, exactly the row
    of that id is deleted and the counters move; if it does not, the table is
    untouched and, the id being free again, the next [topUp] may resend it. *)
Theorem handleAck_effect {E : Type} `{Env E, Conn E} (id : string) (w : World E) (o : outstanding) :
  out_wf o -> (forall m, o !! id = Some m -> is_i32 (om_logIndex m)) ->
  let '(r, (w', o')) := handleAck id (w, o) in
  let w1 := mkWorld (w_db w) (minc PublisherAcksReceived [] (w_metrics w)) (w_ext w) in
  match o !! id with
  | None => r = Ok tt /\ w' = w /\ o' = o
  | Some _ =>
      o' = delete id o /\
      match env_db w1 with
      | (Ok _, w2) => exists k, key_id k = id /\ r = Ok tt /\ w_db w' = sql_delete k (w_db w2) /\
          mget (w_metrics w') PublisherInFlight [] = out_len o'
      | (Err e, w2) => (exists p, r = Err (Errorf "DB Ack" (Errorf p e))) /\ w' = w2
      | (Panic p, w2) => r = Panic p /\ w' = w2
      end
  end.
Proof.
  intros Hwf Hi. unfold handleAck, bind at 1, out_take. cbn [snd fst].
  destruct (o !! id) as [msg|] eqn:Hid; [|cbn; by rewrite delete_id].
  specialize (Hi msg eq_refl). apply Hwf in Hid. cbn.
  unfold bind at 1, lift at 1, wrapf at 1, Ack, wrapf, exec, bind at 1.
  rewrite decide_True by done.
  destruct (env_db _) as [[[]|e|p] w2]; cbn; [|by eauto..].
  split; [done|]. exists (om_chainID msg, om_txHash msg, om_logIndex msg).
  split_and!; [done..|]. apply mget_mset_eq.
Qed.

(** ** Fire and forget drains *)

(** the rows and what was read of them *)
Abbreviation reads := (Forall2 (fun r d =>
  row_payload r = marshalDeposit d /\ deposit_ints d /\ key_of d = row_key r)).

Lemma delete_front r rows db :
  deposit_buffer db = r :: rows -> NoDup (row_key <$> deposit_buffer db) ->
  deposit_buffer (sql_delete (row_key r) db) = rows.
Proof.
  intros Hb Hnd. unfold sql_delete. cbn. rewrite Hb in Hnd |- *.
  apply NoDup_cons in Hnd as [Hr _]. rewrite filter_cons_False by tauto.
  clear -Hr. induction rows as [|r' rows IH]; [done|]. cbn in Hr. apply not_elem_of_cons in Hr as [Hne Hr].
  rewrite filter_cons_True by (intros Heq; by apply Hne). by rewrite IH.
Qed.

Lemma sendBatch_wire sent ds : reads sent ds -> forall rest (w : World wire),
  deposit_buffer (w_db w) = sent ++ rest -> db_wf (w_db w) ->
  exists w', sendBatch ds w = (Ok tt, w') /\ deposit_buffer (w_db w') = rest /\ db_wf (w_db w') /\
    wr_sent (w_ext w') = wr_sent (w_ext w) ++ (row_payload <$> sent).
Proof.
  induction 1 as [|r d sent ds (Hp & _ & Hk) _ IH]; intros rest w Hb Hwf.
  { exists w. cbn. by rewrite app_nil_r. }
  assert (is_i32 (LogIndex d)) as Hi.
  { pose proof (wf_rows _ Hwf) as Hr. rewrite Hb in Hr. apply Forall_cons in Hr as [(d' & _ & _ & Hk' & Hi) _].
    unfold key_of, row_key in Hk. by injection Hk as _ _ ->. }
  unfold sendBatch. cbn [foldM]. unfold bind at 1 2. cbn. unfold Ack, wrapf, exec, attempt, bind at 1.
  rewrite decide_True by done. cbn.
  change (ChainID d, TxHash d, LogIndex d) with (key_of d). rewrite Hk.
  match goal with |- exists w', foldM _ _ _ ?w1 = _ /\ _ => destruct (IH rest w1) as (w' & Hrun & Hb' & Hwf' & Hs) end.
  - cbn. apply delete_front; [done|apply Hwf].
  - by apply delete_wf.
  - exists w'. split; [exact Hrun|]. split_and!; [done..|]. rewrite Hs. cbn. by rewrite <- app_assoc, Hp.
Qed.

Lemma flush_wire cfg n : forall w : World wire,
  1 <= MaxBatchSize cfg -> db_wf (w_db w) -> (length (deposit_buffer (w_db w)) < n)%nat ->
  exists w', flushUntilEmpty cfg (ret tt) n w = (Ok Returned, w') /\
    deposit_buffer (w_db w') = [] /\
    wr_sent (w_ext w') = wr_sent (w_ext w) ++ (row_payload <$> deposit_buffer (w_db w)).
Proof.
  induction n as [|n IH]; intros w Hm Hwf Hn; [lia|].
  cbn [flushUntilEmpty]. unfold bind at 1, ret at 1. unfold bind at 1, wrapf. cbn [buf_PendingAll BufferRepo_Buffer].
  destruct (PendingAll_rows (E := wire) (MaxBatchSize cfg) w w) as (ds & -> & Hf); [done|lia|done|].
  pose proof (Forall2_length _ _ _ Hf) as Hlen. rewrite length_take in Hlen.
  remember (deposit_buffer (w_db w)) as rows eqn:Hrows.
  destruct ds as [|d ds'].
  { cbn in Hlen. exists w. destruct rows as [|r rows]; [|cbn in Hlen; lia].
    cbn. by rewrite app_nil_r. }
  destruct (sendBatch_wire _ _ Hf (drop (Z.to_nat (MaxBatchSize cfg)) rows) w) as (w1 & Hsend & Hb1 & Hwf1 & Hs1);
    [by rewrite <- Hrows, take_drop|done|].
  unfold bind at 1. rewrite Hsend.
  destruct (Z.ltb_spec (Z.of_nat (length (d :: ds'))) (MaxBatchSize cfg)) as [Hlt|Hge].
  - exists w1. split; [done|]. rewrite Hb1, Hs1, drop_ge, take_ge by lia. done.
  - destruct (IH w1) as (w2 & Hrun & Hb2 & Hs2); [done..| |].
    { rewrite Hb1, length_drop. lia. }
    exists w2. split; [exact Hrun|]. split; [done|].
    rewrite Hs2, Hs1, Hb1, <- app_assoc, <- fmap_app, take_drop. done.
Qed.

(** C27. On a working link a flush terminates and drains: with [n] rows at most
    [n + 1] batches are needed, the buffer ends empty, and every document was
    written once, oldest first. *)
Theorem flush_drains (cfg : Config) (n : nat) (w : World wire) :
  1 <= MaxBatchSize cfg -> db_wf (w_db w) -> (length (deposit_buffer (w_db w)) < n)%nat ->
  exists w', flushUntilEmpty cfg ctx_Err n w = (Ok Returned, w') /\
    deposit_buffer (w_db w') = [] /\
    wr_sent (w_ext w') = wr_sent (w_ext w) ++ (row_payload <$> deposit_buffer (w_db w)).
Proof. apply flush_wire. Qed.

(** A flush does not terminate while full batches are read but their rows
    cannot be deleted: it resends the same batch for ever, without a pause. *)
Theorem flush_never_returns {E : Type} `{Env E, Buffer E, Conn E} (cfg : Config)
    (batch : list Deposit) (err : goerr) (n : nat) (w : World E) :
  batch <> [] -> MaxBatchSize cfg <= Z.of_nat (length batch) ->
  (forall w, exists w', ctx_Err w = (Ok tt, w')) ->
  (forall w, exists w', buf_PendingAll (MaxBatchSize cfg) w = (Ok batch, w')) ->
  (forall w raw, exists w', WriteMessage raw w = (Ok tt, w')) ->
  (forall w d, d ∈ batch -> exists w', buf_Ack (ChainID d) (TxHash d) (LogIndex d) w = (Err err, w')) ->
  exists w', flushUntilEmpty cfg ctx_Err n w = (Ok Running, w').
Proof.
  intros Hne Hlen Hctx Hpend Hwrite Hack.
  assert (forall ds w, (forall d, d ∈ ds -> d ∈ batch) -> exists w', sendBatch ds w = (Ok tt, w')) as Hsend.
  { clear w. intros ds. induction ds as [|d ds IH]; intros w Hin; [by exists w|].
    unfold sendBatch. cbn [foldM]. unfold bind at 1 2, attempt.
    destruct (Hwrite w (marshalDeposit d)) as (w1 & ->). unfold bind at 1.
    destruct (Hack w1 d) as (w2 & ->); [apply Hin; left|].
    apply IH. intros d' Hd'. apply Hin. by right. }
  revert w. induction n as [|n IH]; intros w; [by exists w|]. cbn [flushUntilEmpty].
  unfold bind at 1. destruct (Hctx w) as (w1 & ->). unfold bind at 1, wrapf.
  destruct (Hpend w1) as (w2 & ->). destruct batch as [|d batch']; [done|].
  unfold bind at 1. destruct (Hsend (d :: batch') w2) as (w3 & ->); [done|].
  rewrite (proj2 (Z.ltb_ge _ _)) by done. apply IH.
Qed.

(** ** Configuration and backoff *)

(** [New] leaves no timeout or limit at zero: tickers of the drain loops
    can be created and at least one message may be in flight. *)
Theorem New_normalises (cfg : Config) :
  0 < WriteTimeout (New cfg) /\ 0 < ReadTimeout (New cfg) /\ 0 < ACKTimeout (New cfg) /\
  1 <= MaxInFlight (New cfg) /\
  (ReadTimeout cfg <> 1 -> 0 < PingInterval (New cfg) /\ New (New cfg) = New cfg).
Proof.
  destruct cfg as [u r d p b wt rt pi ra at_ mi]. unfold New, second_ns. cbn.
  assert (forall x, 1 < x -> 0 < Z.quot x 2) as Hq.
  { intros x Hx. rewrite Z.quot_div_nonneg by lia. apply Z.div_str_pos. lia. }
  split_and!; [destruct (Z.leb_spec wt 0)|destruct (Z.leb_spec rt 0)|
    destruct (Z.leb_spec at_ 0)|destruct (Z.leb_spec mi 0)|]; try lia. intros Hrt.
  destruct (Z.leb_spec wt 0), (Z.leb_spec rt 0), (Z.leb_spec pi 0), (Z.leb_spec at_ 0), (Z.leb_spec mi 0); cbn;
    rewrite ?(proj2 (Z.leb_gt _ 0)) by (cbn; first [lia|apply Hq; lia]); split; try done;
    intros; try apply Hq; lia.
Qed.

(** The reconnect delay doubles, is capped at 60 s and then jittered by 20%
    either way: it is at least 80% of the capped value (up to rounding) and at
    most 72 s, above the cap. *)
Theorem nextBackoff_bounded {E : Type} `{Conn E} (currentMs : Z) (w : World E) (d : Z) :
  0 <= currentMs <= 72000 ->
  (forall ms w v, 0 <= ms -> (jittered ms w).1 = Ok v -> 8 * ms <= 10 * v + 10 /\ 10 * v <= 12 * ms) ->
  (nextBackoff currentMs w).1 = Ok d ->
  d <= 72000 /\ 8 * Z.min (2 * currentMs) maxReconnectDelayMs <= 10 * d + 10.
Proof.
  intros Hc Hj. unfold nextBackoff. rewrite (i64_small (currentMs * 2)) by width. cbv zeta.
  unfold maxReconnectDelayMs.
  destruct (Z.ltb_spec 60000 (currentMs * 2)); intros Hd; apply Hj in Hd; lia.
Qed.

(** [oldest] is the minimum of the send times. *)
Lemma oldest_spec (o : outstanding) :
  match oldest o with
  | None => o = ∅
  | Some t => (exists id m, o !! id = Some m /\ instant_ns (om_sentAt m) = t) /\
              forall id m, o !! id = Some m -> t <= instant_ns (om_sentAt m)
  end.
Proof.
  unfold oldest. apply (map_fold_weak_ind (fun acc o => match acc with
    | None => o = ∅
    | Some t => (exists id m, o !! id = Some m /\ instant_ns (om_sentAt m) = t) /\
                forall id m, o !! id = Some m -> t <= instant_ns (om_sentAt m) end)); [done|].
  intros id m o' acc Hid Hacc. destruct acc as [t|].
  - destruct Hacc as [(id' & m' & Hm' & Ht) Hmin].
    destruct (Z.ltb_spec (instant_ns (om_sentAt m)) t); split.
    + exists id, m. by rewrite lookup_insert_eq.
    + intros id2 m2 [[<- <-]|[_ H2]]%lookup_insert_Some; [done|]. specialize (Hmin _ _ H2). lia.
    + exists id', m'. rewrite lookup_insert_ne; [done|congruence].
    + intros id2 m2 [[<- <-]|[_ H2]]%lookup_insert_Some; [done|]. by apply (Hmin _ _ H2).
  - subst o'. split.
    + exists id, m. by rewrite lookup_insert_eq.
    + intros id2 m2 [[<- <-]|[_ H2]]%lookup_insert_Some; [done|]. by rewrite lookup_empty in H2.
Qed.

(** A silent Adapter is dropped: the timeout tick ends the connection
    exactly when some unacknowledged message is older than [ACKTimeout]; the
    rows and the messages in flight are left as they are. *)
Theorem ack_timeout_reconnects {E : Type} `{Env E, Buffer E, Conn E} (cfg : Config) (n : nat)
    (w w' : World E) (o : outstanding) (now : instant) :
  0 <= ACKTimeout cfg -> time_Now w = (Ok now, w') ->
  let '(r, s') := drainWithACK_step cfg n PeTimeout (w, o) in
  ((exists e, r = Err e) <->
     exists id m, o !! id = Some m /\ ACKTimeout cfg < instant_ns now - instant_ns (om_sentAt m)) /\
  s'.2 = o /\ w_db s'.1 = w_db (if decide (o = ∅) then w else w').
Proof.
  intros Ha Hn. cbn. unfold oldestAge, bind, gets, lift. cbn.
  pose proof (oldest_spec o) as Ho. destruct (oldest o) as [t|].
  - destruct Ho as [(id & m & Hm & Ht) Hmin]. rewrite Hn. cbn.
    rewrite decide_False by (intros ->; by rewrite lookup_empty in Hm).
    destruct (Z.ltb_spec (ACKTimeout cfg) (instant_ns now - t)); cbn; (split; [split|done]).
    + intros _. exists id, m. by rewrite Ht.
    + eauto.
    + by intros [? ?].
    + intros (id' & m' & Hm' & Hlt). specialize (Hmin _ _ Hm'). lia.
  - subst o. cbn. rewrite (proj2 (Z.ltb_ge (ACKTimeout cfg) 0)) by done. cbn.
    rewrite decide_True by done. split; [split|done]; [by intros [? ?]|].
    intros (id' & m' & Hm' & _). by rewrite lookup_empty in Hm'.
Qed.

(** ** Concrete runs *)
Module FlowWitness.
Definition dep (tx : string) (li : Z) : Deposit :=
  mkDeposit 1 tx li "0xf" "0xt" "2.5" 12 "ETH" "TXCF" "20231115071320" "20231115071320007".
Definition rows2 : DB :=
  save_db 0 1 "erc20" 102 [dep "0xaa" 0; dep "0xbb" 1] (mkDB [] 1 {[ (1, "erc20") := 101 ]} 0 [] [] []).
Definition cfg (ack : bool) : Config :=
  New (mkConfig "ws://adapter" 1000 5000 1000 50 0 0 0 ack 0 1).
Definition idA : string := "1:0xaa:0".

Lemma rows2_wf : db_wf rows2.
Proof. apply save_db_wf; [split; cbn; constructor|repeat constructor..]; vm_compute; intuition congruence. Qed.

Definition w2 : World wire := mkWorld rows2 ∅ (mkWire 1700000000 [] []).

(** one slot: the older deposit is sent, the other waits *)
Lemma topUp_sends_oldest_witness : exists w' o',
  topUp (cfg true) (w2, newOutstanding) = (Ok tt, (w', o')) /\
  wr_sent (w_ext w') = [(encodeDeposit (dep "0xaa" 0)).1] /\ dom o' = {[ idA ]}.
Proof.
  destruct (topUp_sends_oldest (cfg true) w2 newOutstanding rows2_wf ltac:(cbn; lia) ltac:(vm_compute; done))
    as (ds & fresh & w' & o' & Hp & Hf & Hr & _ & Hs & Ho).
  vm_compute in Hp. injection Hp as <-. vm_compute in Hf. subst fresh.
  exists w', o'. split; [exact Hr|]. split; [rewrite Hs; reflexivity|]. rewrite Ho. set_solver.
Defined.

Definition msgA : outstandingMsg := mkMsg 1 "0xaa" 0 {| sec := 1700000000; nsec := 0 |}.
Lemma msgA_wf : out_wf {[ idA := msgA ]}.
Proof. intros id m [<- <-]%lookup_singleton_Some. reflexivity. Qed.

Lemma handleAck_effect_witness :
  keys_of (w_db (handleAck idA (w2, {[ idA := msgA ]})).2.1) = [(1, "0xbb", 1)].
Proof.
  pose proof (handleAck_effect (E := wire) idA w2 {[ idA := msgA ]} msgA_wf) as Hh.
  destruct (handleAck idA (w2, {[ idA := msgA ]})) as [r [w' o']].
  rewrite lookup_singleton_eq in Hh.
  destruct Hh as (_ & k & Hk & _ & Hdb & _).
  - intros m [= <-]. by vm_compute.
  - cbn. cbn in Hdb. rewrite Hdb.
    change idA with (key_id (1, "0xaa", 0)) in Hk. apply (inj key_id) in Hk as ->. reflexivity.
Defined.

Lemma in_flight_bounded_witness :
  out_len (drainWithACK_body (cfg true) 4 (w2, newOutstanding)).2.2 <= 1.
Proof.
  apply (proj2 (in_flight_bounded (E := wire) (cfg true) 4 (w2, newOutstanding)
    ltac:(by intros id m) ltac:(by vm_compute))).
Defined.

Lemma flush_drains_witness : exists w',
  flushUntilEmpty (cfg false) ctx_Err 3 w2 = (Ok Returned, w') /\ deposit_buffer (w_db w') = [] /\
  length (wr_sent (w_ext w')) = 2%nat.
Proof.
  destruct (flush_drains (cfg false) 3 w2 ltac:(cbn; lia) rows2_wf ltac:(vm_compute; lia)) as (w' & Hr & Hb & Hs).
  exists w'. split; [exact Hr|]. split; [exact Hb|]. rewrite Hs. reflexivity.
Defined.

(** a table whose rows can be read but not deleted *)
Definition readonly : Buffer wire := {|
  buf_PendingAll _ := ret [dep "0xaa" 0];
  buf_Ack _ _ _ := fail (ErrNew "permission denied for table deposit_buffer") |}.
Definition cfg1 : Config := mkConfig "ws://adapter" 1000 5000 1000 1 1 2 1 false 3 1.
Lemma flush_never_returns_witness : exists w',
  flushUntilEmpty (H0 := readonly) cfg1 ctx_Err 1000 w2 = (Ok Running, w').
Proof.
  apply (flush_never_returns (H0 := readonly) cfg1 [dep "0xaa" 0]
    (ErrNew "permission denied for table deposit_buffer")); try done; intros; eexists; reflexivity.
Defined.

Lemma nextBackoff_bounded_witness : 60000 <= 72000 /\ 8 * 60000 <= 10 * 60000 + 10.
Proof.
  apply (nextBackoff_bounded (E := wire) 40000 w2 60000); [lia| |reflexivity].
  intros ms w v Hms [= <-]. lia.
Defined.

Definition wlate : World wire := mkWorld rows2 ∅ (mkWire 1700000031 [] []).
Lemma ack_timeout_reconnects_witness : exists e,
  (drainWithACK_step (cfg true) 0 PeTimeout (wlate, {[ idA := msgA ]})).1 = Err e.
Proof.
  pose proof (ack_timeout_reconnects (E := wire) (cfg true) 0 wlate wlate {[ idA := msgA ]}
    {| sec := 1700000031; nsec := 0 |} ltac:(by vm_compute) eq_refl) as Ht.
  destruct (drainWithACK_step _ _ _ _) as [r s']. apply (proj1 Ht).
  exists idA, msgA. split; [apply lookup_singleton_eq|by vm_compute].
Defined.

End FlowWitness.

(** ** Fire and forget can lose *)

(** Without ACKs the promise fails: the block with the deposit was
    processed and nothing was lost so far, the link accepts the write, the
    Adapter never takes the message over, and after the flush the deposit is
    neither buffered nor with the Adapter. *)
Theorem fire_and_forget_can_lose :
  let truth := fun c s b => if (b =? 102) then [(1, "0xaa", 0); (1, "0xbb", 1)] else [] in
  let handed := fun _ : wire => ∅ in
  let before := mkWorld (mkDB [] 1 {[ (1, "erc20") := 101 ]} 0 [] [] []) ∅ (mkWire 1700000000 [] []) in
  exists after, flushUntilEmpty (FlowWitness.cfg false) ctx_Err 3 FlowWitness.w2 = (Ok Returned, after) /\
    nothing_lost truth handed before FlowWitness.w2 /\ ~ nothing_lost truth handed before after.
Proof.
  cbv zeta. eexists. split; [vm_compute; reflexivity|]. split.
  - intros c s base n b k Hbase _ Hn Hb Hk. left.
    cbn in Hbase. apply lookup_singleton_Some in Hbase as [[= <- <-] <-].
    vm_compute in Hn. injection Hn as <-. change (u64 101) with 101 in Hb. change (u64 102) with 102 in Hb.
    assert (b = 102) as -> by lia. cbn in Hk.
    change (keys_of (w_db FlowWitness.w2)) with [(1, "0xaa", 0); (1, "0xbb", 1)]. exact Hk.
  - intros Hno. destruct (Hno 1 "erc20" 101 102 102 (1, "0xaa", 0)) as [Hk|Hk];
      [reflexivity|done|reflexivity|by vm_compute|left| |]; set_solver.
Qed.

(** ** An Adapter that acknowledges what it took over *)
Module AdapterWitness.
Import FlowWitness.

(** the keys it has taken over, and those it will take over next *)
Record adapter := mkAd { ad_taken : gset key; ad_next : list key }.

#[export] Instance env : Env adapter := {|
  env_wait _ := ret tt;
  ctx_Err := ret tt;
  time_Now := ret {| sec := 1700000000; nsec := 0 |};
  env_db := ret tt;
  env_has := ret tt;
  env_tx e := (None, e);
  env_commit e := (Committed, e);
  db_now e := 0
|}.

#[export] Instance conn : Conn adapter := {|
  DialContext := ret tt;
  WriteMessage raw := ret tt;
  WritePing := ret tt;
  select_drain := fun w =>
    match ad_next (w_ext w) with
    | [] => (Ok PeDone, w)
    | k :: ks =>
        if decide (k ∈ keys_of (w_db w))
        then (Ok (PeAck (key_id k)),
              mkWorld (w_db w) (w_metrics w) (mkAd ({[k]} ∪ ad_taken (w_ext w)) ks))
        else (Ok PePoll, mkWorld (w_db w) (w_metrics w) (mkAd (ad_taken (w_ext w)) ks))
    end;
  select_graceful := ret None;
  drainCtx_Err := ret tt;
  jittered d := ret d
|}.

Lemma idle truth own {A} (m : M (World adapter) A) :
  (forall w, (m w).2 = w) -> cooperates_with truth ad_taken (fun _ => True) own m.
Proof. intros Hm w. rewrite Hm. by split. Qed.

Lemma contract truth : AdapterContract truth ad_taken (fun _ => True).
Proof.
  split; try (intros; by apply idle).
  - intros own w _. split; [|done]. cbn. destruct (ad_next (w_ext w)) as [|k ks]; [reflexivity|].
    destruct (decide _) as [Hk|]; [|by apply coop_same].
    split; [done|]. intros l [Hc Hb Hh]. eexists. split; [apply rtc_once, (step_hand truth l k); by apply Hb|].
    split; cbn; [done..|by rewrite Hh].
  - intros w id k. cbn. destruct (ad_next (w_ext w)) as [|k' ks]; [done|].
    destruct (decide _); [|done]. intros [= <-] ->%(inj key_id). cbn. set_solver.
  - done.
Qed.

Definition truth0 (c : Z) (s : string) (b : Z) : list key := [].
Definition wad : World adapter := mkWorld rows2 ∅ (mkAd ∅ [(1, "0xaa", 0); (1, "0xcc", 9)]).

(** the acknowledged row is gone, the other is still there *)
Lemma Publisher_at_least_once_witness :
  nothing_lost truth0 ad_taken wad (Publisher_Run (cfg true) 5 wad).2 /\
  keys_of (w_db (Publisher_Run (cfg true) 5 wad).2) = [(1, "0xbb", 1)].
Proof.
  split; [|vm_compute; reflexivity].
  apply (Publisher_at_least_once truth0 ad_taken (fun _ => True) (cfg true) 5 wad);
    [|apply contract|reflexivity|by vm_compute|exact I].
  intros own. by apply idle.
Defined.
End AdapterWitness.
