(* ===== verification/Delivery.v ===== *)
(** * ACK mode delivers ([internal/publisher/publisher.go])

    The liveness side of the publisher: on a link that works, with an Adapter
    that acknowledges what it is sent, in any order and after a bounded number
    of other events, every buffered deposit is sent, acknowledged and removed.
    With [PublisherProps.Publisher_at_least_once], which says that nothing is
    removed otherwise, this is the publisher's contract.  The lemmas on the
    window ([Section Window]) serve [DeliveryFair.v] too, where the buffer
    keeps filling. *)
From stdpp Require Import base gmap list strings relations.
From Stdlib Require Import ZArith Lia Ascii String.
From stdpp Require Import base strings.
From S2P Require Import Prelude Decimal Errors Effect Retry Time Model Json Metrics Store BufferRepo Spec Protocol Publisher PublisherProps PublisherFlow.

(** ** The window

    What holds whatever happens beside the publisher: [grows] is what the
    others do to the tables during a call, [keeps] what a call leaves of the
    Adapter's pace. *)
Section Window.
Context {E : Type} `{Env E, Conn E}.
(** [inbox]: the ids sent and not yet acknowledged, at the Adapter; [born]:
    not later than when such an id was sent *)
Variables (inbox : E -> list string) (born : E -> string -> Z).
Variables (grows : DB -> DB -> Prop) (keeps : E -> E -> Prop) (cfg : Config).

(** others only append to the buffer, under fresh ids *)
Class Arrivals : Prop := {
  ar_grows :: PreOrder grows;
  ar_keeps :: PreOrder keeps;
  ar_wf db db' : grows db db' -> db_wf db -> db_wf db';
  ar_seq db db' : grows db db' -> buffer_seq db <= buffer_seq db';
  ar_rows db db' : grows db db' -> exists new, deposit_buffer db' = deposit_buffer db ++ new /\
    Forall (fun r => buffer_seq db <= row_id r) new
}.

Implicit Types w : World E.
Abbreviation rows w := (deposit_buffer (w_db w)).
Definition same_born (w w' : World E) : Prop := forall id, id ∈ inbox (w_ext w) -> born (w_ext w') id = born (w_ext w) id.
Definition unmoved (w w' : World E) : Prop :=
  grows (w_db w) (w_db w') /\ inbox (w_ext w') = inbox (w_ext w) /\ same_born w w' /\ keeps (w_ext w) (w_ext w').

(** the call succeeds and leaves the Adapter alone *)
Definition calm {A} (m : M (World E) A) (Q : World E -> A -> Prop) : Prop := forall w, exists a w',
  m w = (Ok a, w') /\ Q w a /\ unmoved w w'.

(** the calls work; no message is older than the [ACKTimeout] *)
Record link : Prop := {
  lk_db : calm env_db (fun _ _ => True);
  lk_now : calm time_Now (fun w t => forall id, id ∈ inbox (w_ext w) ->
    born (w_ext w) id <= instant_ns t <= born (w_ext w) id + ACKTimeout cfg);
  lk_ping : calm WritePing (fun _ _ => True);
  lk_write : forall d w, key_id (key_of d) ∉ inbox (w_ext w) -> Z.of_nat (length (inbox (w_ext w))) < MaxInFlight cfg ->
    exists w', WriteMessage (encodeDeposit d).1 w = (Ok tt, w') /\
    grows (w_db w) (w_db w') /\ keeps (w_ext w) (w_ext w') /\ same_born w w' /\
    inbox (w_ext w') = inbox (w_ext w) ++ [key_id (key_of d)]
}.
Context `{!Arrivals}.
Hypothesis Hlink : link.
Hypothesis Hflight : 1 <= MaxInFlight cfg.
Hypothesis Hbatch : 1 <= MaxBatchSize cfg.
Hypothesis Htimeout : 0 <= ACKTimeout cfg.

Definition id_of (r : BufferRow) : string := key_id (row_key r).

(** in flight: the oldest [i] rows *)
Definition window (w : World E) (i : nat) : Prop :=
  (i <= length (rows w))%nat /\ forall id, id ∈ inbox (w_ext w) <-> id ∈ id_of <$> take i (rows w).

Definition msg_ok (w : World E) (id : string) (m : outstandingMsg) : Prop :=
  born (w_ext w) id <= instant_ns (om_sentAt m) /\
  exists r, r ∈ rows w /\ row_key r = (om_chainID m, om_txHash m, om_logIndex m) /\ id = id_of r.

(** The ids at the Adapter are the outstanding ones, each filed with the key
    of its row. *)
Record afloat (i : nat) (s : PS E) : Prop := {
  af_db : db_wf (w_db s.1);
  af_ids : NoDup (inbox (w_ext s.1));
  af_dom : forall id, id ∈ inbox (w_ext s.1) <-> is_Some (s.2 !! id);
  af_msg : map_Forall (msg_ok s.1) s.2;
  af_window : window s.1 i
}.

Lemma unmoved_refl w r : unmoved w (mkWorld (w_db w) r (w_ext w)).
Proof. by split_and!. Qed.

Lemma rows_grow w w' : grows (w_db w) (w_db w') -> rows w `prefix_of` rows w'.
Proof. intros Hg. destruct (ar_rows _ _ Hg) as (new & -> & _). by apply prefix_app_r. Qed.

Lemma window_grow w w' i : grows (w_db w) (w_db w') -> inbox (w_ext w') = inbox (w_ext w) -> window w i -> window w' i.
Proof.
  intros Hg Hi [Hle Hw]. destruct (rows_grow _ _ Hg) as [new Hr]. split; [rewrite Hr, length_app; lia|].
  intros id. by rewrite Hi, Hr, take_app_le.
Qed.

Lemma afloat_unmoved i w w' o : unmoved w w' -> afloat i (w, o) -> afloat i (w', o).
Proof.
  intros (Hg & Hi & Hb & _) [F1 F2 F3 F4 F5]. cbn in *. split; cbn.
  - by apply (ar_wf _ _ Hg).
  - by rewrite Hi.
  - intros id. by rewrite Hi.
  - intros id m Hm. destruct (F4 id m Hm) as (Ht & r & Hr & Hk). split; [rewrite Hb; [done|by apply F3]|].
    exists r. split; [|done]. destruct (rows_grow _ _ Hg) as [new ->]. apply elem_of_app. by left.
  - by apply (window_grow w).
Qed.

Lemma ids_nodup w : db_wf (w_db w) -> NoDup (id_of <$> rows w).
Proof. intros Hwf. change (NoDup (key_id ∘ row_key <$> rows w)). rewrite list_fmap_compose. apply NoDup_fmap_2; [apply _|apply Hwf]. Qed.

(** a row is in flight when its id is outstanding *)
Lemma in_window i w o p r : afloat i (w, o) -> rows w !! p = Some r ->
  (p < i)%nat <-> is_Some (o !! id_of r).
Proof.
  intros Haf Hr. rewrite <- (af_dom _ _ Haf), (proj2 (af_window _ _ Haf)). cbn. split.
  - intros Hp. apply list_elem_of_fmap. exists r. split; [done|]. apply (list_elem_of_lookup_2 _ p). by rewrite lookup_take_lt.
  - intros (r' & Hid & [p' Hp']%list_elem_of_lookup)%list_elem_of_fmap. apply lookup_take_Some in Hp' as [Hp' Hlt].
    pose proof (ids_nodup w (af_db _ _ Haf)) as Hnd.
    rewrite (NoDup_lookup _ p p' (id_of r) Hnd); [done|by rewrite list_lookup_fmap, Hr|rewrite list_lookup_fmap, Hp'; exact (f_equal Some (eq_sym Hid))].
Qed.

Lemma in_flight i w o : afloat i (w, o) -> out_len o = Z.of_nat (length (inbox (w_ext w))).
Proof.
  intros Haf. unfold out_len. rewrite <- size_dom. f_equal.
  rewrite <- (size_list_to_set (C := gset string) (inbox (w_ext w))) by apply Haf. f_equal. apply set_eq.
  intros id. rewrite elem_of_dom, elem_of_list_to_set. by rewrite (af_dom _ _ Haf).
Qed.

(** ** Filling the window *)

(** what a round of sending does to the state: the window may have grown *)
Definition sent_more (i : nat) (s : PS E) (i' : nat) (s' : PS E) : Prop :=
  afloat i' s' /\ (i <= i')%nat /\ grows (w_db s.1) (w_db s'.1) /\ keeps (w_ext s.1) (w_ext s'.1).

Lemma sent_more_refl i s : afloat i s -> sent_more i s i s.
Proof. intros Haf. by split_and!. Qed.
Lemma sent_more_trans i1 s1 i2 s2 i3 s3 : sent_more i1 s1 i2 s2 -> sent_more i2 s2 i3 s3 -> sent_more i1 s1 i3 s3.
Proof. intros (_ & M2 & M3 & M4) (K1 & K2 & K3 & K4). split_and!; [done|lia|by etrans..]. Qed.

(** one message: the row behind the window *)
Lemma send_one d r i w o :
  afloat i (w, o) -> rows w !! i = Some r -> key_of d = row_key r -> out_len o < MaxInFlight cfg ->
  exists w1 w2 now, WriteMessage (encodeDeposit d).1 w = (Ok tt, w1) /\ time_Now w1 = (Ok now, w2) /\
    sent_more i (w, o) (S i) (w2, <[key_id (key_of d) := mkMsg (ChainID d) (TxHash d) (LogIndex d) now]> o).
Proof.
  intros Haf Hr Hk Hroom. rewrite (in_flight _ _ _ Haf) in Hroom. pose proof Haf as [Hdb Hnd Hdom Hmsg [Hle Hwin]]. cbn [fst snd] in *.
  assert (key_id (key_of d) ∉ inbox (w_ext w)) as Hnew.
  { rewrite Hk, Hdom. fold (id_of r). rewrite <- (in_window i w o i r Haf Hr). lia. }
  destruct (lk_write Hlink d w Hnew Hroom) as (w1 & Hw & Hg1 & Hk1 & Hb1 & Hi1).
  destruct (lk_now Hlink w1) as (now & w2 & Hn & Hage & Hg2 & Hi2 & Hb2 & Hk2).
  exists w1, w2, now. split; [done|]. split; [done|].
  assert (inbox (w_ext w2) = inbox (w_ext w) ++ [key_id (key_of d)]) as Hi by congruence.
  assert (grows (w_db w) (w_db w2)) as Hg by by etrans.
  destruct (rows_grow _ _ Hg) as [new Hrows].
  split_and!; cbn [fst snd]; [|lia|done|by etrans].
  assert (forall id, id ∈ inbox (w_ext w) -> born (w_ext w2) id = born (w_ext w) id) as Hborn.
  { intros id Hid. rewrite Hb2 by (rewrite Hi1; set_solver). by apply Hb1. }
  split; cbn [fst snd].
  - by apply (ar_wf _ _ Hg).
  - rewrite Hi. apply NoDup_app. split_and!; [done| |apply NoDup_singleton]. by intros id Hin ->%list_elem_of_singleton.
  - intros id. rewrite Hi, elem_of_app, list_elem_of_singleton, Hdom, lookup_insert_is_Some'. naive_solver.
  - apply map_Forall_insert_2.
    + split; cbn [om_sentAt om_chainID om_txHash om_logIndex].
      * rewrite Hb2 by (rewrite Hi1; set_solver). apply Hage. rewrite Hi1. set_solver.
      * exists r. unfold id_of. rewrite Hrows, <- Hk. split; [|done]. apply elem_of_app. left. by eapply list_elem_of_lookup_2.
    + intros id m Hm. destruct (Hmsg id m Hm) as (Ht & r' & Hr' & Hk'). split; [rewrite Hborn; [done|by apply Hdom]|].
      exists r'. rewrite Hrows. split; [apply elem_of_app; by left|done].
  - apply lookup_lt_Some in Hr as Hlt. split; [rewrite Hrows, length_app; lia|]. intros id.
    rewrite Hi, elem_of_app, Hwin, list_elem_of_singleton, Hrows, take_app_le, (take_S_r _ _ _ Hr) by lia.
    rewrite fmap_app, elem_of_app, Hk. cbn. by rewrite list_elem_of_singleton.
Qed.

(** the pending deposits are the rows from [p] on, those before in flight *)
Lemma topUp_send_live pending : forall available p i w o,
  afloat i (w, o) -> (p <= i)%nat -> key_of <$> pending `prefix_of` row_key <$> drop p (rows w) ->
  out_len o + available <= MaxInFlight cfg ->
  exists i' s', topUp_send pending available (w, o) = (Ok tt, s') /\ sent_more i (w, o) i' s' /\
    (pending <> [] -> 0 < available -> (p < i')%nat).
Proof.
  induction pending as [|d rest IH]; intros available p i w o Haf Hpi Hp Hroom.
  { exists i, (w, o). split; [done|]. by split; [apply sent_more_refl|]. }
  destruct Hp as [tl Hp]. destruct (drop p (rows w)) as [|r later] eqn:Hdrop; [done|].
  assert (key_of d = row_key r /\ row_key <$> later = (key_of <$> rest) ++ tl) as [Hk Hp'].
  { rewrite !fmap_cons in Hp. cbn [app] in Hp. by apply (inj2 cons) in Hp as [-> ->]. }
  clear Hp. rename Hp' into Hp.
  assert (rows w !! p = Some r) as Hr.
  { rewrite <- (Nat.add_0_r p), <- lookup_drop, Hdrop. done. }
  assert (drop (S p) (rows w) = later) as Hlater by (replace (S p) with (p + 1)%nat by lia; rewrite <- drop_drop, Hdrop; done).
  cbn [topUp_send]. destruct (Z.leb_spec available 0) as [Hz|Hpos].
  { exists i, (w, o). split; [done|]. split; [by apply sent_more_refl|lia]. }
  destruct (encodeDeposit d) as [raw id] eqn:Henc.
  assert (raw = (encodeDeposit d).1 /\ id = id_of r) as [-> ->].
  { unfold id_of. rewrite Henc, <- Hk. split; [done|]. by injection Henc as <- <-. }
  unfold bind at 1, out_has, gets. cbn [snd].
  destruct (bool_decide_reflect (is_Some (o !! id_of r))) as [Hin|Hout].
  - apply (in_window i w o p r Haf Hr) in Hin.
    destruct (IH available (S p) i w o Haf) as (i' & s' & Hrun & Hs & _); [lia|rewrite Hlater; by exists tl|done|].
    exists i', s'. split; [exact Hrun|]. split; [done|]. destruct Hs as (_ & Hle & _). lia.
  - rewrite <- (in_window i w o p r Haf Hr) in Hout. assert (p = i) as -> by lia.
    destruct (send_one d r i w o Haf Hr Hk ltac:(lia)) as (w1 & w2 & now & Hw & Hn & Hs).
    unfold bind at 1, lift at 1, attempt. rewrite Hw. unfold bind at 1, out_add, bind at 1, lift at 1. rewrite Hn.
    unfold id_of. rewrite <- Hk. cbn [modify fst snd]. pose proof Hs as (Haf2 & _ & Hg & _). cbn in Hg.
    destruct (IH (available - 1) (S i) (S i) w2 _ Haf2) as (i' & s' & Hrun & Hs' & _); [done| | |].
    + destruct (rows_grow _ _ Hg) as [new ->]. apply lookup_lt_Some in Hr.
      rewrite drop_app_le, Hlater, fmap_app by lia. exists (tl ++ (row_key <$> new)). by rewrite Hp, app_assoc.
    + unfold out_len in *. rewrite map_size_insert_None; [lia|]. apply eq_None_not_Some. rewrite Hk.
      fold (id_of r). by rewrite <- (in_window i w o i r Haf Hr).
    + exists i', s'. split; [exact Hrun|]. split; [by eapply sent_more_trans|]. destruct Hs' as (_ & Hle & _). lia.
Qed.

(** the window covers at least the oldest row *)
Lemma topUp_live i s : afloat i s -> exists i' s', topUp cfg s = (Ok tt, s') /\ sent_more i s i' s' /\
  (rows s.1 <> [] -> 0 < i')%nat.
Proof.
  destruct s as [w o]. intros Haf. unfold topUp, bind at 1, out_length, gets. cbn [snd].
  destruct (Z.leb_spec (MaxInFlight cfg - out_len o) 0) as [Hfull|Hroom].
  { exists i, (w, o). split; [done|]. split; [by apply sent_more_refl|]. intros _. destruct i; [|lia].
    assert (o = ∅) as ->.
    { apply map_eq. intros id. rewrite lookup_empty, eq_None_not_Some, <- (af_dom _ _ Haf), (proj2 (af_window _ _ Haf)).
      apply not_elem_of_nil. }
    unfold out_len in Hfull. rewrite map_size_empty in Hfull. lia. }
  cbv zeta. set (limit := if _ <? _ then _ else _).
  assert (1 <= limit) as Hlim.
  { unfold limit. pose proof (Zle_0_nat (size o)). unfold out_len. by destruct (_ <? _); lia. }
  clearbody limit. destruct (lk_db Hlink w) as ([] & w1 & Hok & _ & Hun).
  pose proof (afloat_unmoved _ _ _ _ Hun Haf) as Haf1. destruct Hun as (Hg1 & _ & _ & Hk1).
  destruct (PendingAll_rows limit w w1 Hok) as (ds & Hpend & Hf); [lia|apply Haf1|].
  unfold bind at 1, lift at 1, wrapf. cbn [buf_PendingAll BufferRepo_Buffer]. rewrite Hpend.
  destruct (topUp_send_live ds (MaxInFlight cfg - out_len o) 0 i w1 o Haf1) as (i' & s' & Hrun & Hs & Hne); [lia| |lia|].
  { rewrite drop_0, (rows_keys _ _ Hf), fmap_take. apply prefix_take. }
  unfold bind at 1. rewrite Hrun. unfold setInFlight, bind, out_length, gets, lift, emit, modify. destruct s' as [w2 o2].
  eexists i', (_, o2). split; [reflexivity|]. split.
  - destruct Hs as (Haf2 & Hle & Hg2 & Hk2). cbn in *. split_and!; cbn; [|done|by etrans..].
    eapply afloat_unmoved; [apply unmoved_refl|done].
  - cbn. intros Hrows. apply Hne; [|lia]. intros ->. apply Forall2_length in Hf. rewrite length_take in Hf. cbn in Hf.
    destruct (rows_grow _ _ Hg1) as [new Hr]. rewrite Hr, length_app in Hf. destruct (rows w); [done|cbn in Hf; lia].
Qed.

(** ** Acknowledgements *)

Lemma delete_row db k r : db_wf db -> deposit_buffer db !! k = Some r ->
  deposit_buffer (sql_delete (row_key r) db) = delete k (deposit_buffer db).
Proof.
  intros Hwf Hr. change (filter (fun x => row_key x <> row_key r) (deposit_buffer db) = delete k (deposit_buffer db)).
  pose proof (wf_nodup _ Hwf) as Hnd. revert k Hr. induction (deposit_buffer db) as [|x l IH]; [done|].
  rewrite fmap_cons, NoDup_cons in Hnd. destruct Hnd as [Hnin Hnd]. intros [|k] Hk.
  - injection Hk as ->. rewrite filter_cons_False by tauto. apply filter_all. intros y Hy Heq.
    apply Hnin. rewrite <- Heq. by apply list_elem_of_fmap_2.
  - rewrite filter_cons_True; [cbn; f_equal; auto|]. intros Heq. apply Hnin. rewrite Heq.
    by apply list_elem_of_fmap_2, (list_elem_of_lookup_2 _ k).
Qed.

(** an acknowledgement removes its row from table and window *)
Lemma handleAck_live id l1 l2 i w w1 o :
  afloat i (w, o) -> grows (w_db w) (w_db w1) -> inbox (w_ext w) = l1 ++ id :: l2 -> inbox (w_ext w1) = l1 ++ l2 ->
  (forall id', id' ∈ l1 ++ l2 -> born (w_ext w1) id' = born (w_ext w) id') ->
  exists k r db s', (k < i)%nat /\ rows w !! k = Some r /\ id = id_of r /\ grows (w_db w) db /\
    handleAck id (w1, o) = (Ok tt, s') /\ afloat (i - 1) s' /\ w_db s'.1 = sql_delete (row_key r) db /\
    deposit_buffer (w_db s'.1) = delete k (deposit_buffer db) /\ keeps (w_ext w1) (w_ext s'.1).
Proof.
  intros Haf Hg Hi Hi1 Hb1. pose proof Haf as [Hdb Hnd Hdom Hmsg [Hle Hwin]]. cbn in *.
  assert (is_Some (o !! id)) as [m Hm] by (apply Hdom; rewrite Hi; set_solver).
  destruct (Hmsg _ _ Hm) as (_ & r & Hr & Hk & Hid). apply list_elem_of_lookup in Hr as [k Hr].
  assert (k < i)%nat as Hki by (rewrite (in_window i w o k r Haf Hr), <- Hid; by exists m).
  assert (is_i32 (om_logIndex m)) as Hi32.
  { pose proof (wf_rows _ Hdb) as Hw. rewrite Forall_forall in Hw.
    destruct (Hw r) as (d & _ & _ & _ & Hx); [by eapply list_elem_of_lookup_2|].
    unfold row_key in Hk. by injection Hk as _ _ <-. }
  unfold handleAck, bind at 1, out_take. cbn [fst snd]. rewrite Hm.
  unfold bind at 1, lift at 1, emit, modify. cbn [fst snd].
  unfold bind at 1, lift at 1, wrapf at 1. cbn [buf_Ack BufferRepo_Buffer].
  unfold Ack, wrapf, exec, bind at 1. rewrite decide_True by done.
  match goal with |- context [env_db ?w] => destruct (lk_db Hlink w) as ([] & w2 & -> & _ & Hg2 & Hi2 & Hb2 & Hk2) end.
  unfold same_born in Hb2. cbn in Hg2, Hi2, Hb2, Hk2 |- *. rewrite <- Hk.
  assert (grows (w_db w) (w_db w2)) as Hg' by by etrans. pose proof (ar_wf _ _ Hg' Hdb) as Hwf2.
  destruct (rows_grow _ _ Hg') as [new Hrows].
  assert (deposit_buffer (w_db w2) !! k = Some r) as Hr2 by (rewrite Hrows; by apply lookup_app_l_Some).
  pose proof (delete_row _ k r Hwf2 Hr2) as Hdel.
  eexists k, r, (w_db w2), (_, _). split_and!; [done..| |reflexivity| |reflexivity|exact Hdel|done].
  { done. }
  rewrite Hi in Hnd. apply NoDup_app in Hnd as (N1 & N2 & N3). apply NoDup_cons in N3 as [N3 N4].
  assert (forall id', id' ∈ l1 ++ l2 <-> id' ∈ inbox (w_ext w) /\ id' <> id) as Hless by (intros id'; rewrite Hi; set_solver).
  split; cbn.
  - by apply delete_wf.
  - rewrite Hi2, Hi1. apply NoDup_app. split_and!; [done|set_solver|done].
  - intros id'. rewrite Hi2, Hi1, lookup_delete_is_Some, <- Hdom, Hless. naive_solver.
  - intros id' m' [Hne Hm']%lookup_delete_Some.
    assert (id' ∈ l1 ++ l2) as Hin' by (apply Hless; split; [apply Hdom; by exists m'|congruence]).
    destruct (Hmsg _ _ Hm') as (Ht & r' & Hr' & Hk' & Hid'). split.
    + cbn. rewrite Hb2 by (by rewrite Hi1). by rewrite Hb1.
    + exists r'. split; [|done]. cbn. apply list_elem_of_filter. split; [|rewrite Hrows; apply elem_of_app; by left].
      intros Heq. apply Hne. unfold id_of in *. congruence.
  - cbn in Hdel. split; cbn; rewrite Hdel.
    + rewrite length_delete by done. rewrite Hrows, length_app. lia.
    + intros id'. rewrite Hi2, Hi1, Hless, Hwin, take_delete, Hrows, take_app_le, Hid by lia. symmetry.
      apply elem_of_delete; [|by rewrite lookup_take_lt]. eapply sublist_NoDup; [exact (ids_nodup w Hdb)|].
      apply fmap_sublist, sublist_take.
Qed.

(** an age tick finds nothing overdue *)
Lemma oldestAge_live i w o : afloat i (w, o) ->
  exists age w', oldestAge (w, o) = (Ok age, (w', o)) /\ age <= ACKTimeout cfg /\ unmoved w w'.
Proof.
  intros Haf. unfold oldestAge, bind, gets. cbn [snd]. pose proof (oldest_spec o) as Ho. destruct (oldest o) as [t|].
  - destruct Ho as [(id & m & Hm & Ht) _]. destruct (lk_now Hlink w) as (now & w' & Hn & Hr & Hu).
    unfold lift. rewrite Hn. eexists _, w'. split; [reflexivity|]. split; [|done].
    destruct (af_msg _ _ Haf id m Hm) as [Hsent _]. cbn in Hsent.
    specialize (Hr id (proj2 (af_dom _ _ Haf id) (ex_intro _ m Hm))). lia.
  - exists 0, w. split_and!; [done..|]. by split_and!.
Qed.

(** opening the connection *)
Lemma drain_starts w : 0 < i64 (PingInterval cfg) -> 0 < i64 (PollIntervalMs cfg * 1000000) ->
  0 < i64 (Z.quot (ACKTimeout cfg) 3) -> db_wf (w_db w) -> inbox (w_ext w) = [] ->
  exists i s, afloat i s /\ grows (w_db w) (w_db s.1) /\ keeps (w_ext w) (w_ext s.1) /\ (rows w <> [] -> (0 < i)%nat) /\
    forall n, drainWithACK cfg n w = let '(r, (w', _)) := drainWithACK_loop cfg n s in (r, w').
Proof.
  intros Hp Hq Ht Hwf Hi.
  assert (afloat 0 (w, newOutstanding)) as Haf.
  { split; cbn; [done|rewrite Hi; constructor| |apply map_Forall_empty|].
    - intros id. unfold newOutstanding. rewrite Hi, lookup_empty. split; [by intros ?%not_elem_of_nil|by intros [? ?]].
    - split; [lia|]. by rewrite Hi. }
  destruct (topUp_live 0 _ Haf) as (i & s & Htop & (Haf' & _ & Hg & Hk) & Hne).
  exists i, s. split_and!; [done..|]. intros n. unfold drainWithACK, drainWithACK_body, newTicker.
  rewrite !(proj2 (Z.leb_gt _ _)) by done. unfold bind at 1, ret at 1. unfold bind at 1, ret at 1. unfold bind at 1, ret at 1.
  unfold bind at 1. by rewrite Htop.
Qed.

(** ** One event *)

(** nothing happens to the messages *)
Definition quiet (w w1 : World E) : Prop := inbox (w_ext w1) = inbox (w_ext w) /\ same_born w w1.

(** the link stays up; an acknowledgement is of a message at the Adapter, or a
    repeated one *)
Definition event_ok (w w1 : World E) (ev : pub_event) : Prop :=
  grows (w_db w) (w_db w1) /\
  match ev with
  | PeAck id =>
      (exists l1 l2, inbox (w_ext w) = l1 ++ id :: l2 /\ inbox (w_ext w1) = l1 ++ l2 /\
         forall id', id' ∈ l1 ++ l2 -> born (w_ext w1) id' = born (w_ext w) id') \/
      id ∉ inbox (w_ext w) /\ quiet w w1
  | PeWake | PePoll | PePing | PeTimeout => quiet w w1
  | PeDone | PeReadErr _ => False
  end.

(** events on which the window is filled *)
Definition refills (ev : pub_event) : Prop :=
  match ev with PeWake | PePoll | PeAck _ => True | _ => False end.

(** the row at [k] was acknowledged and removed *)
Definition removed (i : nat) (w w1 : World E) (i' : nat) (s' : PS E) : Prop := exists k r db,
  (k < i)%nat /\ rows w !! k = Some r /\ id_of r ∈ inbox (w_ext w) /\ id_of r ∉ inbox (w_ext w1) /\
  (forall id, id ∈ inbox (w_ext w) -> id <> id_of r -> id ∈ inbox (w_ext w1)) /\
  grows (w_db w) db /\ grows (sql_delete (row_key r) db) (w_db s'.1) /\
  deposit_buffer (sql_delete (row_key r) db) = delete k (deposit_buffer db) /\
  (deposit_buffer (sql_delete (row_key r) db) <> [] -> (0 < i')%nat).

Lemma afloat_quiet i w w1 o : grows (w_db w) (w_db w1) -> quiet w w1 -> afloat i (w, o) -> afloat i (w1, o).
Proof.
  intros Hg [Hi Hb] [F1 F2 F3 F4 F5]. cbn in *. split; cbn.
  - by apply (ar_wf _ _ Hg).
  - by rewrite Hi.
  - intros id. by rewrite Hi.
  - intros id m Hm. destruct (F4 id m Hm) as (Ht & r & Hr & Hk). split; [rewrite Hb; [done|by apply F3]|].
    exists r. split; [|done]. destruct (rows_grow _ _ Hg) as [new ->]. apply elem_of_app. by left.
  - by apply (window_grow w).
Qed.

Lemma step_window n i w o ev w1 : afloat i (w, o) -> event_ok w w1 ev ->
  exists i' s', drainWithACK_step cfg n ev (w1, o) = (Ok tt, s') /\ afloat i' s' /\ keeps (w_ext w1) (w_ext s'.1) /\
    (removed i w w1 i' s' \/
     inbox (w_ext w1) = inbox (w_ext w) /\ (i <= i')%nat /\ grows (w_db w) (w_db s'.1) /\
     (refills ev -> rows w <> [] -> (0 < i')%nat)).
Proof.
  intros Haf [Hg Hev].
  assert (quiet w w1 -> exists i' s', topUp cfg (w1, o) = (Ok tt, s') /\ afloat i' s' /\ keeps (w_ext w1) (w_ext s'.1) /\
    (i <= i')%nat /\ grows (w_db w) (w_db s'.1) /\ (rows w <> [] -> (0 < i')%nat)) as Htop.
  { intros Hq. destruct (topUp_live i (w1, o)) as (i' & s' & Hrun & (Haf' & Hle & Hg' & Hk') & Hne); [by apply (afloat_quiet i w)|].
    cbn in *. exists i', s'. split_and!; [done..|by etrans|]. intros Hr. apply Hne.
    destruct (rows_grow _ _ Hg) as [new ->]. by destruct (rows w). }
  assert (forall w2, quiet w w1 -> unmoved w1 w2 -> afloat i (w2, o) /\ grows (w_db w) (w_db w2)) as Hstay.
  { intros w2 Hq Hu. split; [by apply (afloat_unmoved i w1), (afloat_quiet i w)|]. etrans; [exact Hg|apply Hu]. }
  destruct ev as [|e| |id| | |]; try done; cbn [drainWithACK_step].
  - destruct (Htop Hev) as (i' & s' & ? & ? & ? & ? & ? & ?). exists i', s'. split_and!; [done..|right]. split; [apply Hev|auto].
  - destruct Hev as [(l1 & l2 & Hi & Hi1 & Hb)|[Hid Hq]].
    + destruct (handleAck_live id l1 l2 i w w1 o Haf Hg Hi Hi1 Hb)
        as (k & r & db & s1 & Hk & Hr & -> & Hgd & Hh & Haf1 & Hdb & Hdel & Hk1).
      destruct (topUp_live _ s1 Haf1) as (i' & s' & Hrun & (Haf' & Hle & Hg' & Hk') & Hne).
      exists i', s'. unfold bind at 1, attempt. rewrite Hh. split_and!; [done..|by etrans|left].
      exists k, r, db. rewrite Hdb in Hdel, Hg', Hne. pose proof (af_ids _ _ Haf) as Hnd. cbn in Hnd.
      rewrite Hi in Hnd. apply NoDup_app in Hnd as (_ & N2 & [N3 _]%NoDup_cons).
      split_and!; try done; [rewrite Hi; set_solver|rewrite Hi1; set_solver|]. intros id'. rewrite Hi, Hi1. set_solver.
    + assert (o !! id = None) as Hnone by (apply eq_None_not_Some; by rewrite <- (af_dom _ _ Haf id)).
      destruct (Htop Hq) as (i' & s' & ? & ? & ? & ? & ? & ?). exists i', s'.
      unfold bind at 1, attempt, handleAck, bind at 1, out_take. cbn [fst snd]. rewrite Hnone. cbn.
      rewrite delete_id by done. split_and!; [done..|right]. split; [apply Hq|auto].
  - destruct (lk_ping Hlink w1) as ([] & w2 & Hp & _ & Hu). destruct (Hstay w2 Hev Hu) as [? ?].
    exists i, (w2, o). unfold lift, writePing, wrapf. rewrite Hp. split_and!; [done..|apply Hu|right]. split; [apply Hev|done].
  - destruct (Htop Hev) as (i' & s' & ? & ? & ? & ? & ? & ?). exists i', s'. split_and!; [done..|right]. split; [apply Hev|auto].
  - destruct (oldestAge_live i w1 o) as (age & w2 & Hrun & Hage & Hu); [by apply (afloat_quiet i w)|].
    destruct (Hstay w2 Hev Hu) as [? ?]. exists i, (w2, o). unfold bind at 1. rewrite Hrun.
    rewrite (proj2 (Z.ltb_ge _ _)) by done. split_and!; [done..|apply Hu|right]. split; [apply Hev|done].
Qed.

(** ** The loop

    It runs for any number of events, and what it does in [k + n] of them is
    what it does in [n] after [k]. *)
Hypothesis Hselect : forall w, exists ev w1, select_drain w = (Ok ev, w1) /\ event_ok w w1 ev.

Lemma loop_step s i : afloat i s -> exists ev w1 i' s', select_drain s.1 = (Ok ev, w1) /\ event_ok s.1 w1 ev /\
  afloat i' s' /\ keeps (w_ext w1) (w_ext s'.1) /\
  (removed i s.1 w1 i' s' \/
   inbox (w_ext w1) = inbox (w_ext s.1) /\ (i <= i')%nat /\ grows (w_db s.1) (w_db s'.1) /\
   (refills ev -> rows s.1 <> [] -> (0 < i')%nat)) /\
  forall n, drainWithACK_loop cfg (S n) s = drainWithACK_loop cfg n s'.
Proof.
  destruct s as [w o]. intros Haf. cbn [fst snd]. destruct (Hselect w) as (ev & w1 & Hsel & Hev).
  destruct (step_window 0 i w o ev w1 Haf Hev) as (i' & s' & Hrun & Haf' & Hk & Hcase).
  exists ev, w1, i', s'. split_and!; [done..|]. intros n. cbn [drainWithACK_loop].
  unfold bind at 1, lift at 1. rewrite Hsel. unfold bind at 1.
  replace (drainWithACK_step cfg n ev) with (drainWithACK_step cfg 0 ev) by (destruct ev; try done; by destruct Hev).
  rewrite Hrun. destruct ev; try done. by destruct Hev.
Qed.
End Window.

(** ** A buffer nobody adds to

    [lag]: how many other events may come before the next acknowledgement,
    never more than [K]; [born]: not later than when a message was sent. *)
#[export] Instance still_arrivals {E} (lag : E -> nat) : Arrivals (@eq DB) (fun e e' : E => lag e' = lag e).
Proof.
  split; [apply _|split; [by intros e|by intros e1 e2 e3 -> ->]|by intros db _ <-|by intros db _ <-|].
  intros db _ <-. exists []. by rewrite app_nil_r.
Qed.

Section Delivery.
Context {E : Type} `{Env E, Conn E}.
Variables (inbox : E -> list string) (born : E -> string -> Z) (lag : E -> nat) (K : nat) (cfg : Config).
Abbreviation rows w := (deposit_buffer (w_db w)).
Implicit Types w : World E.

(** the call succeeds and leaves table and Adapter alone *)
Definition at_rest w w' : Prop :=
  w_db w' = w_db w /\ quiet inbox born w w' /\ lag (w_ext w') = lag (w_ext w).
Definition resting {A} (m : M (World E) A) (Q : World E -> A -> Prop) : Prop := forall w, exists a w',
  m w = (Ok a, w') /\ Q w a /\ at_rest w w'.

(** an event that acknowledges nothing *)
Definition other_event w w' : Prop :=
  quiet inbox born w w' /\
  (inbox (w_ext w) <> [] -> (lag (w_ext w') < lag (w_ext w))%nat).

(** The clock never shows a message older than [ACKTimeout]: each message has
    its own deadline, the run as a whole has none. *)
Record responsive : Prop := {
  rs_db : resting env_db (fun _ _ => True);
  rs_now : resting time_Now (fun w t => forall id, id ∈ inbox (w_ext w) ->
    born (w_ext w) id <= instant_ns t <= born (w_ext w) id + ACKTimeout cfg);
  rs_ping : resting WritePing (fun _ _ => True);
  rs_write : forall d w, key_id (key_of d) ∉ inbox (w_ext w) -> exists w',
    WriteMessage (encodeDeposit d).1 w = (Ok tt, w') /\
    w_db w' = w_db w /\ same_born inbox born w w' /\ lag (w_ext w') = lag (w_ext w) /\
    inbox (w_ext w') = inbox (w_ext w) ++ [key_id (key_of d)];
  rs_select : forall w, exists ev w', select_drain w = (Ok ev, w') /\ w_db w' = w_db w /\
    match ev with
    | PeAck id =>
        (exists l1 l2, inbox (w_ext w) = l1 ++ id :: l2 /\ inbox (w_ext w') = l1 ++ l2 /\
           (forall id', id' ∈ l1 ++ l2 -> born (w_ext w') id' = born (w_ext w) id') /\
           (lag (w_ext w') <= K)%nat) \/
        (id ∉ inbox (w_ext w) /\ other_event w w')   (* a repeated one *)
    | PeWake | PePoll | PePing | PeTimeout => other_event w w'
    | PeDone | PeReadErr _ => False
    end
}.
Hypothesis Hlink : responsive.
Hypothesis Hflight : 1 <= MaxInFlight cfg.
Hypothesis Hbatch : 1 <= MaxBatchSize cfg.
Hypothesis Htimeout : 0 <= ACKTimeout cfg.

Abbreviation same_lag := (fun e e' : E => lag e' = lag e).

Lemma rest_link : link inbox born eq same_lag cfg.
Proof.
  split.
  - intros w. destruct (rs_db Hlink w) as (a & w' & ? & ? & ? & [] & ?). by exists a, w'.
  - intros w. destruct (rs_now Hlink w) as (a & w' & ? & ? & ? & [] & ?). by exists a, w'.
  - intros w. destruct (rs_ping Hlink w) as (a & w' & ? & ? & ? & [] & ?). by exists a, w'.
  - intros d w Hnew _. destruct (rs_write Hlink d w Hnew) as (w' & ? & ? & ? & ? & ?). by exists w'.
Qed.

Lemma rest_select w : exists ev w1, select_drain w = (Ok ev, w1) /\ event_ok inbox born eq w w1 ev /\
  (inbox (w_ext w1) <> inbox (w_ext w) /\ (lag (w_ext w1) <= K)%nat \/ other_event w w1).
Proof.
  destruct (rs_select Hlink w) as (ev & w1 & Hsel & Hd & Hev). exists ev, w1. split; [done|].
  assert (forall w w', other_event w w' -> quiet inbox born w w') as Hq by by intros v v' [].
  destruct ev as [|e| |id| | |]; try done; try by (split; [split; auto|right]).
  destruct Hev as [(l1 & l2 & Hi & Hi1 & Hb & Hl)|[Hid Ho]]; [|split; [split; auto|by right]]. split.
  - split; [done|]. left. by exists l1, l2.
  - left. split; [|done]. rewrite Hi, Hi1. intros Heq%(f_equal length). rewrite !length_app in Heq. cbn in Heq. lia.
Qed.

(** each acknowledgement shortens the buffer, any other event brings the next
    one closer *)
Lemma loop_drains n : forall i s, afloat inbox born i s -> (rows s.1 <> [] -> (0 < i)%nat) ->
  exists s', drainWithACK_loop cfg n s = (Ok tt, s') /\
    (rows s.1 = [] \/ (length (rows s.1) * S K + lag (w_ext s.1) < n)%nat -> rows s'.1 = []).
Proof.
  induction n as [|n IH]; intros i s Haf Hi; [exists s; split; [done|intros [?|?]; [done|lia]]|].
  destruct (loop_step inbox born eq same_lag cfg rest_link Hflight Hbatch Htimeout) with (s := s) (i := i)
    as (ev & w1 & i' & s' & Hsel & _ & Haf' & Hk & Hcase & Hloop); [|done|].
  { intros w. destruct (rest_select w) as (ev & w1 & ? & ? & _). by exists ev, w1. }
  destruct (rest_select s.1) as (ev' & w1' & Hsel' & _ & Hpace). rewrite Hsel in Hsel'. injection Hsel' as <- <-.
  destruct Hcase as [(k & r & db & Hki & Hr & Hin & Hout & _ & <- & Hdb & Hdel & Hne)|(Hq & Hle & Hdb & _)].
  - rewrite Hdb in Hdel, Hne. destruct (IH i' s' Haf' Hne) as (s2 & Hrun & Hdone).
    exists s2. rewrite Hloop. split; [done|]. intros Hm. apply Hdone. right.
    apply lookup_lt_Some in Hr as Hlen. rewrite Hdel, length_delete by (by exists r).
    destruct Hpace as [[_ Hl]|[[Ho _] _]]; [|by rewrite Ho in Hout]. rewrite Hk.
    destruct Hm as [Hm|Hm]; [by rewrite Hm in Hr|nia].
  - destruct (IH i' s' Haf') as (s2 & Hrun & Hdone); [rewrite <- Hdb; intros Hr; specialize (Hi Hr); lia|].
    exists s2. rewrite Hloop. split; [done|]. intros Hm. apply Hdone. rewrite <- Hdb.
    destruct (rows s.1) as [|r l] eqn:Hrows; [by left|right]. specialize (Hi ltac:(done)).
    assert (inbox (w_ext s.1) <> []) as Hne.
    { intros Hnil. destruct (af_window _ _ _ _ Haf) as [_ Hwin]. rewrite Hrows, Hnil in Hwin. destruct i as [|i]; [lia|].
      apply (not_elem_of_nil (id_of r)), Hwin. left. }
    destruct Hpace as [[? _]|[_ Hl]]; [done|]. specialize (Hl Hne). rewrite Hk. destruct Hm as [?|Hm]; [done|lia].
Qed.
End Delivery.

(** C7. Every buffered deposit is delivered.  In ACK mode, on a connection that
    stays up while the database answers and nobody else changes the buffer, and
    with an Adapter that acknowledges each message once (repeated
    acknowledgements are harmless), in any order, after at most [K] other
    events and before the message is [ACKTimeout] old, the drain loop does not
    give up, and after [(K + 1) * rows] events and those before the first
    acknowledgement the buffer is empty.  (It starts well-formed, with nothing
    outstanding; window, batch size and periods are positive, as
    [publisher.New] makes them.  For a buffer that keeps filling see
    [DeliveryFair].) *)
Theorem ack_mode_delivers {E : Type} `{Env E, Conn E} (inbox : E -> list string) (born : E -> string -> Z)
    (lag : E -> nat) (K : nat) (cfg : Config) (n : nat) (w : World E) :
  responsive inbox born lag K cfg ->
  1 <= MaxInFlight cfg -> 1 <= MaxBatchSize cfg -> 0 < i64 (PingInterval cfg) ->
  0 < i64 (PollIntervalMs cfg * 1000000) -> 0 < i64 (Z.quot (ACKTimeout cfg) 3) -> 0 <= ACKTimeout cfg ->
  db_wf (w_db w) -> inbox (w_ext w) = [] ->
  exists w', drainWithACK cfg n w = (Ok tt, w') /\
    ((length (deposit_buffer (w_db w)) * S K + lag (w_ext w) < n)%nat -> deposit_buffer (w_db w') = []).
Proof.
  intros Hlink Hf Hb Hp Hq Ht Ha Hwf Hi.
  destruct (drain_starts inbox born eq (fun e e' => lag e' = lag e) cfg (rest_link inbox born lag K cfg Hlink)
    Hf Hb Ha w Hp Hq Ht Hwf Hi) as (i & s1 & Haf & Hd & Hl & Hne & Hrun).
  destruct (loop_drains inbox born lag K cfg Hlink Hf Hb Ha n i s1 Haf) as ([w2 o2] & Hloop & Hdone); [by rewrite <- Hd|].
  rewrite Hrun, Hloop. exists w2. split; [done|]. intros Hn. apply Hdone. right. by rewrite <- Hd, Hl.
Qed.

(** An Adapter that answers the newest message first, after one poll; a poll
    takes 20 seconds, so the run outlasts the [ACKTimeout] of 30. *)
Module DeliveryWitness.
(** the messages, with whether they have waited 20 seconds; the clock in seconds *)
Record mail := mkMail { m_msgs : list (string * bool); m_lag : nat; m_clock : Z }.
Definition m_ids (m : mail) : list string := (m_msgs m).*1.
Definition age_of (msgs : list (string * bool)) (id : string) : Z :=
  match filter (fun x => x.1 = id) msgs with (_, true) :: _ => 20 | _ => 0 end.
Definition m_born (m : mail) (id : string) : Z := (m_clock m - age_of (m_msgs m) id) * second_ns.
Definition tick (m : mail) (lag : nat) : mail :=
  if existsb snd (m_msgs m) then mkMail (m_msgs m) lag (m_clock m)
  else mkMail ((fun x => (x.1, true)) <$> m_msgs m) lag (m_clock m + 20).
Definition idOf (raw : json) : string := match unmarshalEnvelope raw with Ok e => ID e | _ => "" end.
Definition put (m : mail) (w : World mail) : World mail := mkWorld (w_db w) (w_metrics w) m.

#[export] Instance env : Env mail := {|
  env_wait _ := ret tt; ctx_Err := ret tt;
  time_Now := gets (fun w => {| sec := m_clock (w_ext w); nsec := 0 |}); env_db := ret tt;
  env_has := ret tt;
  env_tx e := (None, e); env_commit e := (Committed, e); db_now _ := 0 |}.
#[export] Instance conn : Conn mail := {|
  DialContext := ret tt;
  WriteMessage raw := fun w => let m := w_ext w in
    (Ok tt, put (mkMail (m_msgs m ++ [(idOf raw, false)]) (m_lag m) (m_clock m)) w);
  WritePing := ret tt;
  select_drain := fun w => let m := w_ext w in
    match m_lag m, last (m_ids m) with
    | S k, _ => (Ok PePoll, put (tick m k) w)
    | O, Some id => (Ok (PeAck id), put (mkMail (removelast (m_msgs m)) 1 (m_clock m)) w)
    | O, None => (Ok PeWake, w)
    end;
  select_graceful := ret None; drainCtx_Err := ret tt; jittered d := ret d |}.

Definition cfg : Config := New (mkConfig "ws://adapter" 3000 5000 500 1 0 0 0 true 0 1).
Definition start : World mail := mkWorld (w_db BufferWitness.two) ∅ (mkMail [] 1 5).

Lemma age_bounds msgs id : 0 <= age_of msgs id <= 20.
Proof. unfold age_of. destruct (filter _ _) as [|[? []]]; lia. Qed.
Lemma age_app msgs msgs' id : id ∈ msgs.*1 -> age_of (msgs ++ msgs') id = age_of msgs id.
Proof.
  intros (x & -> & Hx)%list_elem_of_fmap. unfold age_of. rewrite filter_app.
  destruct (filter (fun y => y.1 = x.1) msgs) eqn:Hf; [|done].
  exfalso. apply (not_elem_of_nil x). rewrite <- Hf. by apply list_elem_of_filter.
Qed.

Lemma tick_quiet m k r db : quiet m_ids m_born (mkWorld db r m) (mkWorld db r (tick m k)).
Proof.
  unfold tick. destruct (existsb snd (m_msgs m)) eqn:Hold; split; cbn; try done; unfold m_ids; cbn.
  - rewrite <- list_fmap_compose. by apply list_fmap_ext.
  - intros id (x & -> & Hx)%list_elem_of_fmap. unfold m_born. cbn [m_clock m_msgs]. f_equal.
    assert (forall msgs, x ∈ msgs -> existsb snd msgs = false ->
      age_of ((fun x => (x.1, true)) <$> msgs) x.1 = 20 /\ age_of msgs x.1 = 0) as Hage; [|destruct (Hage _ Hx Hold) as [E1 E2]; cbn in E1, E2 |- *; rewrite E1, E2; lia].
    clear. intros msgs Hx Hn. unfold age_of. induction msgs as [|[i a] msgs IH]; [by apply not_elem_of_nil in Hx|].
    cbn in Hn. apply orb_false_iff in Hn as [-> Hn]. cbn [fmap list_fmap fst]. rewrite !filter_cons. cbn [fst].
    destruct (decide (i = x.1)) as [->|Hne]; [done|]. apply IH; [|done].
    apply elem_of_cons in Hx as [->|Hx]; [done|exact Hx].
Qed.

Lemma answers_mail : responsive m_ids m_born m_lag 1 cfg.
Proof.
  split; try (intros w; exists tt, w; by repeat split).
  - intros w. eexists _, w. split; [reflexivity|]. split; [|by repeat split]. intros id _.
    pose proof (age_bounds (m_msgs (w_ext w)) id). unfold m_born, instant_ns. cbn.
    change (ACKTimeout cfg) with (30 * second_ns). unfold second_ns. lia.
  - intros d w Hnew. eexists. split; [reflexivity|]. split; [done|].
    cbn [put w_ext m_ids m_msgs m_lag]. unfold idOf. rewrite unmarshal_encode. unfold m_ids. cbn [m_msgs].
    rewrite fmap_app. split_and!; [|done..]. intros id Hid. unfold m_born. cbn. by rewrite age_app.
  - intros w. cbn. destruct (m_lag (w_ext w)) as [|k] eqn:Hl.
    + destruct (last (m_ids (w_ext w))) as [id|] eqn:Hid; eexists _, _; (split; [reflexivity|]); (split; [done|]); cbn.
      * left. destruct (w_ext w) as [msgs lag0 clock]. unfold m_ids in *. cbn in *.
        destruct msgs as [|x msgs _] using rev_ind; [done|]. rewrite fmap_app in Hid. cbn in Hid. rewrite last_snoc in Hid. injection Hid as <-.
        rewrite removelast_last, fmap_app. exists (msgs.*1), []. rewrite app_nil_r. split_and!; [done..| |done].
        intros id Hid. unfold m_born. cbn. by rewrite age_app.
      * split; [by split|]. apply last_None in Hid. by rewrite Hid.
    + eexists _, _. split; [reflexivity|]. split; [done|]. split; [destruct w; apply tick_quiet|].
      intros _. rewrite Hl. unfold tick. destruct (existsb _ _); cbn; lia.
Qed.

Lemma ack_mode_delivers_witness : exists w', drainWithACK cfg 6 start = (Ok tt, w') /\
  deposit_buffer (w_db w') = [] /\ m_clock (w_ext w') = 65.
Proof.
  assert (1 <= MaxInFlight cfg /\ 1 <= MaxBatchSize cfg /\ 0 < i64 (PingInterval cfg) /\
    0 < i64 (PollIntervalMs cfg * 1000000) /\ 0 < i64 (Z.quot (ACKTimeout cfg) 3) /\ 0 <= ACKTimeout cfg)
    as (? & ? & ? & ? & ? & ?) by (vm_compute; repeat split; discriminate).
  pose proof (BufferWitness.two_wf : db_wf (w_db start)) as Hwf.
  destruct (ack_mode_delivers m_ids m_born m_lag 1 cfg 6 start answers_mail) as (w' & Hrun & Hdone); [assumption..|reflexivity|].
  exists w'. split; [exact Hrun|]. split.
  - apply Hdone. assert (length (deposit_buffer (w_db start)) = 2%nat) as -> by (vm_compute; reflexivity). cbn. lia.
  - apply (f_equal (fun x => m_clock (w_ext x.2))) in Hrun. cbn [snd] in Hrun. rewrite <- Hrun. vm_compute. reflexivity.
Defined.
End DeliveryWitness.
