(* ===== verification/DeliveryFair.v ===== *)
(** * Every deposit is delivered, whatever else arrives

    The publisher's liveness while the scanners keep appending to the buffer:
    the window of messages in flight is always a prefix of the buffer, so no
    row is sent before an older one, and each acknowledgement of an older row
    moves it up.  The bound is per deposit. *)
From stdpp Require Import base gmap list strings relations.
From Stdlib Require Import ZArith Lia Ascii String.
From stdpp Require Import base strings.
From S2P Require Import Prelude Decimal Errors Effect Retry Time Model Json Metrics Store BufferRepo Spec Protocol Publisher PublisherProps PublisherFlow Delivery.

(** ** A buffer the scanners keep filling *)

(** what the loops do to the buffer: new rows under fresh ids *)
Definition appended (db db' : DB) : Prop :=
  (db_wf db -> db_wf db') /\ buffer_seq db <= buffer_seq db' /\
  exists new, deposit_buffer db' = deposit_buffer db ++ new /\ Forall (fun r => buffer_seq db <= row_id r) new.

#[export] Instance appended_preorder : PreOrder appended.
Proof.
  split.
  - intros db. split_and!; [done..|]. exists []. by rewrite app_nil_r.
  - intros d1 d2 d3 (W1 & S1 & n1 & R1 & F1) (W2 & S2 & n2 & R2 & F2). split_and!; [auto|lia|].
    exists (n1 ++ n2). rewrite R2, R1, app_assoc. split; [done|]. apply Forall_app. split; [done|].
    eapply Forall_impl; [exact F2|]. intros r; cbn; lia.
Qed.

(** a row that left the buffer stays away *)
Definition gone (r : BufferRow) (db : DB) : Prop := r ∉ deposit_buffer db /\ row_id r < buffer_seq db.

Lemma gone_appended r db db' : appended db db' -> gone r db -> gone r db'.
Proof.
  intros (_ & Hs & new & Hn & Hf) [Hr Hid]. split; [|lia]. rewrite Hn, elem_of_app. intros [?|Hin]; [done|].
  rewrite Forall_forall in Hf. specialize (Hf r Hin). lia.
Qed.
Lemma gone_delete r k db : gone r db -> gone r (sql_delete k db).
Proof. intros [Hr Hid]. split; [|done]. cbn. rewrite list_elem_of_filter. tauto. Qed.

(** a save of deposits is one *)
Lemma save_appended now c s block ds db :
  Forall (fun d => deposit_ints d /\ is_i32 (LogIndex d)) ds -> appended db (save_db now c s block ds db).
Proof.
  intros Hds. assert (appended db (foldl (insert_db now block) db ds)) as (Hw & Hs & new & Hn & Hf).
  { revert db. induction Hds as [|d ds [Hd Hi] _ IH]; intros db; [done|]. cbn [foldl]. etrans; [|apply IH].
    split_and!; [by intros Hdb; apply insert_db_wf|unfold insert_db; case_decide; cbn; lia|].
    unfold insert_db. case_decide; cbn; [by exists []; rewrite app_nil_r|]. eexists. split; [reflexivity|].
    by constructor. }
  unfold save_db. split_and!; [intros Hdb|by destruct ds|exists new; by destruct ds].
  destruct ds; [|apply notify_wf]; by apply upsert_wf, Hw.
Qed.

Section Fair.
Context {E : Type} `{Env E, Conn E}.
(** [lag]: how many more events until a message is acknowledged, never more
    than [K]; [poll]: until the next poll or wake-up, never more than [P] *)
Variables (inbox : E -> list string) (born : E -> string -> Z) (lag : E -> string -> nat) (poll : E -> nat).
Variables (K P : nat) (cfg : Config).
Abbreviation rows w := (deposit_buffer (w_db w)).
Implicit Types w : World E.

Definition on_pace (e : E) : Prop := (forall id, id ∈ inbox e -> (lag e id <= K)%nat) /\ (poll e <= P)%nat.

(** calls do not delay the Adapter; a message just sent has [K] events *)
Definition same_pace (e e' : E) : Prop :=
  (forall id, id ∈ inbox e -> id ∈ inbox e' /\ lag e' id = lag e id) /\
  (forall id, id ∈ inbox e' -> id ∈ inbox e \/ (lag e' id <= K)%nat) /\ poll e' = poll e.

#[export] Instance same_pace_preorder : PreOrder same_pace.
Proof.
  split.
  - intros e. split_and!; auto.
  - intros e1 e2 e3 (A1 & B1 & C1) (A2 & B2 & C2). split_and!; [| |congruence].
    + intros id Hid. destruct (A1 id Hid) as [Hin ->%symmetry]. apply (A2 id Hin).
    + intros id Hid. destruct (B2 id Hid) as [Hin|]; [|by right]. destruct (A2 id Hin) as [_ ->]. auto.
Qed.

(** each event brings every acknowledgement closer, and the next poll *)
Definition paced w w1 (ev : pub_event) : Prop :=
  (forall id, id ∈ inbox (w_ext w1) -> (lag (w_ext w1) id < lag (w_ext w) id)%nat) /\
  match ev with
  | PePing | PeTimeout => (poll (w_ext w1) < poll (w_ext w))%nat
  | _ => (poll (w_ext w1) <= P)%nat
  end.

(** A working link and a responsive Adapter, beside loops that go on filling
    the buffer. *)
Record serving : Prop := {
  sv_link : link inbox born appended same_pace cfg;
  sv_select : forall w, exists ev w1, select_drain w = (Ok ev, w1) /\
    event_ok inbox born appended w w1 ev /\ paced w w1 ev
}.
Hypothesis Hserve : serving.
Hypothesis Hflight : 1 <= MaxInFlight cfg.
Hypothesis Hbatch : 1 <= MaxBatchSize cfg.
Hypothesis Htimeout : 0 <= ACKTimeout cfg.
Abbreviation afloat := (afloat inbox born).

#[export] Instance fair_arrivals : Arrivals appended same_pace.
Proof. split; [apply _|apply _|by intros db db' (? & ? & ?)|by intros db db' (? & ? & ?)|by intros db db' (? & ? & ?)]. Qed.

(** events until the oldest row is acknowledged, with [i] rows in flight *)
Definition oldest_wait (i : nat) w : nat :=
  match rows w with [] => 0 | r :: _ => match i with O => S (K + poll (w_ext w)) | S _ => lag (w_ext w) (id_of r) end end.
(** one row leaves the front of the buffer in fewer *)
Definition turn : nat := S (S (K + P)).

Lemma oldest_flying i w o r l : afloat i (w, o) -> rows w = r :: l -> (0 < i)%nat -> id_of r ∈ inbox (w_ext w).
Proof.
  intros Haf Hr Hi. destruct (af_window _ _ _ _ Haf) as [_ Hw]. cbn in Hw. apply Hw. rewrite Hr.
  destruct i as [|i]; [lia|]. left.
Qed.

Lemma oldest_wait_bound i w o : afloat i (w, o) -> on_pace (w_ext w) ->
  (oldest_wait i w < turn)%nat /\ ((0 < i)%nat -> (oldest_wait i w <= K)%nat).
Proof.
  intros Haf [Hl Hp]. unfold oldest_wait, turn. destruct (rows w) as [|r l] eqn:Hr; [lia|]. destruct i as [|i]; [lia|].
  specialize (Hl (id_of r) (oldest_flying _ _ _ _ _ Haf Hr ltac:(lia))). lia.
Qed.

Lemma pace_kept w w1 ev (s' : PS E) : on_pace (w_ext w) -> paced w w1 ev ->
  (forall id, id ∈ inbox (w_ext w1) -> id ∈ inbox (w_ext w)) -> same_pace (w_ext w1) (w_ext s'.1) -> on_pace (w_ext s'.1).
Proof.
  intros [Hl Hp] [Hl1 Hp1] Hsub (A & B & C). split.
  - intros id Hid. destruct (B id Hid) as [Hin|]; [|done]. destruct (A id Hin) as [_ ->].
    specialize (Hl1 id Hin). specialize (Hl id (Hsub id Hin)). lia.
  - rewrite C. destruct ev; lia.
Qed.

Lemma event_inbox w w1 ev id : event_ok inbox born appended w w1 ev -> id ∈ inbox (w_ext w1) -> id ∈ inbox (w_ext w).
Proof.
  intros [_ Hev] Hid. destruct ev as [|e| |id'| | |]; try done; try (by destruct Hev as [<- _]).
  destruct Hev as [(l1 & l2 & Hi & Hi1 & _)|[_ [<- _]]]; [|done]. rewrite Hi1 in Hid. rewrite Hi. set_solver.
Qed.

(** the front of the buffer that a change behind it leaves *)
Lemma appended_lookup db db' j r : appended db db' -> deposit_buffer db !! j = Some r -> deposit_buffer db' !! j = Some r.
Proof. intros (_ & _ & new & -> & _) Hr. by apply lookup_app_l_Some. Qed.
Lemma row_id_fresh db r : db_wf db -> r ∈ deposit_buffer db -> row_id r < buffer_seq db.
Proof. intros Hwf Hr. pose proof (wf_seq _ Hwf) as Hf. rewrite Forall_forall in Hf. by apply Hf. Qed.

(** an event other than an acknowledgement in flight: the oldest row is one
    event closer *)
Lemma oldest_closer i w o w1 ev i' (s' : PS E) :
  afloat i (w, o) -> event_ok inbox born appended w w1 ev -> paced w w1 ev -> inbox (w_ext w1) = inbox (w_ext w) -> (i <= i')%nat ->
  appended (w_db w) (w_db s'.1) -> same_pace (w_ext w1) (w_ext s'.1) -> afloat i' s' -> on_pace (w_ext s'.1) ->
  (refills ev -> rows w <> [] -> (0 < i')%nat) -> rows w <> [] -> (oldest_wait i' s'.1 < oldest_wait i w)%nat.
Proof.
  intros Haf [_ Hev] [Hl Hp] Hi Hle (_ & _ & new & Hnew & _) (Hkeep & _ & Hpoll) Haf' Hpace' Hfill Hne.
  destruct s' as [w' o']. cbn [fst snd] in *. pose proof (oldest_wait_bound i' w' o' Haf' Hpace') as [_ HK].
  unfold oldest_wait in *. destruct (rows w) as [|r l] eqn:Hr; [done|]. rewrite Hnew in *. cbn [app] in *.
  destruct i as [|i].
  - destruct i' as [|i']; [|specialize (HK ltac:(lia)); lia]. rewrite Hpoll.
    destruct ev; try done; try lia; specialize (Hfill Logic.I ltac:(done)); lia.
  - destruct i' as [|i']; [lia|]. pose proof (oldest_flying _ _ _ _ _ Haf Hr ltac:(lia)) as Hin.
    rewrite <- Hi in Hin. destruct (Hkeep _ Hin) as [_ ->]. by apply Hl.
Qed.

(** an acknowledgement: the row is gone, or moves up, or the oldest row stays
    and is closer *)
Lemma removed_closer i w o w1 ev i' (s' : PS E) r j :
  afloat i (w, o) -> paced w w1 ev -> removed inbox appended i w w1 i' s' ->
  same_pace (w_ext w1) (w_ext s'.1) -> afloat i' s' -> on_pace (w_ext s'.1) -> rows w !! j = Some r ->
  gone r (w_db s'.1) \/ exists j', rows s'.1 !! j' = Some r /\
    (j' * turn + oldest_wait i' s'.1 < j * turn + oldest_wait i w)%nat.
Proof.
  intros Haf [Hl _] (k & r0 & db & Hk & Hr0 & Hin0 & _ & Hstay & Hg1 & Hg2 & Hdel & Hfill) (Hkeep & _ & Hpoll) Haf' Hpace' Hr.
  pose proof (af_db _ _ _ _ Haf) as Hwf. cbn in Hwf. pose proof (proj1 Hg1 Hwf) as Hwf1.
  pose proof (appended_lookup _ _ _ _ Hg1 Hr0) as Hr0'. pose proof (appended_lookup _ _ _ _ Hg1 Hr) as Hr'.
  destruct s' as [w' o']. cbn [fst snd] in *. pose proof (oldest_wait_bound i' w' o' Haf' Hpace') as [_ HK].
  destruct (decide (k = j)) as [->|Hne].
  - left. rewrite Hr in Hr0. injection Hr0 as <-. apply (gone_appended _ _ _ Hg2). split.
    + cbn. rewrite list_elem_of_filter. tauto.
    + apply (row_id_fresh _ _ Hwf1). by eapply list_elem_of_lookup_2.
  - right. assert (deposit_buffer (sql_delete (row_key r0) db) <> []) as Hsome.
    { intros Hnil. assert (r ∈ deposit_buffer (sql_delete (row_key r0) db)) as Hin; [|by rewrite Hnil in Hin; apply not_elem_of_nil in Hin].
      cbn. apply list_elem_of_filter. split; [|by eapply list_elem_of_lookup_2]. intros Heq. apply Hne.
      eapply (NoDup_lookup _ _ _ _ (wf_nodup _ Hwf1)); rewrite list_lookup_fmap; [by rewrite Hr0'|by rewrite Hr', <- Heq]. }
    specialize (Hfill Hsome). specialize (HK Hfill). unfold turn.
    destruct (decide (j < k)%nat) as [Hjk|Hjk].
    + exists j. split.
      { apply (appended_lookup _ _ _ _ Hg2). rewrite Hdel, list_lookup_delete_lt by done. done. }
      apply Nat.add_lt_mono_l. unfold oldest_wait.
      destruct (rows w) as [|r1 l] eqn:Hrows; [done|].
      assert (rows w' !! 0%nat = Some r1) as Hhead.
      { apply (appended_lookup _ _ _ _ Hg2). rewrite Hdel, list_lookup_delete_lt by lia.
        apply (appended_lookup _ _ _ _ Hg1). by rewrite Hrows. }
      destruct (rows w') as [|r1' l'] eqn:Hrows'; [done|]. injection Hhead as ->.
      destruct i as [|i]; [lia|]. destruct i' as [|i']; [lia|].
      assert (id_of r1 ∈ inbox (w_ext w1)) as Hin1.
      { apply Hstay; [by apply (oldest_flying _ _ _ _ _ Haf Hrows); lia|]. intros Heq%(inj key_id).
        assert (0%nat = k) as <-; [|lia]. eapply (NoDup_lookup _ _ _ (row_key r1) (wf_nodup _ Hwf));
          rewrite list_lookup_fmap, Hrows; [done|by rewrite Hr0, Heq]. }
      destruct (Hkeep _ Hin1) as [_ ->]. by apply Hl.
    + exists (j - 1)%nat. split; [|nia]. apply (appended_lookup _ _ _ _ Hg2).
      rewrite Hdel, list_lookup_delete_ge by lia. by replace (S (j - 1)) with j by lia.
Qed.

Lemma loop_delivers n : forall i s, afloat i s -> on_pace (w_ext s.1) ->
  exists i' s', drainWithACK_loop cfg n s = (Ok tt, s') /\ afloat i' s' /\ on_pace (w_ext s'.1) /\
    (forall m, drainWithACK_loop cfg (n + m) s = drainWithACK_loop cfg m s') /\
    forall r, gone r (w_db s.1) \/ (exists j, rows s.1 !! j = Some r /\ (j * turn + oldest_wait i s.1 < n)%nat) ->
      gone r (w_db s'.1).
Proof.
  induction n as [|n IH]; intros i s Haf Hpace.
  { exists i, s. split_and!; try done. intros r [?|(j & _ & ?)]; [done|lia]. }
  destruct (loop_step inbox born appended same_pace cfg (sv_link Hserve) Hflight Hbatch Htimeout) with (s := s) (i := i)
    as (ev & w1 & i1 & s1 & Hsel & _ & Haf1 & Hk & Hcase & Hloop); [|done|].
  { intros w. destruct (sv_select Hserve w) as (ev & w1 & ? & ? & _). by exists ev, w1. }
  destruct (sv_select Hserve s.1) as (ev' & w1' & Hsel' & Hev & Hp). rewrite Hsel in Hsel'. injection Hsel' as <- <-.
  assert (on_pace (w_ext s1.1)) as Hpace1 by (eapply pace_kept; [exact Hpace|exact Hp| |exact Hk]; intros; by eapply event_inbox).
  destruct (IH i1 s1 Haf1 Hpace1) as (i' & s' & Hrun & Haf' & Hpace' & Happ & Hdone).
  exists i', s'. rewrite Hloop. split_and!; [done..| |].
  { intros m. cbn [Nat.add]. rewrite Hloop. apply Happ. }
  destruct s as [w o]. cbn [fst snd] in *. intros r Hr. apply Hdone.
  destruct Hr as [Hgone|(j & Hj & Hlt)].
  - left. destruct Hcase as [(k & r0 & db & _ & _ & _ & _ & _ & Hg1 & Hg2 & _)|(_ & _ & Hg & _)].
    + apply (gone_appended _ _ _ Hg2), gone_delete. by apply (gone_appended _ _ _ Hg1).
    + by apply (gone_appended _ _ _ Hg).
  - destruct Hcase as [Hrem|(Hi & Hle & Hg & Hfill)].
    + destruct (removed_closer i w o w1 ev i1 s1 r j Haf Hp Hrem Hk Haf1 Hpace1 Hj) as [?|(j' & Hj' & Hlt')]; [by left|right].
      exists j'. split; [done|lia].
    + right. exists j. split; [by apply (appended_lookup _ _ _ _ Hg)|].
      assert (rows w <> []) as Hne by (intros Hnil; by rewrite Hnil in Hj).
      pose proof (oldest_closer i w o w1 ev i1 s1 Haf Hev Hp Hi Hle Hg Hk Haf1 Hpace1 Hfill Hne). lia.
Qed.
End Fair.

(** C8. No deposit waits for ever, whatever else arrives.  In ACK mode, on a
    working link and beside loops that go on appending to the buffer during
    any call: with an Adapter that acknowledges each message within [K]
    events, in any order, and a poll at least every [P] events, the row that
    is [j]-th in the buffer after any [k] events has left it after
    [(j + 1) * (K + P + 2)] more, acknowledged; the connection stays up. *)
Theorem every_deposit_delivered {E : Type} `{Env E, Conn E}
    (inbox : E -> list string) (born : E -> string -> Z) (lag : E -> string -> nat) (poll : E -> nat)
    (K P : nat) (cfg : Config) (k j n : nat) (r : BufferRow) (w : World E) :
  serving inbox born lag poll K P cfg ->
  1 <= MaxInFlight cfg -> 1 <= MaxBatchSize cfg -> 0 < i64 (PingInterval cfg) ->
  0 < i64 (PollIntervalMs cfg * 1000000) -> 0 < i64 (Z.quot (ACKTimeout cfg) 3) -> 0 <= ACKTimeout cfg ->
  db_wf (w_db w) -> inbox (w_ext w) = [] -> (poll (w_ext w) <= P)%nat ->
  exists w1 w2, drainWithACK cfg k w = (Ok tt, w1) /\ drainWithACK cfg (k + n) w = (Ok tt, w2) /\
    (deposit_buffer (w_db w1) !! j = Some r -> (S j * (K + P + 2) <= n)%nat -> r ∉ deposit_buffer (w_db w2)).
Proof.
  intros Hs Hf Hb Hp Hq Ht Ha Hwf Hi Hpoll.
  destruct (drain_starts inbox born appended (same_pace inbox lag poll K) cfg (sv_link _ _ _ _ _ _ _ Hs)
    Hf Hb Ha w Hp Hq Ht Hwf Hi) as (i & s & Haf & _ & Hk & _ & Hrun).
  assert (on_pace inbox lag poll K P (w_ext s.1)) as Hpace.
  { destruct Hk as (_ & B & C). split; [|by rewrite C]. intros id Hid. destruct (B id Hid) as [Hin|]; [|done].
    rewrite Hi in Hin. by apply not_elem_of_nil in Hin. }
  destruct (loop_delivers inbox born lag poll K P cfg Hs Hf Hb Ha k i s Haf Hpace)
    as (i1 & s1 & Hrun1 & Haf1 & Hpace1 & Happ & _).
  destruct (loop_delivers inbox born lag poll K P cfg Hs Hf Hb Ha n i1 s1 Haf1 Hpace1)
    as (i2 & s2 & Hrun2 & _ & _ & _ & Hdone).
  exists s1.1, s2.1. rewrite !Hrun, Happ, Hrun1, Hrun2. split; [by destruct s1|]. split; [by destruct s2|].
  intros Hr Hn. apply Hdone. right. exists j. split; [done|]. destruct s1 as [w1 o1].
  destruct (oldest_wait_bound inbox born lag poll K P i1 w1 o1 Haf1 Hpace1) as [Hw _]. unfold turn in *. cbn [fst]. nia.
Qed.

(** A first-in-first-out Adapter, two messages in flight, and a scanner that
    stores another deposit during each of the first database calls. *)
Module FairWitness.
Record mail := mkMail { m_ids : list string; m_feed : nat }.
Definition put (m : mail) (w : World mail) : World mail := mkWorld (w_db w) (w_metrics w) m.

(** a deposit for the [n]-th call *)
Definition depN (n : nat) : Deposit := BufferWitness.dep "0xee" (Z.of_nat n mod 1000).
Definition feed (w : World mail) : World mail :=
  match m_feed (w_ext w) with
  | O => w
  | S n => mkWorld (save_db 0 1 "log" 7 [depN n] (w_db w)) (w_metrics w) (mkMail (m_ids (w_ext w)) n)
  end.

#[export] Instance env : Env mail := {|
  env_wait _ := ret tt; ctx_Err := ret tt; time_Now := ret {| sec := 5; nsec := 0 |};
  env_db := fun w => (Ok tt, feed w);
  env_has := fun w => (Ok tt, feed w);
  env_tx e := (None, e); env_commit e := (Committed, e); db_now _ := 0 |}.
#[export] Instance conn : Conn mail := {|
  DialContext := ret tt;
  WriteMessage raw := fun w =>
    (Ok tt, put (mkMail (m_ids (w_ext w) ++ [DeliveryWitness.idOf raw]) (m_feed (w_ext w))) w);
  WritePing := ret tt;
  select_drain := fun w =>
    match m_ids (w_ext w) with
    | id :: ids => (Ok (PeAck id), put (mkMail ids (m_feed (w_ext w))) w)
    | [] => (Ok PePoll, w)
    end;
  select_graceful := ret None; drainCtx_Err := ret tt; jittered d := ret d |}.

(** the place of a message in the queue *)
Fixpoint place (ids : list string) (id : string) : nat :=
  match ids with
  | [] => 0
  | _ :: ids' => if decide (id ∈ ids') then S (place ids' id) else 0
  end.
Lemma place_app ids x id : id ∈ ids -> id <> x -> place (ids ++ [x]) id = place ids id.
Proof.
  induction ids as [|y ids IH]; intros Hin Hne; [by apply not_elem_of_nil in Hin|]. cbn.
  destruct (decide (id ∈ ids)) as [Hi|Hi]; [rewrite decide_True by set_solver; by rewrite IH|].
  by rewrite decide_False by set_solver.
Qed.
Lemma place_new ids x : (place (ids ++ [x]) x <= length ids)%nat.
Proof.
  induction ids as [|y ids IH]; cbn; [by rewrite decide_False by apply not_elem_of_nil|]. destruct (decide _); lia.
Qed.

Definition cfg : Config := New (mkConfig "ws://adapter" 3000 5000 500 2 0 0 0 true 0 2).
Definition start : World mail := mkWorld (w_db BufferWitness.two) ∅ (mkMail [] 3).
Definition lag (e : mail) : string -> nat := place (m_ids e).

Lemma feed_appended w : appended (w_db w) (w_db (feed w)).
Proof.
  unfold feed. destruct (m_feed (w_ext w)) as [|n]; [done|]. apply save_appended. constructor; [|constructor].
  pose proof (Z.mod_pos_bound (Z.of_nat n) 1000 ltac:(lia)). unfold depN.
  set (li := _ mod 1000) in *. clearbody li. unfold deposit_ints, is_i32, is_i64, two31, two63; cbn [BufferWitness.dep ChainID LogIndex ConfirmCount]. lia.
Qed.

Lemma serves : serving m_ids (fun _ _ => 5) lag (fun _ => 0%nat) 2 0 cfg.
Proof.
  assert (forall w ids n, ids = m_ids (w_ext w) -> same_pace m_ids lag (fun _ => 0%nat) 2 (w_ext w) (mkMail ids n)) as Hsame.
  { intros w ids n ->. split_and!; auto. }
  split; [split|].
  - intros w. exists tt, (feed w). split; [done|]. split; [done|]. split; [apply feed_appended|].
    unfold feed. destruct (m_feed (w_ext w)); cbn; [by split_and!|]. split_and!; [done..|by apply Hsame].
  - intros w. exists {| sec := 5; nsec := 0 |}, w. split; [done|]. split; [|by split_and!]. intros id _. by vm_compute.
  - intros w. exists tt, w. by split_and!.
  - intros d w Hnew Hroom. eexists. split; [reflexivity|]. split; [done|].
    cbn [put w_ext m_ids]. unfold DeliveryWitness.idOf. rewrite unmarshal_encode. cbn [ID].
    split; [|by split]. split_and!; cbn; [| |done].
    + intros id Hid. split; [set_solver|]. apply place_app; [done|]. by intros ->.
    + intros id [Hid| ->%list_elem_of_singleton]%elem_of_app; [by left|right].
      etrans; [exact (place_new (m_ids (w_ext w)) _)|]. change (MaxInFlight cfg) with 2 in Hroom. lia.
  - intros w. cbn [select_drain conn]. destruct (m_ids (w_ext w)) as [|id ids] eqn:Hids.
    + eexists _, w. split; [reflexivity|]. split; [by split_and!|]. split; [|done]. rewrite Hids. by intros id ?%not_elem_of_nil.
    + eexists _, _. split; [reflexivity|]. split; [split; [done|]|split; [|done]].
      * left. exists [], ids. by rewrite Hids.
      * cbn. intros id' Hid'. unfold lag. rewrite Hids. cbn. rewrite decide_True by done. lia.
Qed.

(** two rows at the start, three more arrive; the second is gone after eight
    events *)
Lemma every_deposit_delivered_witness : exists w1 w2 r,
  drainWithACK cfg 0 start = (Ok tt, w1) /\ deposit_buffer (w_db w1) !! 1%nat = Some r /\
  row_key r = (1, "0xaa", 1) /\ drainWithACK cfg 8 start = (Ok tt, w2) /\ r ∉ deposit_buffer (w_db w2).
Proof.
  destruct (deposit_buffer (w_db (drainWithACK cfg 0 start).2) !! 1%nat) as [r|] eqn:Hr; [|by vm_compute in Hr].
  assert (row_key r = (1, "0xaa", 1)) as Hkey by (vm_compute in Hr; by injection Hr as <-).
  destruct (every_deposit_delivered m_ids (fun _ _ => 5) lag (fun _ => 0%nat) 2 0 cfg 0 1 8 r start serves)
    as (w1 & w2 & Hrun1 & Hrun2 & Hdone); try (vm_compute; congruence).
  { exact (BufferWitness.two_wf). }
  { cbn. lia. }
  exists w1, w2, r. rewrite Hrun1 in Hr. split; [exact Hrun1|]. split; [exact Hr|]. split; [|split; [exact Hrun2|]].
  - exact Hkey.
  - apply Hdone; [exact Hr|]. lia.
Defined.
End FairWitness.
