(* ===== verification/AckChannel.v ===== *)
(** * The acknowledgement channel ([internal/publisher/publisher.go])

    The publisher's connection has two goroutines: [startReadLoop] reads
    messages and puts the ids of acknowledgements into the buffered channel
    [ackCh], the drain loop sends and takes ids out.  A full channel drops an
    id: the reader must not block.  Elsewhere this is part of what [Conn]
    stands for; here it is a state machine.  The wire ([wire]) holds what was
    sent and not answered, the Adapter's messages on the way, the channel, and
    a plan of what the Adapter, the reader and the database's other clients
    do during each call of the drain loop.

    The Adapter answers each message at most once, any time, in any order, or
    never, and says other things in between.  Then no acknowledgement is ever
    dropped, because the channel ([ackChCap]) is as large as the window of
    unacknowledged messages. *)
From stdpp Require Import base gmap sets list strings relations.
From Stdlib Require Import ZArith Lia Ascii String.
From stdpp Require Import base strings.
From S2P Require Import Prelude Decimal Errors Effect Retry Time Model Json Metrics Store BufferRepo Protocol Publisher PublisherProps.

(** ** The wire *)

(** the id that the read loop takes from a message *)
Definition ack_of (m : wsMessage) : option string :=
  match m with
  | TextMessage (Some data) =>
      match unmarshalEnvelope data with
      | Ok env => if String.eqb (Type_ env) msgTypeAck && negb (String.eqb (ID env) "") then Some (ID env) else None
      | _ => None
      end
  | _ => None
  end.

Lemma onMessage_spec cap ch m : onMessage cap (Some ch) m =
  match ack_of m with
  | Some id => if Z.of_nat (length ch) <? cap then Some (ch ++ [id]) else Some ch
  | None => Some ch
  end.
Proof.
  unfold onMessage, ack_of. destruct m as [[data|]|]; [|done..]. destruct (unmarshalEnvelope data); [|done..].
  by destruct (_ && _).
Qed.

(** what happens beside the drain loop *)
Inductive move :=
| AnswerAt (i : nat)       (* the Adapter acknowledges the [i]-th message it has *)
| Say (m : wsMessage)      (* it sends something else *)
| ReadOne.                 (* an iteration of the read loop *)

(** what one call of the drain loop meets *)
Record turn := mkTurn {
  u_moves : list move;
  u_db : DB -> DB;             (* other clients of the database *)
  u_err : option goerr;        (* the call fails *)
  u_now : instant;
  u_event : pub_event          (* which case of a select; [PeAck] if an id is there *)
}.

Record wire := mkWire {
  w_cap : Z;                   (* capacity of [ackCh] *)
  w_adapter : list string;     (* ids of the messages sent and not answered *)
  w_coming : list wsMessage;   (* on the way to the read loop *)
  w_ackCh : list string;
  w_dropped : list string;     (* acknowledgements lost to a full channel *)
  w_plan : list turn
}.

(** one message through [onMessage] *)
Definition read_one (e : wire) : wire :=
  match w_coming e with
  | [] => e
  | m :: rest =>
      match onMessage (w_cap e) (Some (w_ackCh e)) m with
      | Some ch =>
          mkWire (w_cap e) (w_adapter e) rest ch
            (match ack_of m with
             | Some id => if (length ch =? length (w_ackCh e))%nat then w_dropped e ++ [id] else w_dropped e
             | None => w_dropped e
             end) (w_plan e)
      | None => e
      end
  end.

Definition run_move (e : wire) (mv : move) : wire :=
  match mv with
  | AnswerAt i =>
      match w_adapter e !! i with
      | Some id =>
          mkWire (w_cap e) (delete i (w_adapter e))
            (w_coming e ++ [TextMessage (Some (ackReply (mkEnvelope msgTypeDeposit id None)))])
            (w_ackCh e) (w_dropped e) (w_plan e)
      | None => e
      end
  | Say m =>
      match ack_of m with
      | None => mkWire (w_cap e) (w_adapter e) (w_coming e ++ [m]) (w_ackCh e) (w_dropped e) (w_plan e)
      | Some _ => e
      end
  | ReadOne => read_one e
  end.

(** ** The drain loop's calls on it *)

(** the next turn happens; without one the call does not return *)
Definition take_turn : M (World wire) turn := fun w =>
  let e := w_ext w in
  match w_plan e with
  | [] => (Panic "the call has not returned", w)
  | u :: rest =>
      (Ok u, mkWorld (u_db u (w_db w)) (w_metrics w)
        (foldl run_move (mkWire (w_cap e) (w_adapter e) (w_coming e) (w_ackCh e) (w_dropped e) rest) (u_moves u)))
  end.

Definition turned {A} (k : turn -> A) : M (World wire) A :=
  let* u := take_turn in
  match u_err u with None => ret (k u) | Some err => fail err end.

Definition set_wire (f : wire -> wire) : M (World wire) unit :=
  modify (fun w => mkWorld (w_db w) (w_metrics w) (f (w_ext w))).

(** the head of the channel, if any *)
Definition receive : M (World wire) (option string) := fun w =>
  let e := w_ext w in
  match w_ackCh e with
  | [] => (Ok None, w)
  | id :: ch => (Ok (Some id), mkWorld (w_db w) (w_metrics w)
      (mkWire (w_cap e) (w_adapter e) (w_coming e) ch (w_dropped e) (w_plan e)))
  end.

Definition id_in (raw : json) : string := match unmarshalEnvelope raw with Ok env => ID env | _ => "" end.

#[export] Instance wire_env : Env wire := {|
  env_wait _ := turned (fun _ => tt); ctx_Err := turned (fun _ => tt); time_Now := turned u_now;
  env_db := turned (fun _ => tt);
  env_has := turned (fun _ => tt); env_tx e := (None, e); env_commit e := (Committed, e); db_now _ := 0 |}.
(** [make(chan string, p.cfg.MaxInFlight)] *)
Definition ackChCap (cfg : Config) : Z := MaxInFlight cfg.

(** a connection whose channel holds [cap] ids *)
Definition wire_conn (cap : Z) : Conn wire := {|
  (* nothing sent, a new channel *)
  DialContext := turned (fun _ => tt) ;;; set_wire (fun e => mkWire cap [] [] [] (w_dropped e) (w_plan e));
  WriteMessage raw := turned (fun _ => tt) ;;;
    set_wire (fun e => mkWire (w_cap e) (w_adapter e ++ [id_in raw]) (w_coming e) (w_ackCh e) (w_dropped e) (w_plan e));
  WritePing := turned (fun _ => tt);
  select_drain :=
    let* ev := turned u_event in
    match ev with
    | PeAck _ => let* got := receive in ret (match got with Some id => PeAck id | None => PePoll end)
    | _ => ret ev
    end;
  select_graceful :=
    let* ev := turned u_event in
    match ev with PeAck _ => receive | _ => ret None end;
  drainCtx_Err := turned (fun _ => tt); jittered d := turned (fun _ => d) |}.

(** ** What holds of the wire *)
Section Channel.
Variable cap : Z.
#[local] Instance conn_here : Conn wire := wire_conn cap.

(** the ids that may still come out of the channel *)
Definition awaited (e : wire) : list string := w_ackCh e ++ omap ack_of (w_coming e) ++ w_adapter e.

(** each of them once, all of them of [D] *)
Record wire_ok (D : gset string) (e : wire) : Prop := {
  wo_cap : w_cap e = cap;
  wo_room : Z.of_nat (size D) <= cap;
  wo_once : NoDup (awaited e);
  wo_known : forall id, id ∈ awaited e -> id ∈ D /\ id <> "";
  wo_kept : w_dropped e = []
}.

Lemma wire_ok_mono D D' e : D ⊆ D' -> Z.of_nat (size D') <= cap -> wire_ok D e -> wire_ok D' e.
Proof. intros Hs Hc [? ? ? Hk ?]. split; [done..| |done]. intros id Hid. destruct (Hk id Hid). split; [set_solver|done]. Qed.

(** the channel has room for what is not in it *)
Lemma room D e id : wire_ok D e -> (w_ackCh e ++ [id]) `sublist_of` awaited e -> Z.of_nat (length (w_ackCh e)) < cap.
Proof.
  intros [Hc Hr Hn Hk _] Hsub. assert (NoDup (w_ackCh e ++ [id])) as Hnd by by eapply sublist_NoDup.
  assert (size (list_to_set (C := gset string) (w_ackCh e ++ [id])) <= size D)%nat as Hsz.
  { apply subseteq_size. intros x Hx%elem_of_list_to_set. apply Hk. by eapply sublist_subseteq. }
  rewrite size_list_to_set, length_app in Hsz by done. cbn in Hsz. lia.
Qed.

Lemma read_one_ok D e : wire_ok D e -> wire_ok D (read_one e).
Proof.
  intros Hok. unfold read_one. destruct (w_coming e) as [|m rest] eqn:Hw; [done|]. rewrite onMessage_spec.
  pose proof Hok as [Hc Hr Hn Hk Hd]. unfold awaited in Hn, Hk. rewrite Hw in Hn, Hk. cbn in Hn, Hk.
  destruct (ack_of m) as [id|] eqn:Hm; [|by split].
  rewrite (proj2 (Z.ltb_lt _ _)).
  - rewrite length_app, (proj2 (Nat.eqb_neq _ _)) by (cbn; lia). split; cbn; [done..| | |done]; unfold awaited; cbn; by rewrite <- app_assoc.
  - rewrite Hc. apply (room D e id Hok). unfold awaited. rewrite Hw. cbn. rewrite Hm. apply sublist_app; [done|].
    apply sublist_skip, sublist_nil_l.
Qed.

Lemma ack_of_reply id : id <> "" -> ack_of (TextMessage (Some (ackReply (mkEnvelope msgTypeDeposit id None)))) = Some id.
Proof. by destruct id. Qed.

(** the same ids awaited, elsewhere *)
Lemma wire_ok_perm D e e' : w_cap e' = w_cap e -> w_dropped e' = w_dropped e -> awaited e' ≡ₚ awaited e ->
  wire_ok D e -> wire_ok D e'.
Proof.
  intros Hc Hd Hp [C R N K Z]. split; [congruence|done|by rewrite Hp| |congruence]. intros id. rewrite Hp. apply K.
Qed.

Lemma run_move_ok D e mv : wire_ok D e -> wire_ok D (run_move e mv).
Proof.
  intros Hok. destruct mv as [i|m|]; cbn [run_move]; [| |by apply read_one_ok].
  - destruct (w_adapter e !! i) as [id|] eqn:Hi; [|done]. apply (wire_ok_perm D e); [done..| |done].
    assert (id <> "") as Hne.
    { apply (wo_known _ _ Hok). unfold awaited. rewrite !elem_of_app. right. right. by eapply list_elem_of_lookup_2. }
    unfold awaited. cbn. rewrite omap_app. cbn [omap list_omap]. rewrite (ack_of_reply id Hne), <- !app_assoc. cbn.
    do 2 apply Permutation_app_head. symmetry. by apply delete_Permutation.
  - destruct (ack_of m) eqn:Hm; [done|]. apply (wire_ok_perm D e); [done..| |done].
    unfold awaited. cbn. rewrite omap_app. cbn. by rewrite Hm, app_nil_r.
Qed.

Abbreviation holds D := (fun w : World wire => wire_ok D (w_ext w)).

(** the calls *)
Lemma take_turn_ok D : preserves (holds D) take_turn.
Proof.
  intros w Hw. unfold take_turn. destruct (w_plan (w_ext w)) as [|u rest]; [done|]. cbn [snd w_ext].
  set (e := mkWire _ _ _ _ _ _). assert (wire_ok D e) as He by by apply (wire_ok_perm D (w_ext w)).
  clearbody e. revert e He. induction (u_moves u) as [|mv l IH]; intros e He; [done|]. cbn. by apply IH, run_move_ok.
Qed.

Lemma turned_ok D {A} (k : turn -> A) : preserves (holds D) (turned k).
Proof. unfold turned. apply preserves_bind; [apply take_turn_ok|]. intros u w Hw. by destruct (u_err u). Qed.

Lemma write_ok D d : key_id (key_of d) ∉ D -> Z.of_nat (size D) < cap ->
  hoare (holds D) (WriteMessage (encodeDeposit d).1) (fun _ w => wire_ok ({[key_id (key_of d)]} ∪ D) (w_ext w)).
Proof.
  intros Hnew Hroom. set (id := key_id (key_of d)).
  assert (Z.of_nat (size ({[id]} ∪ D)) <= cap) as Hsz by (rewrite size_union, size_singleton by set_solver; lia).
  assert (forall w, holds D w -> holds ({[id]} ∪ D) w) as Hmono by (intros w; apply wire_ok_mono; [set_solver|done]).
  assert (id_in (encodeDeposit d).1 = id) as Hid by (unfold id_in; by rewrite unmarshal_encode).
  generalize dependent (encodeDeposit d).1. intros raw Hid.
  intros w Hw. cbn. pose proof (turned_ok D (fun _ => tt) w Hw) as Hw1. unfold bind.
  destruct (turned _ w) as [[[]|err|p] w1]; cbn in Hw1 |- *; [|by apply Hmono..].
  rewrite Hid. destruct Hw1 as [C R N K Z]. split; [done|done| | |done]; unfold awaited in *; cbn; rewrite !app_assoc.
  - apply NoDup_app. rewrite <- app_assoc. split_and!; [done| |apply NoDup_singleton].
    intros x Hx ->%list_elem_of_singleton. by apply K in Hx as [? _].
  - intros x. rewrite elem_of_app, <- app_assoc, list_elem_of_singleton. intros [Hx| ->].
    + apply K in Hx as [? ?]. set_solver.
    + split; [set_solver|exact (key_id_nonempty (key_of d))].
Qed.

Lemma receive_ok D : hoare (holds D) receive
  (fun r w => match r with Ok (Some id) => wire_ok (D ∖ {[id]}) (w_ext w) | _ => holds D w end).
Proof.
  intros w Hw. unfold receive. destruct (w_ackCh (w_ext w)) as [|id ch] eqn:Hch; [done|]. cbn [fst snd w_ext].
  destruct Hw as [C R N K Z]. unfold awaited in N, K. rewrite Hch in N, K. cbn in N, K. apply NoDup_cons in N as [Hid N].
  split; [done| |done| |done].
  - etrans; [|exact R]. apply inj_le, subseteq_size. set_solver.
  - unfold awaited. cbn. intros x Hx. destruct (K x) as [? ?]; [by right|]. split; [|done]. set_solver.
Qed.

Lemma select_ok D : hoare (holds D) select_drain
  (fun r w => match r with Ok (PeAck id) => wire_ok (D ∖ {[id]}) (w_ext w) | _ => holds D w end).
Proof.
  cbn. eapply hoare_bind with (R := fun _ w => holds D w); [intros w; apply turned_ok| |done|done].
  intros ev w Hw. destruct ev; try done. unfold bind. pose proof (receive_ok D w Hw) as Hr.
  by destruct (receive w) as [[[id'|]|err|p] w1].
Qed.

Lemma graceful_ok D : hoare (holds D) select_graceful
  (fun r w => match r with Ok (Some id) => wire_ok (D ∖ {[id]}) (w_ext w) | _ => holds D w end).
Proof.
  cbn. eapply hoare_bind with (R := fun _ w => holds D w); [intros w; apply turned_ok| |done|done].
  intros ev w Hw. destruct ev; try done. by apply receive_ok.
Qed.

(** ** The publisher on it *)
Variable cfg : Config.
Hypothesis Hcap : cap = MaxInFlight cfg.

(** the ids still awaited are outstanding ones *)
Definition chan_inv (s : PS wire) : Prop := wire_ok (dom s.2) (w_ext s.1).
(** what a connection leaves behind *)
Definition sound_wire (w : World wire) : Prop := exists D, wire_ok D (w_ext w).
(** the invariant while the code runs, no loss once it has returned an error *)
Definition running (x : res unit * PS wire) : Prop :=
  match x with (Ok _, s) => chan_inv s | (_, s) => sound_wire s.1 end.

Lemma keeps_running (m : M (PS wire) unit) s : preserves chan_inv m -> chan_inv s -> running (m s).
Proof. intros Hm Hs. specialize (Hm s Hs). destruct (m s) as [[a|e|p] s']; [done|by eexists..]. Qed.

Lemma lift_chan {A} (m : M (World wire) A) : (forall D, preserves (fun w => wire_ok D (w_ext w)) m) -> preserves chan_inv (lift m).
Proof. intros Hm [w o] Hs. unfold chan_inv, lift in *. specialize (Hm (dom o) w Hs). by destruct (m w). Qed.

Lemma emit_chan f D : preserves (holds D) (emit f).
Proof. by apply preserves_emit. Qed.

Lemma now_chan D : preserves (holds D) time_Now.
Proof. apply turned_ok. Qed.
Lemma db_chan D : preserves (holds D) env_db.
Proof. apply turned_ok. Qed.

Lemma setInFlight_chan : preserves chan_inv setInFlight.
Proof. unfold setInFlight, out_length. apply preserves_bind; [by intros s|]. intros n. apply lift_chan, emit_chan. Qed.

Lemma topUp_send_chan pending : forall available s,
  chan_inv s -> out_len s.2 + available <= MaxInFlight cfg -> running (topUp_send pending available s).
Proof.
  induction pending as [|d rest IH]; intros available [w o] Hs Hlen; [done|].
  cbn [topUp_send]. destruct (Z.leb_spec available 0); [done|]. destruct (encodeDeposit d) as [raw id] eqn:Henc.
  assert (raw = (encodeDeposit d).1 /\ id = key_id (key_of d)) as [-> ->] by (rewrite Henc; by injection Henc as <- <-).
  unfold bind at 1, out_has, gets. cbn [snd].
  destruct (bool_decide_reflect (is_Some (o !! key_id (key_of d)))) as [|Hnew]; [by apply IH|].
  assert (key_id (key_of d) ∉ dom o) as Hdom by by rewrite elem_of_dom.
  assert (Z.of_nat (size (dom o)) < cap) as Hroom by (rewrite size_dom; unfold out_len in Hlen; cbn in Hlen; lia).
  pose proof (write_ok (dom o) d Hdom Hroom w Hs) as Hw1.
  unfold bind at 1, lift at 1, attempt. destruct (WriteMessage (encodeDeposit d).1 w) as [[[]|err|p] w1]; cbn in Hw1 |- *.
  - unfold bind at 1, out_add, bind at 1, lift at 1. pose proof (now_chan _ w1 Hw1) as Hw2.
    destruct (time_Now w1) as [[now|err|p] w2]; cbn in Hw2 |- *; [|by eexists..].
    apply IH.
    + unfold chan_inv. cbn. by rewrite dom_insert_L.
    + unfold out_len in *. cbn in *. rewrite map_size_insert_None by (by apply eq_None_not_Some). lia.
  - by eexists.
  - by eexists.
Qed.

Lemma topUp_chan s : chan_inv s -> running (topUp cfg s).
Proof.
  destruct s as [w o]. intros Hs. unfold topUp, bind at 1, out_length, gets. cbn [snd].
  destruct (Z.leb_spec (MaxInFlight cfg - out_len o) 0); [done|]. cbv zeta.
  set (limit := if _ <? _ then _ else _). clearbody limit.
  assert (preserves (holds (dom o)) (wrapf "PendingAll" (buf_PendingAll limit))) as Hp.
  { apply preserves_wrapf. cbn. apply preserves_query, db_chan. }
  specialize (Hp w Hs). unfold bind at 1, lift at 1.
  destruct (wrapf "PendingAll" (buf_PendingAll limit) w) as [[pending|err|p] w1]; cbn in Hp |- *; [|by eexists..].
  pose proof (topUp_send_chan pending (MaxInFlight cfg - out_len o) (w1, o) Hp ltac:(cbn; lia)) as Hsend. unfold bind.
  destruct (topUp_send pending _ (w1, o)) as [[[]|err|p] s2]; [|exact Hsend..].
  by apply (keeps_running setInFlight s2 setInFlight_chan).
Qed.

Lemma handleAck_chan id :
  hoare (fun s => wire_ok (dom s.2 ∖ {[id]}) (w_ext s.1)) (handleAck id) (fun _ s => chan_inv s).
Proof.
  intros [w o] Hs. cbn in Hs. rewrite <- dom_delete_L in Hs. unfold handleAck, bind at 1, out_take. cbn [fst snd].
  destruct (o !! id) as [msg|]; [|done].
  match goal with |- chan_inv (?m (w, delete id o)).2 => assert (preserves chan_inv m) as Hm; [|by apply Hm] end.
  apply preserves_bind; [apply lift_chan, emit_chan|intros _].
  apply preserves_bind; [|intros _; apply preserves_bind; [apply lift_chan, emit_chan|intros _; apply setInFlight_chan]].
  apply lift_chan. intros D. apply preserves_wrapf. cbn. unfold Ack. apply preserves_wrapf.
  destruct (decide _); [|apply preserves_fail]. unfold exec. apply preserves_bind; [apply db_chan|]. by intros _ w'.
Qed.

(** an acknowledgement taken out of the channel, then the rest of the loop *)
Lemma acked_chan id (k : M (PS wire) unit) w o : (forall s, chan_inv s -> running (k s)) ->
  wire_ok (dom o ∖ {[id]}) (w_ext w) -> running ((attempt (handleAck id) ;;; k) (w, o)).
Proof.
  intros Hk Hw. pose proof (handleAck_chan id (w, o) Hw) as Hs. unfold bind, attempt.
  destruct (handleAck id (w, o)) as [[[]|err|p] s1]; [by apply Hk..|by eexists].
Qed.

(** one read of the clock *)
Lemma now_bind {B} (k : instant -> M (PS wire) B) (Q : res B * PS wire -> Prop) s : chan_inv s ->
  (forall now w', chan_inv (w', s.2) -> Q (k now (w', s.2))) ->
  (forall r w', sound_wire w' -> (forall b, r <> Ok b) -> Q (r, (w', s.2))) -> Q (bind (lift time_Now) k s).
Proof.
  destruct s as [w o]. intros Hs Hk He. unfold bind, lift. pose proof (now_chan _ w Hs) as Hw.
  destruct (time_Now w) as [[now|err|p] w1]; cbn in Hw; [by apply Hk|apply He; [by eexists|done]..].
Qed.

Lemma not_ok_running (r : res unit) w o : sound_wire w -> (forall b, r <> Ok b) -> running (r, (w, o)).
Proof. intros Hw Hr. destruct r as [[]|e|p]; [by destruct (Hr tt)|done..]. Qed.

Lemma gracefulACK_chan n s : chan_inv s -> running (gracefulACK cfg n s).
Proof.
  intros Hs. unfold gracefulACK. apply (now_bind _ running); [done| |intros r w' ??; by apply not_ok_running].
  clear Hs. intros now w Hs. generalize (instant_ns now + DrainTimeoutMs cfg * 1000000) as dl. intros dl.
  destruct s as [w0 o]. cbn [snd] in *. clear w0 now. revert w o Hs.
  induction n as [|n IH]; intros w o Hs; cbn [gracefulACK_loop]; [done|].
  unfold bind at 1, out_length, gets. cbn [snd]. destruct (out_len o <=? 0); [by eexists|].
  apply (now_bind _ running _ Hs); [|intros r w' ??; by apply not_ok_running]. cbn [snd]. intros now w1 Hs1.
  destruct (_ <? _); [|by eexists]. unfold bind at 1, lift. pose proof (graceful_ok (dom o) w1 Hs1) as Hg.
  destruct (select_graceful w1) as [[[id|]|err|p] w2]; cbn in Hg; [|by apply IH|by eexists..].
  apply acked_chan; [|done]. intros [w3 o3]. apply IH.
Qed.

Lemma oldestAge_chan s (k : Z -> M (PS wire) unit) : (forall age s', chan_inv s' -> running (k age s')) ->
  chan_inv s -> running (bind oldestAge k s).
Proof.
  intros Hk Hs. unfold oldestAge. unfold bind at 1, bind at 1, gets. cbn [snd]. destruct s as [w o]. cbn [snd].
  destruct (oldest o); [|by apply Hk]. unfold bind, lift. pose proof (now_chan _ w Hs) as Hw.
  destruct (time_Now w) as [[now|err|p] w1]; cbn in Hw |- *; [by apply Hk|by eexists..].
Qed.

Lemma drain_step_chan n ev w o :
  match ev with PeAck id => wire_ok (dom o ∖ {[id]}) (w_ext w) | _ => wire_ok (dom o) (w_ext w) end ->
  running (drainWithACK_step cfg n ev (w, o)).
Proof.
  intros Hw. destruct ev as [|e| |id| | |]; cbn [drainWithACK_step].
  - by apply gracefulACK_chan.
  - by eexists.
  - by apply topUp_chan.
  - apply acked_chan; [|done]. intros s. apply topUp_chan.
  - apply (keeps_running (lift writePing)); [|done]. apply lift_chan. intros D. apply preserves_wrapf, turned_ok.
  - by apply topUp_chan.
  - apply oldestAge_chan; [|done]. intros age s Hs. destruct (_ <? _); [|done].
    apply (keeps_running (_ ;;; _)); [|done]. apply preserves_bind; [apply lift_chan, emit_chan|intros _ ?; done].
Qed.

Lemma drain_loop_chan n s : chan_inv s -> running (drainWithACK_loop cfg n s).
Proof.
  revert s. induction n as [|n IH]; intros [w o] Hs; cbn [drainWithACK_loop]; [done|].
  unfold bind at 1, lift at 1. pose proof (select_ok (dom o) w Hs) as Hsel.
  destruct (select_drain w) as [[ev|err|p] w1]; cbn in Hsel; [|by eexists..].
  assert (match ev with PeAck id => wire_ok (dom o ∖ {[id]}) (w_ext w1) | _ => wire_ok (dom o) (w_ext w1) end) as Hev by by destruct ev.
  pose proof (drain_step_chan n ev w1 o Hev) as Hstep. unfold bind.
  destruct (drainWithACK_step cfg n ev (w1, o)) as [[[]|err|p] s2]; [|exact Hstep..]. destruct ev; first [by apply IH|done].
Qed.

(** a connection, from its dial on *)
Lemma drain_body_chan n w : wire_ok ∅ (w_ext w) -> running (drainWithACK_body cfg n (w, newOutstanding)).
Proof.
  intros Hw. assert (chan_inv (w, newOutstanding)) as Hs by by unfold chan_inv, newOutstanding; cbn [fst snd]; rewrite dom_empty_L.
  unfold drainWithACK_body, newTicker. repeat (destruct (_ <=? _); [by eexists|unfold bind at 1, ret at 1]).
  unfold bind at 1. pose proof (topUp_chan _ Hs) as Ht. destruct (topUp cfg _) as [[[]|err|p] s1]; [|exact Ht..].
  by apply drain_loop_chan.
Qed.

Lemma drain_chan n w : wire_ok ∅ (w_ext w) -> sound_wire (drainWithACK cfg n w).2.
Proof.
  intros Hw. pose proof (drain_body_chan n w Hw) as Hr. unfold drainWithACK. destruct (drainWithACK_body cfg n (w, newOutstanding)) as [[[]|err|p] [w' o]]; [by eexists|done..].
Qed.

(** a wire on which no acknowledgement can come, whatever its channel *)
Definition idle (e : wire) : Prop := awaited e = [] /\ w_dropped e = [].

Lemma idle_alt e : idle e <-> w_ackCh e = [] /\ omap ack_of (w_coming e) = [] /\ w_adapter e = [] /\ w_dropped e = [].
Proof. unfold idle, awaited. rewrite !app_nil. tauto. Qed.

Lemma run_move_idle e mv : idle e -> idle (run_move e mv).
Proof.
  intros He. pose proof He as (Hch & Hw & Ha & Hd)%idle_alt. destruct mv as [i|m|]; cbn [run_move].
  - by rewrite Ha.
  - destruct (ack_of m) eqn:Hm; [done|]. apply idle_alt. cbn [w_ackCh w_coming w_adapter w_dropped].
    by rewrite omap_app, Hw; cbn; rewrite Hm.
  - unfold read_one. destruct (w_coming e) as [|m rest]; [done|]. rewrite onMessage_spec.
    cbn in Hw. destruct (ack_of m); [done|]. by apply idle_alt.
Qed.

(** between connections *)
Definition quiet_wire (w : World wire) : Prop := sound_wire w \/ idle (w_ext w).

Lemma quiet_turned {A} (k : turn -> A) : preserves quiet_wire (turned k).
Proof.
  intros w [[D Hw]|Hw]; [left; exists D; by apply turned_ok|right]. revert w Hw.
  match goal with |- forall w, _ -> idle (w_ext (?m w).2) => change (preserves (fun w => idle (w_ext w)) m) end.
  unfold turned. apply preserves_bind; [|by intros u w Hw; destruct (u_err u)].
  intros w Hw. unfold take_turn. destruct (w_plan (w_ext w)) as [|u rest]; [done|]. cbn [snd w_ext].
  set (e := mkWire _ _ _ _ _ _). assert (idle e) as He by exact Hw. clearbody e. revert e He.
  induction (u_moves u) as [|mv l IH]; intros e He; [done|]. cbn. by apply IH, run_move_idle.
Qed.

Lemma quiet_kept w : quiet_wire w -> w_dropped (w_ext w) = [].
Proof. intros [[D HD]|Hi]; [apply HD|apply Hi]. Qed.

Lemma dial_chan w : 0 <= cap -> quiet_wire w ->
  quiet_wire (dial cfg w).2 /\ ((dial cfg w).1 = Ok tt -> wire_ok ∅ (w_ext (dial cfg w).2)).
Proof.
  intros Hpos Hw. unfold dial, wrapf. cbn. unfold bind. pose proof (quiet_turned (fun _ => tt) w Hw) as Hw1.
  destruct (turned _ w) as [[[]|err|p] w1]; cbn in Hw1 |- *; [|split; [done|done]..].
  assert (wire_ok ∅ (mkWire cap [] [] [] (w_dropped (w_ext w1)) (w_plan (w_ext w1)))) as Hnew.
  { split; [done|rewrite size_empty; lia|constructor|by intros ? ?%not_elem_of_nil|by apply quiet_kept]. }
  split; [left; by exists ∅|done].
Qed.

Lemma Run_chan n : 0 <= cap -> RequireACK cfg = true -> preserves quiet_wire (Publisher_Run cfg n).
Proof.
  intros Hpos Hack. unfold Publisher_Run. generalize (ReconnectIntervalMs cfg) at 1 as delay.
  assert (forall f, preserves quiet_wire (emit f)) as Hemit by (intros f; by apply preserves_emit).
  induction n as [|n IH]; intros delay; cbn [Run_loop]; [apply preserves_ret|].
  apply preserves_bind; [apply quiet_turned|intros _]. apply preserves_bind; [apply Hemit|intros _].
  eapply hoare_bind with (R := fun r w => quiet_wire w /\ forall x, r = Ok (inl x) -> wire_ok ∅ (w_ext w)).
  - intros w Hw. destruct (dial_chan w Hpos Hw) as [Hd Hok]. unfold attempt.
    destruct (dial cfg w) as [[[]|err|p] w1]; cbn in *; (split; [done|]); intros x [=]. by apply Hok.
  - intros [[]|err] w [Hw Hnew]; [specialize (Hnew tt eq_refl)|].
    + revert w Hw Hnew. rewrite Hack. match goal with |- forall w, _ -> _ -> quiet_wire (?m w).2 =>
        assert (hoare (holds ∅) m (fun _ w => quiet_wire w)) as Hm; [|by intros w _ Hnew; apply Hm] end.
      eapply hoare_bind with (R := fun _ w => holds ∅ w); [by apply preserves_emit| |by left; eexists..]. intros _.
      eapply hoare_bind with (R := fun _ w => quiet_wire w); [| |done|done].
      * intros w Hw. unfold attempt. assert (quiet_wire (drainWithACK cfg n w).2) by (left; by apply drain_chan). by destruct (drainWithACK cfg n w) as [[] ?].
      * intros ended. match goal with |- hoare _ ?m _ => change (preserves quiet_wire m) end. eff; auto.
    + revert w Hw Hnew. match goal with |- forall w, _ -> _ -> quiet_wire (?m w).2 => assert (preserves quiet_wire m) as Hm; [|by intros w Hw _; apply Hm] end.
      unfold sleep, nextBackoff. pose proof @quiet_turned as Ht. eff; first [apply Ht|apply preserves_attempt, Ht|auto].
  - by intros ? ? [? _].
  - by intros ? ? [? _].
Qed.
End Channel.

(** C26. No acknowledgement is dropped.  In ACK mode, over any number of
    connections, on each of which the channel is made with
    [MaxInFlight] places, and with an Adapter that
    acknowledges a message of the connection at most once (at any time, in any
    order, among any other messages), whatever the schedule of the read loop,
    the drain loop and the database's other clients and whichever calls fail:
    the read loop finds room in the channel for every acknowledgement, and an
    id in the channel or on its way, on a connection whose channel was made so,
    is one of an outstanding message. *)
Theorem no_ack_dropped (cfg : Config) (n : nat) (w : World wire) :
  RequireACK cfg = true -> 0 <= MaxInFlight cfg ->
  awaited (w_ext w) = [] -> w_dropped (w_ext w) = [] ->
  w_dropped (w_ext (Publisher_Run (H1 := wire_conn (ackChCap cfg)) cfg n w).2) = [] /\
  (w_cap (w_ext w) = ackChCap cfg ->
   forall s, drainWithACK_body (H1 := wire_conn (ackChCap cfg)) cfg n (w, newOutstanding) = (Ok tt, s) ->
     NoDup (awaited (w_ext s.1)) /\ forall id, id ∈ awaited (w_ext s.1) -> is_Some (s.2 !! id)).
Proof.
  intros Hack Hm Ha Hd. split.
  - apply (quiet_kept (ackChCap cfg)). apply (Run_chan (ackChCap cfg) cfg eq_refl n Hm Hack w). by right.
  - intros Hc s Hs. assert (wire_ok (ackChCap cfg) ∅ (w_ext w)) as Hw.
    { split; [done|rewrite size_empty; done|rewrite Ha; constructor|rewrite Ha; by intros ? ?%not_elem_of_nil|done]. }
    pose proof (drain_body_chan (ackChCap cfg) cfg eq_refl n w Hw) as Hr. unfold conn_here in Hr. rewrite Hs in Hr.
    split; [apply Hr|]. intros id Hid. apply elem_of_dom. by apply Hr.
Qed.

(** Two messages in flight, a channel of two; the Adapter answers the second
    first, says something in between, and the read loop gets to run only after
    both; a third deposit goes out when the first slot is free. *)
Module ChannelWitness.
Definition cfg : Config := New (mkConfig "ws://adapter" 3000 5000 500 10 0 0 0 true 0 2).
Definition u0 (moves : list move) (ev : pub_event) : turn := mkTurn moves (fun db => db) None {| sec := 5; nsec := 0 |} ev.
Definition plan : list turn :=
  replicate 5 (u0 [] PePoll) ++
  [u0 [AnswerAt 1; Say BinaryMessage; AnswerAt 0; ReadOne; ReadOne; ReadOne] (PeAck "")] ++
  replicate 4 (u0 [] PePoll) ++ [u0 [] (PeAck "")] ++ replicate 2 (u0 [] PePoll).
Definition start : World wire :=
  mkWorld (save_db 0 1 "erc20" 8 [BufferWitness.dep "0xbb" 0] (w_db BufferWitness.two)) ∅
    (mkWire 2 [] [] [] [] plan).
(** after the first acknowledgement, and after both *)
Definition after (n : nat) : res unit * PS wire := drainWithACK_body (H1 := wire_conn (ackChCap cfg)) cfg n (start, newOutstanding).

Lemma after_one : (after 1).1 = Ok tt /\ w_ackCh (w_ext (after 1).2.1) = ["1:0xaa:0"] /\
  awaited (w_ext (after 1).2.1) = ["1:0xaa:0"; "1:0xbb:0"].
Proof. by vm_compute. Qed.

Lemma no_ack_dropped_witness :
  (w_ackCh (w_ext (after 1).2.1) = ["1:0xaa:0"] /\ awaited (w_ext (after 1).2.1) = ["1:0xaa:0"; "1:0xbb:0"]) /\
  is_Some ((after 1).2.2 !! "1:0xaa:0") /\ w_dropped (w_ext (Publisher_Run (H1 := wire_conn (ackChCap cfg)) cfg 9 start).2) = [].
Proof.
  destruct after_one as (Hok & Hch & Haw). split; [by split|].
  assert (after 1 = (Ok tt, (after 1).2)) as Hrun by (rewrite <- Hok; apply surjective_pairing).
  destruct (no_ack_dropped cfg 1 start eq_refl ltac:(cbn; lia) eq_refl eq_refl) as [_ Hs]. specialize (Hs eq_refl).
  split; [apply (proj2 (Hs _ Hrun)); rewrite Haw; left|].
  exact (proj1 (no_ack_dropped cfg 9 start eq_refl ltac:(cbn; lia) eq_refl eq_refl)).
Defined.
End ChannelWitness.
