(* ===== verification/Repos.v ===== *)
(** * Read-only repositories ([account_repo.go], [config_repo.go], [database.go])

    Deposit addresses per chain, and the chain and token configuration with
    the fingerprint the supervisor compares. *)
From stdpp Require Import base gmap list strings sorting.
From Stdlib Require Import ZArith Lia Ascii String.
From stdpp Require Import base strings.
From S2P Require Import Prelude Decimal Errors Effect Retry Time Model Json Metrics Store.

(** ** Accounts *)

(** WHERE chain_id = .. AND lower(address) = la *)
Definition account_row (db : DB) (chainID : Z) (la : string) : bool :=
  existsb (fun r => (r.1 =? chainID) && String.eqb (to_lower r.2) la) (accounts db).

(** lower-case, duplicates removed, first occurrence kept *)
Fixpoint dedup_lower (seen : gset string) (addresses : list string) : list string :=
  match addresses with
  | [] => []
  | a :: rest =>
      let la := to_lower a in
      if decide (la ∈ seen) then dedup_lower seen rest else la :: dedup_lower ({[la]} ∪ seen) rest
  end.

Section Accounts.
Context {E : Type} `{Env E}.

Definition Has (chainID : Z) (address : string) : M (World E) bool :=
  query_account ("query account (" +:+ dec chainID +:+ ", " +:+ address +:+ ")")
    (fun db => Ok (account_row db chainID (to_lower address))).

Definition HasMany (chainID : Z) (addresses : list string) : M (World E) (gmap string bool) :=
  match addresses with
  | [] => ret ∅
  | _ :: _ =>
      let lowered := dedup_lower ∅ addresses in
      query "query accounts" (fun db =>
        let rows := filter (fun la => la ∈ lowered)
          ((fun r => to_lower r.2) <$> filter (fun r => r.1 = chainID) (accounts db)) in
        let out := foldl (fun m la => <[la := false]> m) ∅ lowered in
        Ok (foldl (fun m addr => <[addr := true]> m) out rows))
  end.
End Accounts.

(** ** Chains and tokens *)

Record ChainInfo := mkChainInfo { ci_ChainID : Z; ci_RPCURL : string; ci_TokenConfigHash : string }.
Record ContractInfo := mkContract { c_Symbol : string; c_Decimals : Z }.
Record ChainConfig := mkChainConfig {
  cc_ChainID : Z; cc_RPCURL : string; cc_Native : string; cc_Decimals : Z; cc_BlockTimeMs : Z;
  cc_PollingIntervalMs : Z; cc_MinConfirmations : Z; cc_ChainType : string;
  cc_Contracts : gmap string ContractInfo }.

#[export] Instance ContractInfo_eq_dec : EqDecision ContractInfo.
Proof. solve_decision. Defined.

(** hex(SHA-256(s)) *)
Class Sha := { sha256_hex : string -> string }.

(** Go's [<=] on strings: bytewise *)
Abbreviation str_le := strings.String.le.

Definition addr_le (x y : string * ContractInfo) : Prop := str_le x.1 y.1.
#[export] Instance addr_le_dec x y : Decision (addr_le x y).
Proof. unfold addr_le. apply _. Defined.

(** the text that is hashed; [addrs] and [tokens] are parallel slices *)
Definition fingerprint_entry (x : string * ContractInfo) : string :=
  String "|" (x.1 +:+ String ":" (c_Symbol x.2 +:+ String ":" (dec (c_Decimals x.2)))).
Definition fingerprint_text (native : string) (addrs : list string) (tokens : list ContractInfo) : string :=
  "native:" +:+ native +:+
  foldr (fun x s => fingerprint_entry x +:+ s) "" (merge_sort addr_le (zip addrs tokens)).

Definition fingerprint `{Sha} (native : string) (addrs : list string) (tokens : list ContractInfo) : string :=
  sha256_hex (fingerprint_text native addrs tokens).

(** a row of chain LEFT JOIN token *)
Record JoinRow := mkJoin { j_chain : Z; j_rpc : string; j_native : string; j_token : option TokenRow }.

Definition active_tokens (db : DB) (chainID : Z) : list TokenRow :=
  filter (fun t => tk_chain_id t = chainID /\ tk_active t = true) (token db).

Definition join_row (db : DB) (c : ChainRow) : list JoinRow :=
  let row := mkJoin (ch_chain_id c) (ch_rpc_url c) (ch_native c) in
  match active_tokens db (ch_chain_id c) with
  | [] => [row None]
  | ts => (fun t => row (Some t)) <$> ts
  end.

Definition active_chains (db : DB) : list ChainRow := filter (fun c => ch_active c = true) (chain db).

(** ORDER BY c.chain_id, t.contract_address (NULLS LAST) *)
Definition join_le (x y : JoinRow) : Prop :=
  j_chain x < j_chain y \/ j_chain x = j_chain y /\
  match j_token x, j_token y with
  | Some a, Some b => str_le (tk_contract_address a) (tk_contract_address b)
  | _, None => True
  | None, Some _ => False
  end.
#[export] Instance join_le_dec x y : Decision (join_le x y).
Proof. unfold join_le. destruct (j_token x), (j_token y); apply _. Defined.

Definition chain_rows (db : DB) : list JoinRow := merge_sort join_le (active_chains db ≫= join_row db).

(** the accumulator of a chain; [byChain] and [order] together are an
    association list in order of first appearance *)
Record acc := mkAcc { a_rpcURL : string; a_native : string; a_tokens : list ContractInfo; a_addrs : list string }.

Definition acc_add (a : acc) (t : option TokenRow) : acc :=
  match t with
  | None => a
  | Some t => mkAcc (a_rpcURL a) (a_native a)
      (a_tokens a ++ [mkContract (tk_symbol t) (tk_decimals t)])
      (a_addrs a ++ [to_lower (tk_contract_address t)])
  end.

Fixpoint add_row (st : list (Z * acc)) (r : JoinRow) : list (Z * acc) :=
  match st with
  | [] => [(j_chain r, acc_add (mkAcc (j_rpc r) (j_native r) [] []) (j_token r))]
  | (id, a) :: st' =>
      if id =? j_chain r then (id, acc_add a (j_token r)) :: st' else (id, a) :: add_row st' r
  end.

Section Config.
Context {E : Type} `{Env E, Sha}.

(** LIMIT 1 without ORDER BY: the first row of the table *)
Definition KcpChainID : M (World E) (Z * bool) :=
  query "query KCP chain" (fun db =>
    match filter (fun c => ch_name c = "KCP" /\ ch_active c = true) (chain db) with
    | [] => Ok (0, false)
    | c :: _ => Ok (ch_chain_id c, true)
    end).

Definition ActiveChains : M (World E) (list ChainInfo) :=
  query "query active chains" (fun db =>
    Ok ((fun '(id, a) => mkChainInfo id (a_rpcURL a) (fingerprint (a_native a) (a_addrs a) (a_tokens a)))
          <$> foldl add_row [] (chain_rows db))).

Definition tokensOf (chainID : Z) : M (World E) (gmap string ContractInfo) :=
  query ("query tokens of " +:+ dec chainID) (fun db =>
    Ok (foldl (fun m t => <[to_lower (tk_contract_address t) := mkContract (tk_symbol t) (tk_decimals t)]> m)
          ∅ (active_tokens db chainID))).

Definition pollingInterval (blockTime : Z) : Z :=
  let blockTimeMs := i64 (blockTime * 1000) in
  let pollingIntervalMs := Z.quot blockTimeMs 3 in
  if pollingIntervalMs <? 1000 then 1000 else pollingIntervalMs.

Definition ChainConfig_of (chainID : Z) : M (World E) ChainConfig :=
  let* row := query ("query chain " +:+ dec chainID) (fun db =>
    match filter (fun c => ch_chain_id c = chainID /\ ch_active c = true) (chain db) with
    | [] => Err (ConfigError "chain" ("chain " +:+ dec chainID +:+ " not found or not active"))
    | c :: _ => Ok c
    end) in
  let* tokens := tokensOf chainID in
  ret (mkChainConfig chainID (ch_rpc_url row) (ch_native row) (ch_decimals row)
         (i64 (ch_block_time row * 1000)) (pollingInterval (ch_block_time row))
         (ch_confirmations row) (default "erc20" (ch_chain_type row)) tokens).
End Config.
