(* ===== verification/ReposProps.v ===== *)
(** * What the repositories guarantee

    The batch lookup agrees with the single one and is scoped to its chain;
    the fingerprint is independent of row order and detects every change of
    the native symbol or of a token, unless SHA-256 collides; the polling interval always allows a
    ticker. *)
From stdpp Require Import base gmap list strings sorting.
From Stdlib Require Import ZArith Lia Ascii String.
From stdpp Require Import base strings.
From S2P Require Import Prelude Decimal Errors Effect Retry Time Model Json Metrics Store BufferRepo Repos.

(** ** Accounts *)

Lemma dedup_lower_elem addresses : forall seen la,
  la ∈ dedup_lower seen addresses <-> la ∉ seen /\ la ∈ to_lower <$> addresses.
Proof.
  induction addresses as [|a rest IH]; intros seen la; cbn.
  - rewrite elem_of_nil. tauto.
  - rewrite elem_of_cons. destruct (decide (to_lower a ∈ seen)) as [Hin|Hout].
    + rewrite IH. naive_solver.
    + rewrite elem_of_cons, IH, not_elem_of_union, not_elem_of_singleton.
      destruct (decide (la = to_lower a)); naive_solver.
Qed.

Lemma foldl_insert_lookup (v : bool) (l : list string) (m : gmap string bool) k :
  foldl (fun m a => <[a := v]> m) m l !! k = if decide (k ∈ l) then Some v else m !! k.
Proof.
  induction l as [|a l IH] using rev_ind; [by rewrite decide_False by apply not_elem_of_nil|].
  rewrite foldl_app. cbn. destruct (decide (k = a)) as [->|Hne].
  - rewrite lookup_insert_eq, decide_True by set_solver. done.
  - rewrite lookup_insert_ne, IH by done.
    destruct (decide (k ∈ l)), (decide (k ∈ l ++ [a])); set_solver.
Qed.

Lemma account_row_spec db c la :
  account_row db c la = true <-> la ∈ (fun r => to_lower r.2) <$> filter (fun r => r.1 = c) (accounts db).
Proof.
  unfold account_row. rewrite existsb_exists, list_elem_of_fmap.
  setoid_rewrite list_elem_of_filter. split.
  - intros ([c' a] & Hin & Hb). apply andb_prop in Hb as [Hc Ha]. cbn in *.
    apply Z.eqb_eq in Hc as ->. apply String.eqb_eq in Ha as <-.
    exists (c, a). split; [done|]. split; [done|]. by apply list_elem_of_In.
  - intros ([c' a] & -> & Hc & Hin). cbn in Hc. subst c'. exists (c, a). cbn.
    split; [by apply list_elem_of_In|]. by rewrite Z.eqb_refl, String.eqb_refl.
Qed.

Lemma HasMany_result {E} `{Env E} c (addresses : list string) (w w1 : World E) :
  env_db w = (Ok tt, w1) -> exists m w', HasMany c addresses w = (Ok m, w') /\
    forall la, m !! la = if decide (la ∈ to_lower <$> addresses)
                         then Some (account_row (w_db w1) c la) else None.
Proof.
  intros Hdb. destruct addresses as [|a rest]; cbn [HasMany].
  { exists ∅, w. split; [done|]. intros la. by rewrite decide_False by apply not_elem_of_nil. }
  eexists _, w1. split; [unfold query, query_at, wrapf, bind; by rewrite Hdb|].
  intros la. rewrite !foldl_insert_lookup, lookup_empty.
  pose proof (account_row_spec (w_db w1) c la) as Hr.
  pose proof (dedup_lower_elem (a :: rest) ∅ la) as Hd.
  assert (la ∉ (∅ : gset string)) as He by set_solver.
  destruct (decide (la ∈ to_lower <$> a :: rest)) as [Hin|Hout].
  - destruct (account_row (w_db w1) c la) eqn:Ha.
    + rewrite decide_True; [done|]. apply list_elem_of_filter. tauto.
    + rewrite decide_False by (rewrite list_elem_of_filter; naive_solver).
      by rewrite decide_True by tauto.
  - rewrite decide_False by (rewrite list_elem_of_filter; tauto).
    by rewrite decide_False by tauto.
Qed.

(** C37. One batch query answers like one query per address: [HasMany] has an
    entry for exactly the addresses asked for (lower-cased) and the entry of
    [a] is what [Has] returns for [a] on the same account table, in whatever
    case either is written. *)
Theorem HasMany_agrees_with_Has {E : Type} `{Env E} (chainID : Z) (addresses : list string) (w w1 : World E) :
  env_db w = (Ok tt, w1) ->
  exists m w', HasMany chainID addresses w = (Ok m, w') /\
    dom m = list_to_set (to_lower <$> addresses) /\
    forall a w2 w3, a ∈ addresses -> env_has w2 = (Ok tt, w3) -> accounts (w_db w3) = accounts (w_db w1) ->
      exists b, m !! to_lower a = Some b /\ Has chainID a w2 = (Ok b, w3).
Proof.
  intros Hdb. destruct (HasMany_result chainID addresses w w1 Hdb) as (m & w' & Hrun & Hm).
  exists m, w'. split_and!; [done| |].
  - apply set_eq. intros la. rewrite elem_of_dom, Hm, elem_of_list_to_set.
    destruct (decide _); split; [done|by eexists|by intros [? ?]|done].
  - intros a w2 w3 Ha Hh Hacc. eexists. split.
    + rewrite Hm, decide_True; [done|by apply list_elem_of_fmap_2].
    + unfold Has, query_account, wrapf, bind. rewrite Hh. unfold account_row. by rewrite Hacc.
Qed.

(** Lookups are scoped to the chain: the accounts of other chains never
    change what [Has] and [HasMany] answer for a chain. *)
Theorem accounts_scoped {E : Type} `{Env E} (chainID : Z) (addresses : list string) (w w1 w' w1' : World E) :
  filter (fun r => r.1 = chainID) (accounts (w_db w1)) =
  filter (fun r => r.1 = chainID) (accounts (w_db w1')) ->
  (env_db w = (Ok tt, w1) -> env_db w' = (Ok tt, w1') ->
   (HasMany chainID addresses w).1 = (HasMany chainID addresses w').1) /\
  (env_has w = (Ok tt, w1) -> env_has w' = (Ok tt, w1') ->
   forall a, (Has chainID a w).1 = (Has chainID a w').1).
Proof.
  intros Heq. split; intros Hdb Hdb'.
  - destruct addresses; [done|]. cbn [HasMany]. unfold query, query_at, wrapf, bind.
    rewrite Hdb, Hdb'. cbn. by rewrite Heq.
  - intros a. unfold Has, query_account, wrapf, bind. rewrite Hdb, Hdb'. cbn. f_equal.
    apply eq_true_iff_eq. by rewrite !account_row_spec, Heq.
Qed.

(** ** Fingerprint *)

Definition no_char (c : ascii) (s : string) : Prop := all_chars (fun x => negb (Ascii.eqb x c)) s = true.

#[local] Instance addr_le_trans : Transitive addr_le.
Proof. intros x y z. unfold addr_le. apply transitivity. Qed.
#[local] Instance addr_le_total : Total addr_le.
Proof. intros x y. unfold addr_le. apply total, _. Qed.

(** sorting forgets the order of entries with distinct addresses *)
Lemma sort_perm (l l' : list (string * ContractInfo)) :
  NoDup l.*1 -> l ≡ₚ l' -> merge_sort addr_le l = merge_sort addr_le l'.
Proof.
  intros Hnd Hp. apply (StronglySorted_unique_strong addr_le).
  - intros x y Hx Hy Hxy Hyx.
    rewrite (merge_sort_Permutation addr_le) in Hx, Hy. rewrite <- Hp in Hy.
    assert (x.1 = y.1) as Heq by (apply (anti_symm strings.String.le); done).
    destruct x as [a x], y as [b y]. cbn in Heq. subst b. f_equal.
    clear -Hnd Hx Hy. induction l as [|[c z] l IH]; [by apply not_elem_of_nil in Hx|].
    cbn in Hnd. apply NoDup_cons in Hnd as [Hn Hnd].
    apply elem_of_cons in Hx as [Hx|Hx], Hy as [Hy|Hy]; simplify_eq; try done.
    + exfalso. apply Hn. by apply (list_elem_of_fmap_2 fst) in Hy.
    + exfalso. apply Hn. by apply (list_elem_of_fmap_2 fst) in Hx.
    + by apply IH.
  - apply StronglySorted_merge_sort; apply _.
  - apply StronglySorted_merge_sort; apply _.
  - by rewrite !(merge_sort_Permutation addr_le).
Qed.

Definition entry_body (x : string * ContractInfo) : string :=
  x.1 +:+ String ":" (c_Symbol x.2 +:+ String ":" (dec (c_Decimals x.2))).

Definition clean_entry (x : string * ContractInfo) : Prop :=
  no_char "|" x.1 /\ no_char ":" x.1 /\ no_char "|" (c_Symbol x.2).

Lemma entry_body_inj x y : clean_entry x -> clean_entry y -> entry_body x = entry_body y -> x = y.
Proof.
  intros (_ & Hx & _) (_ & Hy & _) Heq. unfold entry_body in Heq.
  apply split_first_sep in Heq as [H1 Heq]; [|done..].
  apply split_last_sep in Heq as [H2 H3]; [|by apply dec_no_char..].
  apply dec_inj in H3. destruct x as [a [s d]], y as [a' [s' d']]. cbn in *. by subst.
Qed.

Lemma entry_body_clean x : clean_entry x -> no_char "|" (entry_body x).
Proof.
  intros (H1 & _ & H3). unfold no_char, entry_body in *.
  rewrite all_chars_append, H1. cbn. rewrite all_chars_append, H3. cbn. by apply dec_no_char.
Qed.

Lemma entries_inj l : forall l' : list (string * ContractInfo),
  Forall clean_entry l -> Forall clean_entry l' ->
  foldr (fun x s => fingerprint_entry x +:+ s) "" l +:+ "|" =
  foldr (fun x s => fingerprint_entry x +:+ s) "" l' +:+ "|" -> l = l'.
Proof.
  assert (forall l, exists t, foldr (fun x s => fingerprint_entry x +:+ s) "" l +:+ "|" = String "|" t) as Hbar.
  { intros [|x l1]; cbn; by eexists. }
  assert (forall x s, fingerprint_entry x +:+ s = String "|" (entry_body x +:+ s)) as Hentry by done.
  induction l as [|x l IH]; intros [|y l'] Hl Hl' Heq; [done|..].
  - exfalso. cbn [foldr] in Heq. rewrite Hentry in Heq. injection Heq as Heq.
    destruct (entry_body y +:+ _) as [|c s]; cbn in Heq; [done|]. by destruct s.
  - exfalso. cbn [foldr] in Heq. rewrite Hentry in Heq. injection Heq as Heq.
    destruct (entry_body x +:+ _) as [|c s]; cbn in Heq; [done|]. by destruct s.
  - inversion Hl; inversion Hl'; subst. cbn [foldr] in Heq. rewrite !Hentry in Heq.
    set (F := foldr (fun x s => fingerprint_entry x +:+ s) "") in *.
    assert (String "|" (entry_body x +:+ (F l +:+ "|")) = String "|" (entry_body y +:+ (F l' +:+ "|"))) as Heq'
      by (rewrite !sappend_assoc; exact Heq).
    clear Heq. injection Heq' as Heq.
    destruct (Hbar l) as [t Ht], (Hbar l') as [t' Ht']. rewrite Ht, Ht' in Heq.
    apply split_first_sep in Heq as [H1' H2']; [|by apply entry_body_clean..].
    apply entry_body_inj in H1' as ->; [|done..]. f_equal. apply IH; [done..|].
    by rewrite Ht, Ht', H2'.
Qed.

Lemma sappend_inj_l (a b c : string) : a +:+ b = a +:+ c -> b = c.
Proof. induction a as [|x a IH]; [done|]. intros [= Heq]. by apply IH. Qed.

Lemma fingerprint_text_inj n n' addrs toks addrs' toks' :
  no_char "|" n -> no_char "|" n' ->
  Forall clean_entry (zip addrs toks) -> Forall clean_entry (zip addrs' toks') ->
  fingerprint_text n addrs toks = fingerprint_text n' addrs' toks' ->
  n = n' /\ zip addrs toks ≡ₚ zip addrs' toks'.
Proof.
  intros Hn Hn' Hc Hc' Heq. unfold fingerprint_text in Heq. apply sappend_inj_l in Heq.
  assert (forall l, Forall clean_entry l -> Forall clean_entry (merge_sort addr_le l)) as Hs.
  { intros l Hl. by rewrite (merge_sort_Permutation addr_le). }
  set (l := merge_sort addr_le (zip addrs toks)) in *. set (l' := merge_sort addr_le (zip addrs' toks')) in *.
  assert (forall l : list (string * ContractInfo), exists t,
    foldr (fun x s => fingerprint_entry x +:+ s) "" l +:+ "|" = String "|" t) as Hbar.
  { intros [|x l1]; cbn; by eexists. }
  apply (f_equal (fun s => s +:+ "|")) in Heq. rewrite <- !sappend_assoc in Heq.
  destruct (Hbar l) as [t Ht], (Hbar l') as [t' Ht']. rewrite Ht, Ht' in Heq.
  apply split_first_sep in Heq as [-> Heq]; [|done..]. split; [done|].
  rewrite <- (merge_sort_Permutation addr_le (zip addrs toks)), <- (merge_sort_Permutation addr_le (zip addrs' toks')).
  fold l l'. by rewrite (entries_inj l l'); [| apply Hs..|rewrite Ht, Ht', Heq].
Qed.

(** ** Grouping the joined rows *)

Definition acc_of (rows : list JoinRow) : option acc :=
  match rows with
  | [] => None
  | r :: _ => Some (foldl (fun a r => acc_add a (j_token r)) (mkAcc (j_rpc r) (j_native r) [] []) rows)
  end.

Lemma acc_of_snoc rows r : acc_of (rows ++ [r]) =
  Some (acc_add (default (mkAcc (j_rpc r) (j_native r) [] []) (acc_of rows)) (j_token r)).
Proof. destruct rows as [|r0 rows]; [done|]. cbn. by rewrite foldl_app. Qed.

Lemma add_row_ids st r id : id ∈ (add_row st r).*1 <-> id ∈ st.*1 \/ id = j_chain r.
Proof.
  induction st as [|[i a] st IH]; cbn; [set_solver|].
  destruct (Z.eqb_spec i (j_chain r)); cbn; rewrite !elem_of_cons; [naive_solver|]. rewrite IH. tauto.
Qed.

Lemma add_row_nodup st r : NoDup st.*1 -> NoDup (add_row st r).*1.
Proof.
  induction st as [|[i a] st IH]; cbn; intros Hnd; [apply NoDup_singleton|].
  apply NoDup_cons in Hnd as [Hi Hnd]. destruct (Z.eqb_spec i (j_chain r)); cbn; constructor; auto.
  rewrite add_row_ids. naive_solver.
Qed.

Lemma add_row_elem st r id a : NoDup st.*1 ->
  (id, a) ∈ add_row st r <-> (id <> j_chain r /\ (id, a) ∈ st) \/
    (id = j_chain r /\ ((exists a0, (id, a0) ∈ st /\ a = acc_add a0 (j_token r)) \/
      (id ∉ st.*1 /\ a = acc_add (mkAcc (j_rpc r) (j_native r) [] []) (j_token r)))).
Proof.
  intros Hnd. induction st as [|[i b] st IH]; cbn.
  { rewrite list_elem_of_singleton. setoid_rewrite elem_of_nil. naive_solver. }
  cbn in Hnd. apply NoDup_cons in Hnd as [Hi Hnd]. specialize (IH Hnd).
  destruct (Z.eqb_spec i (j_chain r)) as [->|Hne].
  - assert (forall x, (j_chain r, x) ∈ st -> False) as Hno.
    { intros x Hx. apply Hi. by apply (list_elem_of_fmap_2 fst) in Hx. }
    setoid_rewrite elem_of_cons. split.
    + intros [[= -> ->]|Hin]; [right; split; [done|left; eauto]|].
      left. split; [intros ->; by eapply Hno|by right].
    + intros [[Hn [[= -> ->]|Hin]]|[-> [(a0 & [[= ->]|Hin] & ->)|[Hn _]]]];
        [done|by right|by left|by edestruct Hno|]. exfalso. apply Hn. by left.
  - setoid_rewrite elem_of_cons. rewrite IH. split.
    + intros [[= -> ->]|[[Hn Hin]|[-> [(a0 & Hin & ->)|[Hn ->]]]]];
        [left; split; [done|by left]|left; split; [done|by right]|right; split; [done|left; eauto]|].
      right. split; [done|]. right. split; [|done]. by intros [Heq|?].
    + intros [[Hn [[= -> ->]|Hin]]|[-> [(a0 & [[= <- ->]|Hin] & ->)|[Hn ->]]]];
        [by left|right; left; by split|done|right; right; split; [done|left; eauto]|].
      right; right. split; [done|]. right. split; [|done]. intros Hin. apply Hn. by right.
Qed.

Lemma grouped (L : list JoinRow) :
  NoDup (foldl add_row [] L).*1 /\
  forall id a, (id, a) ∈ foldl add_row [] L <-> acc_of (filter (fun r => j_chain r = id) L) = Some a.
Proof.
  induction L as [|r L [Hnd IH]] using rev_ind.
  { split; [constructor|]. intros id a. cbn. rewrite elem_of_nil. by split. }
  rewrite foldl_app. cbn. split; [by apply add_row_nodup|]. intros id a.
  rewrite add_row_elem by done. rewrite filter_app, filter_cons, filter_nil.
  destruct (decide (j_chain r = id)) as [<-|Hne].
  - rewrite acc_of_snoc. setoid_rewrite IH.
    assert (j_chain r ∈ (foldl add_row [] L).*1 <->
      is_Some (acc_of (filter (fun r0 => j_chain r0 = j_chain r) L))) as Hids.
    { rewrite list_elem_of_fmap. split.
      - intros ([i b] & -> & Hin). apply IH in Hin. eauto.
      - intros [b Hb]. exists (j_chain r, b). split; [done|]. by apply IH. }
    destruct (acc_of _) as [b|]; cbn; split.
    + intros [[? _]|[_ [(a0 & [= <-] & ->)|[Hn _]]]]; [done..|]. exfalso. apply Hn, Hids. eauto.
    + intros [= <-]. right. split; [done|]. left. eauto.
    + intros [[? _]|[_ [(a0 & ? & _)|[_ ->]]]]; done.
    + intros [= <-]. right. split; [done|]. right. split; [|done].
      intros Hin%Hids. by destruct Hin.
  - rewrite app_nil_r, IH. naive_solver.
Qed.

(** tokens of a chain, as the fingerprint and [tokensOf] see them *)
Definition token_pair (t : TokenRow) : string * ContractInfo :=
  (to_lower (tk_contract_address t), mkContract (tk_symbol t) (tk_decimals t)).
Definition token_pairs (db : DB) (id : Z) : list (string * ContractInfo) := token_pair <$> active_tokens db id.

Lemma acc_fold rows : forall a, exists ts, ts = token_pair <$> omap j_token rows /\
  foldl (fun a r => acc_add a (j_token r)) a rows =
  mkAcc (a_rpcURL a) (a_native a) (a_tokens a ++ ts.*2) (a_addrs a ++ ts.*1).
Proof.
  induction rows as [|r rows IH]; intros a; eexists; (split; [done|]); cbn.
  - rewrite !app_nil_r. by destruct a.
  - destruct (IH (acc_add a (j_token r))) as (ts & -> & Hf). rewrite Hf.
    destruct (j_token r) as [t|]; cbn; [|done]. by rewrite <- !app_assoc.
Qed.

Lemma acc_of_rows rpc native rows :
  rows <> [] -> Forall (fun r => j_rpc r = rpc /\ j_native r = native) rows ->
  let ts := token_pair <$> omap j_token rows in
  acc_of rows = Some (mkAcc rpc native ts.*2 ts.*1).
Proof.
  intros Hne Hr. destruct rows as [|r rows]; [done|]. unfold acc_of.
  apply Forall_cons in Hr as [[<- <-] _].
  destruct (acc_fold (r :: rows) (mkAcc (j_rpc r) (j_native r) [] [])) as (ts & -> & Hf).
  by rewrite Hf.
Qed.

Lemma join_row_spec db c :
  join_row db c <> [] /\ omap j_token (join_row db c) = active_tokens db (ch_chain_id c) /\
  Forall (fun r => j_chain r = ch_chain_id c /\ j_rpc r = ch_rpc_url c /\ j_native r = ch_native c) (join_row db c).
Proof.
  unfold join_row. destruct (active_tokens db (ch_chain_id c)) as [|t ts]; [by repeat constructor|].
  split_and!; [done| |].
  - cbn. f_equal. induction ts as [|t' ts IH]; [done|]. cbn. by rewrite IH.
  - apply Forall_fmap, Forall_true. done.
Qed.

(** the joined rows of one chain id *)
Lemma rows_of_chain db cs id c :
  NoDup (ch_chain_id <$> cs) -> c ∈ cs -> ch_chain_id c = id ->
  filter (fun r => j_chain r = id) (cs ≫= join_row db) = join_row db c.
Proof.
  assert (forall c' : ChainRow, filter (fun r => j_chain r = id) (join_row db c') =
    if decide (ch_chain_id c' = id) then join_row db c' else []) as Hone.
  { intros c'. pose proof (join_row_spec db c') as (_ & _ & Hf).
    induction Hf as [|r rows (Hr & _) _ IH]; [by destruct (decide _)|].
    rewrite filter_cons, Hr, IH. by destruct (decide _). }
  assert (forall cs', id ∉ ch_chain_id <$> cs' ->
    filter (fun r => j_chain r = id) (cs' ≫= join_row db) = []) as Hnone.
  { induction cs' as [|c' cs' IH]; intros Hn; [done|]. cbn in Hn. apply not_elem_of_cons in Hn as [Hn1 Hn2].
    cbn. rewrite filter_app, Hone, decide_False, IH by done. done. }
  intros Hnd Hin Hid. induction cs as [|c' cs IH]; [by apply not_elem_of_nil in Hin|].
  cbn in Hnd. apply NoDup_cons in Hnd as [Hc' Hnd]. cbn. rewrite filter_app, Hone.
  apply elem_of_cons in Hin as [<-|Hin].
  - rewrite decide_True by done. rewrite Hnone; [by rewrite app_nil_r|by rewrite <- Hid].
  - rewrite decide_False, IH; [done..|]. intros Heq. apply Hc'. rewrite Heq, <- Hid.
    by apply list_elem_of_fmap_2.
Qed.

Lemma filter_perm {A} (P : A -> Prop) `{!forall x, Decision (P x)} (l l' : list A) :
  l ≡ₚ l' -> filter P l ≡ₚ filter P l'.
Proof. by intros ->. Qed.

(** the result of [ActiveChains] on a table whose active chain ids are unique *)
Definition infos_of `{Sha} (db : DB) : list ChainInfo :=
  (fun '(id, a) => mkChainInfo id (a_rpcURL a) (fingerprint (a_native a) (a_addrs a) (a_tokens a)))
    <$> foldl add_row [] (chain_rows db).

Lemma infos_of_elem `{Sha} db ci :
  NoDup (ch_chain_id <$> active_chains db) ->
  (forall id, NoDup (token_pairs db id).*1) ->
  ci ∈ infos_of db <-> exists c, c ∈ active_chains db /\
    ci = mkChainInfo (ch_chain_id c) (ch_rpc_url c)
      (fingerprint (ch_native c) (token_pairs db (ch_chain_id c)).*1 (token_pairs db (ch_chain_id c)).*2).
Proof.
  intros Hnd Htok. destruct (grouped (chain_rows db)) as [_ Hg].
  assert (forall c, c ∈ active_chains db -> exists a,
    acc_of (filter (fun r => j_chain r = ch_chain_id c) (chain_rows db)) = Some a /\
    a_rpcURL a = ch_rpc_url c /\ a_native a = ch_native c /\
    zip (a_addrs a) (a_tokens a) ≡ₚ token_pairs db (ch_chain_id c)) as Hacc.
  { intros c Hc. set (rows := filter _ _).
    assert (rows ≡ₚ join_row db c) as Hp.
    { subst rows. unfold chain_rows. rewrite (merge_sort_Permutation join_le).
      by rewrite (rows_of_chain db (active_chains db) (ch_chain_id c) c). }
    destruct (join_row_spec db c) as (Hne & Hts & Hf).
    eexists. split; [apply (acc_of_rows (ch_rpc_url c) (ch_native c))|cbn; split_and!; [done..|]].
    - intros Hnil. rewrite Hnil in Hp. by apply Permutation_nil_l in Hp.
    - rewrite Hp. eapply Forall_impl; [exact Hf|]. by intros r (_ & ? & ?).
    - rewrite zip_fst_snd. unfold token_pairs. rewrite <- Hts. apply fmap_Permutation, omap_Permutation. done. }
  assert (forall a c, zip (a_addrs a) (a_tokens a) ≡ₚ token_pairs db (ch_chain_id c) -> a_native a = ch_native c ->
    fingerprint (a_native a) (a_addrs a) (a_tokens a) =
    fingerprint (ch_native c) (token_pairs db (ch_chain_id c)).*1 (token_pairs db (ch_chain_id c)).*2) as Hfp.
  { intros a c Hz ->. unfold fingerprint, fingerprint_text. rewrite zip_fst_snd.
    rewrite (sort_perm (zip (a_addrs a) (a_tokens a)) (token_pairs db (ch_chain_id c))); [done| |done].
    rewrite Hz. apply Htok. }
  unfold infos_of. rewrite list_elem_of_fmap. split.
  - intros ([id a] & -> & Hin). apply Hg in Hin.
    assert (exists c, c ∈ active_chains db /\ ch_chain_id c = id) as (c & Hc & <-).
    { destruct (filter (fun r => j_chain r = id) (chain_rows db)) as [|r rows] eqn:Hrows; [done|].
      assert (r ∈ filter (fun r => j_chain r = id) (chain_rows db)) as Hr by (rewrite Hrows; left).
      apply list_elem_of_filter in Hr as [Hid Hr]. unfold chain_rows in Hr.
      rewrite (merge_sort_Permutation join_le) in Hr. apply list_elem_of_bind in Hr as (c & Hr & Hc).
      exists c. split; [done|]. destruct (join_row_spec db c) as (_ & _ & Hf).
      rewrite Forall_forall in Hf. destruct (Hf r Hr) as (Hrc & _). congruence. }
    exists c. split; [done|]. destruct (Hacc c Hc) as (a' & Ha' & Hrpc & Hnat & Hz).
    rewrite Hin in Ha'. injection Ha' as <-. by rewrite Hrpc, (Hfp a c).
  - intros (c & Hc & ->). destruct (Hacc c Hc) as (a & Ha & Hrpc & Hnat & Hz).
    exists (ch_chain_id c, a). split; [by rewrite Hrpc, (Hfp a c)|]. by apply Hg.
Qed.

Lemma infos_of_nodup `{Sha} db : NoDup (ci_ChainID <$> infos_of db).
Proof.
  destruct (grouped (chain_rows db)) as [Hnd _]. unfold infos_of. rewrite <- list_fmap_compose.
  erewrite list_fmap_ext; [exact Hnd|]. by intros _ [id a] _.
Qed.

(** C38. [ActiveChains] lists every active chain exactly once, with its RPC URL
    and the fingerprint of its native symbol and active tokens, whatever the
    order the database returns the tokens in. *)
Theorem ActiveChains_complete {E : Type} `{Env E, Sha} (w w1 : World E) :
  env_db w = (Ok tt, w1) ->
  NoDup (ch_chain_id <$> active_chains (w_db w1)) ->
  (forall id, NoDup (token_pairs (w_db w1) id).*1) ->
  exists infos, ActiveChains w = (Ok infos, w1) /\ NoDup (ci_ChainID <$> infos) /\
    forall ci, ci ∈ infos <-> exists c, c ∈ active_chains (w_db w1) /\
      let ts := token_pairs (w_db w1) (ch_chain_id c) in
      ci = mkChainInfo (ch_chain_id c) (ch_rpc_url c) (fingerprint (ch_native c) ts.*1 ts.*2).
Proof.
  intros Hdb Hnd Htok. exists (infos_of (w_db w1)). split_and!.
  - unfold ActiveChains, query, query_at, wrapf, bind. by rewrite Hdb.
  - apply infos_of_nodup.
  - intros ci. by apply infos_of_elem.
Qed.

(** ** Detecting changes *)

Lemma tokens_map (l : list TokenRow) :
  foldl (fun m t => <[to_lower (tk_contract_address t) := mkContract (tk_symbol t) (tk_decimals t)]> m)
    (∅ : gmap string ContractInfo) l = list_to_map (reverse (token_pair <$> l)).
Proof.
  induction l as [|t l IH] using rev_ind; [done|].
  by rewrite foldl_app, fmap_app, reverse_app, IH.
Qed.

Lemma tokens_map_perm (l l' : list TokenRow) :
  NoDup (token_pair <$> l).*1 -> token_pair <$> l ≡ₚ token_pair <$> l' ->
  foldl (fun m t => <[to_lower (tk_contract_address t) := mkContract (tk_symbol t) (tk_decimals t)]> m)
    (∅ : gmap string ContractInfo) l =
  foldl (fun m t => <[to_lower (tk_contract_address t) := mkContract (tk_symbol t) (tk_decimals t)]> m) ∅ l'.
Proof.
  intros Hnd Hp. rewrite !tokens_map. apply list_to_map_proper.
  - by rewrite reverse_Permutation.
  - by rewrite !reverse_Permutation.
Qed.

Lemma tokens_map_inj (l l' : list TokenRow) :
  NoDup (token_pair <$> l).*1 -> NoDup (token_pair <$> l').*1 ->
  foldl (fun m t => <[to_lower (tk_contract_address t) := mkContract (tk_symbol t) (tk_decimals t)]> m)
    (∅ : gmap string ContractInfo) l =
  foldl (fun m t => <[to_lower (tk_contract_address t) := mkContract (tk_symbol t) (tk_decimals t)]> m) ∅ l' ->
  token_pair <$> l ≡ₚ token_pair <$> l'.
Proof.
  intros Hl Hl'. rewrite !tokens_map. intros Heq%list_to_map_inj; [|by rewrite reverse_Permutation..].
  by rewrite !reverse_Permutation in Heq.
Qed.

Lemma fingerprint_text_perm n addrs toks addrs' toks' :
  NoDup (zip addrs toks).*1 -> zip addrs toks ≡ₚ zip addrs' toks' ->
  fingerprint_text n addrs toks = fingerprint_text n addrs' toks'.
Proof. intros Hnd Hp. unfold fingerprint_text. by rewrite (sort_perm _ _ Hnd Hp). Qed.

(** C39. The fingerprint changes exactly with the token configuration, up to a
    collision of SHA-256.  Take two states of the database in which no two
    active tokens of the chain have the same address up to letter case, no
    native symbol contains a [|], and no address contains a [|] or a [:], no
    token symbol a [|] (the texts hashed are not unambiguous otherwise).  If
    the two fingerprints are equal, then the native symbol is the same and
    [tokensOf] returns the same map, or the two texts hashed are different
    strings with the same hash; and if the configuration is the same, whatever
    the order of the rows, so is the fingerprint. *)
Theorem fingerprint_detects {E : Type} `{Env E, Sha} (w1 w1' w2 w2' : World E) (id : Z) (n1 n2 : string) :
  env_db w1 = (Ok tt, w1') -> env_db w2 = (Ok tt, w2') ->
  let ts1 := token_pairs (w_db w1') id in
  let ts2 := token_pairs (w_db w2') id in
  let text1 := fingerprint_text n1 ts1.*1 ts1.*2 in
  let text2 := fingerprint_text n2 ts2.*1 ts2.*2 in
  NoDup ts1.*1 -> NoDup ts2.*1 -> no_char "|" n1 -> no_char "|" n2 ->
  Forall clean_entry ts1 -> Forall clean_entry ts2 ->
  let same := n1 = n2 /\ (tokensOf id w1).1 = (tokensOf id w2).1 in
  let eq_fp := fingerprint n1 ts1.*1 ts1.*2 = fingerprint n2 ts2.*1 ts2.*2 in
  (eq_fp -> same \/ (text1 <> text2 /\ sha256_hex text1 = sha256_hex text2)) /\ (same -> eq_fp).
Proof.
  cbv zeta. intros Hdb1 Hdb2 Hnd Hnd' Hn1 Hn2 Hc1 Hc2.
  unfold tokensOf, query, query_at, wrapf, bind. rewrite Hdb1, Hdb2. cbn. split.
  - intros Heq. destruct (decide (fingerprint_text n1 (token_pairs (w_db w1') id).*1 (token_pairs (w_db w1') id).*2 =
      fingerprint_text n2 (token_pairs (w_db w2') id).*1 (token_pairs (w_db w2') id).*2)) as [Ht|Ht];
      [left|by right].
    apply fingerprint_text_inj in Ht as [-> Hp]; rewrite ?zip_fst_snd in *; [|done..].
    by rewrite (tokens_map_perm _ _ Hnd Hp).
  - intros [-> [= Heq]]. unfold fingerprint. f_equal.
    apply fingerprint_text_perm; rewrite !zip_fst_snd; [done|]. by apply tokens_map_inj.
Qed.

(** The hash covers nothing else: two chains that differ in confirmations,
    block time or decimals have the same fingerprint. *)
Lemma fingerprint_ignores_chain_columns `{Sha} db id rpc nat d1 b1 c1 d2 b2 c2 ty name :
  let db1 := mkDB (deposit_buffer db) (buffer_seq db) (scan_cursor db) (notified db) (accounts db)
    [mkChainRow id name rpc nat d1 b1 c1 ty true] (token db) in
  let db2 := mkDB (deposit_buffer db) (buffer_seq db) (scan_cursor db) (notified db) (accounts db)
    [mkChainRow id name rpc nat d2 b2 c2 ty true] (token db) in
  infos_of db1 = infos_of db2.
Proof. done. Qed.

(** ** Polling interval *)

Lemma pollingInterval_bounds b :
  - two31 <= b < two31 -> 1000 <= pollingInterval b /\ pollingInterval b * 1000000 < two63.
Proof.
  intros Hb. unfold pollingInterval. rewrite i64_small by width.
  cbv zeta. unfold two31, two63 in *. pose proof (Z.quot_rem' (b * 1000) 3).
  pose proof (Z.rem_bound_abs (b * 1000) 3).
  destruct (Z.ltb_spec (Z.quot (b * 1000) 3) 1000); lia.
Qed.

(** The configuration of a chain: a missing or inactive chain is a
    [ConfigError]; otherwise the row and its tokens are returned, the chain
    type defaults to [erc20], and the polling interval is a third of the block
    time but at least one second, so the loop's ticker can always be created. *)
Theorem ChainConfig_spec {E : Type} `{Env E} (id : Z) (w w1 w2 : World E) :
  env_db w = (Ok tt, w1) -> env_db w1 = (Ok tt, w2) ->
  Forall (fun c => - two31 <= ch_block_time c < two31) (chain (w_db w1)) ->
  match filter (fun c => ch_chain_id c = id /\ ch_active c = true) (chain (w_db w1)) with
  | [] => exists msg, ChainConfig_of id w = (Err (ConfigError "chain" msg), w1)
  | c :: _ => exists cc, ChainConfig_of id w = (Ok cc, w2) /\
      cc_ChainID cc = id /\ cc_RPCURL cc = ch_rpc_url c /\ cc_MinConfirmations cc = ch_confirmations c /\
      cc_PollingIntervalMs cc = Z.max 1000 (Z.quot (ch_block_time c * 1000) 3) /\
      0 < i64 (cc_PollingIntervalMs cc * 1000000) /\
      (ch_chain_type c = None -> cc_ChainType cc = "erc20") /\
      (tokensOf id w1).1 = Ok (cc_Contracts cc)
  end.
Proof.
  intros Hdb1 Hdb2 Hbt. unfold ChainConfig_of, tokensOf, query, query_at, wrapf, bind. rewrite Hdb1, Hdb2.
  destruct (filter _ (chain (w_db w1))) as [|c cs] eqn:Hf; cbn; [by eexists|].
  eexists. split; [done|].
  assert (- two31 <= ch_block_time c < two31) as Hb.
  { rewrite Forall_forall in Hbt. apply Hbt.
    assert (c ∈ filter (fun c => ch_chain_id c = id /\ ch_active c = true) (chain (w_db w1))) as Hin
      by (rewrite Hf; left).
    by apply list_elem_of_filter in Hin as [_ Hin]. }
  pose proof (pollingInterval_bounds _ Hb) as [H1 H2]. cbn. split_and!; try done.
  - clear H1 H2. unfold pollingInterval. rewrite (i64_small (ch_block_time c * 1000)) by width. cbv zeta.
    destruct (Z.ltb_spec (Z.quot (ch_block_time c * 1000) 3) 1000); lia.
  - rewrite i64_small by (unfold is_i64; lia). lia.
  - by intros ->.
Qed.

(** ** Concrete runs *)
Module ReposWitness.
Import Quiet.

Definition db0 : DB := mkDB [] 1 ∅ 0 [(1, "0xAbC"); (2, "0xdef")]
  [mkChainRow 1 "ETH" "http://eth" "ETH" 18 12 12 None true; mkChainRow 2 "KCP" "http://kcp" "KRW" 18 2 3 (Some "eerc20") true]
  [mkTokenRow 1 "0xBB" "USDT" 6 true; mkTokenRow 1 "0xAA" "WETH" 18 true; mkTokenRow 1 "0xCC" "OLD" 18 false].
Definition w0 : World Z := mkWorld db0 ∅ 0.
Definition sha_id : Sha := {| sha256_hex s := s |}.

Lemma HasMany_agrees_with_Has_witness : exists m w',
  HasMany 1 ["0xabc"; "0xDEF"; "0xABC"] w0 = (Ok m, w') /\ m !! "0xabc" = Some true /\ m !! "0xdef" = Some false.
Proof.
  destruct (HasMany_agrees_with_Has (E := Z) (H := quiet) 1 ["0xabc"; "0xDEF"; "0xABC"] w0 w0 eq_refl) as (m & w' & Hr & _ & Hm).
  exists m, w'. split; [exact Hr|]. split.
  - destruct (Hm "0xabc" w0 w0 ltac:(left) eq_refl eq_refl) as (b & Hb & Hh). vm_compute in Hh. injection Hh as <-. exact Hb.
  - destruct (Hm "0xDEF" w0 w0 ltac:(right; left) eq_refl eq_refl) as (b & Hb & Hh). vm_compute in Hh. injection Hh as <-. exact Hb.
Defined.

Lemma accounts_scoped_witness :
  (Has 1 "0xabc" w0).1 = (Has 1 "0xabc" (mkWorld (mkDB [] 1 ∅ 0 [(3, "0xabc"); (1, "0xAbC")] [] []) ∅ 0)).1.
Proof.
  apply (accounts_scoped (E := Z) (H := quiet) 1 [] w0 w0 (mkWorld (mkDB [] 1 ∅ 0 [(3, "0xabc"); (1, "0xAbC")] [] []) ∅ 0)
    (mkWorld (mkDB [] 1 ∅ 0 [(3, "0xabc"); (1, "0xAbC")] [] []) ∅ 0)); reflexivity.
Defined.

Lemma tokens_nodup id : NoDup (token_pairs db0 id).*1.
Proof.
  unfold token_pairs, active_tokens, db0. cbn [token].
  repeat (rewrite filter_cons; cbn [tk_chain_id tk_active]; destruct (decide _) as [[? ?]|]);
    rewrite ?filter_nil; try done; cbn; repeat constructor; set_solver.
Qed.

Lemma ActiveChains_complete_witness : exists infos, ActiveChains (H0 := sha_id) w0 = (Ok infos, w0) /\
  mkChainInfo 1 "http://eth" "native:ETH|0xaa:WETH:18|0xbb:USDT:6" ∈ infos.
Proof.
  destruct (ActiveChains_complete (E := Z) (H := quiet) (H0 := sha_id) w0 w0 eq_refl) as (infos & Hr & _ & Hi).
  - vm_compute. repeat constructor; set_solver.
  - apply tokens_nodup.
  - exists infos. split; [exact Hr|]. apply Hi.
    exists (mkChainRow 1 "ETH" "http://eth" "ETH" 18 12 12 None true). split; [left|vm_compute; reflexivity].
Defined.

(* the same tokens in another row order and letter case; a changed token *)
Definition with_tokens (ts : list TokenRow) : World Z := mkWorld (mkDB [] 1 ∅ 0 [] (chain db0) ts) ∅ 0.
Definition w_shuffled : World Z := with_tokens [mkTokenRow 1 "0xaa" "WETH" 18 true; mkTokenRow 1 "0xbb" "USDT" 6 true].
Definition w_changed : World Z := with_tokens [mkTokenRow 1 "0xaa" "WETH" 18 true; mkTokenRow 1 "0xbb" "USDT" 8 true].

Lemma fingerprint_detects_witness :
  (tokensOf 1 w0).1 = (tokensOf 1 w_shuffled).1 /\
  let ts := token_pairs (w_db w_changed) 1 in
  fingerprint (H := sha_id) "ETH" (token_pairs db0 1).*1 (token_pairs db0 1).*2 <>
  fingerprint (H := sha_id) "ETH" ts.*1 ts.*2.
Proof.
  pose proof (fun w => fingerprint_detects (E := Z) (H := quiet) (H0 := sha_id) w0 w0 w w 1 "ETH" "ETH"
    eq_refl eq_refl (tokens_nodup 1)) as Hd.
  split.
  - destruct (Hd w_shuffled) as [Hs _].
    1: by vm_compute; repeat constructor; set_solver.
    1-4: by vm_compute; repeat constructor.
    destruct (Hs eq_refl) as [[_ He]|[Hne _]]; [exact He|]. by destruct Hne; vm_compute.
  - cbv zeta. intros Heq. destruct (Hd w_changed) as [Hs _].
    1: by vm_compute; repeat constructor; set_solver.
    1-4: by vm_compute; repeat constructor.
    destruct (Hs Heq) as [[_ He]|[Hne He]]; [|by destruct Hne].
    apply (f_equal (fun r => match r with Ok m => c_Decimals <$> m !! "0xbb" | _ => None end)) in He.
    vm_compute in He. discriminate.
Defined.

Lemma ChainConfig_spec_witness : exists cc, ChainConfig_of 1 w0 = (Ok cc, w0) /\
  cc_PollingIntervalMs cc = 4000 /\ cc_ChainType cc = "erc20".
Proof.
  destruct (ChainConfig_spec (E := Z) (H := quiet) 1 w0 w0 w0 eq_refl eq_refl) as (cc & Hr & _ & _ & _ & Hp & _ & Ht & _).
  - repeat constructor; by vm_compute.
  - exists cc. split; [exact Hr|]. split; [exact Hp|by apply Ht].
Defined.
End ReposWitness.
