(* ===== verification/Decoder.v ===== *)
(** * Log decoders and amount decryption ([scanner/decoder/*.go], [decryption/decryptor.go])

    The decoder registry, the ERC-20 and eERC decoders, and the decryptors the
    latter calls. *)
From stdpp Require Import base gmap list strings.
From Stdlib Require Import ZArith Lia Ascii String.
From stdpp Require Import base strings.
From S2P Require Import Prelude Decimal Errors Effect Retry Time Model Json Metrics Store Repos Scanner.

(** ** Bytes *)

(** [new(big.Int).SetBytes(b)]: big-endian *)
Definition SetBytes (bs : list Z) : Z := foldl (fun acc b => acc * 256 + b) 0 bs.

(** [common.BytesToAddress(h.Bytes())]: the low 20 bytes of a hash *)
Definition BytesToAddress (h : Hash) : Address := h mod 2 ^ 160.

(** ** Decryption *)

(** a [Decryptor]: seven field elements (nil allowed) to an amount *)
Definition Decryptor : Type := list (option Z) -> res Z.

Definition NoopDecryptor : Decryptor := fun _ => Err (ErrSentinel NotImplemented).

Fixpoint validate_from (i : Z) (pct : list (option Z)) : option goerr :=
  match pct with
  | [] => None
  | None :: _ => Some (ErrNew ("auditorPCT[" +:+ dec i +:+ "] is nil"))
  | Some v :: rest =>
      if v <? 0 then Some (ErrNew ("auditorPCT[" +:+ dec i +:+ "] cannot be negative"))
      else validate_from (i + 1) rest
  end.
Definition validatePCT (pct : list (option Z)) : option goerr := validate_from 0 pct.

(** [EnvDecryptor{privKey}] *)
Definition EnvDecryptor (privKey : Z) : Decryptor := fun pct =>
  match validatePCT pct with
  | Some err => Err err
  | None => Err (ErrSentinel NotImplemented)
  end.

(** [strings.TrimSpace] on ASCII *)
Definition is_space (c : ascii) : bool :=
  let n := nat_of_ascii c in ((9 <=? n) && (n <=? 13))%nat || (n =? 32)%nat.
Fixpoint trim_left (s : string) : string :=
  match s with
  | String c s' => if is_space c then trim_left s' else s
  | EmptyString => EmptyString
  end.
Fixpoint trim_right (s : string) : string :=
  match s with
  | EmptyString => EmptyString
  | String c s' => match trim_right s' with
                   | EmptyString => if is_space c then EmptyString else String c EmptyString
                   | t => String c t
                   end
  end.
Definition TrimSpace (s : string) : string := trim_right (trim_left s).

Definition hex_val (c : ascii) : option Z :=
  let n := Z.of_nat (nat_of_ascii c) in
  if (48 <=? n) && (n <=? 57) then Some (n - 48)
  else if (97 <=? n) && (n <=? 102) then Some (n - 87)
  else if (65 <=? n) && (n <=? 70) then Some (n - 55)
  else None.

(** [hex.DecodeString] *)
Fixpoint hex_DecodeString (s : string) : res (list Z) :=
  match s with
  | EmptyString => Ok []
  | String a EmptyString =>
      match hex_val a with
      | None => Err (ErrNew "encoding/hex: invalid byte")
      | Some _ => Err (ErrNew "encoding/hex: odd length hex string")
      end
  | String a (String b rest) =>
      match hex_val a, hex_val b with
      | Some x, Some y => match hex_DecodeString rest with
                          | Ok bs => Ok (x * 16 + y :: bs)
                          | r => r
                          end
      | _, _ => Err (ErrNew "encoding/hex: invalid byte")
      end
  end.

(** [NewEnvDecryptor(hexKey)]: the key, or [None] for [(nil, nil)] *)
Definition NewEnvDecryptor (hexKey : string) : res (option Z) :=
  let hexKey := TrimSpace hexKey in
  if String.eqb hexKey "" then Ok None
  else
    let hexKey := trim_prefix "0x" hexKey in
    match hex_DecodeString hexKey with
    | Err err => Err (Errorf "invalid hex key" err)
    | Panic p => Panic p
    | Ok raw =>
        if (Z.of_nat (length raw) =? 0) then Err (ErrNew "empty private key")
        else
          let pk := SetBytes raw in
          if pk =? 0 then Err (ErrNew "private key cannot be zero") else Ok (Some pk)
    end.

(** ** Decoders *)

Record Context := mkContext {
  x_ChainID : Z; x_Confirmations : Z; x_TransactionDatetime : string; x_Symbol : string }.

Record Decoder := mkDecoder {
  d_Name : string;
  d_Topics : list Hash;
  d_Decode : Log -> ContractInfo -> Context -> res (option DepositEvent)
}.

Record DecoderRegistry := mkRegistry { byTopic : gmap Hash Decoder; reg_topics : list Hash }.

Definition NewRegistry : DecoderRegistry := mkRegistry ∅ [].

Definition Register (d : Decoder) (r : DecoderRegistry) : DecoderRegistry :=
  foldl (fun r t => mkRegistry (<[t := d]> (byTopic r))
                      (if decide (is_Some (byTopic r !! t)) then reg_topics r else reg_topics r ++ [t]))
    r (d_Topics d).

Definition Lookup (r : DecoderRegistry) (topic : Hash) : option Decoder := byTopic r !! topic.
Definition Len (r : DecoderRegistry) : Z := Z.of_nat (length (reg_topics r)).

Section Decoders.
Context `{Eth}.

Definition TransferTopic : Hash := Keccak256Hash "Transfer(address,address,uint256)".
Definition PrivateTransferTopic : Hash := Keccak256Hash "PrivateTransfer(address,address,uint256[7],address)".

(** the event both decoders build *)
Definition decoded (lg : Log) (from to : Hash) (amount : Z) (info : ContractInfo) (ctx : Context) : DepositEvent :=
  mkEvent (x_ChainID ctx) (hashHex (lg_TxHash lg)) (i64 (lg_Index lg))
    (addrHex (BytesToAddress from)) (addrHex (BytesToAddress to)) (Some amount)
    (x_Symbol ctx) (c_Decimals info) (x_Confirmations ctx) (x_TransactionDatetime ctx).

Definition ERC20_Decode (lg : Log) (info : ContractInfo) (ctx : Context) : res (option DepositEvent) :=
  match lg_Topics lg with
  | t0 :: from :: to :: _ =>
      if (t0 =? TransferTopic) && (32 <=? Z.of_nat (length (lg_Data lg)))
      then Ok (Some (decoded lg from to (SetBytes (take 32 (lg_Data lg))) info ctx))
      else Ok None
  | _ => Ok None
  end.
Definition StandardERC20 : Decoder := mkDecoder "erc20" [TransferTopic] ERC20_Decode.

(** [log.Data[i*32 : (i+1)*32]] for i in 0..6 *)
Definition pct_of (data : list Z) : list (option Z) :=
  (fun i => Some (SetBytes (take 32 (drop (i * 32) data)))) <$> seq 0 7.

Definition EERC_Decode (decryptor : Decryptor) (lg : Log) (info : ContractInfo) (ctx : Context)
    : res (option DepositEvent) :=
  match lg_Topics lg with
  | t0 :: from :: to :: _ :: _ =>
      if negb (t0 =? PrivateTransferTopic) then Ok None
      else if Z.of_nat (length (lg_Data lg)) <? 7 * 32 then Ok None
      else
        match decryptor (pct_of (lg_Data lg)) with
        | Ok amount => Ok (Some (decoded lg from to amount info ctx))
        | Err err => Err (Errorf "eERC decrypt" err)
        | Panic p => Panic p
        end
  | _ => Ok None
  end.
(** [NewEERC(decryptor)]: nil becomes [NoopDecryptor] *)
Definition EERC (decryptor : option Decryptor) : Decoder :=
  mkDecoder "eerc" [PrivateTransferTopic] (EERC_Decode (default NoopDecryptor decryptor)).
End Decoders.

(** ** Lemmas *)

(** every registered topic is listed once, and only those *)
Definition registry_wf (r : DecoderRegistry) : Prop :=
  NoDup (reg_topics r) /\ forall t, t ∈ reg_topics r <-> is_Some (byTopic r !! t).

Lemma Register_spec d r : registry_wf r ->
  registry_wf (Register d r) /\ reg_topics r `prefix_of` reg_topics (Register d r) /\
  forall t, Lookup (Register d r) t = if decide (t ∈ d_Topics d) then Some d else Lookup r t.
Proof.
  unfold Register. generalize (d_Topics d) as ts. intros ts Hr.
  induction ts as [|t ts IH] using rev_ind.
  { cbn. split_and!; [done..|]. intros t. by rewrite decide_False by apply not_elem_of_nil. }
  destruct IH as ([Hnd Hdom] & Hpre & Hlk). rewrite foldl_app. cbn.
  set (r' := foldl _ r ts) in *. unfold Lookup in *. split_and!.
  - split; cbn.
    + destruct (decide _) as [|Hn]; [done|]. apply NoDup_app. split_and!; [done| |apply NoDup_singleton].
      intros t' Ht' ->%list_elem_of_singleton. by apply Hn, Hdom.
    + intros t'. rewrite lookup_insert_is_Some.
      destruct (decide (is_Some (byTopic r' !! t))) as [Hs|Hs].
      * rewrite Hdom. split; [destruct (decide (t = t')); naive_solver|]. intros [<-|[_ ?]]; done.
      * rewrite elem_of_app, list_elem_of_singleton, Hdom. destruct (decide (t = t')); naive_solver.
  - cbn. destruct (decide _); [done|]. etrans; [done|]. by eexists.
  - intros t'. cbn. destruct (decide (t' = t)) as [->|Hne].
    + rewrite lookup_insert_eq, decide_True by set_solver. done.
    + rewrite lookup_insert_ne, Hlk by done.
      destruct (decide (t' ∈ ts)), (decide (t' ∈ ts ++ [t])); set_solver.
Qed.

Lemma NewRegistry_wf : registry_wf NewRegistry.
Proof. split; [constructor|]. intros t. cbn. rewrite lookup_empty, elem_of_nil. split; [done|by intros [? ?]]. Qed.

(** The registry after any sequence of registrations: every topic of every
    decoder is listed once in [Topics()] (in order of first registration), no
    other is, and a topic dispatches to the decoder registered last for it. *)
Theorem registry_dispatch (ds : list Decoder) :
  let r := foldl (fun r d => Register d r) NewRegistry ds in
  NoDup (reg_topics r) /\
  (forall t, t ∈ reg_topics r <-> exists d, d ∈ ds /\ t ∈ d_Topics d) /\
  forall t, Lookup r t = last (filter (fun d => t ∈ d_Topics d) ds).
Proof.
  cbv zeta.
  enough (registry_wf (foldl (fun r d => Register d r) NewRegistry ds) /\
    forall t, Lookup (foldl (fun r d => Register d r) NewRegistry ds) t =
      last (filter (fun d => t ∈ d_Topics d) ds)) as [[Hnd Hdom] Hlk].
  { split_and!; [done| |done]. intros t. rewrite Hdom. fold (Lookup (foldl (fun r d => Register d r) NewRegistry ds) t).
    rewrite Hlk. split.
    - intros [d Hd]. apply last_Some_elem_of in Hd. apply list_elem_of_filter in Hd. naive_solver.
    - intros (d & Hd & Ht). apply last_is_Some. intros Hnil.
      assert (d ∈ filter (fun d => t ∈ d_Topics d) ds) as Hin by by apply list_elem_of_filter.
      rewrite Hnil in Hin. by apply not_elem_of_nil in Hin. }
  induction ds as [|d ds [Hwf Hlk]] using rev_ind.
  { split; [apply NewRegistry_wf|]. intros t. apply lookup_empty. }
  rewrite foldl_app. cbn. destruct (Register_spec d _ Hwf) as (Hwf' & _ & Hlk').
  split; [done|]. intros t. rewrite Hlk', Hlk, filter_app, filter_cons, filter_nil.
  destruct (decide _); [by rewrite last_snoc|by rewrite app_nil_r].
Qed.

(** ** Amounts and addresses *)

Lemma SetBytes_range bs : Forall (fun b => 0 <= b < 256) bs -> 0 <= SetBytes bs < 256 ^ Z.of_nat (length bs).
Proof.
  induction bs as [|b bs IH] using rev_ind; [by cbn|].
  rewrite Forall_app, Forall_singleton. intros [Hbs Hb]. specialize (IH Hbs).
  unfold SetBytes in *. rewrite foldl_app. cbn. rewrite length_app. cbn.
  rewrite Nat2Z.inj_add, Z.pow_add_r by lia. lia.
Qed.

(** The ERC-20 decoder: a log with the Transfer topic, both indexed
    addresses and a 32-byte amount is decoded, any other log is skipped, and
    it never fails; the event carries the log's identity, a 256-bit amount and
    the token's scale. *)
Theorem ERC20_Decode_spec `{Eth} (lg : Log) (info : ContractInfo) (ctx : Context) :
  Forall (fun b => 0 <= b < 256) (lg_Data lg) ->
  (exists from to rest amount, lg_Topics lg = TransferTopic :: from :: to :: rest /\
     (32 <= length (lg_Data lg))%nat /\ 0 <= amount < 2 ^ 256 /\
     ERC20_Decode lg info ctx = Ok (Some (decoded lg from to amount info ctx))) \/
  (((length (lg_Topics lg) < 3)%nat \/ head (lg_Topics lg) <> Some TransferTopic \/
     (length (lg_Data lg) < 32)%nat) /\ ERC20_Decode lg info ctx = Ok None).
Proof.
  intros Hd. unfold ERC20_Decode.
  destruct (lg_Topics lg) as [|t0 [|from [|to rest]]]; try (right; split; [left; cbn; lia|done]).
  destruct (Z.eqb_spec t0 TransferTopic) as [->|Hne]; [|right; split; [right; left; cbn; congruence|done]].
  destruct (Z.leb_spec 32 (Z.of_nat (length (lg_Data lg)))); [|right; split; [right; right; lia|done]].
  left. eexists from, to, rest, _. split_and!; [done|lia|..|done].
  - apply SetBytes_range. by apply Forall_take.
  - pose proof (SetBytes_range (take 32 (lg_Data lg)) ltac:(by apply Forall_take)) as Hr.
    rewrite length_take, Nat.min_l in Hr by lia. exact (proj2 Hr).
Qed.

(** Until decryption is implemented, an eERC chain cannot be scanned past
    a private transfer: with either decryptor the well-formed log is an error
    (not a skip), so the block is retried and the cursor stays. *)
Theorem EERC_Decode_blocks `{Eth} (dk : option Z) (lg : Log) (info : ContractInfo) (ctx : Context)
    (from to auditor : Hash) (rest : list Hash) :
  lg_Topics lg = PrivateTransferTopic :: from :: to :: auditor :: rest ->
  (224 <= length (lg_Data lg))%nat -> Forall (fun b => 0 <= b < 256) (lg_Data lg) ->
  d_Decode (EERC (EnvDecryptor <$> dk)) lg info ctx = Err (Errorf "eERC decrypt" (ErrSentinel NotImplemented)).
Proof.
  intros Ht Hl Hd. unfold EERC, d_Decode, EERC_Decode. rewrite Ht, Z.eqb_refl. cbn [negb].
  rewrite (proj2 (Z.ltb_ge _ _)) by lia.
  assert (validatePCT (pct_of (lg_Data lg)) = None) as Hv.
  { assert (Forall (fun v => exists x, v = Some x /\ 0 <= x) (pct_of (lg_Data lg))) as Hp.
    { apply Forall_fmap, Forall_forall. intros i _. eexists. split; [done|].
      apply SetBytes_range, Forall_take, Forall_drop. done. }
    unfold validatePCT. generalize 0 as i.
    induction Hp as [|v l (x & -> & Hx) _ IH]; intros i; [done|]. cbn.
    by rewrite (proj2 (Z.ltb_ge _ _)). }
  destruct dk; [|done]. change (default _ _) with (EnvDecryptor z). unfold EnvDecryptor. by rewrite Hv.
Qed.

Lemma hex_bytes s : forall bs, hex_DecodeString s = Ok bs -> Forall (fun b => 0 <= b < 256) bs.
Proof.
  assert (forall c x, hex_val c = Some x -> 0 <= x < 16) as Hv.
  { intros c x. unfold hex_val. cbv zeta. generalize (Z.of_nat (nat_of_ascii c)) as n. intros n Hx.
    destruct ((48 <=? n) && (n <=? 57)) eqn:H1; [injection Hx as <-; lia|].
    destruct ((97 <=? n) && (n <=? 102)) eqn:H2; [injection Hx as <-; lia|].
    destruct ((65 <=? n) && (n <=? 70)) eqn:H3; [injection Hx as <-; lia|done]. }
  induction s as [s IH] using (induction_ltof1 _ String.length). unfold ltof in IH.
  destruct s as [|a [|b s]]; intros bs; cbn [hex_DecodeString].
  - intros [= <-]. constructor.
  - by destruct (hex_val a).
  - destruct (hex_val a) as [x|] eqn:Ha; [|done]. destruct (hex_val b) as [y|] eqn:Hb; [|done].
    specialize (IH s ltac:(cbn; lia)). destruct (hex_DecodeString s) as [bs'|e|p]; intros [= <-].
    constructor; [|by apply IH]. apply Hv in Ha, Hb. lia.
Qed.

(** A configured key is never zero and never malformed: blank text means
    no decryptor, and any accepted key is the positive number its hex digits
    denote. *)
Theorem NewEnvDecryptor_sound (hexKey : string) :
  match NewEnvDecryptor hexKey with
  | Ok None => TrimSpace hexKey = ""
  | Ok (Some k) => 0 < k /\ exists bs, hex_DecodeString (trim_prefix "0x" (TrimSpace hexKey)) = Ok bs /\
                     bs <> [] /\ k = SetBytes bs
  | Err _ => TrimSpace hexKey <> ""
  | Panic _ => False
  end.
Proof.
  unfold NewEnvDecryptor. destruct (String.eqb_spec (TrimSpace hexKey) "") as [|Hne]; [done|].
  assert (forall s p, hex_DecodeString s <> Panic p) as Hnp.
  { intros s. induction s as [s IH] using (induction_ltof1 _ String.length). unfold ltof in IH.
    intros p. destruct s as [|a [|b s]]; cbn; [done|by destruct (hex_val a)|].
    destruct (hex_val a), (hex_val b); try done. specialize (IH s ltac:(cbn; lia) p).
    by destruct (hex_DecodeString s). }
  destruct (hex_DecodeString _) as [bs|e|p] eqn:Hd; [|done|by apply Hnp in Hd].
  destruct (Z.eqb_spec (Z.of_nat (length bs)) 0); [done|].
  destruct (Z.eqb_spec (SetBytes bs) 0); [done|].
  pose proof (SetBytes_range bs (hex_bytes _ _ Hd)). split; [lia|]. exists bs. split_and!; [done| |done].
  by intros ->.
Qed.

(** ** Concrete runs *)
Module DecoderWitness.
(** a stand-in for go-ethereum's text forms: decimal digits after 0x *)
Definition eth : Eth := {|
  addrHex a := "0x" +:+ dec a; hashHex h := "0x" +:+ dec h;
  HexToAddress s := undec (sdrop 2 s);
  Keccak256Hash s := Z.of_nat (String.length s) |}.
#[export] Existing Instance eth.

Definition info : ContractInfo := mkContract "USDT" 6.
Definition ctx : Context := mkContext 1 12 "2023-11-14T22:13:20Z" "USDT".
Definition transfer : Log := mkLog 7 [TransferTopic; 8; 9] (replicate 31 0 ++ [5]) 77 3.

Lemma ERC20_Decode_spec_witness : exists from to amount,
  ERC20_Decode transfer info ctx = Ok (Some (decoded transfer from to amount info ctx)).
Proof.
  destruct (ERC20_Decode_spec transfer info ctx) as [(from & to & rest & amount & _ & _ & _ & He)|[_ Hn]].
  - cbn. repeat constructor; lia.
  - by exists from, to, amount.
  - vm_compute in Hn. discriminate Hn.
Defined.

Definition private_transfer : Log := mkLog 7 [PrivateTransferTopic; 8; 9; 10] (replicate 224 1) 77 3.
Lemma EERC_Decode_blocks_witness :
  d_Decode (EERC (EnvDecryptor <$> Some 5)) private_transfer info ctx =
  Err (Errorf "eERC decrypt" (ErrSentinel NotImplemented)).
Proof.
  apply (EERC_Decode_blocks (Some 5) private_transfer info ctx 8 9 10 []); [reflexivity|cbn; lia|].
  cbn. repeat constructor; lia.
Defined.
End DecoderWitness.
