(* ===== verification/LogScannerProps.v ===== *)
(** * The log scanner reports exactly the deposits of a block *)
From stdpp Require Import base gmap list strings.
From Stdlib Require Import ZArith Lia Ascii String.
From stdpp Require Import base strings.
From S2P Require Import Prelude Decimal Errors Effect Retry Time Model Json Metrics Store BufferRepo Spec Repos ReposProps Scanner Loop Decoder LogScanner.

(** ** What a decoder must be like *)

(** The event has the log's identity and the context's stamps, and whether a
    log decodes, and to which recipient, depends on the chain id only. *)
Record decoder_regular `{Eth} (d : Decoder) : Prop := {
  dr_event : forall lg info ctx ev, d_Decode d lg info ctx = Ok (Some ev) ->
    ev_key ev = (x_ChainID ctx, hashHex (lg_TxHash lg), i64 (lg_Index lg)) /\
    ev_Decimals ev = c_Decimals info /\ ev_Confirmations ev = x_Confirmations ctx /\
    ev_TransactionDatetime ev = x_TransactionDatetime ctx;
  dr_uniform : forall lg info ctx ctx', x_ChainID ctx = x_ChainID ctx' ->
    match d_Decode d lg info ctx, d_Decode d lg info ctx' with
    | Ok (Some ev), Ok (Some ev') => ev_ToAddress ev = ev_ToAddress ev'
    | Ok None, Ok None | Err _, Err _ | Panic _, Panic _ => True
    | _, _ => False
    end
}.

Lemma StandardERC20_regular `{Eth} : decoder_regular StandardERC20.
Proof.
  split; cbn; unfold ERC20_Decode.
  - intros lg info ctx ev. destruct (lg_Topics lg) as [|t0 [|a [|b r]]]; [done..|].
    destruct (_ && _); intros [= <-]. done.
  - intros lg info ctx ctx' Hc. destruct (lg_Topics lg) as [|t0 [|a [|b r]]]; [done..|].
    by destruct (_ && _).
Qed.

Lemma EERC_regular `{Eth} dk : decoder_regular (EERC dk).
Proof.
  unfold EERC. generalize (default NoopDecryptor dk) as f. intros f.
  split; cbn; unfold EERC_Decode.
  - intros lg info ctx ev. destruct (lg_Topics lg) as [|t0 [|a [|b [|c r]]]]; [done..|].
    destruct (negb _); [done|]. destruct (_ <? _); [done|].
    destruct (f _); intros [= <-]. done.
  - intros lg info ctx ctx' Hc. destruct (lg_Topics lg) as [|t0 [|a [|b [|c r]]]]; [done..|].
    destruct (negb _); [done|]. destruct (_ <? _); [done|]. by destruct (f _).
Qed.

(** eth_getLogs' filter *)
Definition log_matches (q : FilterQuery) (lg : Log) : bool :=
  bool_decide (lg_Address lg ∈ q_Addresses q) &&
  match lg_Topics lg with [] => false | t :: _ => bool_decide (t ∈ q_Topics q) end.

Lemma Do_value {S} `{Clock S} {A} (Q : A -> Prop) opt zero (fn : M S A) s v :
  0 <= MaxRetries opt -> (forall s a, (fn s).1 = Ok a -> Q a) -> (Do opt zero fn s).1 = Ok v -> Q v.
Proof.
  intros Hm Hfn Hv. destruct (hoare_Do (fun _ => True) Q opt zero fn Hm) with s as [_ Hq]; [|done..|].
  - intros s' _. split; [done|]. apply Hfn.
  - by apply Hq.
Qed.

Section Sound.
Context {E : Type} `{Env E, ETHClient E, Eth, Sched E}.
Variables (s : LogScannerCfg) (blockOf : Z -> Block) (logsOf : Z -> list Log) (watched : string -> bool).
Abbreviation chain_ := (ls_chain s).

(** ** The deposits of a block, from the chain's data alone *)

(** a plain transfer of value to a watched address *)
Definition native_key (i : nat) (tx : Tx) : option key :=
  match tx_To tx with
  | Some a =>
      if decide (tx_Data tx = [] /\ 0 < tx_Value tx /\ watched (to_lower (addrHex a)) = true)
      then Some (cc_ChainID chain_, hashHex (tx_Hash tx), nativeLogIndexBase - Z.of_nat i) else None
  | None => None
  end.

(** a token log of a configured contract that decodes to a watched recipient *)
Definition token_key (reg : DecoderRegistry) (lg : Log) : option key :=
  match decode_log s reg 0 "" lg with
  | Ok (Some ev) => if watched (to_lower (ev_ToAddress ev)) then Some (ev_key ev) else None
  | _ => None
  end.

Definition block_keys (b : Z) : list key :=
  omap id (imap native_key (b_Transactions (blockOf b))) ++
  match ls_decoders s with None => [] | Some reg => omap (token_key reg) (logsOf b) end.

(** ** Documented behaviour of the node, the database and the scheduler *)
Record honest_node : Prop := {
  hn_block : forall b w r, (BlockByNumber b w).1 = Ok r -> r = Some (blockOf b);
  (* eth_getLogs: the logs of the block with one of the addresses and topics *)
  hn_logs : forall q w logs, (FilterLogs q w).1 = Ok logs -> q_FromBlock q = q_ToBlock q ->
    logs = filter (fun lg => log_matches q lg = true) (logsOf (q_FromBlock q));
  hn_text : forall b lg, lg ∈ logsOf b -> HexToAddress (to_lower (addrHex (lg_Address lg))) = lg_Address lg;
  (* the watched addresses of the chain *)
  hn_accounts : forall w w', env_db w = (Ok tt, w') ->
    forall la, account_row (w_db w') (cc_ChainID chain_) la = watched la;
  hn_sched : forall cs w order, (schedule cs w).1 = Ok order -> order ≡ₚ cs
}.

(** the scanner's configuration *)
Record scanner_config : Prop := {
  sc_retries : 0 <= MaxRetries (ls_retryOpt s);
  sc_decimals : 0 <= cc_Decimals chain_;
  sc_contracts : forall a info, cc_Contracts chain_ !! a = Some info -> 0 <= c_Decimals info;
  sc_registry : forall reg, ls_decoders s = Some reg -> registry_wf reg /\
    forall t d, Lookup reg t = Some d -> decoder_regular d;
  sc_times : forall b, minRFC3339 <= i64 (b_Time (blockOf b)) < maxRFC3339
}.

Hypothesis Hnode : honest_node.
Hypothesis Hcfg : scanner_config.

Lemma HasMany_matched l a w m :
  (HasMany (cc_ChainID chain_) (addrSet l) w).1 = Ok m -> a ∈ l -> to_lower a = a -> is_matched m a = watched a.
Proof.
  intros Hm Ha Hlow. assert (a ∈ addrSet l) as Hin by (unfold addrSet; by rewrite elem_of_elements, elem_of_list_to_set).
  destruct (addrSet l) as [|x rest] eqn:Hl; [by apply not_elem_of_nil in Hin|].
  cbn [HasMany] in Hm. unfold query, query_at, wrapf, bind in Hm.
  destruct (env_db w) as [[[]|e|p] w1] eqn:Hdb; [|done..].
  destruct (HasMany_result (cc_ChainID chain_) (x :: rest) w w1 Hdb) as (m' & w' & Hrun & Hm').
  cbn [HasMany] in Hrun. unfold query, query_at, wrapf, bind in Hrun. rewrite Hdb in Hrun.
  cbn in Hm, Hrun. simplify_eq. unfold is_matched. rewrite Hm', decide_True.
  - cbn. by apply (hn_accounts Hnode _ _ Hdb).
  - rewrite <- Hlow. by apply list_elem_of_fmap_2.
Qed.

(** *** Native transfers *)

Lemma collect_natives_elem txs : forall i c,
  c ∈ collect_natives i txs <-> exists k tx a, txs !! k = Some tx /\ c = mkCand tx (i + Z.of_nat k) a /\
    tx_To tx = Some a /\ tx_Data tx = [] /\ 0 < tx_Value tx.
Proof.
  induction txs as [|tx txs IH]; intros i c; cbn.
  { rewrite elem_of_nil. split; [done|]. by intros (k & tx & a & Hk & _). }
  assert (forall j c, (exists k tx' a, txs !! k = Some tx' /\ c = mkCand tx' (j + 1 + Z.of_nat k) a /\
      tx_To tx' = Some a /\ tx_Data tx' = [] /\ 0 < tx_Value tx') <->
    (exists k tx' a, (tx :: txs) !! S k = Some tx' /\ c = mkCand tx' (j + Z.of_nat (S k)) a /\
      tx_To tx' = Some a /\ tx_Data tx' = [] /\ 0 < tx_Value tx')) as Hshift.
  { intros j c'. split; intros (k & tx' & a & Hk & -> & Hr); exists k, tx', a;
      (split; [exact Hk|]); (split; [f_equal; lia|exact Hr]). }
  assert (forall P : nat -> Prop, (exists k, P k) <-> P 0%nat \/ exists k, P (S k)) as Hnat.
  { intros P. split; [intros [[|k] Hk]; eauto|]. intros [?|[k ?]]; eauto. }
  rewrite Hnat. rewrite <- Hshift, <- (IH (i + 1) c). cbn. rewrite Z.add_0_r.
  assert (forall b : Prop, (c ∈ collect_natives (i + 1) txs <-> b) ->
    ~ (exists a, tx_To tx = Some a /\ tx_Data tx = [] /\ 0 < tx_Value tx) ->
    c ∈ collect_natives (i + 1) txs <-> (exists tx' a, Some tx = Some tx' /\ c = mkCand tx' i a /\
      tx_To tx' = Some a /\ tx_Data tx' = [] /\ 0 < tx_Value tx') \/ b) as Hskip.
  { intros b Hb Hno. rewrite Hb. split; [by right|]. intros [(tx' & a & [= <-] & _ & Hr)|?]; [|done].
    exfalso. apply Hno. by exists a. }
  destruct (tx_To tx) as [a|] eqn:Hto; [|apply Hskip; [done|by intros (? & ? & _)]].
  destruct (tx_Data tx) as [|x data] eqn:Hdata; cbn; [|apply Hskip; [done|by intros (? & _ & ? & _)]].
  destruct (Z.leb_spec (tx_Value tx) 0); [apply Hskip; [done|intros (? & _ & _ & ?); lia]|].
  change ((0 <? Z.of_nat 0) || false) with false. cbv iota.
  rewrite elem_of_cons. split; (intros [Hc|Hc]; [left|by right]).
  - by exists tx, a.
  - destruct Hc as (tx' & a' & [= <-] & -> & Ha' & _). congruence.
Qed.

Lemma foldM_results block cs : forall acc w rs,
  (foldM (fun results c => let* r := senderOf s block c in ret (results ++ [r])) acc cs w).1 = Ok rs ->
  rs.*1 = acc.*1 ++ cs.
Proof.
  induction cs as [|c cs IH]; intros acc w rs; cbn [foldM].
  { intros [= <-]. by rewrite app_nil_r. }
  unfold bind at 1 2, senderOf, bind at 1. destruct (wrapf _ _ w) as [[from|e|p] w1]; cbn; [|done..].
  intros Hr. apply IH in Hr. rewrite Hr, fmap_app, <- app_assoc. done.
Qed.

Lemma parseNative_sound b conf bt w evs :
  (parseNativeTransfers s (blockOf b) conf bt w).1 = Ok evs ->
  Forall (fun ev => ev_Decimals ev = cc_Decimals chain_ /\ ev_TransactionDatetime ev = bt /\
    ev_Confirmations ev = conf) evs /\
  forall k, k ∈ ev_key <$> evs <-> k ∈ omap id (imap native_key (b_Transactions (blockOf b))).
Proof.
  assert (forall k, k ∈ omap id (imap native_key (b_Transactions (blockOf b))) <->
    exists c, c ∈ collect_natives 0 (b_Transactions (blockOf b)) /\
      watched (to_lower (addrHex (n_toAddr c))) = true /\
      k = (cc_ChainID chain_, hashHex (tx_Hash (n_tx c)), nativeLogIndexBase - n_txIdx c)) as Hkeys.
  { intros k. rewrite list_elem_of_omap. unfold id at 1. setoid_rewrite collect_natives_elem. split.
    - intros (o & Ho & Hk). apply list_elem_of_lookup in Ho as [i Hi].
      rewrite list_lookup_imap in Hi. destruct (b_Transactions (blockOf b) !! i) as [tx|] eqn:Htx; [|done].
      cbn in Hi. injection Hi as <-. unfold native_key in Hk. destruct (tx_To tx) as [a|] eqn:Hto; [|done].
      destruct (decide _) as [(Hd & Hv & Hw)|]; [|done]. injection Hk as <-.
      exists (mkCand tx (0 + Z.of_nat i) a). split; [by exists i, tx, a|done].
    - intros (c & (i & tx & a & Htx & -> & Hto & Hd & Hv) & Hw & ->). cbn in Hw.
      exists (native_key i tx). split.
      + apply list_elem_of_lookup. exists i. by rewrite list_lookup_imap, Htx.
      + unfold native_key. by rewrite Hto, decide_True. }
  unfold parseNativeTransfers. set (cands := collect_natives 0 (b_Transactions (blockOf b))) in *.
  destruct cands as [|c0 cs] eqn:Hcands.
  { intros [= <-]. split; [constructor|]. intros k. rewrite Hkeys, elem_of_nil.
    split; [done|]. intros (c & Hc & _). by apply not_elem_of_nil in Hc. }
  rewrite <- Hcands in *. clear c0 cs Hcands. unfold bind at 1, wrapf.
  destruct (HasMany _ _ w) as [[m|e|p] w1] eqn:Hhm; [|done..].
  unfold bind at 1. destruct (errgroup _ _ _ w1) as [[rs|e|p] w2] eqn:Hg; [|done..].
  intros [= <-]. split.
  { apply Forall_fmap, Forall_forall. done. }
  unfold errgroup, bind at 1 in Hg. destruct (schedule _ w1) as [[order|e|p] w3] eqn:Hs; [|done..].
  apply (f_equal fst) in Hg. cbn in Hg. apply foldM_results in Hg. cbn in Hg.
  pose proof (hn_sched Hnode _ w1 order ltac:(by rewrite Hs)) as Hperm.
  intros k. rewrite Hkeys, <- list_fmap_compose, list_elem_of_fmap. split.
  - intros (r & -> & Hr). exists r.1. apply (list_elem_of_fmap_2 fst) in Hr. rewrite Hg, Hperm in Hr.
    apply list_elem_of_filter in Hr as [Hm Hc]. split; [done|]. split; [|done].
    rewrite <- Hm. symmetry. eapply HasMany_matched; [by rewrite Hhm| |apply to_lower_idemp].
    by apply (list_elem_of_fmap_2 (fun c => to_lower (addrHex (n_toAddr c)))).
  - intros (c & Hc & Hw & ->). assert (c ∈ rs.*1) as Hin.
    { rewrite Hg, Hperm, list_elem_of_filter. split; [|done]. rewrite <- Hw.
      eapply HasMany_matched; [by rewrite Hhm| |apply to_lower_idemp].
      by apply (list_elem_of_fmap_2 (fun c => to_lower (addrHex (n_toAddr c)))). }
    apply list_elem_of_fmap in Hin as (r & -> & Hr). by exists r.
Qed.

(** *** Token transfers *)

(** what the scan makes of a log, against the reference *)
Lemma decode_log_uniform reg conf bt lg : ls_decoders s = Some reg ->
  match decode_log s reg conf bt lg, decode_log s reg 0 "" lg with
  | Ok (Some ev), Ok (Some ev') => ev_ToAddress ev = ev_ToAddress ev' /\ ev_key ev = ev_key ev' /\
      0 <= ev_Decimals ev /\ ev_TransactionDatetime ev = bt /\ ev_Confirmations ev = conf
  | Ok None, Ok None | Err _, Err _ | Panic _, Panic _ => True
  | _, _ => False
  end.
Proof.
  intros Hreg. destruct (sc_registry Hcfg reg Hreg) as [_ Hdec]. unfold decode_log.
  destruct (cc_Contracts chain_ !! _) as [info|] eqn:Hinfo; [|done].
  destruct (lg_Topics lg) as [|t0 ts]; [done|].
  destruct (Lookup reg t0) as [d|] eqn:Hd; [|done].
  set (sym := symbolForChain _ _ _ _). destruct (Hdec _ _ Hd) as [Hev Hun].
  specialize (Hun lg info (mkContext (cc_ChainID chain_) conf bt sym)
    (mkContext (cc_ChainID chain_) 0 "" sym) eq_refl).
  pose proof (Hev lg info (mkContext (cc_ChainID chain_) conf bt sym)) as H1'.
  pose proof (Hev lg info (mkContext (cc_ChainID chain_) 0 "" sym)) as H2'.
  destruct (d_Decode d lg info (mkContext _ conf bt sym)) as [[ev|]|e|p],
    (d_Decode d lg info (mkContext _ 0 "" sym)) as [[ev'|]|e'|p']; try done.
  destruct (H1' ev eq_refl) as (Hk & Hdc & Hc & Ht), (H2' ev' eq_refl) as (Hk' & _). cbn in *.
  split_and!; [done|congruence| |done|done]. rewrite Hdc. by eapply (sc_contracts Hcfg).
Qed.

Lemma collect_tokens_elem reg conf bt logs evs : ls_decoders s = Some reg ->
  collect_tokens s reg conf bt logs = Ok evs ->
  Forall (fun ev => 0 <= ev_Decimals ev /\ ev_TransactionDatetime ev = bt /\ ev_Confirmations ev = conf) evs /\
  forall k, (exists ev, ev ∈ evs /\ watched (to_lower (ev_ToAddress ev)) = true /\ k = ev_key ev) <->
    k ∈ omap (token_key reg) logs.
Proof.
  intros Hreg. revert evs. induction logs as [|lg logs IH]; intros evs; cbn.
  { intros [= <-]. split; [constructor|]. intros k. rewrite elem_of_nil.
    split; [intros (ev & Hev & _)|done]. by apply not_elem_of_nil in Hev. }
  pose proof (decode_log_uniform reg conf bt lg Hreg) as Hu.
  unfold token_key at 1.
  destruct (decode_log s reg conf bt lg) as [[ev|]|e|p]; [|by destruct (decode_log s reg 0 "" lg) as [[]| |]; [|apply IH|..]|done..].
  destruct (decode_log s reg 0 "" lg) as [[ev'|]|e'|p']; [|done..].
  destruct Hu as (Hto & Hk & Hd & Ht & Hc).
  destruct (collect_tokens s reg conf bt logs) as [evs'|e|p]; [|done..]. intros [= <-].
  destruct (IH evs' eq_refl) as [Hf He]. split; [by constructor|]. intros k.
  setoid_rewrite elem_of_cons.
  assert ((exists x, (x = ev \/ x ∈ evs') /\ watched (to_lower (ev_ToAddress x)) = true /\ k = ev_key x) <->
    (watched (to_lower (ev_ToAddress ev)) = true /\ k = ev_key ev) \/ k ∈ omap (token_key reg) logs) as ->.
  { rewrite <- He. split.
    - intros (x & [->|Hx] & Hr); [by left|right; eauto].
    - intros [Hr|(x & Hx & Hr)]; eauto. }
  rewrite <- Hto, <- Hk. destruct (watched _); [rewrite elem_of_cons|]; naive_solver.
Qed.

Lemma omap_filter_keep {A B} (f : A -> option B) (p : A -> bool) (l : list A) k :
  (forall x, x ∈ l -> is_Some (f x) -> p x = true) ->
  k ∈ omap f (filter (fun x => p x = true) l) <-> k ∈ omap f l.
Proof.
  intros Hp. rewrite !list_elem_of_omap. setoid_rewrite list_elem_of_filter. split.
  - intros (x & [_ Hx] & Hf). eauto.
  - intros (x & Hx & Hf). exists x. split; [|done]. split; [|done]. apply Hp; [done|by eexists].
Qed.

(** a log that decodes is one the query asks for *)
Lemma token_log_matches reg b lg : ls_decoders s = Some reg -> lg ∈ logsOf b ->
  is_Some (token_key reg lg) -> log_matches (token_query s reg b) lg = true.
Proof.
  intros Hreg Hlg [k Hk]. destruct (sc_registry Hcfg reg Hreg) as [[_ Hwf] _].
  unfold token_key, decode_log in Hk.
  destruct (cc_Contracts chain_ !! _) as [info|] eqn:Hinfo; [|done].
  unfold log_matches, token_query. cbn. destruct (lg_Topics lg) as [|t0 ts]; [done|].
  destruct (Lookup reg t0) as [d|] eqn:Hd; [|done].
  rewrite !bool_decide_eq_true_2; [done|apply Hwf; by eexists|].
  apply list_elem_of_fmap. exists (to_lower (addrHex (lg_Address lg))).
  split; [symmetry; by eapply (hn_text Hnode)|].
  apply list_elem_of_fmap. exists (to_lower (addrHex (lg_Address lg)), info).
  split; [done|]. by apply elem_of_map_to_list.
Qed.

Lemma parseToken_sound reg b conf bt w evs : ls_decoders s = Some reg ->
  (parseTokenTransfers s reg b conf bt w).1 = Ok evs ->
  Forall (fun ev => 0 <= ev_Decimals ev /\ ev_TransactionDatetime ev = bt /\ ev_Confirmations ev = conf) evs /\
  forall k, k ∈ ev_key <$> evs <-> k ∈ omap (token_key reg) (logsOf b).
Proof.
  intros Hreg. unfold parseTokenTransfers, bind at 1, wrapf at 1.
  destruct (Do _ _ _ w) as [[logs|e|p] w1] eqn:Hdo; [|done..].
  assert (logs = filter (fun lg => log_matches (token_query s reg b) lg = true) (logsOf b)) as Hlogs.
  { apply (Do_value (fun l => l = filter (fun lg => log_matches (token_query s reg b) lg = true) (logsOf b))
      (ls_retryOpt s) [] (FilterLogs (token_query s reg b)) w); [apply Hcfg| |by rewrite Hdo].
    intros w' l Hl. by apply (hn_logs Hnode) in Hl. }
  unfold bind at 1, lift_res. destruct (collect_tokens s reg conf bt logs) as [cands|e|p] eqn:Hct; [|done..].
  destruct (collect_tokens_elem reg conf bt logs cands Hreg Hct) as [Hf Hk].
  assert (forall k, k ∈ omap (token_key reg) logs <-> k ∈ omap (token_key reg) (logsOf b)) as Hall.
  { intros k. rewrite Hlogs. apply omap_filter_keep. intros lg Hlg. by apply token_log_matches. }
  setoid_rewrite <- Hall. setoid_rewrite <- Hk. destruct cands as [|c0 cs] eqn:Hc.
  { intros [= <-]. split; [constructor|]. intros k. cbn. rewrite elem_of_nil.
    split; [done|]. intros (ev & Hev & _). by apply not_elem_of_nil in Hev. }
  rewrite <- Hc in *. clear c0 cs Hc. unfold bind at 1, wrapf.
  destruct (HasMany _ _ w1) as [[m|e|p] w2] eqn:Hhm; [|done..]. intros [= <-].
  assert (forall ev, ev ∈ cands -> is_matched m (to_lower (ev_ToAddress ev)) = watched (to_lower (ev_ToAddress ev))) as Hm.
  { intros ev Hev. eapply HasMany_matched; [by rewrite Hhm| |apply to_lower_idemp].
    by apply (list_elem_of_fmap_2 (fun ev => to_lower (ev_ToAddress ev))). }
  split; [by apply Forall_filter_2|]. intros k. rewrite list_elem_of_fmap.
  setoid_rewrite list_elem_of_filter. split.
  - intros (ev & -> & Hw & Hev). exists ev. rewrite <- Hm by done. done.
  - intros (ev & Hev & Hw & ->). exists ev. split; [done|]. by rewrite Hm.
Qed.

(** ** The scan *)

(** a chain without tokens or decoders has no token transfer to report *)
Lemma no_token_keys reg b : ls_decoders s = Some reg ->
  (0 <? Z.of_nat (size (cc_Contracts chain_))) && (0 <? Len reg) = false ->
  omap (token_key reg) (logsOf b) = [].
Proof.
  intros Hreg Hcond. apply elem_of_nil_inv. intros k. rewrite list_elem_of_omap. intros (lg & _ & Hk).
  destruct (sc_registry Hcfg reg Hreg) as [[_ Hwf] _].
  unfold token_key, decode_log in Hk.
  destruct (cc_Contracts chain_ !! _) as [info|] eqn:Hinfo; [|done].
  destruct (lg_Topics lg) as [|t0 ts]; [done|]. destruct (Lookup reg t0) as [d|] eqn:Hd; [|done].
  assert (t0 ∈ reg_topics reg) as Ht0 by (apply Hwf; by eexists).
  apply andb_false_iff in Hcond as [Hz|Hz]; apply Z.ltb_ge in Hz.
  - assert (size (cc_Contracts chain_) = 0%nat) as Hs by lia.
    apply map_size_empty_inv in Hs. by rewrite Hs, lookup_empty in Hinfo.
  - unfold Len in Hz. destruct (reg_topics reg); [by apply not_elem_of_nil in Ht0|cbn in Hz; lia].
Qed.

Lemma ScanBlock_sound b conf w evs :
  (LogScanner_ScanBlock s b conf w).1 = Ok evs ->
  Forall convertible evs /\ Forall (fun ev => ev_Confirmations ev = conf) evs /\
  forall k, k ∈ ev_key <$> evs <-> k ∈ block_keys b.
Proof.
  unfold LogScanner_ScanBlock, bind at 1, wrapf at 1.
  destruct (Do _ _ _ w) as [[blk|e|p] w1] eqn:Hdo; [|done..].
  assert (blk = Some (blockOf b)) as ->.
  { apply (Do_value (fun r => r = Some (blockOf b)) (ls_retryOpt s) None (BlockByNumber b) w);
      [apply Hcfg|apply (hn_block Hnode)|by rewrite Hdo]. }
  cbv zeta. unfold bind at 1, wrapf at 1.
  destruct (parseNativeTransfers _ _ _ _ w1) as [[nat_|e|p] w2] eqn:Hn; [|done..].
  destruct (parseNative_sound b conf (blockTimeOf (blockOf b)) w1 nat_) as [Hfn Hkn]; [by rewrite Hn|].
  assert (forall d ev, 0 <= d -> ev_Decimals ev = d -> ev_TransactionDatetime ev = blockTimeOf (blockOf b) ->
    convertible ev) as Hconv.
  { intros d ev Hd <- Ht. split; [done|]. eexists. split; [apply (sc_times Hcfg b)|done]. }
  match goal with |- context [bind ?m _ w2] => set (mt := m) end.
  assert (forall toks, (mt w2).1 = Ok toks ->
    Forall (fun ev => 0 <= ev_Decimals ev /\ ev_TransactionDatetime ev = blockTimeOf (blockOf b) /\
      ev_Confirmations ev = conf) toks /\
    forall k, k ∈ ev_key <$> toks <->
      k ∈ match ls_decoders s with None => [] | Some reg => omap (token_key reg) (logsOf b) end) as Htok.
  { intros toks. subst mt. destruct (ls_decoders s) as [reg|] eqn:Hreg.
    2:{ intros [= <-]. split; [constructor|]. done. }
    destruct (_ && _) eqn:Hcond.
    - unfold wrapf. destruct (parseTokenTransfers _ _ _ _ _ w2) as [[ts|e|p] w3] eqn:Ht; [|done..].
      intros [= <-]. apply (parseToken_sound reg b conf _ w2); [done|by rewrite Ht].
    - intros [= <-]. rewrite (no_token_keys reg b Hreg Hcond). split; [constructor|done]. }
  unfold bind. destruct (mt w2) as [[toks|e|p] w3]; [|done..]. intros [= <-].
  destruct (Htok toks eq_refl) as [Hft Hkt]. split_and!.
  - apply Forall_app. split.
    + eapply Forall_impl; [exact Hfn|]. intros ev (Hd & Ht & _). by eapply Hconv; [apply (sc_decimals Hcfg)|..].
    + eapply Forall_impl; [exact Hft|]. intros ev (Hd & Ht & _). by eapply Hconv.
  - apply Forall_app. split; [eapply Forall_impl; [exact Hfn|]; by intros ev (_ & _ & ?)|].
    eapply Forall_impl; [exact Hft|]. by intros ev (_ & _ & ?).
  - intros k. unfold block_keys. rewrite fmap_app, !elem_of_app, Hkn, Hkt. done.
Qed.

(** ** What the events say *)

(** the whole of an event: a plain transfer with the sender the node gave, or
    what the contract's decoder made of a log *)
Inductive reported (b conf : Z) : DepositEvent -> Prop :=
| reported_native i tx a from w :
    b_Transactions (blockOf b) !! i = Some tx -> tx_To tx = Some a ->
    (TransactionSender tx (b_Hash (blockOf b)) (Z.of_nat i) w).1 = Ok from ->
    reported b conf (mkEvent (cc_ChainID chain_) (hashHex (tx_Hash tx)) (-1 - Z.of_nat i)
      (addrHex from) (addrHex a) (Some (tx_Value tx)) (cc_Native chain_) (cc_Decimals chain_)
      conf (formatRFC3339 (i64 (b_Time (blockOf b)))))
| reported_token reg lg t0 ts d info ev :
    ls_decoders s = Some reg -> lg ∈ logsOf b -> lg_Topics lg = t0 :: ts -> Lookup reg t0 = Some d ->
    cc_Contracts chain_ !! to_lower (addrHex (lg_Address lg)) = Some info ->
    d_Decode d lg info (mkContext (cc_ChainID chain_) conf (formatRFC3339 (i64 (b_Time (blockOf b))))
      (symbolForChain (c_Symbol info) (cc_ChainID chain_) (ls_kcpChainID s) (ls_hasKcp s))) = Ok (Some ev) ->
    reported b conf ev.

(** the sender of each candidate is the node's answer *)
Lemma senderOf_answers block c : 0 <= MaxRetries (ls_retryOpt s) ->
  answers (senderOf s block c) (fun r => r.1 = c /\
    exists w, (TransactionSender (n_tx c) (b_Hash block) (n_txIdx c) w).1 = Ok r.2).
Proof.
  intros Hm. eapply answers_bind with (R := fun from =>
    exists w, (TransactionSender (n_tx c) (b_Hash block) (n_txIdx c) w).1 = Ok from); [|intros from Hf; by apply answers_ret].
  apply answers_wrapf. intros w from Hf.
  apply (Do_value (fun r => exists w, (TransactionSender (n_tx c) (b_Hash block) (n_txIdx c) w).1 = Ok r)
    _ _ _ _ _ Hm) in Hf; [done|]. intros w' a Ha. by exists w'.
Qed.

Lemma natives_reported b conf :
  answers (parseNativeTransfers s (blockOf b) conf (blockTimeOf (blockOf b))) (Forall (reported b conf)).
Proof.
  unfold parseNativeTransfers. pose proof (collect_natives_elem (b_Transactions (blockOf b)) 0) as Hel.
  destruct (collect_natives _ _) as [|c0 cs] eqn:Hcs; [by apply answers_ret|]. rewrite <- Hcs in *. clear c0 cs Hcs.
  eapply answers_bind; [apply answers_True|]. intros m _. set (P := fun r : nativeCandidate * Address =>
    r.1 ∈ collect_natives 0 (b_Transactions (blockOf b)) /\
    exists w, (TransactionSender (n_tx r.1) (b_Hash (blockOf b)) (n_txIdx r.1) w).1 = Ok r.2).
  eapply answers_bind with (R := Forall P).
  - eapply answers_bind; [intros w order Ho; exact (hn_sched Hnode _ w order Ho)|]. intros order Ho.
    apply answers_foldM; [|done]. intros rs c Hc Hrs. eapply answers_bind; [apply senderOf_answers, Hcfg|].
    intros r [<- Hr]. apply answers_ret. apply Forall_app. split; [done|]. apply Forall_singleton. split; [|done].
    rewrite Ho in Hc. by apply list_elem_of_filter in Hc as [_ ?].
  - intros rs Hrs. apply answers_ret, Forall_fmap. eapply Forall_impl; [exact Hrs|].
    intros [c from] [Hc [w Hw]]. cbn in Hc, Hw. apply Hel in Hc as (i & tx & a & Htx & -> & Hto & _). cbn [n_tx n_txIdx] in Hw. rewrite Z.add_0_l in Hw.
    by apply (reported_native b conf i tx a from w).
Qed.

Lemma tokens_reported reg b conf : ls_decoders s = Some reg ->
  answers (parseTokenTransfers s reg b conf (blockTimeOf (blockOf b))) (Forall (reported b conf)).
Proof.
  intros Hreg. eapply answers_bind with (R := fun logs => logs ⊆ logsOf b).
  { apply answers_wrapf. intros w logs Hl.
    apply (Do_value (fun l => l ⊆ logsOf b) _ _ _ _ _ (sc_retries Hcfg)) in Hl; [done|]. intros w' l Hf.
    apply (hn_logs Hnode) in Hf; [|done]. subst l. apply list_subseteq_filter. }
  intros logs Hlogs. eapply answers_bind with (R := Forall (reported b conf)).
  { intros w cands. unfold lift_res. cbn. revert cands. induction logs as [|lg logs IH]; intros cands; cbn.
    { by intros [= <-]. }
    assert (lg ∈ logsOf b) as Hlg by (apply Hlogs; left).
    assert (logs ⊆ logsOf b) as Hsub by (intros x Hx; apply Hlogs; by right). specialize (IH Hsub).
    destruct (decode_log s reg conf _ lg) as [[ev|]|e|p] eqn:Hd; [|by apply IH|done..].
    destruct (collect_tokens s reg conf _ logs) as [evs|e|p]; [|done..]. intros [= <-]. constructor; [|by apply IH].
    unfold decode_log in Hd. destruct (cc_Contracts _ !! _) as [info|] eqn:Hi; [|done].
    destruct (lg_Topics lg) as [|t0 ts] eqn:Ht; [done|]. destruct (Lookup reg t0) as [d|] eqn:Hl; [|done].
    apply (reported_token b conf reg lg t0 ts d info ev Hreg Hlg Ht Hl Hi).
    by destruct (d_Decode _ _ _ _) as [[ev'|]|e|p]; simplify_eq. }
  intros cands Hc. destruct cands as [|c cs] eqn:Heq; [by apply answers_ret|]. rewrite <- Heq in *.
  eapply answers_bind; [apply answers_True|]. intros m _. by apply answers_ret, Forall_filter_2.
Qed.

Lemma ScanBlock_reported b conf : answers (LogScanner_ScanBlock s b conf) (Forall (reported b conf)).
Proof.
  eapply answers_bind with (R := fun r => r = Some (blockOf b)).
  { apply answers_wrapf. intros w r Hr.
    apply (Do_value (fun r => r = Some (blockOf b)) _ _ _ _ _ (sc_retries Hcfg)) in Hr; [done|]. apply (hn_block Hnode). }
  intros block ->. eapply answers_bind; [apply answers_wrapf, natives_reported|]. intros natives Hn.
  eapply answers_bind with (R := Forall (reported b conf)).
  - destruct (ls_decoders s) as [reg|] eqn:Hreg; [|by apply answers_ret].
    apply answers_if; [by apply answers_wrapf, tokens_reported|by apply answers_ret].
  - intros tokens Ht. by apply answers_ret, Forall_app.
Qed.
End Sound.
