(* ===== verification/EndToEnd.v ===== *)
(** * From the chain to the buffer

    The polling loop with the log scanner plugged in: the scanner honours the
    loop's interface, so with an honest node no deposit of a processed block
    is lost. *)
From stdpp Require Import base gmap list strings relations.
From Stdlib Require Import ZArith Lia Ascii String.
From stdpp Require Import base strings.
From S2P Require Import Prelude Decimal Errors Effect Retry Time Model Json Metrics Store BufferRepo Spec Repos ReposProps Scanner Loop LoopProps Decoder LogScanner LogScannerProps.

(** ** The scanner's interface to the loop *)

Lemma LogScanner_preserves {E} `{Env E, ETHClient E, Eth, Sched E} (I : World E -> Prop) s b conf :
  (forall d, preserves I (env_wait d)) -> preserves I env_db ->
  (forall n, preserves I (BlockByNumber n)) -> (forall q, preserves I (FilterLogs q)) ->
  (forall tx h i, preserves I (TransactionSender tx h i)) -> (forall cs, preserves I (schedule cs)) ->
  preserves I (LogScanner_ScanBlock s b conf).
Proof.
  intros Hw Hdb Hblk Hlogs Hsend Hsch.
  assert (forall c l, preserves I (HasMany c l)) as Hhm.
  { intros c l. destruct l; cbn [HasMany]; [apply preserves_ret|by apply preserves_query]. }
  assert (forall opt {A} (z : A) fn, preserves I fn -> preserves I (Do opt z fn)) as Hdo.
  { intros. by apply preserves_Do. }
  assert (forall block c, preserves I (senderOf s block c)) as Hsd.
  { intros. unfold senderOf. eff; eauto with eff. }
  unfold LogScanner_ScanBlock, parseNativeTransfers, parseTokenTransfers, errgroup.
  assert (forall A (r : res A), preserves I (lift_res r)) as Hlr by by intros A r w.
  eff; eauto with eff; apply preserves_wrapf; eff; eauto with eff.
Qed.

(** during any call the other goroutines make ledger steps only, and leave
    the scanner's memory alone *)
Record calls_cooperate {E : Type} `{Env E, ETHClient E, Sched E} (truth : Z -> string -> Z -> list key)
    (handed : E -> gset key) (J : E -> Prop) (own : Z * string) : Prop := {
  cc_wait : forall d, cooperates_with truth handed J own (env_wait d);
  cc_now : cooperates_with truth handed J own time_Now;
  cc_db : cooperates_with truth handed J own env_db;
  cc_head : cooperates_with truth handed J own BlockNumber;
  cc_block : forall n, cooperates_with truth handed J own (BlockByNumber n);
  cc_logs : forall q, cooperates_with truth handed J own (FilterLogs q);
  cc_code : forall a, cooperates_with truth handed J own (CodeAt a);
  cc_sender : forall tx h i, cooperates_with truth handed J own (TransactionSender tx h i);
  cc_schedule : forall cs, cooperates_with truth handed J own (schedule cs);
  cc_tx : forall e, handed (env_tx e).2 = handed e /\ (J e -> J (env_tx e).2);
  cc_commit : forall e, handed (env_commit e).2 = handed e /\ (J e -> J (env_commit e).2)
}.

Section Loop.
Context {E : Type} `{Env E, ETHClient E, Eth, Sched E}.
Variables (s : LogScannerCfg) (blockOf : Z -> Block) (logsOf : Z -> list Log) (watched : string -> bool).
Variables (truth : Z -> string -> Z -> list key) (handed : E -> gset key) (J : E -> Prop).

Lemma LogScanner_Sound :
  honest_node s blockOf logsOf watched -> scanner_config s blockOf ->
  (forall b, truth (cc_ChainID (ls_chain s)) "log" b = block_keys s blockOf logsOf watched b) ->
  ScannerSound truth (cc_ChainID (ls_chain s)) (LogScanner s) J.
Proof.
  intros Hn Hc Ht. split. intros b conf w evs _ Hr.
  destruct (ScanBlock_sound s blockOf logsOf watched Hn Hc b conf w evs Hr) as (Hcv & _ & Hk).
  split; [done|]. cbn [Name LogScanner]. by rewrite Ht.
Qed.

Lemma LogScanner_coop own b conf :
  calls_cooperate truth handed J own -> cooperates_with truth handed J own (ScanBlock (LogScanner s) b conf).
Proof.
  intros Hc. apply cooperates_with_preserves. intros w0.
  apply LogScanner_preserves; intros; apply cooperates_with_preserves, Hc.
Qed.

Lemma LogScanner_Cooperative :
  calls_cooperate truth handed J (cc_ChainID (ls_chain s), "log") ->
  Cooperative truth handed (cc_ChainID (ls_chain s)) (LogScanner s) J.
Proof. intros Hc. split; try apply Hc. intros b conf. by apply LogScanner_coop. Qed.
End Loop.

(** the deposits of a block, as the loop's ground truth *)
Definition truth_of `{Eth} (s : LogScannerCfg) (blockOf : Z -> Block) (logsOf : Z -> list Log)
    (watched : string -> bool) (c : Z) (scanner : string) (b : Z) : list key :=
  block_keys s blockOf logsOf watched b.

(** C10. The log scanner is complete and sound.  When the node answers honestly
    and the accounts are those watched, a successful [ScanBlock] reports
    exactly the block's deposits: every plain value transfer and every
    decodable token log to a watched address, under its key, and nothing
    else; every event converts and carries the given confirmations.  A native
    event has the transaction's value and recipient and the sender the node
    gave; a token event is what the decoder made of a log of the block. *)
Theorem LogScanner_reports_exactly {E : Type} `{Env E, ETHClient E, Eth, Sched E}
    (s : LogScannerCfg) (blockOf : Z -> Block) (logsOf : Z -> list Log) (watched : string -> bool)
    (b conf : Z) (w : World E) (evs : list DepositEvent) :
  honest_node s blockOf logsOf watched -> scanner_config s blockOf ->
  (ScanBlock (LogScanner s) b conf w).1 = Ok evs ->
  Forall convertible evs /\ Forall (fun ev => ev_Confirmations ev = conf) evs /\
  Forall (reported s blockOf logsOf b conf) evs /\
  forall k, k ∈ ev_key <$> evs <-> k ∈ block_keys s blockOf logsOf watched b.
Proof.
  intros Hn Hc Hevs. destruct (ScanBlock_sound s blockOf logsOf watched Hn Hc b conf w evs Hevs) as (? & ? & ?).
  split_and!; [done|done| |done]. by apply (ScanBlock_reported s blockOf logsOf watched Hn Hc b conf w).
Qed.

(** C4. End to end: the loop driving the log scanner, on an honest node, with
    failures anywhere and the other goroutines making ledger steps: every
    deposit of every block between the old and the new cursor is buffered or
    was taken over by the Adapter. *)
Theorem log_loop_loses_nothing {E : Type} `{Env E, ETHClient E, Eth, Sched E}
    (s : LogScannerCfg) (blockOf : Z -> Block) (logsOf : Z -> list Log) (watched : string -> bool)
    (handed : E -> gset key) (cfg : LoopConfig) (ticks : nat) (w0 : World E) :
  honest_node s blockOf logsOf watched -> scanner_config s blockOf ->
  calls_cooperate (truth_of s blockOf logsOf watched) handed (fun _ => True) (cc_ChainID (ls_chain s), "log") ->
  bounded (ledger_of handed w0) -> head_range ->
  let w := (Run (cc_ChainID (ls_chain s)) (LogScanner s) cfg ticks w0).2 in
  forall from upto b k,
    scan_cursor (w_db w0) !! (cc_ChainID (ls_chain s), "log") = Some from -> u64 from <> 0 ->
    scan_cursor (w_db w) !! (cc_ChainID (ls_chain s), "log") = Some upto ->
    u64 from < b <= u64 upto -> k ∈ block_keys s blockOf logsOf watched b ->
    k ∈ keys_of (w_db w) \/ k ∈ handed (w_ext w).
Proof.
  intros Hn Hc Hco Hb Hh. cbv zeta. intros from upto b k Hfrom Hnz Hupto Hr Hk.
  pose proof (LogScanner_Sound s blockOf logsOf watched
    (truth_of s blockOf logsOf watched) (fun _ => True) Hn Hc (fun _ => eq_refl)).
  pose proof (LogScanner_Cooperative s _ handed _ Hco).
  refine (reachable_nothing_lost (truth_of s blockOf logsOf watched) handed w0 _ _
    (cc_ChainID (ls_chain s)) "log" from upto b k Hfrom Hnz Hupto Hr Hk).
  eapply (Run_reach _ handed _ (LogScanner s) cfg (fun _ => True) _ ticks Hb Hh w0).
  split; [apply reachable_refl|done].
Qed.

(** ** A concrete chain: one native and one token deposit in block 102 *)
Module EndWitness.
Import DecoderWitness.

(** nothing fails; the Adapter's account table has one watched address *)
Definition with_accounts (w : World Z) : World Z :=
  let db := w_db w in
  mkWorld (mkDB (deposit_buffer db) (buffer_seq db) (scan_cursor db) (notified db) [(1, "0x9")] (chain db) (token db))
    (w_metrics w) (w_ext w).
#[export] Instance env : Env Z := {|
  env_wait _ := ret tt; ctx_Err := ret tt;
  time_Now := gets (fun w => {| sec := w_ext w; nsec := 0 |});
  env_db := fun w => (Ok tt, with_accounts w);
  env_has := fun w => (Ok tt, with_accounts w);
  env_tx e := (None, e); env_commit e := (Committed, e); db_now e := e * 1000000 |}.

Definition blockOf (b : Z) : Block :=
  mkBlock 1700000000 b (if b =? 102 then [mkTx 55 (Some 4) [] 1; mkTx 77 (Some 9) [] 25] else []).
Definition logsOf (b : Z) : list Log :=
  if b =? 102 then [mkLog 7 [TransferTopic; 8; 9] (replicate 31 0 ++ [5]) 78 3] else [].
Definition watched (a : string) : bool := String.eqb a "0x9".

#[export] Instance node : ETHClient Z := {|
  BlockNumber := ret 105;
  BlockByNumber b := ret (Some (blockOf b));
  FilterLogs q := ret (filter (fun lg => log_matches q lg = true) (logsOf (q_FromBlock q)));
  CodeAt _ := ret [];
  TransactionSender _ _ _ := ret 8 |}.
(** the goroutines finish in reverse order *)
#[export] Instance sched : Sched Z := {| schedule cs := ret (reverse cs) |}.

Definition ls : LogScannerCfg := mkLS
  (mkChainConfig 1 "http://eth" "ETH" 18 12000 4000 2 "erc20" {[ "0x7" := mkContract "USDT" 6 ]})
  0 false {| MaxRetries := 3; BaseDelay := 1000000000 |} (Some (Register StandardERC20 NewRegistry)).

Lemma honest : honest_node ls blockOf logsOf watched.
Proof.
  split.
  - by intros b w r [= <-].
  - intros q w logs [= <-] _. done.
  - intros b lg. unfold logsOf. destruct (b =? 102); [|by intros ?%not_elem_of_nil].
    by intros ->%list_elem_of_singleton.
  - intros w w' [= <-] la. unfold account_row, watched. cbn. rewrite orb_false_r. exact (String.eqb_sym "0x9" la).
  - intros cs w order [= <-]. by rewrite reverse_Permutation.
Qed.

Lemma config : scanner_config ls blockOf.
Proof.
  split; cbn; try lia.
  - intros a info [_ <-]%lookup_singleton_Some. cbn. lia.
  - intros reg [= <-]. destruct (Register_spec StandardERC20 NewRegistry NewRegistry_wf) as (Hwf & _ & Hl).
    split; [done|]. intros t d. rewrite Hl. destruct (decide _); [intros [= <-]; apply StandardERC20_regular|].
    unfold Lookup. cbn. by rewrite lookup_empty.
  - intros b. by vm_compute.
Qed.

Lemma node_coop own : calls_cooperate (truth_of ls blockOf logsOf watched) (fun _ => ∅) (fun _ => True) own.
Proof.
  split; try done; intros; intros w; (split; [|done]); try reflexivity.
  split; [done|]. intros l [Hc Hb Hh]. exists l. split; [done|]. by split.
Qed.

Definition cfg : LoopConfig := {|
  MinConfirmations := 2; MaxBlocksPerPoll := 2; BlockDelayMs := 0; PollingIntervalMs := 1000;
  RetryOptions := {| MaxRetries := 3; BaseDelay := 1000000000 |} |}.
Definition at100 : World Z := mkWorld (mkDB [] 1 {[ (1, "log") := 100 ]} 0 [] [] []) ∅ 1700000000.

Lemma LogScanner_reports_exactly_witness : exists evs,
  (ScanBlock (LogScanner ls) 102 3 at100).1 = Ok evs /\ ev_key <$> evs = [(1, "0x77", -2); (1, "0x78", 3)] /\
  ev_Amount <$> evs = [Some 25; Some 5] /\
  Forall convertible evs /\ Forall (reported ls blockOf logsOf 102 3) evs.
Proof.
  eexists. split; [vm_compute; reflexivity|]. split; [reflexivity|]. split; [reflexivity|].
  edestruct (LogScanner_reports_exactly ls blockOf logsOf watched 102 3 at100) as (H1 & _ & H3 & _);
    [apply honest|apply config|vm_compute; reflexivity|]. by split.
Defined.

Lemma log_loop_loses_nothing_witness :
  let w := (Run 1 (LogScanner ls) cfg 1 at100).2 in
  scan_cursor (w_db w) !! (1, "log") = Some 103 /\
  ((1, "0x77", -2) ∈ keys_of (w_db w) \/ (1, "0x77", -2) ∈ (∅ : gset key)).
Proof.
  cbv zeta. split; [vm_compute; reflexivity|].
  apply (log_loop_loses_nothing ls blockOf logsOf watched (fun _ => ∅) cfg 1 at100 honest config (node_coop _))
    with (from := 100) (upto := 103) (b := 102).
  - intros c s n. cbn. rewrite map_fmap_singleton, lookup_singleton_Some. intros [_ <-]. reflexivity.
  - intros w n [= <-]. split; [done|reflexivity].
  - reflexivity.
  - by vm_compute.
  - vm_compute. reflexivity.
  - by vm_compute.
  - vm_compute. left.
Defined.
End EndWitness.
