(* ===== verification/TraceScanner.v ===== *)
(** * Trace scanner ([internal/scanner/trace_scanner.go])

    Internal native transfers, from [debug_traceTransaction] call trees.  The
    scanner keeps a code cache and a flag that disables it; both belong to its
    one goroutine, so they are passed along with the world. *)
From stdpp Require Import base gmap list strings.
From Stdlib Require Import ZArith Lia Ascii String.
From stdpp Require Import base strings.
From S2P Require Import Prelude Decimal Errors Effect Retry Time Model Json Metrics Store BufferRepo Repos ReposProps Scanner Decoder LogScanner.

Definition traceLogIndexBase : Z := -100000.
Definition codeCacheMaxEntries : Z := 10000.
Definition maxCallFrameDepth : Z := 1024.

Inductive callFrame := mkFrame {
  f_Type : string; f_From : string; f_To : string; f_Value : string; f_Error : string;
  f_Calls : list callFrame }.

Definition zeroFrame : callFrame := mkFrame "" "" "" "" "" [].

(** [json.Unmarshal(raw, &frame)] *)
Definition setFrameField (calls : option (list callFrame)) (f : callFrame) (k : string) (v : json) : res callFrame :=
  let '(mkFrame ty fr to va er ca) := f in
  let k := to_lower k in
  if String.eqb k "type" then rmap (fun x => mkFrame x fr to va er ca) (decodeStr ty v)
  else if String.eqb k "from" then rmap (fun x => mkFrame ty x to va er ca) (decodeStr fr v)
  else if String.eqb k "to" then rmap (fun x => mkFrame ty fr x va er ca) (decodeStr to v)
  else if String.eqb k "value" then rmap (fun x => mkFrame ty fr to x er ca) (decodeStr va v)
  else if String.eqb k "error" then rmap (fun x => mkFrame ty fr to va x ca) (decodeStr er v)
  else if String.eqb k "calls" then
    match calls with Some cs => Ok (mkFrame ty fr to va er cs) | None => Err json_type_error end
  else Ok f.

Fixpoint unmarshalFrame (j : json) : res callFrame :=
  match j with
  | JNull => Ok zeroFrame
  | JObj fs =>
      (fix fields (acc : callFrame) (fs : list (string * json)) : res callFrame :=
         match fs with
         | [] => Ok acc
         | (k, v) :: fs' =>
             (* an array of frames, or null, when the key is [calls] *)
             let calls :=
               match v with
               | JNull => Some []
               | JArr l =>
                   (fix items (l : list json) : option (list callFrame) :=
                      match l with
                      | [] => Some []
                      | x :: l' => match unmarshalFrame x, items l' with
                                   | Ok f, Some fs => Some (f :: fs)
                                   | _, _ => None
                                   end
                      end) l
               | _ => None
               end in
             match setFrameField calls acc k v with
             | Ok acc' => fields acc' fs'
             | r => r
             end
         end) zeroFrame fs
  | _ => Err json_type_error
  end.

(** [val.SetString(s, 16)] *)
Fixpoint hex_digits (acc : Z) (s : string) : option Z :=
  match s with
  | EmptyString => Some acc
  | String c s' => match hex_val c with Some d => hex_digits (acc * 16 + d) s' | None => None end
  end.
Definition SetString16 (s : string) : option Z :=
  match s with
  | EmptyString => None
  | String "-" (String c s') => Z.opp <$> hex_digits 0 (String c s')
  | String "+" (String c s') => hex_digits 0 (String c s')
  | _ => hex_digits 0 s
  end.

(** JSON-RPC method not found, by code or by text *)
Definition isMethodNotFound (err : goerr) : bool :=
  match As_RPC err with
  | Some code => code =? -32601
  | None => false
  end ||
  let msg := Error err in
  contains "method not found" msg || contains "not available" msg || contains "does not exist" msg.

Record TraceState := mkTS { codeCache : gmap Address bool; traceUnsupported : bool }.
Definition NewTraceState : TraceState := mkTS ∅ false.

(** the scanner's goroutine *)
Definition TS (E : Type) : Type := World E * TraceState.

Definition tlift {E A} (m : M (World E) A) : M (TS E) A := fun '(w, t) =>
  let '(r, w') := m w in (r, (w', t)).

Section TraceScanner.
Context {E : Type} `{Env E, ETHClient E, TraceCaller E, Eth}.
Variables (chain_ : ChainConfig) (retryOpt : Options).

Definition isContract (addr : Address) : M (TS E) bool :=
  let* st := gets snd in
  match codeCache st !! addr with
  | Some v => ret v
  | None =>
      let* code := tlift (Do retryOpt [] (CodeAt addr)) in
      let v := 0 <? Z.of_nat (length code) in
      modify (fun s =>
        let cache := codeCache s.2 in
        let cache := if codeCacheMaxEntries <=? Z.of_nat (size cache) then ∅ else cache in
        (s.1, mkTS (<[addr := v]> cache) (traceUnsupported s.2))) ;;;
      ret v
  end.

(** [None] is the nil frame of a node without the method *)
Definition traceTransaction (txHash : Hash) : M (TS E) (option callFrame) :=
  let* raw := attempt (tlift (Do retryOpt (JStr "") (CallTrace (hashHex txHash)))) in
  match raw with
  | inr err =>
      if isMethodNotFound err
      then modify (fun s => (s.1, mkTS (codeCache s.2) true)) ;;; ret None
      else fail err
  | inl raw =>
      match unmarshalFrame raw with
      | Ok frame => ret (Some frame)
      | Err err => fail (Errorf "unmarshal trace" err)
      | Panic p => panic p
      end
  end.

Definition trace_event (txHash : string) (confirmations : Z) (blockTime : string) (counter val : Z)
    (call : callFrame) : DepositEvent :=
  mkEvent (cc_ChainID chain_) txHash (traceLogIndexBase - counter)
    (addrHex (HexToAddress (f_From call))) (addrHex (HexToAddress (f_To call))) (Some val)
    (cc_Native chain_) (cc_Decimals chain_) confirmations blockTime.

(** the value of a frame, when it is a CALL that moves any *)
Definition call_value (call : callFrame) : option Z :=
  if String.eqb (f_Type call) "CALL" && negb (String.eqb (f_Value call) "") then
    match SetString16 (trim_prefix "0x" (f_Value call)) with
    | Some v => if 0 <? v then Some v else None
    | None => None
    end
  else None.

(** The body of the loop of [collect] for one frame at [depth]; [st] is the
    counter and the events so far.  A failed lookup is ignored. *)
Fixpoint collect_frame (txHash : string) (confirmations : Z) (blockTime : string)
    (depth : Z) (call : callFrame) (st : Z * list DepositEvent) : M (World E) (Z * list DepositEvent) :=
  if negb (String.eqb (f_Error call) "") then ret st
  else
    let* st1 :=
      match call_value call with
      | Some val =>
          let* has := attempt (Has (cc_ChainID chain_) (addrHex (HexToAddress (f_To call)))) in
          match has with
          | inl true => ret (st.1 + 1, st.2 ++ [trace_event txHash confirmations blockTime st.1 val call])
          | _ => ret st
          end
      | None => ret st
      end in
    if maxCallFrameDepth <? depth + 1 then ret st1
    else
      (fix loop (calls : list callFrame) (st : Z * list DepositEvent) : M (World E) (Z * list DepositEvent) :=
         match calls with
         | [] => ret st
         | c :: rest => let* st' := collect_frame txHash confirmations blockTime (depth + 1) c st in loop rest st'
         end) (f_Calls call) st1.

Definition collect (calls : list callFrame) (txHash : string) (confirmations : Z) (blockTime : string)
    (st : Z * list DepositEvent) : M (World E) (Z * list DepositEvent) :=
  foldM (fun st c => collect_frame txHash confirmations blockTime 0 c st) st calls.

(** the transactions of the block *)
Fixpoint trace_txs (confirmations : Z) (blockTime : string) (txs : list Tx) (st : Z * list DepositEvent)
    : M (TS E) (list DepositEvent) :=
  match txs with
  | [] => ret st.2
  | tx :: rest =>
      match tx_To tx with
      | None => trace_txs confirmations blockTime rest st
      | Some to =>
          let* isC := wrapf ("isContract " +:+ addrHex to) (isContract to) in
          if negb isC then trace_txs confirmations blockTime rest st
          else
            let* root := attempt (traceTransaction (tx_Hash tx)) in
            match root with
            | inr _ => trace_txs confirmations blockTime rest st (* logged, transaction skipped *)
            | inl root =>
                let* off := gets (fun s => traceUnsupported s.2) in
                match root with
                | Some frame =>
                    if (off : bool) then ret st.2
                    else
                      let* st' := tlift (collect (f_Calls frame) (hashHex (tx_Hash tx)) confirmations blockTime st) in
                      trace_txs confirmations blockTime rest st'
                | None => ret st.2
                end
            end
      end
  end.

Definition TraceScanner_ScanBlock (blockNumber confirmations : Z) : M (TS E) (list DepositEvent) :=
  let* off := gets (fun s => traceUnsupported s.2) in
  if (off : bool) then ret []
  else
    let* block := tlift (wrapf ("get block " +:+ dec blockNumber) (Do retryOpt None (BlockByNumber blockNumber))) in
    match block with
    | None => ret []
    | Some block => trace_txs confirmations (blockTimeOf block) (b_Transactions block) (0, [])
    end.
End TraceScanner.
