(* ===== verification/TraceProps.v ===== *)
(** * What the trace scanner finds, and what it silently drops *)
From stdpp Require Import base gmap list strings.
From Stdlib Require Import ZArith Lia Ascii String.
From stdpp Require Import base strings.
From S2P Require Import Prelude Decimal Errors Effect Retry Time Model Json Metrics Store BufferRepo Repos ReposProps Scanner Decoder LogScanner LogScannerProps TraceScanner.

(** ** Call trees *)

Section FrameInd.
Variable P : callFrame -> Prop.
Hypothesis Hstep : forall f, Forall P (f_Calls f) -> P f.
Fixpoint callFrame_tree_ind (f : callFrame) : P f :=
  Hstep f (match f with mkFrame _ _ _ _ _ calls =>
    (fix go (l : list callFrame) : Forall P l :=
       match l with
       | [] => Forall_nil_2 P
       | c :: l' => Forall_cons_2 P c l' (callFrame_tree_ind c) (go l')
       end) calls end).
End FrameInd.

(** the value transfers of a tree that did not revert, in call order *)
Fixpoint transfers (f : callFrame) : list (callFrame * Z) :=
  if negb (String.eqb (f_Error f) "") then []
  else (match call_value f with Some v => [(f, v)] | None => [] end) ++ concat (transfers <$> f_Calls f).

Fixpoint height (f : callFrame) : Z := foldr Z.max 0 ((fun c => height c + 1) <$> f_Calls f).

Lemma height_child f c : c ∈ f_Calls f -> height c + 1 <= height f.
Proof.
  destruct f as [ty fr to va er calls]. cbn. induction calls as [|c' calls IH]; intros Hc.
  - by apply not_elem_of_nil in Hc.
  - cbn. apply elem_of_cons in Hc as [->|Hc]; [lia|]. specialize (IH Hc). lia.
Qed.

Section Collect.
Context {E : Type} `{Env E, Eth}.
Variables (chain_ : ChainConfig) (watched : string -> bool).
Variables (txHash : string) (confirmations : Z) (blockTime : string).

(** the accounts can be read and are those watched; with [killed] the
    goroutine may end while it reads them *)
Variable killed : Prop.
Definition accounts_readable : Prop := forall w, outcome killed (env_has w) (fun _ w' =>
  forall la, account_row (w_db w') (cc_ChainID chain_) la = watched la).

Definition to_watched (x : callFrame * Z) : bool := watched (to_lower (addrHex (HexToAddress (f_To x.1)))).

(** the events of a list of transfers, numbered from [n] *)
Definition events_from (n : Z) (l : list (callFrame * Z)) : list DepositEvent :=
  imap (fun i x => trace_event chain_ txHash confirmations blockTime (n + Z.of_nat i) x.2 x.1) l.

Definition hits (l : list (callFrame * Z)) : list (callFrame * Z) := filter (fun x => to_watched x = true) l.

(** the state after processing the transfers [l] *)
Definition after (l : list (callFrame * Z)) (st : Z * list DepositEvent) : Z * list DepositEvent :=
  (st.1 + Z.of_nat (length (hits l)), st.2 ++ events_from st.1 (hits l)).

Lemma events_from_app n l l' :
  events_from n (l ++ l') = events_from n l ++ events_from (n + Z.of_nat (length l)) l'.
Proof.
  unfold events_from. rewrite imap_app. f_equal. apply imap_ext. intros i x _. cbn. f_equal. lia.
Qed.

Lemma after_app l l' st : after (l ++ l') st = after l' (after l st).
Proof.
  unfold after, hits. rewrite filter_app, length_app, events_from_app, app_assoc. cbn. f_equal. lia.
Qed.

Lemma after_nil st : after [] st = st.
Proof. destruct st. unfold after. cbn. by rewrite app_nil_r, Z.add_0_r. Qed.

(** the loop over the calls of a frame is a fold *)
Lemma collect_frame_eq depth f st w :
  collect_frame chain_ txHash confirmations blockTime depth f st w =
  (if negb (String.eqb (f_Error f) "") then ret st
   else
     let* st1 :=
       match call_value f with
       | Some val =>
           let* has := attempt (Has (cc_ChainID chain_) (addrHex (HexToAddress (f_To f)))) in
           match has with
           | inl true => ret (st.1 + 1, st.2 ++ [trace_event chain_ txHash confirmations blockTime st.1 val f])
           | _ => ret st
           end
       | None => ret st
       end in
     if maxCallFrameDepth <? depth + 1 then ret st1
     else foldM (fun st c => collect_frame chain_ txHash confirmations blockTime (depth + 1) c st) st1 (f_Calls f)) w.
Proof.
  destruct f as [ty fr to va er calls]. cbn [collect_frame f_Error f_Calls].
  destruct (negb _); [done|]. apply bind_ext. intros st1 w1.
  destruct (_ <? _); [done|]. revert st1 w1.
  induction calls as [|c calls IH]; intros st1 w1; [done|]. cbn [foldM].
  apply bind_ext. intros st2 w2. apply IH.
Qed.

Lemma transfers_eq f : transfers f =
  if negb (String.eqb (f_Error f) "") then []
  else (match call_value f with Some v => [(f, v)] | None => [] end) ++ concat (transfers <$> f_Calls f).
Proof. by destruct f. Qed.

Lemma height_nonneg f : 0 <= height f.
Proof. destruct f as [????? cs]. cbn. induction cs; cbn; lia. Qed.

Hypothesis Hacc : accounts_readable.

(** one frame with its subtree *)
Lemma collect_frame_spec f : forall depth st w, depth + height f <= maxCallFrameDepth ->
  outcome killed (collect_frame chain_ txHash confirmations blockTime depth f st w)
    (fun r _ => r = after (transfers f) st).
Proof.
  induction f as [f IH] using callFrame_tree_ind. intros depth st w Hd.
  rewrite collect_frame_eq, transfers_eq. destruct (negb (String.eqb (f_Error f) "")).
  { cbn. by rewrite after_nil. }
  set (own := match call_value f with Some v => [(f, v)] | None => [] end).
  apply outcome_bind with (R := fun r _ => r = after own st).
  { subst own. destruct (call_value f) as [v|]; [|cbn; by rewrite after_nil].
    pose proof (Hacc w) as Hw. unfold bind at 1, attempt, Has, query_account, bind, wrapf.
    destruct (env_has w) as [[[]|e|p] w1]; cbn in Hw |- *; [|done..]. rewrite Hw.
    unfold after, hits. change (watched _) with (to_watched (f, v)).
    rewrite filter_cons. destruct (decide (to_watched (f, v) = true)) as [->|Hn].
    - cbn. by rewrite Z.add_0_r.
    - apply not_true_is_false in Hn as ->. cbn. destruct st. by rewrite app_nil_r, Z.add_0_r. }
  intros st1' w1 ->. rewrite after_app. generalize (after own st) as st1. intros st1.
  assert (forall c, c ∈ f_Calls f -> depth + 1 + height c <= maxCallFrameDepth) as Hch.
  { intros c Hc. pose proof (height_child f c Hc). lia. }
  destruct (Z.ltb_spec maxCallFrameDepth (depth + 1)) as [Hlt|Hge].
  { destruct (f_Calls f) as [|c calls]; [cbn; by rewrite after_nil|].
    exfalso. specialize (Hch c ltac:(left)). pose proof (height_nonneg c). lia. }
  clear own. revert st1 w1. induction IH as [|c calls' Hc Hcs IH']; intros st1 w1.
  { cbn. by rewrite after_nil. }
  cbn [fmap list_fmap concat foldM]. rewrite after_app.
  eapply outcome_bind; [apply Hc, Hch; left|]. intros ? w2 ->. apply IH'. intros c' Hc'. apply Hch. by right.
Qed.

(** the calls of a transaction *)
Lemma collect_spec calls st w : Forall (fun c => height c <= maxCallFrameDepth) calls ->
  outcome killed (collect chain_ calls txHash confirmations blockTime st w)
    (fun r _ => r = after (concat (transfers <$> calls)) st).
Proof.
  intros Hh. revert w st. induction Hh as [|c calls Hc Hcs IH]; intros w st; [cbn; by rewrite after_nil|].
  unfold collect. cbn [foldM fmap list_fmap concat]. rewrite after_app.
  eapply outcome_bind; [apply collect_frame_spec; lia|]. intros ? w1 ->. apply IH.
Qed.
End Collect.

(** The trace scanner finds every internal transfer.  When the accounts
    can be read, [collect] over the calls of a transaction reports, in call
    order, exactly the CALLs with a positive value to a watched address that
    are not inside a reverted call, with consecutive log indices counting down
    from the counter; a call tree as deep as the EVM allows (1024) is not
    truncated. *)
Theorem collect_finds_all {E : Type} `{Env E, Eth} (chain_ : ChainConfig) (watched : string -> bool)
    (txHash : string) (confirmations : Z) (blockTime : string) (calls : list callFrame) (counter : Z)
    (out : list DepositEvent) (w : World E) :
  accounts_readable chain_ watched False -> Forall (fun c => height c <= maxCallFrameDepth) calls ->
  let found := filter (fun x => to_watched watched x = true) (concat (transfers <$> calls)) in
  exists w', collect chain_ calls txHash confirmations blockTime (counter, out) w =
    (Ok (counter + Z.of_nat (length found),
         out ++ events_from chain_ txHash confirmations blockTime counter found), w').
Proof.
  intros Hacc Hh. cbv zeta.
  pose proof (collect_spec chain_ watched txHash confirmations blockTime False Hacc calls (counter, out) w Hh) as Hc.
  destruct (collect _ _ _ _ _ _ _) as [[r|e|p] w']; cbn in Hc; [|done..]. subst r. by exists w'.
Qed.

(** ** The code cache *)

Section Cache.
Context {E : Type} `{Env E, ETHClient E, TraceCaller E, Eth}.
Variables (retryOpt : Options) (has_code : Address -> bool).

(** bounded, and every entry is what the node says *)
Definition cache_ok (t : TraceState) : Prop :=
  Z.of_nat (size (codeCache t)) <= codeCacheMaxEntries /\
  forall a v, codeCache t !! a = Some v -> v = has_code a.

Lemma isContract_eq a (w : World E) t : isContract retryOpt a (w, t) =
  match codeCache t !! a with
  | Some v => (Ok v, (w, t))
  | None =>
      match Do retryOpt [] (CodeAt a) w with
      | (Ok code, w1) =>
          let v := 0 <? Z.of_nat (length code) in
          (Ok v, (w1, mkTS (<[a := v]> (if codeCacheMaxEntries <=? Z.of_nat (size (codeCache t))
                                        then ∅ else codeCache t)) (traceUnsupported t)))
      | (Err e, w1) => (Err e, (w1, t))
      | (Panic p, w1) => (Panic p, (w1, t))
      end
  end.
Proof.
  unfold isContract, bind at 1, gets. cbn [snd]. destruct (codeCache t !! a); [done|].
  unfold bind at 1, tlift. by destruct (Do _ _ _ w) as [[] ?].
Qed.

Lemma isContract_keeps a : 0 <= MaxRetries retryOpt ->
  (forall w a code, (CodeAt a w).1 = Ok code -> (0 <? Z.of_nat (length code)) = has_code a) ->
  hoare (fun s => cache_ok s.2) (isContract retryOpt a)
    (fun r s => cache_ok s.2 /\ forall v, r = Ok v -> v = has_code a).
Proof.
  intros Hm Hcode [w t] [Hsz Hc]. rewrite isContract_eq. cbn [snd] in *.
  destruct (codeCache t !! a) as [v|] eqn:Ha.
  { cbn. split; [done|]. intros ? [= <-]. by apply Hc. }
  pose proof (Do_value (fun code => (0 <? Z.of_nat (length code)) = has_code a) retryOpt [] (CodeAt a) w) as Hv.
  destruct (Do _ _ _ w) as [[code|e|p] w1]; cbn; [|done..].
  specialize (Hv code Hm (fun w c => Hcode w a c) eq_refl). rewrite Hv. split; [|by intros ? [= <-]].
  unfold cache_ok. cbn [codeCache].
  set (cache := if codeCacheMaxEntries <=? Z.of_nat (size (codeCache t)) then ∅ else codeCache t).
  assert (Z.of_nat (size cache) < codeCacheMaxEntries /\ cache !! a = None /\
    forall b v, cache !! b = Some v -> v = has_code b) as (Hs & Hn & Hc').
  { subst cache. destruct (Z.leb_spec codeCacheMaxEntries (Z.of_nat (size (codeCache t)))); [|by split_and!].
    rewrite map_size_empty. split_and!; [done..|]. intros b v Hb. by rewrite lookup_empty in Hb. }
  rewrite map_size_insert_None by done. split; [lia|].
  intros b v. rewrite lookup_insert_Some. intros [[<- <-]|[_ Hb]]; [done|by apply Hc'].
Qed.
End Cache.

(** The code cache never exceeds its limit and never lies: [isContract]
    answers what the node says about the address, whether from the cache or
    not, on every outcome. *)
Theorem isContract_cached {E : Type} `{Env E, ETHClient E, TraceCaller E, Eth}
    (retryOpt : Options) (has_code : Address -> bool) (a : Address) (s : TS E) :
  0 <= MaxRetries retryOpt ->
  (forall w a code, (CodeAt a w).1 = Ok code -> (0 <? Z.of_nat (length code)) = has_code a) ->
  cache_ok has_code s.2 ->
  cache_ok has_code (isContract retryOpt a s).2.2 /\
  forall v, (isContract retryOpt a s).1 = Ok v -> v = has_code a.
Proof. intros Hm Hc Hs. by apply (isContract_keeps retryOpt has_code a Hm Hc s Hs). Qed.

(** ** What is dropped *)

(** A failed account lookup drops the deposit: the transfer's recipient
    cannot be checked, [collect] ignores the error and reports success without
    the event, so the block is saved and the cursor moves past it. *)
Theorem collect_swallows_lookup_error {E : Type} `{Env E, Eth} (chain_ : ChainConfig)
    (txHash : string) (confirmations : Z) (blockTime : string) (f : callFrame) (v : Z) (e : goerr)
    (st : Z * list DepositEvent) (w w' : World E) :
  f_Error f = "" -> call_value f = Some v -> f_Calls f = [] ->
  env_has w = (Err e, w') ->
  collect chain_ [f] txHash confirmations blockTime st w = (Ok st, w').
Proof.
  intros He Hv Hc Hdb. unfold collect. cbn [foldM]. unfold bind at 1. rewrite collect_frame_eq.
  rewrite He, Hc, Hv. cbn [String.eqb negb]. unfold bind, attempt, Has, query_account, bind, wrapf. rewrite Hdb. done.
Qed.

(** One "not available" answer disables the scanner for good: when the
    trace call fails with an error whose text contains that phrase, whatever
    its cause, every later [ScanBlock] succeeds with no events and asks the
    node nothing. *)
Theorem trace_disabled_for_good {E : Type} `{Env E, ETHClient E, TraceCaller E, Eth}
    (chain_ : ChainConfig) (retryOpt : Options) (tx : Hash) (err : goerr) (w w1 : World E) (t : TraceState) :
  Do retryOpt (JStr "") (CallTrace (hashHex tx)) w = (Err err, w1) ->
  contains "not available" (Error err) = true ->
  let s := (traceTransaction retryOpt tx (w, t)).2 in
  traceUnsupported s.2 = true /\
  forall w' b conf, TraceScanner_ScanBlock chain_ retryOpt b conf (w', s.2) = (Ok [], (w', s.2)).
Proof.
  intros Hdo Hmsg.
  assert (traceTransaction retryOpt tx (w, t) = (Ok None, (w1, mkTS (codeCache t) true))) as ->; [|done].
  unfold traceTransaction, bind at 1, attempt, tlift. rewrite Hdo.
  assert (isMethodNotFound err = true) as ->; [|done].
  unfold isMethodNotFound. rewrite Hmsg. destruct (As_RPC err); by rewrite ?orb_true_r.
Qed.

(** ** Concrete runs *)
Module TraceWitness.
Import Quiet DecoderWitness.

Definition chain0 : ChainConfig := mkChainConfig 1 "http://eth" "ETH" 18 12000 4000 12 "erc20" ∅.
Definition opt0 : Options := {| MaxRetries := 0; BaseDelay := 0 |}.
Definition watched (a : string) : bool := String.eqb a "0x9".
Definition db9 : DB := mkDB [] 1 ∅ 0 [(1, "0x9")] [] [].
Definition w9 : World Z := mkWorld db9 ∅ 0.

(** a call of 5 wei to the watched address inside a plain call, beside a
    reverted one *)
Definition inner : callFrame := mkFrame "CALL" "0x7" "0x9" "0x5" "" [].
Definition tree : callFrame := mkFrame "CALL" "0x6" "0x7" "0x0" "" [inner].
Definition reverted : callFrame := mkFrame "CALL" "0x6" "0x9" "0x5" "execution reverted" [inner].

(** the quiet environment over a fixed account table *)
Definition fixed : Env Z := {|
  env_wait _ := ret tt; ctx_Err := ret tt;
  time_Now := gets (fun w => {| sec := w_ext w; nsec := 0 |});
  env_db := fun w => (Ok tt, mkWorld db9 (w_metrics w) (w_ext w));
  env_has := fun w => (Ok tt, mkWorld db9 (w_metrics w) (w_ext w));
  env_tx e := (None, e); env_commit e := (Committed, e); db_now e := e |}.

Lemma collect_finds_all_witness : exists w' evs,
  collect (H := fixed) chain0 [tree; reverted] "0x1" 12 "t" (0, []) w9 = (Ok (1, evs), w') /\
  ev_key <$> evs = [(1, "0x1", -100000)].
Proof.
  destruct (collect_finds_all (E := Z) (H := fixed) chain0 watched "0x1" 12 "t" [tree; reverted] 0 [] w9)
    as (w' & Hrun).
  - intros w. cbn. intros la. unfold account_row, watched. cbn.
    rewrite orb_false_r. exact (String.eqb_sym "0x9" la).
  - repeat constructor; vm_compute; congruence.
  - eexists w', _. split; [exact Hrun|reflexivity].
Defined.

(** node answers: address 7 has code *)
Definition node (trace : string -> M (World Z) json) : ETHClient Z * TraceCaller Z :=
  ({| BlockNumber := ret 10;
      BlockByNumber _ := ret (Some (mkBlock 1700000000 0
        [mkTx 101 (Some 7) [] 0; mkTx 102 (Some 7) [] 0]));
      FilterLogs _ := ret [];
      CodeAt a := ret (if a =? 7 then [1] else []);
      TransactionSender _ _ _ := ret 0 |},
   {| CallTrace := trace |}).

Definition doc : json := JObj [("type", JStr "CALL"); ("calls", JArr
  [JObj [("type", JStr "CALL"); ("from", JStr "0x7"); ("to", JStr "0x9"); ("value", JStr "0x5")]])].

Lemma isContract_cached_witness :
  (isContract (H0 := (node (fun _ => ret doc)).1) opt0 7 (w9, NewTraceState)).1 = Ok true /\
  cache_ok (fun a => a =? 7) (isContract (H0 := (node (fun _ => ret doc)).1) opt0 7 (w9, NewTraceState)).2.2.
Proof.
  destruct (isContract_cached (E := Z) (H0 := (node (fun _ => ret doc)).1) (H1 := (node (fun _ => ret doc)).2)
    opt0 (fun a => a =? 7) 7 (w9, NewTraceState)) as [Hc _].
  - cbn; lia.
  - intros w a code. cbn. destruct (a =? 7); by intros [= <-].
  - split; [by vm_compute|]. intros a v. cbn. by rewrite lookup_empty.
  - split; [reflexivity|exact Hc].
Defined.

(** a database that is down *)
Definition down : Env Z := {|
  env_wait _ := ret tt; ctx_Err := ret tt;
  time_Now := gets (fun w => {| sec := w_ext w; nsec := 0 |});
  env_db := fail (ErrSentinel ConnRefused);
  env_has := fail (ErrSentinel ConnRefused);
  env_tx e := (None, e); env_commit e := (Committed, e); db_now e := e |}.
Lemma collect_swallows_lookup_error_witness :
  collect (H := down) chain0 [inner] "0x1" 12 "t" (0, []) w9 = (Ok (0, []), w9).
Proof.
  apply (collect_swallows_lookup_error (E := Z) (H := down) chain0 "0x1" 12 "t" inner 5 (ErrSentinel ConnRefused));
    reflexivity.
Defined.

Definition flaky_err : goerr := ErrHTTP 503 "503 Service Unavailable: upstream not available".
Lemma trace_disabled_for_good_witness :
  traceUnsupported (traceTransaction (H1 := (node (fun _ => fail flaky_err)).2) opt0 101 (w9, NewTraceState)).2.2 = true.
Proof.
  apply (trace_disabled_for_good (E := Z) (H0 := (node (fun _ => fail flaky_err)).1)
    (H1 := (node (fun _ => fail flaky_err)).2) chain0 opt0 101 flaky_err w9 w9); reflexivity.
Defined.

(** the first transaction's trace fails while the clock (the external state) is 0 *)
Definition sometimes (tx : string) : M (World Z) json := fun w =>
  if String.eqb tx "0x101" && (w_ext w =? 0) then (Err (ErrNew "timeout"), w) else (Ok doc, w).
End TraceWitness.

(** The log index of an internal transfer is not stable: two successful
    scans of the same block, the first of which could not trace an earlier
    transaction, report the same transfer of the second transaction under two
    different keys, so a rescan stores it twice. *)
Theorem trace_index_unstable :
  let scan now := (TraceScanner_ScanBlock (H0 := (TraceWitness.node TraceWitness.sometimes).1)
    (H1 := (TraceWitness.node TraceWitness.sometimes).2) (H2 := DecoderWitness.eth) (H := Quiet.quiet)
    TraceWitness.chain0 TraceWitness.opt0 10 12
    (mkWorld TraceWitness.db9 ∅ now, NewTraceState)).1 in
  exists first second, scan 0 = Ok first /\ scan 1 = Ok second /\
    ev_key <$> first = [(1, "0x102", -100000)] /\
    ev_key <$> second = [(1, "0x101", -100000); (1, "0x102", -100001)].
Proof. cbv zeta. eexists _, _. split_and!; vm_compute; reflexivity. Qed.

(** ** Log index spaces *)

Section Spaces.
Context `{Eth}.
Variables (s : LogScannerCfg) (watched : string -> bool).

Lemma native_keys_shape txs k :
  k ∈ omap id (imap (native_key s watched) txs) ->
  - Z.of_nat (length txs) <= k.2 <= -1.
Proof.
  rewrite list_elem_of_omap. intros (o & Ho & Hk). apply list_elem_of_lookup in Ho as [i Hi].
  rewrite list_lookup_imap in Hi. destruct (txs !! i) as [tx|] eqn:Htx; [|done]. cbn in Hi.
  injection Hi as <-. unfold native_key, id in Hk. destruct (tx_To tx); [|done].
  destruct (decide _); [|done]. injection Hk as <-. cbn. unfold nativeLogIndexBase.
  apply lookup_lt_Some in Htx. lia.
Qed.

Lemma native_keys_chain txs k :
  k ∈ omap id (imap (native_key s watched) txs) -> k.1.1 = cc_ChainID (ls_chain s).
Proof.
  rewrite list_elem_of_omap. intros (o & Ho & Hk). apply list_elem_of_lookup in Ho as [i Hi].
  rewrite list_lookup_imap in Hi. destruct (txs !! i) as [tx|]; [|done]. cbn in Hi.
  injection Hi as <-. unfold native_key, id in Hk. destruct (tx_To tx); [|done].
  destruct (decide _); [|done]. by injection Hk as <-.
Qed.

Lemma token_keys_index reg (logs : list Log) (k : key) :
  (forall t d, Lookup reg t = Some d -> decoder_regular d) ->
  k ∈ omap (token_key s watched reg) logs ->
  k.1.1 = cc_ChainID (ls_chain s) /\ exists lg, lg ∈ logs /\ k.2 = i64 (lg_Index lg).
Proof.
  intros Hreg. rewrite list_elem_of_omap. intros (lg & Hlg & Hk). unfold token_key, decode_log in Hk.
  destruct (cc_Contracts _ !! _) as [info|]; [|done]. destruct (lg_Topics lg) as [|t0 ts]; [done|].
  destruct (Lookup reg t0) as [d|] eqn:Hd; [|done].
  destruct (d_Decode d lg info _) as [[ev|]|e|p] eqn:Hdec; [|done..].
  apply (dr_event d (Hreg _ _ Hd)) in Hdec as (Hkey & _).
  destruct (watched _); [|done]. injection Hk as <-. rewrite Hkey. cbn. split; [done|]. by exists lg.
Qed.

Lemma token_keys_shape reg logs k :
  (forall t d, Lookup reg t = Some d -> decoder_regular d) ->
  Forall (fun lg => 0 <= lg_Index lg < two63) logs ->
  k ∈ omap (token_key s watched reg) logs -> 0 <= k.2.
Proof.
  intros Hreg Hl Hk. apply token_keys_index in Hk as (_ & lg & Hlg & ->); [|done].
  rewrite Forall_forall in Hl. specialize (Hl lg Hlg). rewrite i64_small by width. lia.
Qed.
End Spaces.

(** *** What the scanners report, whatever the environment does *)

Lemma sublist_fmap_filter {A B} (f : A -> B) (P : A -> Prop) `{!forall x, Decision (P x)} (l : list A) :
  f <$> filter P l `sublist_of` f <$> l.
Proof.
  induction l as [|x l IH]; [constructor|]. rewrite filter_cons.
  destruct (decide (P x)); cbn; by constructor.
Qed.

Lemma collect_natives_index i txs : n_txIdx <$> collect_natives i txs `sublist_of` seqZ i (Z.of_nat (length txs)).
Proof.
  revert i. induction txs as [|tx txs IH]; intros i; [constructor|].
  cbn [length collect_natives]. rewrite seqZ_cons, Nat2Z.inj_succ, Z.pred_succ by lia.
  specialize (IH (Z.succ i)). rewrite <- Z.add_1_r in *.
  destruct (tx_To tx); [destruct (_ || _)|]; cbn; by constructor.
Qed.

Section LogSide.
Context {E : Type} `{Env E, ETHClient E, Eth, Sched E}.
Variable s : LogScannerCfg.

(** distinct indices in [-n .. -1] *)
Definition native_indices (n : Z) (evs : list DepositEvent) : Prop :=
  NoDup (ev_LogIndex <$> evs) /\ Forall (fun ev => - n <= ev_LogIndex ev <= -1) evs.

Lemma errgroup_answers block cs :
  (forall cs, answers (schedule cs) (fun order => order ≡ₚ cs)) ->
  answers (errgroup s block cs) (fun results => results.*1 ≡ₚ cs).
Proof.
  intros Hs. eapply answers_bind; [apply Hs|]. intros order Ho w rs Hrs.
  apply foldM_results in Hrs. cbn in Hrs. by rewrite Hrs.
Qed.

Lemma parseNative_answers block conf bt :
  (forall cs, answers (schedule cs) (fun order => order ≡ₚ cs)) ->
  answers (parseNativeTransfers s block conf bt) (native_indices (Z.of_nat (length (b_Transactions block)))).
Proof.
  intros Hs. unfold parseNativeTransfers. pose proof (collect_natives_index 0 (b_Transactions block)) as Hidx.
  destruct (collect_natives _ _) as [|c cs] eqn:Hcs; [by apply answers_ret; repeat constructor|].
  rewrite <- Hcs in *. clear c cs Hcs. eapply answers_bind; [apply answers_True|]. intros m _.
  eapply answers_bind; [by apply errgroup_answers|]. intros rs Hrs. apply answers_ret.
  assert (ev_LogIndex <$> (native_event s conf bt <$> rs) ≡ₚ (fun i => nativeLogIndexBase - i) <$>
    (n_txIdx <$> filter (fun c => is_matched m (to_lower (addrHex (n_toAddr c))) = true)
      (collect_natives 0 (b_Transactions block)))) as Hp by (rewrite <- Hrs, <- !list_fmap_compose; done).
  pose proof (sublist_fmap_filter n_txIdx (fun c => is_matched m (to_lower (addrHex (n_toAddr c))) = true)
    (collect_natives 0 (b_Transactions block))) as Hsub.
  rewrite Hidx in Hsub. split.
  - rewrite Hp. apply NoDup_fmap_2; [intros x y; lia|]. eapply sublist_NoDup; [apply NoDup_seqZ|exact Hsub].
  - apply (Forall_fmap ev_LogIndex (fun i => - _ <= i <= -1)).
    rewrite Hp, Forall_fmap, Forall_forall. intros i Hi. cbn. unfold nativeLogIndexBase.
    apply (elem_of_sublist _ _ _ Hi), elem_of_seqZ in Hsub. lia.
Qed.

Lemma collect_tokens_index reg conf bt logs evs :
  (forall t d, Lookup reg t = Some d -> decoder_regular d) ->
  collect_tokens s reg conf bt logs = Ok evs ->
  ev_LogIndex <$> evs `sublist_of` (fun lg => i64 (lg_Index lg)) <$> logs.
Proof.
  intros Hreg. revert evs. induction logs as [|lg logs IH]; intros evs; cbn; [intros [= <-]; constructor|].
  destruct (decode_log s reg conf bt lg) as [[ev|]|e|p] eqn:Hd; [| |done..].
  - destruct (collect_tokens s reg conf bt logs) as [evs'|e|p]; [|done..]. intros [= <-]. cbn.
    assert (ev_LogIndex ev = i64 (lg_Index lg)) as ->; [|by constructor; apply IH].
    unfold decode_log in Hd. destruct (cc_Contracts _ !! _); [|done]. destruct (lg_Topics lg); [done|].
    destruct (Lookup reg _) as [d|] eqn:Hl; [|done].
    destruct (d_Decode d lg _ _) as [[ev'|]|e|p] eqn:Hdec; [|done..]. injection Hd as ->.
    apply (dr_event d (Hreg _ _ Hl)) in Hdec as (Hk & _). by injection Hk.
  - intros Hevs. constructor. by apply IH.
Qed.

(** the logs of one block as a node reports them *)
Definition block_logs (logs : list Log) : Prop :=
  NoDup (lg_Index <$> logs) /\ Forall (fun lg => 0 <= lg_Index lg < two63) logs.

Lemma parseToken_answers reg b conf bt :
  (forall t d, Lookup reg t = Some d -> decoder_regular d) ->
  (forall q, answers (FilterLogs q) block_logs) ->
  answers (parseTokenTransfers s reg b conf bt)
    (fun evs => NoDup (ev_LogIndex <$> evs) /\ Forall (fun ev => 0 <= ev_LogIndex ev) evs).
Proof.
  intros Hreg Hlogs. eapply answers_bind.
  { apply answers_wrapf, answers_Do; [apply Hlogs|]. split; constructor. }
  intros logs [Hnd Hpos]. eapply answers_bind with (R := fun cands =>
    ev_LogIndex <$> cands `sublist_of` lg_Index <$> logs).
  { intros w cands Hc. apply collect_tokens_index in Hc; [|done].
    assert ((fun lg => i64 (lg_Index lg)) <$> logs = lg_Index <$> logs) as <-; [|done].
    apply list_fmap_ext. intros i lg Hlg. apply i64_small.
    eapply Forall_lookup_1 in Hpos; [|exact Hlg]. cbn in Hpos. width. }
  intros cands Hc. assert (forall evs, ev_LogIndex <$> evs `sublist_of` lg_Index <$> logs ->
    NoDup (ev_LogIndex <$> evs) /\ Forall (fun ev => 0 <= ev_LogIndex ev) evs) as Hsub.
  { intros evs He. split; [by eapply sublist_NoDup|].
    apply (Forall_fmap ev_LogIndex (fun i => 0 <= i)), Forall_forall. intros i Hi.
    apply (elem_of_sublist _ _ _ Hi) in He. apply list_elem_of_fmap in He as (lg & -> & Hlg).
    rewrite Forall_forall in Hpos. by apply Hpos. }
  destruct cands as [|c cs]; [apply answers_ret, Hsub; cbn; apply sublist_nil_l|].
  eapply answers_bind; [apply answers_True|]. intros m _. apply answers_ret, Hsub.
  etrans; [apply sublist_fmap_filter|exact Hc].
Qed.
End LogSide.

Section TraceSide.
Context {E : Type} `{Env E, ETHClient E, TraceCaller E, Eth}.
Variables (chain_ : ChainConfig) (retryOpt : Options).

(** the counter has numbered the events so far *)
Definition numbered (st : Z * list DepositEvent) : Prop :=
  0 <= st.1 /\ ev_LogIndex <$> st.2 = (fun i => traceLogIndexBase - i) <$> seqZ 0 st.1.

Lemma numbered_snoc txHash conf bt val call st :
  numbered st -> numbered (st.1 + 1, st.2 ++ [trace_event chain_ txHash conf bt st.1 val call]).
Proof.
  intros [Hn Hev]. split; cbn; [lia|]. rewrite fmap_app, Hev, (seqZ_app 0 st.1 1), fmap_app by lia. cbn. by rewrite Z.add_0_l.
Qed.

Lemma collect_frame_numbered txHash conf bt f : forall depth st,
  numbered st -> answers (collect_frame chain_ txHash conf bt depth f st) numbered.
Proof.
  induction f as [f IH] using callFrame_tree_ind. intros depth st Hst w r. rewrite collect_frame_eq.
  revert w r. match goal with |- forall w r, (?m w).1 = Ok r -> _ => change (answers m numbered) end.
  apply answers_if; [by apply answers_ret|].
  eapply answers_bind with (R := numbered).
  - destruct (call_value f); [|by apply answers_ret].
    eapply answers_bind; [apply answers_True|]. intros [[]|] _; apply answers_ret; [by apply numbered_snoc|done..].
  - intros st1 Hst1. apply answers_if; [by apply answers_ret|]. apply answers_foldM; [|done].
    intros st2 c Hc. rewrite Forall_forall in IH. by apply IH.
Qed.

Lemma answers_tlift {A} (m : M (World E) A) (Q : A -> Prop) : answers m Q -> answers (tlift m) Q.
Proof. intros Hm [w t] a. specialize (Hm w a). unfold tlift. by destruct (m w). Qed.

Lemma trace_txs_numbered conf bt txs st :
  numbered st -> answers (trace_txs chain_ retryOpt conf bt txs st) (fun evs => exists n, numbered (n, evs)).
Proof.
  revert st. induction txs as [|tx txs IH]; intros st Hst; cbn [trace_txs].
  { apply answers_ret. exists st.1. by destruct st. }
  assert (answers (S:=TS E) (ret st.2) (fun evs => exists n, numbered (n, evs))) as Hret.
  { apply answers_ret. exists st.1. by destruct st. }
  destruct (tx_To tx); [|by apply IH]. eapply answers_bind; [apply answers_True|]. intros isC _.
  apply answers_if; [by apply IH|]. eapply answers_bind; [apply answers_True|]. intros [root|e] _; [|by apply IH].
  eapply answers_bind; [apply answers_True|]. intros off _. destruct root as [frame|]; [|done].
  apply answers_if; [done|]. eapply answers_bind; [|intros st' Hst'; by apply IH].
  apply answers_tlift, answers_foldM; [|done]. intros st' c _. apply collect_frame_numbered.
Qed.

Lemma TraceScanner_numbered b conf :
  answers (TraceScanner_ScanBlock chain_ retryOpt b conf) (fun evs => exists n, numbered (n, evs)).
Proof.
  assert (exists n, numbered (n, [])) as Hnil by (exists 0; by split).
  eapply answers_bind; [apply answers_True|]. intros off _. apply answers_if; [by apply answers_ret|].
  eapply answers_bind; [apply answers_True|]. intros [blk|] _; [|by apply answers_ret].
  apply trace_txs_numbered. by split.
Qed.
End TraceSide.

(** C40. The three sources of deposits of a block never share a log index.
    Take a node that reports blocks of fewer than 100000 transactions and, for
    a block, logs with distinct non-negative int64 indices, an errgroup that
    runs every candidate once, and decoders that keep the log's index.  Then in
    what a log scan and a trace scan of the block report, when they succeed,
    no two deposits have the same log index, whatever else fails on the way:
    native transfers are numbered by transaction from -1 down, token transfers
    by their log, internal transfers from -100000 down; so the unique
    constraint never merges two deposits of the block. *)
Theorem log_index_spaces_disjoint {E : Type} `{Env E, ETHClient E, TraceCaller E, Eth, Sched E}
    (s : LogScannerCfg) (chain_ : ChainConfig) (retryOpt : Options) (b conf conf' : Z)
    (w w' : World E) (t : TraceState) (evs traces : list DepositEvent) :
  answers (BlockByNumber b) (fun blk => forall bl, blk = Some bl ->
    Z.of_nat (length (b_Transactions bl)) < 100000) ->
  (forall q, answers (FilterLogs q) block_logs) ->
  (forall cs, answers (schedule cs) (fun order => order ≡ₚ cs)) ->
  (forall reg t0 d, ls_decoders s = Some reg -> Lookup reg t0 = Some d -> decoder_regular d) ->
  (LogScanner_ScanBlock s b conf w).1 = Ok evs ->
  (TraceScanner_ScanBlock chain_ retryOpt b conf' (w', t)).1 = Ok traces ->
  NoDup (ev_LogIndex <$> evs ++ traces).
Proof.
  intros Hblk Hlogs Hs Hreg Hl Ht.
  assert (NoDup (ev_LogIndex <$> evs) /\ Forall (fun i => -100000 < i) (ev_LogIndex <$> evs)) as [Hnd Hlow].
  { revert w evs Hl. match goal with |- forall w evs, (?m w).1 = Ok evs -> ?G => change (answers m (fun evs => G)) end.
    eapply answers_bind; [apply answers_wrapf, answers_Do; [exact Hblk|done]|].
    intros [bl|] Hbl; [|apply answers_ret; split; constructor]. specialize (Hbl bl eq_refl). cbv zeta.
    eapply answers_bind; [by apply answers_wrapf, parseNative_answers|]. intros nat_ [Hn1 Hn2].
    eapply answers_bind with (R := fun evs => NoDup (ev_LogIndex <$> evs) /\ Forall (fun ev => 0 <= ev_LogIndex ev) evs).
    { destruct (ls_decoders s) as [reg|] eqn:Hd; [|by apply answers_ret; repeat constructor].
      apply answers_if; [|by apply answers_ret; repeat constructor].
      apply answers_wrapf, parseToken_answers; [|done]. intros t0 d. by apply Hreg. }
    intros toks [Ht1 Ht2]. apply answers_ret. rewrite Forall_fmap, fmap_app, NoDup_app, Forall_app.
    rewrite Forall_forall in Hn2, Ht2. split_and!; [done| |done|apply Forall_forall..].
    - intros i (ev & -> & Hev)%list_elem_of_fmap (ev' & Heq & Hev')%list_elem_of_fmap.
      specialize (Hn2 ev Hev). specialize (Ht2 ev' Hev'). lia.
    - intros ev Hev. specialize (Hn2 ev Hev). cbn. lia.
    - intros ev Hev. specialize (Ht2 ev Hev). cbn. lia. }
  destruct (TraceScanner_numbered chain_ retryOpt b conf' _ _ Ht) as (n & _ & Htr). cbn in Htr.
  rewrite fmap_app, NoDup_app. split_and!; [done| |rewrite Htr; apply NoDup_fmap_2; [intros x y; lia|apply NoDup_seqZ]].
  rewrite Htr. rewrite Forall_forall in Hlow. intros i Hi (k & -> & Hk%elem_of_seqZ)%list_elem_of_fmap.
  specialize (Hlow _ Hi). unfold traceLogIndexBase in *. cbn in Hlow. lia.
Qed.

Module SpacesWitness.
Import DecoderWitness TraceWitness.
Definition reg : DecoderRegistry := Register StandardERC20 NewRegistry.
Definition ls : LogScannerCfg := mkLS chain0 0 false opt0 (Some reg).

Lemma reg_regular t d : Lookup reg t = Some d -> decoder_regular d.
Proof.
  unfold reg. destruct (Register_spec StandardERC20 NewRegistry NewRegistry_wf) as (_ & _ & ->).
  destruct (decide _); [intros [= <-]; apply StandardERC20_regular|unfold Lookup; cbn; by rewrite lookup_empty].
Qed.

(** one block with all three: a native transfer, a USDT log and a traced call *)
Definition lsT : LogScannerCfg := mkLS (mkChainConfig 1 "http://eth" "ETH" 18 12000 4000 12 "erc20"
  {[ "0x7" := mkContract "USDT" 6 ]}) 0 false opt0 (Some reg).
#[export] Instance mixed_node : ETHClient Z := {|
  BlockNumber := ret 10;
  BlockByNumber _ := ret (Some (mkBlock 1700000000 0 [mkTx 101 (Some 7) [1] 0; mkTx 102 (Some 9) [] 4; mkTx 103 (Some 9) [] 5]));
  FilterLogs _ := ret [mkLog 7 [TransferTopic; 8; 9] (replicate 31 0 ++ [5]) 101 0];
  CodeAt a := ret (if a =? 7 then [1] else []);
  TransactionSender _ _ _ := ret 8 |}.
#[export] Instance mixed_trace : TraceCaller Z := {| CallTrace _ := ret doc |}.
#[export] Instance mixed_sched : Sched Z := {| schedule cs := ret (reverse cs) |}.

Lemma log_index_spaces_disjoint_witness : exists evs traces,
  (LogScanner_ScanBlock (H := fixed) lsT 10 12 w9).1 = Ok evs /\
  (TraceScanner_ScanBlock (H := fixed) chain0 opt0 10 12 (w9, NewTraceState)).1 = Ok traces /\
  ev_LogIndex <$> evs = [-3; -2; 0] /\ ev_LogIndex <$> traces = [-100000] /\
  NoDup (ev_LogIndex <$> evs ++ traces).
Proof.
  eexists _, _. split; [vm_compute; reflexivity|]. split; [vm_compute; reflexivity|].
  split; [reflexivity|]. split; [reflexivity|].
  apply (log_index_spaces_disjoint (H := fixed) lsT chain0 opt0 10 12 12 w9 w9 NewTraceState).
  - intros w blk [= <-] bl [= <-]. by vm_compute.
  - intros q w logs [= <-]. split; repeat constructor; try set_solver; by vm_compute.
  - intros cs w order [= <-]. apply reverse_Permutation.
  - intros reg' t0 d [= <-]. apply reg_regular.
  - vm_compute. reflexivity.
  - vm_compute. reflexivity.
Defined.
End SpacesWitness.
