(* ===== verification/TraceEnd.v ===== *)
(** * From call traces to the buffer

    The trace scanner as a strategy of the polling loop.  Its code cache and
    its flag live in the goroutine's memory ([TraceHost]).  When account
    lookups and trace calls succeed, the scanner reports exactly the block's
    internal transfers, so the trace loop loses nothing; [TraceProps.v] shows
    what the two failures the code swallows do. *)
From stdpp Require Import base gmap list strings relations.
From Stdlib Require Import ZArith Lia Ascii String.
From stdpp Require Import base strings.
From S2P Require Import Prelude Decimal Errors Effect Retry Time Model Json Metrics Store BufferRepo Spec Repos ReposProps Scanner Loop LoopProps Decoder LogScanner LogScannerProps EndToEnd TraceScanner TraceProps.

(** ** The scanner object *)

(** where the goroutine keeps the fields of its [*TraceScanner] *)
Class TraceHost (E : Type) := {
  ts_get : E -> TraceState;
  ts_set : TraceState -> E -> E
}.
Class TraceHostLaws (E : Type) `{TraceHost E} : Prop := {
  ts_get_set : forall t e, ts_get (ts_set t e) = t
}.

Section Object.
Context {E : Type} `{Env E, ETHClient E, TraceCaller E, Eth, TraceHost E}.

(** the methods read and write the fields *)
Definition onHost {A} (m : M (TS E) A) : M (World E) A := fun w =>
  let '(r, (w', t)) := m (w, ts_get (w_ext w)) in
  (r, mkWorld (w_db w') (w_metrics w') (ts_set t (w_ext w'))).

(** [NewTraceScanner]'s object as a strategy *)
Definition TraceScannerObj (chain_ : ChainConfig) (retryOpt : Options) : Scanner E :=
  mkScanner "trace" (fun b conf => onHost (TraceScanner_ScanBlock chain_ retryOpt b conf)).
End Object.

(** ** The internal transfers of a block, from the chain's data alone *)
Section Truth.
Context `{Eth}.
Variables (chain_ : ChainConfig) (blockOf : Z -> Block) (traceOf : Hash -> callFrame).
Variables (has_code : Address -> bool) (watched : string -> bool).

(** those of one transaction: it calls a contract, the call tree moves value
    to a watched address *)
Definition tx_found (tx : Tx) : list (string * (callFrame * Z)) :=
  match tx_To tx with
  | Some a =>
      if has_code a
      then pair (hashHex (tx_Hash tx)) <$> hits watched (concat (transfers <$> f_Calls (traceOf (tx_Hash tx))))
      else []
  | None => []
  end.

Definition found (txs : list Tx) : list (string * (callFrame * Z)) := concat (tx_found <$> txs).

(** numbered through the block *)
Definition trace_keys (b : Z) : list key :=
  imap (fun i x => (cc_ChainID chain_, x.1, traceLogIndexBase - Z.of_nat i)) (found (b_Transactions (blockOf b))).

Definition found_events (conf : Z) (bt : string) (n : Z) (l : list (string * (callFrame * Z))) : list DepositEvent :=
  imap (fun i x => trace_event chain_ x.1 conf bt (n + Z.of_nat i) x.2.2 x.2.1) l.

Lemma found_events_app conf bt n l l' :
  found_events conf bt n (l ++ l') = found_events conf bt n l ++ found_events conf bt (n + Z.of_nat (length l)) l'.
Proof. unfold found_events. rewrite imap_app. f_equal. apply imap_ext. intros i x _. cbn. f_equal. lia. Qed.

Lemma found_events_tx txHash conf bt n l :
  found_events conf bt n (pair txHash <$> l) = events_from chain_ txHash conf bt n l.
Proof. unfold found_events, events_from. by rewrite imap_fmap. Qed.

Lemma found_events_keys conf bt b :
  ev_key <$> found_events conf bt 0 (found (b_Transactions (blockOf b))) = trace_keys b.
Proof. unfold found_events, trace_keys. rewrite fmap_imap. by apply imap_ext. Qed.
End Truth.

(** ** Exactness *)
Section Exact.
Context {E : Type} `{Env E, ETHClient E, TraceCaller E, Eth}.
Variables (chain_ : ChainConfig) (retryOpt : Options) (blockOf : Z -> Block) (traceOf : Hash -> callFrame).
Variables (has_code : Address -> bool) (watched : string -> bool).

(** Documented behaviour of the node.  Blocks and code may be refused, and the
    scan then fails; a trace is answered (unless the goroutine ends during
    the call), with a tree no deeper than the EVM allows. *)
Record honest_tracer : Prop := {
  ht_block : forall b w r, (BlockByNumber b w).1 = Ok r -> r = Some (blockOf b);
  ht_code : forall w a code, (CodeAt a w).1 = Ok code -> (0 <? Z.of_nat (length code)) = has_code a;
  ht_trace : forall b tx w, tx ∈ b_Transactions (blockOf b) ->
    outcome True (Do retryOpt (JStr "") (CallTrace (hashHex (tx_Hash tx))) w)
      (fun raw _ => unmarshalFrame raw = Ok (traceOf (tx_Hash tx)));
  ht_depth : forall b tx, tx ∈ b_Transactions (blockOf b) ->
    Forall (fun c => height c <= maxCallFrameDepth) (f_Calls (traceOf (tx_Hash tx)))
}.
Hypothesis Hnode : honest_tracer.
Hypothesis Hacc : accounts_readable chain_ watched True.
Hypothesis Hretries : 0 <= MaxRetries retryOpt.

(** the fields between two scans *)
Definition trace_mem (t : TraceState) : Prop := traceUnsupported t = false /\ cache_ok has_code t.

Lemma NewTraceState_mem : trace_mem NewTraceState.
Proof. split; [done|]. split; [by vm_compute|]. intros a v. cbn. by rewrite lookup_empty. Qed.

Lemma isContract_flag a (s : TS E) : traceUnsupported (isContract retryOpt a s).2.2 = traceUnsupported s.2.
Proof.
  destruct s as [w t]. rewrite isContract_eq. destruct (codeCache t !! a); [done|].
  by destruct (Do _ _ _ w) as [[] ?].
Qed.

Lemma isContract_mem a : hoare (fun s => trace_mem s.2) (isContract retryOpt a)
  (fun r s => trace_mem s.2 /\ forall v, r = Ok v -> v = has_code a).
Proof.
  intros s [Hu Hc]. destruct (isContract_keeps retryOpt has_code a Hretries (ht_code Hnode) s Hc) as [Hc' Hv].
  split; [|done]. split; [|done]. by rewrite isContract_flag.
Qed.

Lemma traceTransaction_ok b tx w t : tx ∈ b_Transactions (blockOf b) ->
  let '(r, (_, t')) := attempt (traceTransaction retryOpt (tx_Hash tx)) (w, t) in
  t' = t /\ match r with Ok r => r = inl (Some (traceOf (tx_Hash tx))) | Err _ => False | Panic _ => True end.
Proof.
  intros Htx. pose proof (ht_trace Hnode b tx w Htx) as Hdo.
  unfold attempt at 1, traceTransaction, bind at 1, attempt, tlift.
  destruct (Do _ _ _ w) as [[raw|e|p] w']; cbn in Hdo |- *; [by rewrite Hdo|done..].
Qed.

Abbreviation found_ := (found traceOf has_code watched).

Lemma trace_txs_exact conf bt b txs : forall st s r s',
  (forall tx, tx ∈ txs -> tx ∈ b_Transactions (blockOf b)) -> trace_mem s.2 ->
  trace_txs chain_ retryOpt conf bt txs st s = (r, s') ->
  trace_mem s'.2 /\ forall evs, r = Ok evs -> evs = st.2 ++ found_events chain_ conf bt st.1 (found_ txs).
Proof.
  induction txs as [|tx txs IH]; intros st [w t] r s' Hsub Hmem.
  { intros [= <- <-]. split; [done|]. intros evs [= <-]. by rewrite app_nil_r. }
  assert (forall tx', tx' ∈ txs -> tx' ∈ b_Transactions (blockOf b)) as Hsub' by (intros; apply Hsub; by right).
  unfold found. cbn [trace_txs fmap list_fmap concat]. fold (found_ txs).
  unfold tx_found. destruct (tx_To tx) as [to|]; [|by apply IH].
  unfold bind at 1, wrapf at 1. pose proof (isContract_mem to (w, t) Hmem) as [Hm1 Hv].
  destruct (isContract retryOpt to (w, t)) as [[v|e|p] [w1 t1]]; cbn [fst snd] in *; [|by intros [= <- <-]..].
  specialize (Hv v eq_refl) as ->. destruct (has_code to); cbn [negb]; [|by apply IH].
  pose proof (traceTransaction_ok b tx w1 t1 ltac:(apply Hsub; left)) as Htr. unfold bind at 1.
  destruct (attempt _ _) as [[r1|e|p] [w2 t2]]; [|by destruct Htr|destruct Htr as [-> _]; by intros [= <- <-]].
  destruct Htr as [-> ->]. unfold bind at 1, gets. cbn [snd]. destruct Hm1 as [Hu Hc]. rewrite Hu.
  pose proof (collect_spec chain_ watched (hashHex (tx_Hash tx)) conf bt True Hacc
    (f_Calls (traceOf (tx_Hash tx))) st w2 ltac:(apply (ht_depth Hnode b), Hsub; left)) as Hcol.
  unfold bind at 1, tlift. destruct (collect _ _ _ _ _ _ _) as [[r2|e|p] w3]; [|done|by intros [= <- <-]].
  cbn in Hcol. subst r2. intros Hrest.
  destruct (IH _ (w3, t1) r s' Hsub' (conj Hu Hc) Hrest) as [Hm2 Hev].
  split; [exact Hm2|]. intros evs Hr. rewrite (Hev evs Hr). unfold after. cbn [fst snd].
  by rewrite <- app_assoc, found_events_app, length_fmap, found_events_tx.
Qed.

(** a scan keeps the fields, and when it succeeds reports the block *)
Lemma trace_ScanBlock_exact b conf s r s' : trace_mem s.2 ->
  TraceScanner_ScanBlock chain_ retryOpt b conf s = (r, s') ->
  trace_mem s'.2 /\ forall evs, r = Ok evs ->
    evs = found_events chain_ conf (blockTimeOf (blockOf b)) 0 (found_ (b_Transactions (blockOf b))).
Proof.
  destruct s as [w t]. cbn [snd]. intros Hmem.
  unfold TraceScanner_ScanBlock, bind at 1, gets. cbn [snd]. destruct Hmem as [Hu Hc]. rewrite Hu.
  pose proof (Do_value (fun r => r = Some (blockOf b)) retryOpt None (BlockByNumber b) w) as Hb.
  unfold bind, tlift, wrapf. destruct (Do retryOpt None (BlockByNumber b) w) as [[blk|e|p] w1]; cbn [fst snd]; [|by intros [= <- <-]..].
  specialize (Hb blk Hretries (ht_block Hnode b) eq_refl) as ->.
  by apply (trace_txs_exact conf (blockTimeOf (blockOf b)) b (b_Transactions (blockOf b)) (0, []) (w1, t)).
Qed.

Lemma trace_ScanBlock_mem b conf s :
  trace_mem s.2 -> trace_mem (TraceScanner_ScanBlock chain_ retryOpt b conf s).2.2.
Proof.
  intros Hs. destruct (TraceScanner_ScanBlock _ _ _ _ s) as [r s'] eqn:Hscan.
  by apply trace_ScanBlock_exact in Hscan as [Hmem _].
Qed.

Lemma found_events_convertible conf b l :
  0 <= cc_Decimals chain_ -> minRFC3339 <= i64 (b_Time (blockOf b)) < maxRFC3339 ->
  Forall convertible (found_events chain_ conf (blockTimeOf (blockOf b)) 0 l).
Proof.
  intros Hd Ht. apply Forall_lookup. intros i ev. unfold found_events. rewrite list_lookup_imap.
  destruct (l !! i); [|done]. cbn. intros [= <-]. split; [done|].
  exists (i64 (b_Time (blockOf b))). by split.
Qed.
End Exact.

(** ** The scanner's interface to the loop *)

Lemma preserves_tlift {E A} (I : World E -> Prop) (m : M (World E) A) :
  preserves I m -> preserves (fun s : TS E => I s.1) (tlift m).
Proof. intros Hm [w t] Hw. specialize (Hm w Hw). unfold tlift. by destruct (m w). Qed.

Section Preserves.
Context {E : Type} `{Env E, ETHClient E, TraceCaller E, Eth} (I : World E -> Prop).
Hypothesis Hwait : forall d, preserves I (env_wait d).
Hypothesis Hhas : preserves I env_has.
Hypothesis Hblock : forall n, preserves I (BlockByNumber n).
Hypothesis Hcode : forall a, preserves I (CodeAt a).
Hypothesis Htrace : forall tx, preserves I (CallTrace tx).
Abbreviation IT := (fun s : TS E => I s.1).

Lemma collect_frame_preserves chain_ tx conf bt f : forall depth st,
  preserves I (collect_frame chain_ tx conf bt depth f st).
Proof.
  induction f as [f IH] using callFrame_tree_ind. intros depth st w Hw. rewrite collect_frame_eq.
  revert w Hw. match goal with |- forall w, _ -> I (?m w).2 => change (preserves I m) end.
  assert (forall c a, preserves I (Has c a)) by (intros; by apply preserves_query_account).
  assert (forall st1, preserves I (foldM (fun st c => collect_frame chain_ tx conf bt (depth + 1) c st) st1 (f_Calls f))).
  { induction IH as [|c cs Hc _ IHl]; intros st1; [apply preserves_ret|]. cbn [foldM]. apply preserves_bind; [apply Hc|done]. }
  destruct (negb _); [apply preserves_ret|]. apply preserves_bind; [eff; auto with eff|].
  intros st1. by destruct (_ <? _); [apply preserves_ret|].
Qed.

Lemma TraceScanner_preserves chain_ retryOpt b conf :
  preserves IT (TraceScanner_ScanBlock chain_ retryOpt b conf).
Proof.
  assert (forall A opt (z : A) fn, preserves I fn -> preserves IT (tlift (Do opt z fn))) as Hdo.
  { intros. by apply preserves_tlift, preserves_Do. }
  assert (forall f : TS E -> TS E, (forall s, (f s).1 = s.1) -> preserves IT (modify f)) as Hmod.
  { intros f Hf s Hs. cbn. by rewrite Hf. }
  assert (forall a, preserves IT (isContract retryOpt a)) as Hisc.
  { intros a. unfold isContract. eff; auto. }
  assert (forall tx, preserves IT (traceTransaction retryOpt tx)) as Htt.
  { intros tx. unfold traceTransaction. eff; auto with eff. }
  assert (forall cs tx bt st, preserves IT (tlift (collect chain_ cs tx conf bt st))) as Hcol.
  { intros. apply preserves_tlift. unfold collect. apply preserves_foldM. intros. apply collect_frame_preserves. }
  assert (forall txs bt st, preserves IT (trace_txs chain_ retryOpt conf bt txs st)) as Htxs.
  { induction txs as [|tx txs IH]; intros bt st; cbn [trace_txs]; eff; auto with eff. }
  unfold TraceScanner_ScanBlock. eff; auto with eff.
  apply preserves_tlift, preserves_wrapf, preserves_Do; auto.
Qed.
End Preserves.

(** a scan keeps what its calls keep and a change of its fields to others
    that satisfy [T] keeps *)
Lemma TraceScanner_keeps {E : Type} `{Env E, ETHClient E, TraceCaller E, Eth, TraceHost E}
    (I : World E -> Prop) (T : TraceState -> Prop) chain_ retryOpt b conf :
  (forall w, I w -> T (ts_get (w_ext w))) ->
  (forall s, T s.2 -> T (TraceScanner_ScanBlock chain_ retryOpt b conf s).2.2) ->
  (forall w t, I w -> T t -> I (mkWorld (w_db w) (w_metrics w) (ts_set t (w_ext w)))) ->
  (forall d, preserves I (env_wait d)) -> preserves I env_has -> (forall n, preserves I (BlockByNumber n)) ->
  (forall a, preserves I (CodeAt a)) -> (forall tx, preserves I (CallTrace tx)) ->
  preserves I (ScanBlock (TraceScannerObj chain_ retryOpt) b conf).
Proof.
  intros HT Hmem Hset Hw Hdb Hb Hc Htr w HI. cbn [ScanBlock TraceScannerObj]. unfold onHost.
  pose proof (TraceScanner_preserves I Hw Hdb Hb Hc Htr chain_ retryOpt b conf (w, ts_get (w_ext w)) HI) as HI'.
  specialize (Hmem (w, ts_get (w_ext w)) (HT w HI)).
  destruct (TraceScanner_ScanBlock _ _ _ _ _) as [r [w' t]]. by apply Hset.
Qed.

Section TraceLoop.
Context {E : Type} `{Env E, ETHClient E, TraceCaller E, Eth, TraceHostLaws E, !Sched E}.
Variables (chain_ : ChainConfig) (retryOpt : Options) (blockOf : Z -> Block) (traceOf : Hash -> callFrame).
Variables (has_code : Address -> bool) (watched : string -> bool).
Variables (truth : Z -> string -> Z -> list key) (handed : E -> gset key).

Definition trace_inv (e : E) : Prop := trace_mem has_code (ts_get e).

Lemma onHost_run {A} (m : M (TS E) A) w :
  (onHost m w).1 = (m (w, ts_get (w_ext w))).1 /\
  ts_get (w_ext (onHost m w).2) = (m (w, ts_get (w_ext w))).2.2.
Proof.
  unfold onHost. destruct (m _) as [r [w' t]]. cbn. split; [done|apply ts_get_set].
Qed.

Lemma TraceScanner_Sound :
  honest_tracer retryOpt blockOf traceOf has_code -> accounts_readable chain_ watched True ->
  0 <= MaxRetries retryOpt -> 0 <= cc_Decimals chain_ ->
  (forall b, minRFC3339 <= i64 (b_Time (blockOf b)) < maxRFC3339) ->
  (forall b, truth (cc_ChainID chain_) "trace" b = trace_keys chain_ blockOf traceOf has_code watched b) ->
  ScannerSound truth (cc_ChainID chain_) (TraceScannerObj chain_ retryOpt) trace_inv.
Proof.
  intros Hn Ha Hm Hd Ht Hk. split. cbn [ScanBlock TraceScannerObj Name]. intros b conf w evs HJ Hr.
  destruct (onHost_run (TraceScanner_ScanBlock chain_ retryOpt b conf) w) as [Hrun _]. rewrite Hrun in Hr.
  destruct (TraceScanner_ScanBlock _ _ _ _ (w, _)) as [r s'] eqn:Hscan. cbn in Hr. subst r.
  apply (trace_ScanBlock_exact chain_ retryOpt blockOf traceOf has_code watched Hn Ha Hm) in Hscan as [_ Hev]; [|done].
  rewrite (Hev evs eq_refl). split; [by apply found_events_convertible|].
  intros k. by rewrite found_events_keys, Hk.
Qed.

Lemma TraceScanner_coop own b conf :
  honest_tracer retryOpt blockOf traceOf has_code -> accounts_readable chain_ watched True -> 0 <= MaxRetries retryOpt ->
  (forall t e, handed (ts_set t e) = handed e) ->
  calls_cooperate truth handed trace_inv own -> cooperates_with truth handed trace_inv own env_has ->
  (forall tx, cooperates_with truth handed trace_inv own (CallTrace tx)) ->
  cooperates_with truth handed trace_inv own (ScanBlock (TraceScannerObj chain_ retryOpt) b conf).
Proof.
  intros Hn Ha Hm Hset Hc Hh Htr. apply cooperates_with_preserves. intros w0.
  apply (TraceScanner_keeps _ (trace_mem has_code)); try (intros; apply cooperates_with_preserves, Hc).
  - by intros w [_ HJ].
  - by apply (trace_ScanBlock_mem chain_ retryOpt blockOf traceOf has_code watched Hn Ha Hm b conf).
  - intros w t [Hw _] Ht. split; [|unfold trace_inv; cbn; by rewrite ts_get_set].
    etrans; [exact Hw|]. apply coop_same; cbn; auto.
  - by apply cooperates_with_preserves.
  - intros. by apply cooperates_with_preserves.
Qed.

Lemma TraceScanner_Cooperative :
  honest_tracer retryOpt blockOf traceOf has_code -> accounts_readable chain_ watched True -> 0 <= MaxRetries retryOpt ->
  (forall t e, handed (ts_set t e) = handed e) ->
  calls_cooperate truth handed trace_inv (cc_ChainID chain_, "trace") ->
  cooperates_with truth handed trace_inv (cc_ChainID chain_, "trace") env_has ->
  (forall tx, cooperates_with truth handed trace_inv (cc_ChainID chain_, "trace") (CallTrace tx)) ->
  Cooperative truth handed (cc_ChainID chain_) (TraceScannerObj chain_ retryOpt) trace_inv.
Proof. intros Hn Ha Hm Hset Hc Hh Htr. split; try apply Hc. intros b conf. by apply TraceScanner_coop. Qed.
End TraceLoop.

(** C11. The trace scanner is exact.  When account lookups and trace calls succeed,
    a successful scan of a block reports exactly its internal transfers to
    watched addresses, in order, under indices counting down from -100000
    through the block; every event converts and carries the given
    confirmations; on every outcome the cache stays bounded and truthful and
    the scanner stays enabled. *)
Theorem TraceScanner_reports_exactly {E : Type} `{Env E, ETHClient E, TraceCaller E, Eth}
    (chain_ : ChainConfig) (retryOpt : Options) (blockOf : Z -> Block) (traceOf : Hash -> callFrame)
    (has_code : Address -> bool) (watched : string -> bool) (b conf : Z) (s : TS E) :
  honest_tracer retryOpt blockOf traceOf has_code -> accounts_readable chain_ watched True ->
  0 <= MaxRetries retryOpt -> 0 <= cc_Decimals chain_ ->
  minRFC3339 <= i64 (b_Time (blockOf b)) < maxRFC3339 -> trace_mem has_code s.2 ->
  let '(r, s') := TraceScanner_ScanBlock chain_ retryOpt b conf s in
  trace_mem has_code s'.2 /\ forall evs, r = Ok evs ->
    ev_key <$> evs = trace_keys chain_ blockOf traceOf has_code watched b /\
    Forall convertible evs /\ Forall (fun ev => ev_Confirmations ev = conf) evs.
Proof.
  intros Hn Ha Hm Hd Ht Hs. destruct (TraceScanner_ScanBlock _ _ _ _ s) as [r s'] eqn:Hrun.
  destruct (trace_ScanBlock_exact chain_ retryOpt blockOf traceOf has_code watched Hn Ha Hm b conf s r s' Hs Hrun)
    as [Hmem Hev].
  split; [exact Hmem|]. intros evs Hr. rewrite (Hev evs Hr). split_and!.
  - apply found_events_keys.
  - by apply found_events_convertible.
  - apply Forall_lookup. intros i ev. unfold found_events. rewrite list_lookup_imap.
    destruct (_ !! i); [|done]. by intros [= <-].
Qed.

(** the internal transfers of a block, as the loop's ground truth *)
Definition trace_truth `{Eth} (chain_ : ChainConfig) (blockOf : Z -> Block) (traceOf : Hash -> callFrame)
    (has_code : Address -> bool) (watched : string -> bool) (c : Z) (scanner : string) (b : Z) : list key :=
  trace_keys chain_ blockOf traceOf has_code watched b.

(** C5. End to end for internal transfers: the loop driving the trace scanner.
    The node reports blocks, code and call trees (within the EVM's depth) as
    they are; every trace call, after its retries, and every lookup of a single
    account gives an answer (it may also not return), for an account table that
    does not change; block times and heads are in range: without this the
    scanner drops transfers ([collect_swallows_lookup_error],
    [trace_disabled_for_good]).  Then, whatever other calls, statements and
    commits fail, every internal transfer of every block between the old and
    the new cursor is buffered or was taken over. *)
Theorem trace_loop_loses_nothing {E : Type} `{Env E, ETHClient E, TraceCaller E, Eth, TraceHostLaws E, !Sched E}
    (chain_ : ChainConfig) (retryOpt : Options) (blockOf : Z -> Block) (traceOf : Hash -> callFrame)
    (has_code : Address -> bool) (watched : string -> bool) (handed : E -> gset key) (cfg : LoopConfig)
    (ticks : nat) (w0 : World E) :
  let truth := trace_truth chain_ blockOf traceOf has_code watched in
  let own := (cc_ChainID chain_, "trace") in
  honest_tracer retryOpt blockOf traceOf has_code -> accounts_readable chain_ watched True ->
  0 <= MaxRetries retryOpt -> 0 <= cc_Decimals chain_ ->
  (forall b, minRFC3339 <= i64 (b_Time (blockOf b)) < maxRFC3339) ->
  (forall t e, handed (ts_set t e) = handed e) ->
  calls_cooperate truth handed (trace_inv has_code) own ->
  cooperates_with truth handed (trace_inv has_code) own env_has ->
  (forall tx, cooperates_with truth handed (trace_inv has_code) own (CallTrace tx)) ->
  bounded (ledger_of handed w0) -> head_range -> ts_get (w_ext w0) = NewTraceState ->
  let w := (Run (cc_ChainID chain_) (TraceScannerObj chain_ retryOpt) cfg ticks w0).2 in
  forall from upto b k,
    scan_cursor (w_db w0) !! own = Some from -> u64 from <> 0 ->
    scan_cursor (w_db w) !! own = Some upto ->
    u64 from < b <= u64 upto -> k ∈ trace_keys chain_ blockOf traceOf has_code watched b ->
    k ∈ keys_of (w_db w) \/ k ∈ handed (w_ext w).
Proof.
  cbv zeta. intros Hn Ha Hm Hd Ht Hset Hc Hac Htr Hb Hh Hnew from upto b k Hfrom Hnz Hupto Hr Hk.
  set (truth := trace_truth chain_ blockOf traceOf has_code watched) in *.
  pose proof (TraceScanner_Sound chain_ retryOpt blockOf traceOf has_code watched truth Hn Ha Hm Hd Ht (fun _ => eq_refl)).
  pose proof (TraceScanner_Cooperative chain_ retryOpt blockOf traceOf has_code watched truth handed Hn Ha Hm Hset Hc Hac Htr).
  refine (reachable_nothing_lost truth handed w0 _ _ (cc_ChainID chain_) "trace" from upto b k Hfrom Hnz Hupto Hr Hk).
  apply (Run_reach truth handed _ (TraceScannerObj chain_ retryOpt) cfg (trace_inv has_code) _ ticks Hb Hh w0).
  split; [apply reachable_refl|]. unfold trace_inv. rewrite Hnew. apply NewTraceState_mem.
Qed.

(** ** A concrete chain: an internal transfer in block 102 *)
Module TraceEndWitness.
Import DecoderWitness TraceWitness.

Definition mem : Type := Z * TraceState.
#[export] Instance env : Env mem := {|
  env_wait _ := ret tt; ctx_Err := ret tt;
  time_Now := gets (fun w => {| sec := (w_ext w).1; nsec := 0 |});
  env_db := fun w => (Ok tt, let db := w_db w in
    mkWorld (mkDB (deposit_buffer db) (buffer_seq db) (scan_cursor db) (notified db) [(1, "0x9")] (chain db) (token db))
      (w_metrics w) (w_ext w));
  env_has := fun w => (Ok tt, let db := w_db w in
    mkWorld (mkDB (deposit_buffer db) (buffer_seq db) (scan_cursor db) (notified db) [(1, "0x9")] (chain db) (token db))
      (w_metrics w) (w_ext w));
  env_tx e := (None, e); env_commit e := (Committed, e); db_now e := e.1 |}.
Definition blockOf (b : Z) : Block :=
  mkBlock 1700000000 b (if b =? 102 then [mkTx 55 (Some 4) [] 1; mkTx 77 (Some 7) [] 0] else []).
#[export] Instance node : ETHClient mem := {|
  BlockNumber := ret 105; BlockByNumber b := ret (Some (blockOf b)); FilterLogs _ := ret [];
  CodeAt a := ret (if a =? 7 then [1] else []); TransactionSender _ _ _ := ret 0 |}.
#[export] Instance tracer : TraceCaller mem := {| CallTrace _ := ret doc |}.
#[export] Instance sched : Sched mem := {| schedule cs := ret cs |}.
#[export] Instance host : TraceHost mem := {| ts_get e := e.2; ts_set t e := (e.1, t) |}.
#[export] Instance host_laws : TraceHostLaws mem.
Proof. by split. Qed.

Definition frame : callFrame := mkFrame "CALL" "" "" "" "" [inner].
Definition contract (a : Address) : bool := a =? 7.

Lemma tracer_honest : honest_tracer opt0 blockOf (fun _ => frame) contract.
Proof.
  split.
  - by intros b w r [= <-].
  - intros w a code [= <-]. unfold contract. by destruct (a =? 7).
  - by intros b tx w _.
  - intros b tx _. repeat constructor. by vm_compute.
Qed.
Lemma tracer_readable : accounts_readable chain0 watched True.
Proof.
  intros w. cbn. intros la. unfold account_row, watched. cbn.
  rewrite orb_false_r. exact (String.eqb_sym "0x9" la).
Qed.

Definition at101 : World mem := mkWorld (mkDB [] 1 {[ (1, "trace") := 101 ]} 0 [] [] []) ∅ (1700000000, NewTraceState).
Lemma tracer_times (b : Z) : minRFC3339 <= i64 (b_Time (blockOf b)) < maxRFC3339.
Proof. by vm_compute. Qed.

Lemma TraceScanner_reports_exactly_witness : exists evs s',
  TraceScanner_ScanBlock chain0 opt0 102 12 (at101, NewTraceState) = (Ok evs, s') /\
  ev_key <$> evs = [(1, "0x77", -100000)] /\ codeCache s'.2 !! 7 = Some true /\
  Forall convertible evs.
Proof.
  pose proof (TraceScanner_reports_exactly chain0 opt0 blockOf (fun _ => frame) contract watched 102 12
    (at101, NewTraceState) tracer_honest tracer_readable ltac:(done) ltac:(done) (tracer_times 102) (NewTraceState_mem contract)) as Hx.
  destruct (TraceScanner_ScanBlock _ _ _ _ _) as [r s'] eqn:Hrun. vm_compute in Hrun. injection Hrun as <- <-.
  destruct Hx as [_ Hx]. destruct (Hx _ eq_refl) as (_ & Hcv & _).
  eexists _, _. split_and!; [reflexivity..|exact Hcv].
Defined.

Lemma steps_coop own {A} (m : M (World mem) A) :
  (forall w, scan_cursor (w_db (m w).2) = scan_cursor (w_db w) /\
     deposit_buffer (w_db (m w).2) = deposit_buffer (w_db w) /\ w_ext (m w).2 = w_ext w) ->
  cooperates_with (trace_truth chain0 blockOf (fun _ => frame) contract watched) (fun _ => ∅) (trace_inv contract) own m.
Proof.
  intros Hm w HJ. destruct (Hm w) as (Hc & Hb & He). rewrite He. split; [|done].
  split; [by rewrite Hc|]. intros l [H1 H2 H3]. exists l. split; [done|].
  split; [by rewrite Hc|unfold keys_of; by rewrite Hb|done].
Qed.

Lemma trace_loop_loses_nothing_witness :
  let w := (Run 1 (TraceScannerObj chain0 opt0) EndWitness.cfg 1 at101).2 in
  scan_cursor (w_db w) !! (1, "trace") = Some 103 /\
  ((1, "0x77", -100000) ∈ keys_of (w_db w) \/ (1, "0x77", -100000) ∈ (∅ : gset key)).
Proof.
  cbv zeta. split; [vm_compute; reflexivity|].
  apply (trace_loop_loses_nothing chain0 opt0 blockOf (fun _ => frame) contract watched (fun _ => ∅)
    EndWitness.cfg 1 at101 tracer_honest tracer_readable) with (from := 101) (upto := 103) (b := 102).
  - done.
  - done.
  - apply tracer_times.
  - done.
  - split; try done; intros; by apply steps_coop.
  - by apply steps_coop.
  - intros; by apply steps_coop.
  - intros c s n. cbn. rewrite map_fmap_singleton, lookup_singleton_Some. intros [_ <-]. reflexivity.
  - intros w n [= <-]. split; [done|reflexivity].
  - reflexivity.
  - reflexivity.
  - by vm_compute.
  - vm_compute. reflexivity.
  - by vm_compute.
  - vm_compute. left.
Defined.
End TraceEndWitness.
