(* ===== verification/Typed.v ===== *)
(** * Machine types end to end

    [LogIndex] is a Go [int] in the scanners and an INT column in the table:
    a value that does not fit fails the whole block's transaction, and the
    loop would retry that block for ever.  The scanners' events always fit, so
    the table invariant survives any run of a polling loop. *)
From stdpp Require Import base gmap list strings relations.
From Stdlib Require Import ZArith Lia Ascii String.
From stdpp Require Import base strings.
From S2P Require Import Prelude Decimal Errors Effect Retry Time Model Json Metrics Store BufferRepo Spec Repos ReposProps Scanner Loop Decoder LogScanner LogScannerProps EndToEnd TraceScanner TraceProps TraceEnd.

(** the Go and SQL types of an event's integers *)
Definition event_typed (e : DepositEvent) : Prop :=
  is_i64 (ev_ChainID e) /\ is_i32 (ev_LogIndex e) /\ is_i64 (ev_Confirmations e).

Definition scanner_typed {E : Type} (strategy : Scanner E) (J : E -> Prop) : Prop :=
  forall b conf w evs, is_i64 conf -> J (w_ext w) -> (ScanBlock strategy b conf w).1 = Ok evs ->
    Forall event_typed evs.

Lemma key_typed (c : Z) conf evs :
  is_i64 c -> is_i64 conf -> Forall (fun ev => ev_Confirmations ev = conf) evs ->
  (forall k, k ∈ ev_key <$> evs -> k.1.1 = c /\ is_i32 k.2) -> Forall event_typed evs.
Proof.
  intros Hc Hconf Hcs Hk. apply Forall_forall. intros e He. rewrite Forall_forall in Hcs.
  destruct (Hk (ev_key e)) as [H1 H2]; [by apply list_elem_of_fmap_2|]. cbn in H1, H2.
  unfold event_typed. rewrite H1, (Hcs e He). done.
Qed.

(** ** The log scanner *)

Lemma LogScanner_typed {E : Type} `{Env E, ETHClient E, Eth, Sched E}
    (s : LogScannerCfg) (blockOf : Z -> Block) (logsOf : Z -> list Log) (watched : string -> bool) (J : E -> Prop) :
  honest_node s blockOf logsOf watched -> scanner_config s blockOf ->
  is_i64 (cc_ChainID (ls_chain s)) ->
  (forall b, Z.of_nat (length (b_Transactions (blockOf b))) <= two31) ->
  (forall b, Forall (fun lg => 0 <= lg_Index lg < two31) (logsOf b)) ->
  scanner_typed (LogScanner s) J.
Proof.
  intros Hn Hc Hid Htx Hlg b conf w evs Hconf _ Hr.
  destruct (ScanBlock_sound s blockOf logsOf watched Hn Hc b conf w evs Hr) as (_ & Hcs & Hk).
  apply (key_typed (cc_ChainID (ls_chain s)) conf evs Hid Hconf Hcs).
  intros k Hin%Hk. unfold block_keys in Hin. apply elem_of_app in Hin as [Hin|Hin].
  - split; [by eapply native_keys_chain|]. apply native_keys_shape in Hin. specialize (Htx b). width.
  - destruct (ls_decoders s) as [reg|] eqn:Hd; [|by apply not_elem_of_nil in Hin].
    apply token_keys_index in Hin as (Hch & lg & Hl & ->); [|by apply (sc_registry _ _ Hc)].
    split; [done|]. specialize (Hlg b). rewrite Forall_forall in Hlg. specialize (Hlg lg Hl).
    rewrite i64_small by width. width.
Qed.

(** ** The trace scanner *)

Lemma TraceScanner_typed {E : Type} `{Env E, ETHClient E, TraceCaller E, Eth, TraceHostLaws E}
    (chain_ : ChainConfig) (retryOpt : Options) (blockOf : Z -> Block) (traceOf : Hash -> callFrame)
    (has_code : Address -> bool) (watched : string -> bool) :
  honest_tracer retryOpt blockOf traceOf has_code -> accounts_readable chain_ watched True ->
  0 <= MaxRetries retryOpt -> is_i64 (cc_ChainID chain_) ->
  (forall b, Z.of_nat (length (found traceOf has_code watched (b_Transactions (blockOf b)))) <= two31 - 100000) ->
  scanner_typed (TraceScannerObj chain_ retryOpt) (trace_inv has_code).
Proof.
  intros Hn Ha Hm Hid Hlen b conf w evs Hconf HJ Hr. cbn [ScanBlock TraceScannerObj] in Hr.
  destruct (onHost_run (TraceScanner_ScanBlock chain_ retryOpt b conf) w) as [Hrun _]. rewrite Hrun in Hr.
  destruct (TraceScanner_ScanBlock _ _ _ _ (w, _)) as [r s'] eqn:Hscan. cbn in Hr. subst r.
  apply (trace_ScanBlock_exact chain_ retryOpt blockOf traceOf has_code watched Hn Ha Hm) in Hscan as [_ Hev]; [|done].
  rewrite (Hev evs eq_refl). apply Forall_lookup. intros i ev. unfold found_events. rewrite list_lookup_imap.
  destruct (_ !! i) as [x|] eqn:Hx; [|done]. cbn. intros [= <-]. apply lookup_lt_Some in Hx.
  specialize (Hlen b). unfold event_typed. cbn. unfold traceLogIndexBase. split_and!; [done|width|done].
Qed.

(** ** The loop *)

Lemma Run_wf {E : Type} `{Env E, ETHClient E} chainID (strategy : Scanner E) cfg (J : E -> Prop) ticks :
  scanner_typed strategy J ->
  calls_keep strategy (fun w => db_wf (w_db w)) -> calls_keep strategy (fun w => J (w_ext w)) -> head_u64 ->
  (forall e, J e -> J (env_tx e).2) -> (forall e, J e -> J (env_commit e).2) ->
  preserves (fun w => db_wf (w_db w) /\ J (w_ext w)) (Run chainID strategy cfg ticks).
Proof.
  intros Hty Hk HkJ Hu Htx Hcm. set (I := fun w : World E => db_wf (w_db w) /\ J (w_ext w)).
  pose proof (calls_keep_and strategy _ _ Hk HkJ : calls_keep strategy I) as HI.
  assert (forall b ds, Forall deposit_ints ds -> preserves I (SaveAndAdvance chainID (Name strategy) b ds)) as Hsave.
  { intros b ds Hds w [Hw HJw]. split; [by apply save_wf; [apply Hk|..]|].
    apply SaveAndAdvance_frame; [done..|]. by apply (keep_db _ _ HkJ). }
  assert (forall f, preserves I (emit f)) as Hemit by by intros f w.
  apply Run_keeps; [done|]. apply pollOnce_keeps; [done..| |intros; by apply Hsave].
  intros latest endB b Hb. apply (processBlock_keeps chainID strategy cfg I HI Hemit (fun _ => event_typed)).
  - intros conf w evs Hconf [_ HJw]. by apply Hty.
  - intros evs ds Hevs Hds. apply Hsave, Forall_forall. intros d Hd.
    destruct (Hds d Hd) as (e & He & [= Hc _ Hl] & Hcf). rewrite Forall_forall in Hevs.
    destruct (Hevs e He) as (H1 & H2 & H3). unfold deposit_ints. rewrite Hc, Hl, Hcf.
    split_and!; [done|width|done].
Qed.

(** C21. The table stays well typed on a real chain.  On an honest node whose
    blocks have at most 2^31 transactions and whose log indices fit INT, every
    event the log scanner reports fits its Go and SQL types, so no save fails
    on a type; and any run of its polling loop, whatever else fails, keeps
    the table invariant: unique keys, increasing ids, and payloads that decode
    back to the deposit of their key. *)
Theorem log_loop_well_typed {E : Type} `{Env E, ETHClient E, Eth, Sched E}
    (s : LogScannerCfg) (blockOf : Z -> Block) (logsOf : Z -> list Log) (watched : string -> bool)
    (cfg : LoopConfig) (ticks : nat) (w0 : World E) :
  honest_node s blockOf logsOf watched -> scanner_config s blockOf ->
  is_i64 (cc_ChainID (ls_chain s)) ->
  (forall b, Z.of_nat (length (b_Transactions (blockOf b))) <= two31) ->
  (forall b, Forall (fun lg => 0 <= lg_Index lg < two31) (logsOf b)) ->
  calls_keep (LogScanner s) (fun w => db_wf (w_db w)) -> head_u64 ->
  db_wf (w_db w0) ->
  (forall b conf w evs, is_i64 conf -> (ScanBlock (LogScanner s) b conf w).1 = Ok evs -> Forall event_typed evs) /\
  db_wf (w_db (Run (cc_ChainID (ls_chain s)) (LogScanner s) cfg ticks w0).2).
Proof.
  intros Hn Hc Hid Htx Hlg Hk Hu Hwf.
  pose proof (LogScanner_typed s blockOf logsOf watched (fun _ => True) Hn Hc Hid Htx Hlg) as Hty.
  split; [intros b conf w evs Hconf; by apply Hty|].
  by apply (Run_wf (cc_ChainID (ls_chain s)) (LogScanner s) cfg (fun _ => True) ticks).
Qed.

Module TypedWitness.
Import DecoderWitness EndWitness.

Lemma accounts_wf (w : World Z) : db_wf (w_db w) -> db_wf (w_db (with_accounts w)).
Proof. by intros [H1 H2 H3 H4]. Qed.
Lemma wf_kept : calls_keep (LogScanner ls) (fun w : World Z => db_wf (w_db w)).
Proof.
  split; try (intros; intros w Hw; first [exact Hw|by apply accounts_wf]).
  intros b conf. apply LogScanner_preserves; intros; intros w Hw; first [exact Hw|by apply accounts_wf].
Qed.
Lemma head : head_u64 (E := Z).
Proof. intros w n [= <-]. by split. Qed.
Lemma small_blocks b : Z.of_nat (length (b_Transactions (blockOf b))) <= two31.
Proof. unfold blockOf. cbn. destruct (b =? 102); by vm_compute. Qed.
Lemma small_logs b : Forall (fun lg => 0 <= lg_Index lg < two31) (logsOf b).
Proof. unfold logsOf. destruct (b =? 102); repeat constructor; by vm_compute. Qed.
Lemma empty_wf : db_wf (w_db at100).
Proof. split; constructor. Qed.

Lemma log_loop_well_typed_witness :
  db_wf (w_db (Run 1 (LogScanner ls) cfg 1 at100).2) /\
  keys_of (w_db (Run 1 (LogScanner ls) cfg 1 at100).2) = [(1, "0x77", -2); (1, "0x78", 3)].
Proof.
  split; [|vm_compute; reflexivity].
  apply (log_loop_well_typed ls blockOf logsOf watched cfg 1 at100 honest config);
    [by split|apply small_blocks|apply small_logs|apply wf_kept|apply head|apply empty_wf].
Defined.
End TypedWitness.
