(* ===== verification/Supervisor.v ===== *)
(** * Supervisor ([internal/supervisor/supervisor.go])

    Reconciles the set of running chains with the active chains of the
    database.  A started chain is an [inst]ance: a context and the two
    goroutines (log, trace) [startChain] spawns, with the [done] channel that
    is closed when both have ended.  The supervisor's own code is sequential;
    the goroutines move between any two of its steps, as [gstep]s. *)
From stdpp Require Import base gmap list strings relations.
From Stdlib Require Import ZArith Lia Ascii String.
From stdpp Require Import base strings.
From S2P Require Import Prelude Decimal Errors Effect Retry Time Model Json Metrics Store Repos.

(** [type ChainSource interface] *)
Class ChainSource (E : Type) := {
  src_ActiveChains : M (World E) (list ChainInfo);
  src_ChainConfig : Z -> M (World E) ChainConfig
}.
#[export] Instance ConfigRepo_ChainSource {E} `{Env E, Sha} : ChainSource E := {|
  src_ActiveChains := ActiveChains; src_ChainConfig := ChainConfig_of |}.

(** ** State *)

(** what [startChain] spawned: the context, the goroutines, [done] *)
Record inst := mkInst {
  i_chain : Z;
  i_cancelled : bool;  (* chainCtx.Done() closed *)
  i_log : bool;        (* the log goroutine is running *)
  i_trace : bool;
  i_done : bool        (* done closed *)
}.

(** [chainRunner]: the instance stands for the [cancel] and [done] handles *)
Record chainRunner := mkRunner { cr_inst : nat; tokenConfigHash : string }.

Record Supervisor := mkSup {
  running : gmap Z chainRunner;
  insts : gmap nat inst;   (* every instance ever started *)
  nexti : nat;
  parentDone : bool        (* the context of Run is cancelled *)
}.

Definition New : Supervisor := mkSup ∅ ∅ 0 false.

Definition set_running (r : gmap Z chainRunner) (s : Supervisor) : Supervisor :=
  mkSup r (insts s) (nexti s) (parentDone s).
Definition set_inst (f : inst -> inst) (i : nat) (s : Supervisor) : Supervisor :=
  mkSup (running s) (alter f i (insts s)) (nexti s) (parentDone s).

Definition cancel_inst (x : inst) : inst := mkInst (i_chain x) true (i_log x) (i_trace x) (i_done x).
Definition end_side (log : bool) (x : inst) : inst :=
  if log then mkInst (i_chain x) (i_cancelled x) false (i_trace x) (i_done x)
  else mkInst (i_chain x) (i_cancelled x) (i_log x) false (i_done x).
Definition side (log : bool) (x : inst) : bool := if log then i_log x else i_trace x.
Definition close_done (x : inst) : inst := mkInst (i_chain x) (i_cancelled x) (i_log x) (i_trace x) true.

(** the supervisor goroutine runs in a world and this state *)
Definition SS (E : Type) : Type := World E * Supervisor.
Definition slift {E A} (m : M (World E) A) : M (SS E) A := fun '(w, s) =>
  let '(r, w') := m w in (r, (w', s)).

Definition scanner_name (log : bool) : string := if log then "log" else "trace".

(** [runLoop] once its [run(ctx)] ended with [out]: the panic is recovered
    and counted, the context is cancelled, the goroutine ends *)
Definition runLoop {E} (i : nat) (chainID : Z) (log : bool) (out : res unit) : M (SS E) unit :=
  (match out with
   | Panic _ => slift (emit (minc SupervisorPanics [dec chainID; scanner_name log]))
   | _ => ret tt
   end) ;;;
  modify (fun s => (s.1, set_inst (end_side log ∘ cancel_inst) i s.2)).

(** ** The other goroutines *)

(** a goroutine ends; both have ended and [done] is closed; the parent
    context is cancelled *)
Inductive gstep : Supervisor -> Supervisor -> Prop :=
| g_exit s i x log : insts s !! i = Some x -> side log x = true ->
    gstep s (set_inst (end_side log ∘ cancel_inst) i s)
| g_close s i x : insts s !! i = Some x -> i_log x = false -> i_trace x = false ->
    gstep s (set_inst close_done i s)
| g_parent s : gstep s (mkSup (running s) (cancel_inst <$> insts s) (nexti s) true).
Abbreviation gsteps := (rtc gstep).

(** which case of [Run]'s select fires *)
Inductive sup_event := SeDone | SeTick.

(** Scheduling: the other goroutines run for a while; [<-done] blocks;
    Go's map iteration order. *)
Class Schedule (E : Type) := {
  others : SS E -> SS E;
  recv_done : nat -> SS E -> SS E;
  sup_select : M (SS E) sup_event;
  range {A} : gmap Z A -> list (Z * A)
}.

Section Supervisor.
Context {E : Type} `{Env E, ChainSource E, Schedule E}.
(** [LoopBuilder]: dials and wires the loops; [Ok] when both runners exist *)
Variable builder : ChainConfig -> M (World E) unit.
Variable PollIntervalMs : Z.

(** a call of the supervisor goroutine, with the others running before it *)
Definition yields {A} (m : M (SS E) A) : M (SS E) A := fun s => m (others s).

Definition cancel (i : nat) : M (SS E) unit :=
  yields (modify (fun s => (s.1, set_inst cancel_inst i s.2))).
Definition awaitDone (i : nat) : M (SS E) unit := modify (recv_done i).
Definition forget (chainID : Z) : M (SS E) unit :=
  modify (fun s => (s.1, set_running (delete chainID (running s.2)) s.2)).
(** [select { case <-done: .. default: }] *)
Definition isDone (i : nat) : M (SS E) bool :=
  yields (gets (fun s => match insts s.2 !! i with Some x => i_done x | None => false end)).

(** the [go] statements and the registration; the new context is a child of
    the parent's.  [cancel()] of a context no goroutine got is no effect. *)
Definition spawn (chainID : Z) (fingerprint : string) : M (SS E) unit :=
  yields (modify (fun s => (s.1,
    mkSup (<[chainID := mkRunner (nexti s.2) fingerprint]> (running s.2))
          (<[nexti s.2 := mkInst chainID (parentDone s.2) true true false]> (insts s.2))
          (S (nexti s.2)) (parentDone s.2)))).

Definition startChain (chainID : Z) (fingerprint : string) : M (SS E) unit :=
  let* chain := wrapf "ChainConfig" (yields (slift (src_ChainConfig chainID))) in
  wrapf "build loops" (yields (slift (builder chain))) ;;;
  spawn chainID fingerprint.

(** 1. stop the chains that are no longer active *)
Definition stopInactive (active : gmap Z string) (chainID : Z) (runner : chainRunner) : M (SS E) unit :=
  match active !! chainID with
  | Some _ => ret tt
  | None => cancel (cr_inst runner) ;;; forget chainID
  end.

(** 2. one active chain: new, changed, or dead ones are started *)
Definition reconcileChain (chainID : Z) (fingerprint : string) : M (SS E) unit :=
  let* existing := gets (fun s => running s.2 !! chainID) in
  let* existing :=
    match existing with
    | None => ret None
    | Some r =>
        let* dead := isDone (cr_inst r) in
        if (dead : bool) then forget chainID ;;; ret None else ret (Some r)
    end in
  match existing with
  | Some r =>
      if String.eqb (tokenConfigHash r) fingerprint then ret tt
      else
        cancel (cr_inst r) ;;; awaitDone (cr_inst r) ;;; forget chainID ;;;
        attempt (startChain chainID fingerprint) ;;; ret tt
  | None => attempt (startChain chainID fingerprint) ;;; ret tt
  end.

Definition activeOf (infos : list ChainInfo) : gmap Z string :=
  foldl (fun m i => <[ci_ChainID i := ci_TokenConfigHash i]> m) ∅ infos.

Definition reconcile : M (SS E) unit :=
  let* infos := wrapf "ActiveChains" (yields (slift src_ActiveChains)) in
  let active := activeOf infos in
  let* run := gets (fun s => running s.2) in
  foldM (fun _ x => stopInactive active x.1 x.2) tt (range run) ;;;
  foldM (fun _ x => reconcileChain x.1 x.2) tt (range active) ;;;
  let* n := gets (fun s => Z.of_nat (size (running s.2))) in
  slift (emit (mset SupervisorChainsRunning [] n)).

Definition stopAll : M (SS E) unit :=
  let* runners := gets (fun s => running s.2) in
  foldM (fun _ x => cancel (cr_inst x.2)) tt (range runners) ;;;
  modify (fun s => (s.1, set_running ∅ s.2)) ;;;
  foldM (fun _ x => awaitDone (cr_inst x.2)) tt (range runners).

(** [Run]'s select loop, [n] selects of it *)
Fixpoint Run_selects (n : nat) : M (SS E) unit :=
  match n with
  | O => ret tt
  | S n' =>
      let* ev := sup_select in
      match ev with
      | SeDone => stopAll ;;; fail (ErrSentinel Canceled)
      | SeTick =>
          let* r := attempt reconcile in
          slift (emit (minc SupervisorReconciles [match r with inl _ => "success" | inr _ => "error" end])) ;;;
          Run_selects n'
      end
  end.

Definition Supervisor_Run (n : nat) : M (SS E) unit :=
  attempt reconcile ;;;
  newTicker (PollIntervalMs * 1000000) ;;;
  Run_selects n.
End Supervisor.
