(* ===== verification/SupervisorProps.v ===== *)
(** * Properties of the supervisor

    The invariant of the running map and the goroutines under every
    interleaving, what a reconcile achieves, and what shutdown leaves. *)
From stdpp Require Import base gmap list strings relations.
From Stdlib Require Import ZArith Lia Ascii String.
From stdpp Require Import base strings.
From S2P Require Import Prelude Decimal Errors Effect Retry Time Model Json Metrics Store Repos Supervisor.

(** ** The scheduler: other goroutines only take their own steps, [<-done]
    returns once [done] is closed, [range] visits every entry once. *)
Class ScheduleLaws (E : Type) `{Schedule E} : Prop := {
  others_steps s : gsteps s.2 (others s).2;
  recv_steps i s : gsteps s.2 (recv_done i s).2;
  recv_closed i s x : insts (recv_done i s).2 !! i = Some x -> i_done x = true;
  select_steps s : gsteps s.2 (sup_select s).2.2;
  range_perm {A} (m : gmap Z A) : range m ≡ₚ map_to_list m
}.

(** ** Invariant *)

Definition inst_wf (x : inst) : Prop :=
  (i_log x = false \/ i_trace x = false -> i_cancelled x = true) /\
  (i_done x = true -> i_log x = false /\ i_trace x = false).

Record sup_wf (s : Supervisor) : Prop := {
  wf_fresh i x : insts s !! i = Some x -> (i < nexti s)%nat;
  (* an instance that was not cancelled is the registered one of its chain *)
  wf_owned i x : insts s !! i = Some x -> i_cancelled x = false ->
    exists h, running s !! i_chain x = Some (mkRunner i h);
  wf_handle c r : running s !! c = Some r -> exists x, insts s !! cr_inst r = Some x /\ i_chain x = c;
  wf_inst i x : insts s !! i = Some x -> inst_wf x;
  wf_parent i x : parentDone s = true -> insts s !! i = Some x -> i_cancelled x = true
}.

(** instances only ever advance towards their end *)
Definition inst_le (x x' : inst) : Prop :=
  i_chain x' = i_chain x /\ (i_cancelled x = true -> i_cancelled x' = true) /\
  (i_log x = false -> i_log x' = false) /\ (i_trace x = false -> i_trace x' = false) /\
  (i_done x = true -> i_done x' = true).
Record later (s s' : Supervisor) : Prop := {
  later_inst i x : insts s !! i = Some x -> exists x', insts s' !! i = Some x' /\ inst_le x x';
  later_next : (nexti s <= nexti s')%nat;
  later_parent : parentDone s = true -> parentDone s' = true
}.

#[export] Instance inst_le_preorder : PreOrder inst_le.
Proof. split; [by intros x|]. intros x y z (? & ? & ? & ? & ?) (? & ? & ? & ? & ?). unfold inst_le. naive_solver congruence. Qed.
#[export] Instance later_preorder : PreOrder later.
Proof.
  split.
  - intros s. split; [|lia|done]. intros i x ->. by eexists.
  - intros s s' s'' [Hi Hn Hp] [Hi' Hn' Hp']. split; [|lia|auto].
    intros i x (x' & (x'' & ? & ?)%Hi' & ?)%Hi. eexists. split; [done|]. by etrans.
Qed.

(** every step of a goroutine, and [cancel], changes instances this way *)
Definition advances (f : inst -> inst) : Prop := forall x, inst_le x (f x) /\ (inst_wf x -> inst_wf (f x)).

Lemma cancel_advances : advances cancel_inst.
Proof. intros []. unfold inst_le, inst_wf. cbn. naive_solver. Qed.
Lemma exit_advances log : advances (end_side log ∘ cancel_inst).
Proof. intros []. destruct log; unfold inst_le, inst_wf; cbn; naive_solver. Qed.

Lemma alter_later f i s : (forall x, insts s !! i = Some x -> inst_le x (f x)) -> later s (set_inst f i s).
Proof.
  intros Hf. split; cbn; [|lia|done]. intros j x Hj.
  destruct (decide (i = j)) as [->|?].
  - rewrite lookup_alter_eq, Hj. naive_solver.
  - rewrite lookup_alter_ne by done. by eexists.
Qed.

Lemma alter_wf f i s :
  (forall x, insts s !! i = Some x -> inst_le x (f x) /\ (inst_wf x -> inst_wf (f x))) ->
  sup_wf s -> sup_wf (set_inst f i s).
Proof.
  intros Hf [Hfr Hown Hh Hi Hp].
  assert (Hcase : forall j y, alter f i (insts s) !! j = Some y -> exists x, insts s !! j = Some x /\
    inst_le x y /\ (inst_wf x -> inst_wf y)).
  { intros j y. rewrite lookup_alter. case_decide; subst; [|by eexists].
    intros (x & Hx & ->)%fmap_Some. destruct (Hf x Hx). eexists. eauto. }
  split; cbn.
  - intros j y (x & ? & _)%Hcase. eauto.
  - intros j y (x & Hx & (-> & Hc & _) & _)%Hcase Hy. apply (Hown j x Hx).
    destruct (i_cancelled x); [|done]. by rewrite Hc in Hy.
  - intros c r (x & Hx & Hc)%Hh. rewrite lookup_alter. case_decide; [|by eexists].
    subst. rewrite Hx. eexists. split; [done|]. destruct (Hf x Hx) as [[] _]. congruence.
  - intros j y (x & Hx & _ & Hw)%Hcase. eauto.
  - intros j y Hpd (x & Hx & (_ & Hc & _) & _)%Hcase. eauto.
Qed.

Lemma gstep_ok s s' : gstep s s' ->
  running s' = running s /\ nexti s' = nexti s /\ later s s' /\ (sup_wf s -> sup_wf s').
Proof.
  intros Hstep. destruct Hstep as [s i x log Hx Hl|s i x Hx Hl Ht|s]; (split; [done|]; split; [done|]).
  - split; [|apply alter_wf; intros; apply exit_advances]. apply alter_later. intros. apply exit_advances.
  - split; [apply alter_later|apply alter_wf]; intros y Hy; [by unfold inst_le|].
    simplify_eq. unfold inst_le, inst_wf. cbn. naive_solver.
  - split.
    + split; cbn; [|lia|done]. intros i x Hi. exists (cancel_inst x). split; [by rewrite lookup_fmap, Hi|]. apply cancel_advances.
    + intros [Hfr Hown Hh Hi Hp]. split; cbn.
      * intros i y. rewrite lookup_fmap. intros (x & ? & _)%fmap_Some. eauto.
      * intros i y. rewrite lookup_fmap. by intros (x & ? & ->)%fmap_Some.
      * intros c r (x & Hx & <-)%Hh. exists (cancel_inst x). by rewrite lookup_fmap, Hx.
      * intros i y. rewrite lookup_fmap. intros (x & Hx & ->)%fmap_Some. eapply cancel_advances; eauto.
      * intros i y _. rewrite lookup_fmap. by intros (x & ? & ->)%fmap_Some.
Qed.

Lemma gsteps_ok s s' : gsteps s s' ->
  running s' = running s /\ nexti s' = nexti s /\ later s s' /\ (sup_wf s -> sup_wf s').
Proof.
  induction 1 as [s|s s1 s2 (H1 & H2 & H3 & H4)%gstep_ok _ (IH1 & IH2 & IH3 & IH4)]; [done|].
  rewrite IH1, IH2. split; [done|]. split; [done|]. split; [by etrans|auto].
Qed.

(** ** The supervisor's own state changes *)

Definition forgotten (c : Z) (s : Supervisor) : Supervisor := set_running (delete c (running s)) s.
Definition spawned (c : Z) (fp : string) (s : Supervisor) : Supervisor :=
  mkSup (<[c := mkRunner (nexti s) fp]> (running s))
        (<[nexti s := mkInst c (parentDone s) true true false]> (insts s)) (S (nexti s)) (parentDone s).

Lemma forgotten_later c s : later s (forgotten c s).
Proof. split; cbn; [|lia|done]. intros i x ->. by eexists. Qed.

(** a cancelled instance may be dropped from the map *)
Lemma forgotten_wf c s : sup_wf s ->
  (forall r x, running s !! c = Some r -> insts s !! cr_inst r = Some x -> i_cancelled x = true) ->
  sup_wf (forgotten c s).
Proof.
  intros [Hfr Hown Hh Hi Hp] Hc. split; cbn; [done| |intros c' r (_ & ?)%lookup_delete_Some; eauto|done..].
  intros i x Hx Hx'. destruct (Hown i x Hx Hx') as [h Hr]. exists h.
  rewrite lookup_delete_ne; [done|]. intros ->. specialize (Hc _ _ Hr Hx). congruence.
Qed.

Lemma spawned_later c fp s : sup_wf s -> later s (spawned c fp s).
Proof.
  intros Hs. split; cbn; [|lia|done]. intros i x Hi. exists x. split; [|done].
  rewrite lookup_insert_ne; [done|]. apply (wf_fresh s Hs) in Hi. lia.
Qed.

Lemma spawned_wf c fp s : sup_wf s -> running s !! c = None -> sup_wf (spawned c fp s).
Proof.
  intros [Hfr Hown Hh Hi Hp] Hc. split; cbn.
  - intros i x [[<- <-]|[? ?%Hfr]]%lookup_insert_Some; lia.
  - intros i x [[<- <-]|[? Hx]]%lookup_insert_Some Hx'; cbn.
    + exists fp. by rewrite lookup_insert_eq.
    + destruct (Hown i x Hx Hx') as [h Hr]. exists h. rewrite lookup_insert_ne; [done|]. congruence.
  - intros c' r [[<- <-]|[? Hr]]%lookup_insert_Some; cbn.
    + eexists. by rewrite lookup_insert_eq.
    + destruct (Hh _ _ Hr) as (x & Hx & ?). exists x. rewrite lookup_insert_ne; [done|].
      apply Hfr in Hx. lia.
  - intros i x [[<- <-]|[? ?]]%lookup_insert_Some; [|by eauto]. unfold inst_wf. cbn. naive_solver.
  - intros i x Hpd [[<- <-]|[? ?]]%lookup_insert_Some; [done|eauto].
Qed.

Section Ops.
Context {E : Type} `{ScheduleLaws E, !Env E, !ChainSource E}.
Variable builder : ChainConfig -> M (World E) unit.

Lemma yields_slift {A} (m : M (World E) A) s :
  (yields (slift m) s).2.2 = (others s).2 /\ (yields (slift m) s).1 = (m (others s).1).1.
Proof. unfold yields, slift. destruct (others s) as [w t]. cbn. by destruct (m w). Qed.

Lemma wrapf_state {S A} p (m : M S A) s : (wrapf p m s).2 = (m s).2.
Proof. unfold wrapf. by destruct (m s) as [[] ?]. Qed.

(** chain configuration and builder never fail *)
Definition starts_succeed : Prop :=
  (forall c w, exists cc, (src_ChainConfig c w).1 = Ok cc) /\ (forall cc w, (builder cc w).1 = Ok tt).

Lemma startChain_cases c fp s :
  ((startChain builder c fp s).1 = Ok tt /\
     exists t, gsteps s.2 t /\ (startChain builder c fp s).2.2 = spawned c fp t) \/
  (~ starts_succeed /\ (startChain builder c fp s).1 <> Ok tt /\ gsteps s.2 (startChain builder c fp s).2.2).
Proof.
  destruct (startChain builder c fp s) as [r' s'] eqn:Eo. cbn. revert Eo. unfold startChain, bind at 1.
  destruct (wrapf _ (yields (slift (src_ChainConfig c))) s) as [r s1] eqn:E1.
  assert (Hs1 : gsteps s.2 s1.2).
  { replace s1 with (wrapf "ChainConfig" (yields (slift (src_ChainConfig c))) s).2 by by rewrite E1.
    rewrite wrapf_state, (proj1 (yields_slift _ _)). apply others_steps. }
  assert (Hno : (forall cc, r <> Ok cc) -> ~ starts_succeed).
  { intros Hr [Hc _]. destruct (Hc c (others s).1) as [cc Hcc]. rewrite <- (proj2 (yields_slift _ s)) in Hcc.
    apply (Hr cc). revert E1. unfold wrapf. destruct (yields _ s) as [[] ?]; naive_solver. }
  destruct r as [cc|e|p]; [|intros [= <- <-]; right; split; [apply Hno; congruence|done]..].
  unfold bind at 1. destruct (wrapf _ (yields (slift (builder cc))) s1) as [r s2] eqn:E2.
  assert (Hs2 : gsteps s.2 s2.2).
  { etrans; [exact Hs1|]. replace s2 with (wrapf "build loops" (yields (slift (builder cc))) s1).2 by by rewrite E2.
    rewrite wrapf_state, (proj1 (yields_slift _ _)). apply others_steps. }
  assert (Hno2 : r <> Ok tt -> ~ starts_succeed).
  { intros Hr [_ Hb]. apply Hr. specialize (Hb cc (others s1).1). rewrite <- (proj2 (yields_slift _ s1)) in Hb.
    revert E2. unfold wrapf. destruct (yields _ s1) as [[] ?]; naive_solver. }
  destruct r as [[]|e|p]; [|intros [= <- <-]; right; split; [apply Hno2; congruence|done]..].
  intros [= <- <-]. left. split; [done|]. exists (others s2).2. split; [|done]. etrans; [exact Hs2|apply others_steps].
Qed.

(** a start of the chain, between two states, that returned an error *)
Definition failed_start (c : Z) (fp : string) (s s' : Supervisor) : Prop :=
  exists (s1 : SS E) err, (startChain builder c fp s1).1 = Err err /\ later s s1.2 /\ later s1.2 s'.

Lemma failed_start_later c fp s s1 s' : later s s1 -> failed_start c fp s1 s' -> failed_start c fp s s'.
Proof. intros Hl (s2 & err & He & Hl1 & Hl2). exists s2, err. split_and!; [done|by etrans|done]. Qed.

(** from a state where the chain is not registered *)
Lemma start_post c fp (s : SS E) : sup_wf s.2 -> running s.2 !! c = None ->
  let out := (attempt (startChain builder c fp) ;;; ret tt) s in
  sup_wf out.2.2 /\ later s.2 out.2.2 /\
  (forall c', c' <> c -> running out.2.2 !! c' = running s.2 !! c') /\
  (forall r, running out.2.2 !! c = Some r -> tokenConfigHash r = fp /\ (nexti s.2 <= cr_inst r)%nat) /\
  (starts_succeed -> out.1 = Ok tt /\ is_Some (running out.2.2 !! c)) /\
  (out.1 = Ok tt -> running out.2.2 !! c = None -> failed_start c fp s.2 out.2.2).
Proof.
  intros Hwf Hc. unfold bind, attempt, failed_start.
  destruct (startChain_cases c fp s) as [(Hr & t & Ht & Hs)|(Hn & Hr & Ht)];
    destruct (startChain builder c fp s) as [r s'] eqn:Eo; cbn in *.
  - subst r. cbn. rewrite Hs. destruct (gsteps_ok _ _ Ht) as (Hrun & Hnext & Hl & Hw).
    split_and!; cbn.
    + apply spawned_wf; [auto|by rewrite Hrun].
    + etrans; [exact Hl|]. apply spawned_later. auto.
    + intros c' ?. by rewrite lookup_insert_ne, Hrun by done.
    + intros r. rewrite lookup_insert_eq. intros [= <-]. cbn. by rewrite Hnext.
    + intros _. rewrite lookup_insert_eq. eauto.
    + by rewrite lookup_insert_eq.
  - destruct (gsteps_ok _ _ Ht) as (Hrun & Hnext & Hl & Hw).
    destruct r as [[]|err|p]; cbn; (split_and!; [auto|done|by rewrite Hrun|rewrite Hrun; naive_solver|done|]); try done.
    intros _ _. exists s, err. rewrite Eo. split_and!; [done|reflexivity|done].
Qed.

(** the instance was over already *)
Definition over (s : Supervisor) (r : chainRunner) : Prop :=
  exists x, insts s !! cr_inst r = Some x /\ i_done x = true.

Record chain_post (c : Z) (fp : string) (s s' : Supervisor) : Prop := {
  cp_wf : sup_wf s';
  cp_later : later s s';
  cp_frame c' : c' <> c -> running s' !! c' = running s !! c';
  cp_hash r : running s' !! c = Some r -> tokenConfigHash r = fp;
  cp_origin r : running s' !! c = Some r ->
    (running s !! c = Some r /\ ~ over s r) \/ (nexti s <= cr_inst r)%nat;
  cp_keep r : running s !! c = Some r -> tokenConfigHash r = fp -> ~ over s' r -> running s' !! c = Some r
}.

(** dropping a cancelled instance and starting the chain afresh *)
Lemma restart_post c fp (s s1 : SS E) : sup_wf s1.2 -> later s.2 s1.2 -> running s1.2 = running s.2 ->
  (forall r x, running s1.2 !! c = Some r -> insts s1.2 !! cr_inst r = Some x -> i_cancelled x = true) ->
  let out := (forget c ;;; attempt (startChain builder c fp) ;;; ret tt) s1 in
  (forall r, running s.2 !! c = Some r -> tokenConfigHash r = fp -> over s1.2 r) ->
  chain_post c fp s.2 out.2.2 /\ (starts_succeed -> out.1 = Ok tt /\ is_Some (running out.2.2 !! c)) /\
  (out.1 = Ok tt -> running out.2.2 !! c = None -> failed_start c fp s.2 out.2.2).
Proof.
  intros Hwf Hl Hrun Hc out Hk.
  assert (Hfwf : sup_wf (forgotten c s1.2)) by by apply forgotten_wf.
  destruct (start_post c fp (s1.1, forgotten c s1.2) Hfwf) as (H1 & H2 & H3 & H4 & H5 & H6);
    [apply lookup_delete_eq|].
  change ((attempt (startChain builder c fp) ;;; ret tt) (s1.1, forgotten c s1.2)) with out in *. cbn in *.
  assert (Hl' : later s.2 out.2.2) by (etrans; [exact Hl|]; etrans; [apply (forgotten_later c)|exact H2]).
  split; [|split; [done|]].
  2:{ intros Hok Hn. eapply failed_start_later; [|by apply H6]. etrans; [exact Hl|apply (forgotten_later c)]. }
  split; [done|done|..].
  - intros c' ?. rewrite H3 by done. by rewrite lookup_delete_ne, Hrun by done.
  - intros r Hr. by apply H4.
  - intros r Hr. right. destruct (H4 r Hr) as [_ ?]. pose proof (later_next _ _ Hl). lia.
  - intros r Hr Hfp Hno. exfalso. apply Hno. destruct (Hk r Hr Hfp) as (x & Hx & Hd).
    destruct (later_inst _ _ (forgotten_later c s1.2) _ _ Hx) as (x1 & Hx1 & Hle1).
    destruct (later_inst _ _ H2 _ _ Hx1) as (x2 & Hx2 & Hle2). exists x2. split; [done|].
    by apply Hle2, Hle1.
Qed.

Lemma others_ok (s : SS E) : sup_wf s.2 ->
  sup_wf (others s).2 /\ later s.2 (others s).2 /\ running (others s).2 = running s.2 /\ nexti (others s).2 = nexti s.2.
Proof. intros Hs. destruct (gsteps_ok _ _ (others_steps s)) as (? & ? & ? & ?). auto. Qed.

Lemma over_later s s' r : later s s' -> over s r -> over s' r.
Proof.
  intros Hl (x & Hx & Hd). destruct (later_inst _ _ Hl _ _ Hx) as (x' & ? & Hle).
  exists x'. split; [done|]. by apply Hle.
Qed.

Lemma over_cancelled s r x : sup_wf s -> over s r -> insts s !! cr_inst r = Some x -> i_cancelled x = true.
Proof.
  intros Hs (x' & Hx' & Hd) Hx. rewrite Hx' in Hx. injection Hx as <-.
  apply (wf_inst s Hs _ _ Hx'). left. by apply (wf_inst s Hs _ _ Hx').
Qed.

(** what [cancel] and the wait for [done] leave *)
Lemma cancel_await (r : chainRunner) (s : SS E) : sup_wf s.2 ->
  let s' := ((cancel (cr_inst r) ;;; awaitDone (cr_inst r)) s).2 in
  sup_wf s'.2 /\ later s.2 s'.2 /\ running s'.2 = running s.2 /\
  (is_Some (insts s.2 !! cr_inst r) -> over s'.2 r).
Proof.
  intros Hs. cbn. destruct (others_ok s Hs) as (Hw & Hl & Hrun & Hn).
  set (s1 := ((others s).1, set_inst cancel_inst (cr_inst r) (others s).2)).
  assert (Hw1 : sup_wf s1.2) by (apply alter_wf; [|done]; intros; apply cancel_advances).
  assert (Hl1 : later s.2 s1.2) by (etrans; [exact Hl|]; apply alter_later; intros; apply cancel_advances).
  destruct (gsteps_ok _ _ (recv_steps (cr_inst r) s1)) as (Hrun2 & _ & Hl2 & Hw2).
  assert (later s.2 (recv_done (cr_inst r) s1).2) as Hl3 by by etrans.
  split_and!; [auto|done|rewrite Hrun2; exact Hrun|].
  intros [x Hx]. destruct (later_inst _ _ Hl3 _ _ Hx) as (x' & Hx' & _). exists x'. split; [done|].
  by apply recv_closed in Hx'.
Qed.

Lemma reconcileChain_eq c fp (s : SS E) : reconcileChain builder c fp s =
  match running s.2 !! c with
  | None => (attempt (startChain builder c fp) ;;; ret tt) s
  | Some r =>
      if match insts (others s).2 !! cr_inst r with Some x => i_done x | None => false end
      then (forget c ;;; attempt (startChain builder c fp) ;;; ret tt) (others s)
      else if String.eqb (tokenConfigHash r) fp then (Ok tt, others s)
      else (forget c ;;; attempt (startChain builder c fp) ;;; ret tt)
             ((cancel (cr_inst r) ;;; awaitDone (cr_inst r)) (others s)).2
  end.
Proof.
  unfold reconcileChain, bind, gets, isDone, yields. destruct (running s.2 !! c) as [r|]; [|done].
  unfold gets. cbv beta iota.
  destruct (match insts _ !! _ with Some x => i_done x | None => false end); [done|].
  cbn. by destruct (String.eqb _ _).
Qed.

Lemma reconcileChain_post c fp (s : SS E) : sup_wf s.2 ->
  let out := reconcileChain builder c fp s in
  chain_post c fp s.2 out.2.2 /\ (starts_succeed -> out.1 = Ok tt /\ is_Some (running out.2.2 !! c)) /\
  (out.1 = Ok tt -> running out.2.2 !! c = None -> failed_start c fp s.2 out.2.2).
Proof.
  intros Hs. cbv zeta. rewrite !reconcileChain_eq.
  destruct (running s.2 !! c) as [r|] eqn:Hr.
  2:{ destruct (start_post c fp s Hs Hr) as (H1 & H2 & H3 & H4 & H5). split; [|exact H5].
      split; [done|done|done|..]; [intros; by apply H4|right; by apply H4|congruence]. }
  destruct (others_ok s Hs) as (Hw & Hl & Hrun & Hn).
  destruct (wf_handle _ Hs _ _ Hr) as (x & Hx & _).
  destruct (later_inst _ _ Hl _ _ Hx) as (x1 & Hx1 & (_ & _ & _ & _ & Hled)).
  rewrite Hx1.
  destruct (i_done x1) eqn:Hd.
  - assert (Hov : over (others s).2 r) by by exists x1.
    apply (restart_post c fp s (others s) Hw Hl Hrun).
    + rewrite Hrun, Hr. intros r' x' [= <-] Hx'. by eapply over_cancelled.
    + intros r' Hr' _. by simplify_eq.
  - destruct (String.eqb_spec (tokenConfigHash r) fp) as [Hfp|Hfp].
    + split; [|split; [intros _; split; [done|cbn; rewrite Hrun, Hr; by eexists]|cbn; by rewrite Hrun, Hr]].
      assert (Hno : ~ over s.2 r) by (intros (y & Hy & Hyd); rewrite Hx in Hy; injection Hy as <-; specialize (Hled Hyd); congruence).
      split; cbn; [done|done|..]; rewrite ?Hrun; [done|congruence| |done].
      intros r' Hr'. simplify_eq. by left.
    + destruct (cancel_await r (others s) Hw) as (Hw2 & Hl2 & Hrun2 & Hov).
      apply (restart_post c fp s _ Hw2); [by etrans|by rewrite Hrun2, Hrun| |congruence].
      rewrite Hrun2, Hrun, Hr. intros r' x' [= <-] Hx'.
      eapply over_cancelled; [done| |done]. apply Hov. by eexists.
Qed.

(** ** Folds over the maps *)

Lemma cancel_ok i (s : SS E) : sup_wf s.2 ->
  let s' := (cancel i s).2 in
  sup_wf s'.2 /\ later s.2 s'.2 /\ running s'.2 = running s.2 /\
  (forall x, insts s'.2 !! i = Some x -> i_cancelled x = true).
Proof.
  intros Hs. cbn. destruct (others_ok s Hs) as (Hw & Hl & Hrun & Hn).
  assert (forall x, inst_le x (cancel_inst x) /\ (inst_wf x -> inst_wf (cancel_inst x))) as Ha
    by apply cancel_advances.
  split_and!.
  - by apply alter_wf.
  - etrans; [exact Hl|]. apply alter_later. intros. apply Ha.
  - exact Hrun.
  - intros x. rewrite lookup_alter_eq. by intros (y & _ & ->)%fmap_Some.
Qed.

Lemma stop_cons active c r l (s : SS E) :
  foldM (fun _ x => stopInactive active x.1 x.2) tt ((c, r) :: l) s =
  foldM (fun _ x => stopInactive active x.1 x.2) tt l
    (match active !! c with
     | Some _ => s
     | None => ((cancel (cr_inst r) s).2.1, forgotten c (cancel (cr_inst r) s).2.2)
     end).
Proof. cbn. unfold bind, stopInactive at 1. cbn. by destruct (active !! c). Qed.

Lemma stop_fold active l : forall s : SS E, sup_wf s.2 -> NoDup l.*1 ->
  (forall c r, (c, r) ∈ l -> running s.2 !! c = Some r) ->
  let out := foldM (fun _ x => stopInactive active x.1 x.2) tt l s in
  out.1 = Ok tt /\ sup_wf out.2.2 /\ later s.2 out.2.2 /\
  (forall c, running out.2.2 !! c =
     if decide (c ∈ l.*1 /\ active !! c = None) then None else running s.2 !! c).
Proof.
  induction l as [|[c r] l IH]; intros s Hs Hnd Hl; cbv zeta.
  { cbn. split; [done|]. split; [done|]. split; [reflexivity|]. intros c. rewrite decide_False; [done|]. set_solver. }
  cbn in Hnd. apply NoDup_cons in Hnd as [Hc Hnd].
  rewrite !stop_cons. destruct (active !! c) as [fp|] eqn:Ha.
  - destruct (IH s Hs Hnd) as (H1 & H2 & H3 & H4); [set_solver|].
    split_and!; [done..|]. intros c'. rewrite H4. apply decide_ext. set_solver.
  - destruct (cancel_ok (cr_inst r) s Hs) as (Hw & Hlt & Hrun & Hcan).
    set (s1 := (cancel (cr_inst r) s).2) in *.
    assert (Hrun1 : running s1.2 !! c = Some r) by (rewrite Hrun; apply Hl; set_solver).
    assert (Hfw : sup_wf (forgotten c s1.2)).
    { apply forgotten_wf; [done|]. rewrite Hrun1. intros r' x [= <-]. apply Hcan. }
    destruct (IH (s1.1, forgotten c s1.2) Hfw Hnd) as (H1 & H2 & H3 & H4).
    { intros c' r' Hin. change (delete c (running s1.2) !! c' = Some r'). rewrite lookup_delete_ne, Hrun; [apply Hl; set_solver|].
      intros ->. apply Hc. apply list_elem_of_fmap. by exists (c', r'). }
    split_and!; [done|done| |].
    + etrans; [exact Hlt|]. etrans; [apply (forgotten_later c)|exact H3].
    + intros c'. etrans; [apply H4|]. change (running (s1.1, forgotten c s1.2).2) with (delete c (running s1.2)).
      destruct (decide (c' = c)) as [->|Hne].
      * rewrite lookup_delete_eq. repeat case_decide; set_solver.
      * rewrite lookup_delete_ne, Hrun by done. apply decide_ext. set_solver.
Qed.

Record start_all (l : list (Z * string)) (s s' : Supervisor) : Prop := {
  sa_wf : sup_wf s';
  sa_later : later s s';
  sa_frame c : c ∉ l.*1 -> running s' !! c = running s !! c;
  sa_each c fp : (c, fp) ∈ l -> forall r, running s' !! c = Some r -> tokenConfigHash r = fp /\
    ((running s !! c = Some r /\ ~ over s r) \/ (nexti s <= cr_inst r)%nat);
  sa_keep c fp r : (c, fp) ∈ l -> running s !! c = Some r -> tokenConfigHash r = fp ->
    ~ over s' r -> running s' !! c = Some r;
  sa_missing c fp : (c, fp) ∈ l -> running s' !! c = None -> failed_start c fp s s'
}.

Lemma start_all_cons c fp l s s1 s' : c ∉ l.*1 ->
  chain_post c fp s s1 -> (running s1 !! c = None -> failed_start c fp s s1) ->
  start_all l s1 s' -> start_all ((c, fp) :: l) s s'.
Proof.
  intros Hc [Hw Hl Hf Hh Ho Hk] Hm [Hw' Hl' Hf' He' Hk' Hm'].
  assert (Hin : forall c' fp', (c', fp') ∈ l -> c' ∈ l.*1).
  { intros c' fp' Hin. apply list_elem_of_fmap. by exists (c', fp'). }
  split; [done|by etrans|..].
  - cbn. intros c' Hc'. rewrite Hf' by set_solver. apply Hf. set_solver.
  - intros c' fp' [[= -> ->]|Hel]%elem_of_cons r Hr.
    + rewrite Hf' in Hr by done. eauto.
    + destruct (He' _ _ Hel r Hr) as [? [[Hr1 Hno]|?]]; (split; [done|]).
      * rewrite Hf in Hr1 by (intros ->; by eapply Hc, Hin). left. split; [done|].
        intros Hov. apply Hno. by eapply over_later.
      * right. pose proof (later_next _ _ Hl). lia.
  - intros c' fp' r [[= -> ->]|Hel]%elem_of_cons Hr Hfp Hno.
    + rewrite Hf' by done. apply Hk; [done..|]. intros Hov. apply Hno. by eapply over_later.
    + apply (Hk' c' fp'); [done| |done..]. rewrite Hf; [done|]. intros ->. by eapply Hc, Hin.
  - intros c' fp' [[= -> ->]|Hel]%elem_of_cons Hr.
    + rewrite Hf' in Hr by done. destruct (Hm Hr) as (s2 & err & ? & ? & ?). exists s2, err. split_and!; [done..|by etrans].
    + eapply failed_start_later; [exact Hl|by apply Hm'].
Qed.

Lemma start_fold l : forall s : SS E, sup_wf s.2 -> NoDup l.*1 ->
  let out := foldM (fun _ x => reconcileChain builder x.1 x.2) tt l s in
  sup_wf out.2.2 /\ (out.1 = Ok tt -> start_all l s.2 out.2.2) /\
  (starts_succeed -> out.1 = Ok tt /\ forall c, c ∈ l.*1 -> is_Some (running out.2.2 !! c)).
Proof.
  induction l as [|[c fp] l IH]; intros s Hs Hnd; cbv zeta.
  { cbn. split; [done|]. split; [|intros _; split; [done|set_solver]].
    intros _. split; [done|reflexivity|done|set_solver..]. }
  cbn in Hnd. apply NoDup_cons in Hnd as [Hc Hnd].
  destruct (reconcileChain_post c fp s Hs) as (Hp & Hss & Hmiss). cbn [foldM]. unfold bind. cbn [fst snd].
  destruct (reconcileChain builder c fp s) as [r s1]. cbn in Hp, Hss, Hmiss. pose proof (cp_wf _ _ _ _ Hp) as Hw1.
  destruct r as [[]|e|p]; [|cbn; split; [done|]; split; [done|]; intros Hst; by destruct (Hss Hst)..].
  destruct (IH s1 Hw1 Hnd) as (H1 & H2 & H3). split; [exact H1|]. split.
  - intros Hok. by eapply start_all_cons; [|exact Hp|apply Hmiss|apply H2].
  - intros Hst. destruct (H3 Hst) as [Hok Hall]. split; [done|]. intros c' Hc'.
    destruct (decide (c' ∈ l.*1)) as [|Hn]; [by apply Hall|].
    rewrite (sa_frame _ _ _ (H2 Hok)) by done. assert (c' = c) as -> by set_solver. by apply Hss.
Qed.

(** ** One reconcile *)

Lemma range_keys {A} (m : gmap Z A) : NoDup (range m).*1.
Proof. rewrite range_perm. apply NoDup_fst_map_to_list. Qed.
Lemma range_elem {A} (m : gmap Z A) c a : (c, a) ∈ range m <-> m !! c = Some a.
Proof. rewrite range_perm. apply elem_of_map_to_list. Qed.
Lemma range_fst {A} (m : gmap Z A) c : c ∈ (range m).*1 <-> is_Some (m !! c).
Proof.
  rewrite list_elem_of_fmap. split.
  - intros ([c' a] & -> & Hin). exists a. by apply range_elem.
  - intros [a Ha]. exists (c, a). split; [done|]. by apply range_elem.
Qed.

(** the part of [reconcile] after the active chains were read *)
Definition reconcileWith (active : gmap Z string) : M (SS E) unit :=
  let* run := gets (fun s => running s.2) in
  foldM (fun _ x => stopInactive active x.1 x.2) tt (range run) ;;;
  foldM (fun _ x => reconcileChain builder x.1 x.2) tt (range active) ;;;
  let* n := gets (fun s => Z.of_nat (size (running s.2))) in
  slift (emit (mset SupervisorChainsRunning [] n)).

Lemma reconcile_read (s : SS E) :
  match (src_ActiveChains (others s).1).1 with
  | Ok infos => exists s1 : SS E, s1.2 = (others s).2 /\ reconcile builder s = reconcileWith (activeOf infos) s1
  | _ => (reconcile builder s).2.2 = (others s).2 /\ (reconcile builder s).1 <> Ok tt
  end.
Proof.
  unfold reconcile, reconcileWith, wrapf, yields, slift, bind. destruct (others s) as [w t]. cbn.
  destruct (src_ActiveChains w) as [[infos|e|p] w1]; cbn; [|done..]. by exists (w1, t).
Qed.

Lemma emit_last (s : SS E) f : (slift (emit f) s).1 = Ok tt /\ (slift (emit f) s).2.2 = s.2.
Proof. by destruct s. Qed.

Lemma reconcileWith_spec active (s : SS E) : sup_wf s.2 ->
  let out := reconcileWith active s in
  sup_wf out.2.2 /\
  (starts_succeed -> out.1 = Ok tt /\ forall c, is_Some (active !! c) -> is_Some (running out.2.2 !! c)) /\
  (out.1 = Ok tt -> exists s1, sup_wf s1 /\ later s.2 s1 /\
     (forall c, running s1 !! c = match active !! c with Some _ => running s.2 !! c | None => None end) /\
     start_all (range active) s1 out.2.2).
Proof.
  intros Hs. cbv zeta. unfold reconcileWith. unfold bind, gets.
  destruct (stop_fold active (range (running s.2)) s Hs (range_keys _)) as (H1 & H2 & H3 & H4).
  { intros c r. apply range_elem. }
  destruct (foldM _ tt (range (running s.2)) s) as [r1 s1]. cbn in H1, H2, H3, H4. subst r1.
  destruct (start_fold (range active) s1 H2 (range_keys _)) as (H5 & H6 & H7).
  destruct (foldM _ tt (range active) s1) as [r2 s2]. cbn in H5, H6, H7.
  assert (Hrun : forall c, running s1.2 !! c = match active !! c with Some _ => running s.2 !! c | None => None end).
  { intros c. rewrite H4. destruct (active !! c) as [fp|] eqn:Ha.
    - rewrite decide_False; [done|]. by intros [_ ?].
    - case_decide as Hd; [done|]. apply eq_None_not_Some. intros Hsome. apply Hd.
      split; [by apply range_fst|done]. }
  destruct r2 as [[]|e|p]; cbn; [|split; [done|]; split; [intros Hst; by destruct (H7 Hst)|done]..].
  rewrite !(proj2 (emit_last _ _)). split; [done|]. split.
  - intros Hst. destruct (H7 Hst) as [_ Hall]. split; [apply emit_last|]. intros c Hc. apply Hall. by apply range_fst.
  - intros _. exists s1.2. auto.
Qed.

Lemma reconcile_wf (s : SS E) : sup_wf s.2 -> sup_wf (reconcile builder s).2.2.
Proof.
  intros Hs. destruct (others_ok s Hs) as (Hw & _). pose proof (reconcile_read s) as Hr.
  destruct (src_ActiveChains _).1 as [infos|e|p].
  - destruct Hr as (s1 & Hs1 & ->). rewrite <- Hs1 in Hw. by apply reconcileWith_spec.
  - by destruct Hr as [-> _].
  - by destruct Hr as [-> _].
Qed.

(** ** Shutdown *)

Lemma cancel_fold l : forall s : SS E, sup_wf s.2 ->
  let out := foldM (fun _ (x : Z * chainRunner) => cancel (cr_inst x.2)) tt l s in
  out.1 = Ok tt /\ sup_wf out.2.2 /\ later s.2 out.2.2 /\ running out.2.2 = running s.2 /\
  (forall c r x, (c, r) ∈ l -> insts out.2.2 !! cr_inst r = Some x -> is_Some (insts s.2 !! cr_inst r) ->
     i_cancelled x = true).
Proof.
  induction l as [|[c r] l IH]; intros s Hs; cbv zeta.
  { cbn. split; [done|]. split; [done|]. split; [reflexivity|]. split; [done|]. set_solver. }
  destruct (cancel_ok (cr_inst r) s Hs) as (Hw & Hl & Hrun & Hcan).
  destruct (IH (cancel (cr_inst r) s).2 Hw) as (H1 & H2 & H3 & H4 & H5).
  change (foldM _ tt ((c, r) :: l) s) with
    (foldM (fun _ (x : Z * chainRunner) => cancel (cr_inst x.2)) tt l (cancel (cr_inst r) s).2).
  split; [done|]. split; [done|]. split; [by etrans|]. split; [by rewrite H4|].
  intros c' r' x [[= -> ->]|Hin]%elem_of_cons Hx [y Hy];
    destruct (later_inst _ _ Hl _ _ Hy) as (y' & Hy' & _); [|by eapply H5; eauto].
  destruct (later_inst _ _ H3 _ _ Hy') as (x' & Hx' & (_ & Hc & _)). simplify_eq. apply Hc. by apply Hcan.
Qed.

Lemma await_fold l : forall s : SS E, sup_wf s.2 ->
  let out := foldM (fun _ (x : Z * chainRunner) => awaitDone (cr_inst x.2)) tt l s in
  out.1 = Ok tt /\ sup_wf out.2.2 /\ later s.2 out.2.2 /\ running out.2.2 = running s.2 /\
  (forall c r, (c, r) ∈ l -> is_Some (insts s.2 !! cr_inst r) -> over out.2.2 r).
Proof.
  induction l as [|[c r] l IH]; intros s Hs; cbv zeta.
  { cbn. split; [done|]. split; [done|]. split; [reflexivity|]. split; [done|]. set_solver. }
  destruct (gsteps_ok _ _ (recv_steps (cr_inst r) s)) as (Hrun & _ & Hl & Hw). specialize (Hw Hs).
  destruct (IH (recv_done (cr_inst r) s) Hw) as (H1 & H2 & H3 & H4 & H5).
  change (foldM _ tt ((c, r) :: l) s) with
    (foldM (fun _ (x : Z * chainRunner) => awaitDone (cr_inst x.2)) tt l (recv_done (cr_inst r) s)).
  split; [done|]. split; [done|]. split; [by etrans|]. split; [by rewrite H4|].
  intros c' r' [[= -> ->]|Hin]%elem_of_cons [y Hy];
    destruct (later_inst _ _ Hl _ _ Hy) as (y' & Hy' & _); [|by eapply H5; eauto].
  eapply over_later; [exact H3|]. exists y'. split; [done|]. by apply recv_closed in Hy'.
Qed.

Lemma emptied_wf s : sup_wf s -> (forall i x, insts s !! i = Some x -> i_cancelled x = true) ->
  sup_wf (set_running ∅ s).
Proof.
  intros [Hfr Hown Hh Hi Hp] Hc. split; cbn; [done| |set_solver|done..].
  intros i x Hx Hx'. apply Hc in Hx. congruence.
Qed.

Lemma stopAll_spec (s : SS E) : sup_wf s.2 ->
  let out := stopAll s in
  out.1 = Ok tt /\ sup_wf out.2.2 /\ running out.2.2 = ∅ /\
  (forall i x, insts out.2.2 !! i = Some x -> i_cancelled x = true) /\
  (forall c r, running s.2 !! c = Some r -> over out.2.2 r).
Proof.
  intros Hs. cbv zeta. unfold stopAll, bind, gets, modify.
  destruct (cancel_fold (range (running s.2)) s Hs) as (H1 & H2 & H3 & H4 & H5).
  destruct (foldM _ tt (range (running s.2)) s) as [r1 s1]. cbn in H1, H2, H3, H4, H5. subst r1.
  assert (Hcan : forall i x, insts s1.2 !! i = Some x -> i_cancelled x = true).
  { intros i x Hx. destruct (i_cancelled x) eqn:Hc; [done|]. exfalso.
    destruct (wf_owned _ H2 _ _ Hx Hc) as [h Hr]. rewrite H4 in Hr.
    destruct (wf_handle _ Hs _ _ Hr) as (y & Hy & _).
    specialize (H5 (i_chain x) (mkRunner i h) x). cbn in H5. rewrite H5 in Hc; [done| |done|by eexists].
    by apply range_elem. }
  assert (Hw2 : sup_wf (set_running ∅ s1.2)) by by apply emptied_wf.
  destruct (await_fold (range (running s.2)) (s1.1, set_running ∅ s1.2) Hw2) as (H6 & H7 & H8 & H9 & H10).
  cbn in H8, H9, H10. split; [exact H6|]. split; [exact H7|]. split; [exact H9|]. split.
  - intros i x Hx. destruct (i_cancelled x) eqn:Hc; [done|].
    destruct (wf_owned _ H7 _ _ Hx Hc) as [h Hr]. rewrite H9 in Hr. done.
  - intros c r Hr. apply (H10 c); [by apply range_elem|].
    destruct (wf_handle _ Hs _ _ Hr) as (y & Hy & _). destruct (later_inst _ _ H3 _ _ Hy) as (y' & Hy' & _).
    by exists y'.
Qed.

(** ** [Run] *)

Lemma Run_selects_wf n : preserves (fun s : SS E => sup_wf s.2) (Run_selects builder n).
Proof.
  induction n as [|n IH]; [apply preserves_ret|]. apply preserves_bind.
  { intros s Hs. by apply (gsteps_ok _ _ (select_steps s)). }
  intros []; apply preserves_bind; [intros s Hs; by apply stopAll_spec|eauto with eff| |].
  - apply preserves_attempt. intros s Hs. by apply reconcile_wf.
  - intros r. apply preserves_bind; [|auto]. intros s Hs. by rewrite (proj2 (emit_last _ _)).
Qed.

Lemma Supervisor_Run_wf ms n : preserves (fun s : SS E => sup_wf s.2) (Supervisor_Run builder ms n).
Proof.
  apply preserves_bind; [apply preserves_attempt; intros s Hs; by apply reconcile_wf|intros _].
  apply preserves_bind; [apply preserves_newTicker|intros _]. apply Run_selects_wf.
Qed.
End Ops.

Lemma New_wf : sup_wf New.
Proof. split; cbn; set_solver. Qed.

(** the end of a goroutine, as the interleaving sees it, is what [runLoop] does *)
Lemma runLoop_gstep {E} i x log out (s : SS E) :
  insts s.2 !! i = Some x -> side log x = true -> gstep s.2 (runLoop i (i_chain x) log out s).2.2.
Proof. intros Hx Hs. destruct s as [w t]. destruct out; by eapply g_exit. Qed.

(** ** Theorems *)

(** C13. However the goroutines of the chains interleave with the supervisor, at
    any point of its run a chain has at most one live (not cancelled)
    instance, and that instance is the one registered under the chain, so
    the supervisor never loses the handle of a live scanner pair. *)
Theorem supervisor_one_instance {E : Type} `{ScheduleLaws E, !Env E, !ChainSource E}
    (builder : ChainConfig -> M (World E) unit) (PollIntervalMs : Z) (n : nat) (w : World E) :
  let s := (Supervisor_Run builder PollIntervalMs n (w, New)).2.2 in
  forall i j x y,
    insts s !! i = Some x -> insts s !! j = Some y -> i_chain x = i_chain y ->
    i_cancelled x = false -> i_cancelled y = false ->
    i = j /\ exists h, running s !! i_chain x = Some (mkRunner i h).
Proof.
  intros s i j x y Hi Hj Hc Hx Hy. pose proof (Supervisor_Run_wf builder PollIntervalMs n (w, New) New_wf) as Hw.
  destruct (wf_owned _ Hw _ _ Hi Hx) as [h Hr]. destruct (wf_owned _ Hw _ _ Hj Hy) as [h' Hr'].
  rewrite <- Hc in Hr'. rewrite Hr in Hr'. injection Hr' as <- <-. split; [done|]. by exists h.
Qed.


(** C28. When the chain configuration can be read and the loops can be built,
    a reconcile that reads the active chains succeeds and leaves exactly the
    active chains registered. *)
Theorem reconcile_starts_all {E : Type} `{ScheduleLaws E, !Env E, !ChainSource E}
    (builder : ChainConfig -> M (World E) unit) (s : SS E) (infos : list ChainInfo) :
  sup_wf s.2 -> (src_ActiveChains (others s).1).1 = Ok infos ->
  (forall c w, exists cc, (src_ChainConfig c w).1 = Ok cc) -> (forall cc w, (builder cc w).1 = Ok tt) ->
  exists s', reconcile builder s = (Ok tt, s') /\ dom (running s'.2) = dom (activeOf infos).
Proof.
  intros Hs Hinfos Hc Hb. pose proof (reconcile_read builder s) as Hread. rewrite Hinfos in Hread.
  destruct Hread as (s1 & Hs1 & Heq). destruct (others_ok s Hs) as (Hw & Hl & Hrun & Hn). rewrite <- Hs1 in *.
  destruct (reconcileWith_spec builder (activeOf infos) s1 Hw) as (_ & H2 & H3).
  destruct (H2 (conj Hc Hb)) as [Hok Hall]. destruct (H3 Hok) as (s2 & _ & _ & Hrun2 & [_ _ Hf _ _ _]).
  rewrite <- Heq in *. exists (reconcile builder s).2. split.
  { destruct (reconcile builder s). cbn in *. congruence. }
  apply set_eq. intros c. rewrite !elem_of_dom. split; [|apply Hall].
  intros [r Hr]. destruct (activeOf infos !! c) eqn:Ha; [by eexists|].
  rewrite Hf, Hrun2, Ha in Hr; [done|]. rewrite range_fst, Ha. by apply is_Some_None.
Qed.

(** C29. When [Run] sees its context cancelled it returns [context.Canceled]
    with no chain registered, every instance it ever started cancelled, and
    both goroutines of every chain that was still registered ended. *)
Theorem supervisor_shutdown {E : Type} `{ScheduleLaws E, !Env E, !ChainSource E}
    (builder : ChainConfig -> M (World E) unit) (n : nat) (s s1 : SS E) :
  sup_wf s.2 -> sup_select s = (Ok SeDone, s1) ->
  exists s', Run_selects builder (S n) s = (Err (ErrSentinel Canceled), s') /\ running s'.2 = ∅ /\
    (forall i x, insts s'.2 !! i = Some x -> i_cancelled x = true) /\
    (forall c r x, running s.2 !! c = Some r -> insts s'.2 !! cr_inst r = Some x ->
       i_log x = false /\ i_trace x = false).
Proof.
  intros Hs Hsel. pose proof (select_steps s) as Hst. rewrite Hsel in Hst. cbn in Hst.
  destruct (gsteps_ok _ _ Hst) as (Hrun & _ & _ & Hw). specialize (Hw Hs).
  destruct (stopAll_spec s1 Hw) as (H1 & H2 & H3 & H4 & H5).
  cbn [Run_selects]. unfold bind. rewrite Hsel. destruct (stopAll s1) as [r s']. cbn in *. subst r.
  exists s'. split_and!; [done..|]. intros c r x Hr Hx. rewrite <- Hrun in Hr.
  destruct (H5 c r Hr) as (x' & Hx' & Hd). rewrite Hx in Hx'. injection Hx' as <-.
  by apply (wf_inst _ H2 _ _ Hx).
Qed.

(** A loop's end, by return or by panic, stays inside its chain: [runLoop]
    itself returns, the chain's own context is cancelled (which stops the
    sibling goroutine), a panic is counted under (chain, scanner), and no
    other instance, registration or counter changes. *)
Theorem runLoop_isolates {E : Type} (i : nat) (x : inst) (log : bool) (out : res unit) (s : SS E) :
  insts s.2 !! i = Some x ->
  exists s', runLoop i (i_chain x) log out s = (Ok tt, s') /\
    insts s'.2 !! i = Some (end_side log (cancel_inst x)) /\
    (forall j, j <> i -> insts s'.2 !! j = insts s.2 !! j) /\ running s'.2 = running s.2 /\
    w_db s'.1 = w_db s.1 /\ w_ext s'.1 = w_ext s.1 /\
    (forall m ls, mget (w_metrics s'.1) m ls = mget (w_metrics s.1) m ls +
       (if decide ((m, ls) = (SupervisorPanics, [dec (i_chain x); scanner_name log]))
        then match out with Panic _ => 1 | _ => 0 end else 0)).
Proof.
  intros Hx. destruct s as [w t]. cbn in *.
  assert (Hi : alter (end_side log ∘ cancel_inst) i (insts t) !! i = Some (end_side log (cancel_inst x)))
    by by rewrite lookup_alter_eq, Hx.
  assert (Hj : forall j, j <> i -> alter (end_side log ∘ cancel_inst) i (insts t) !! j = insts t !! j)
    by (intros; by rewrite lookup_alter_ne).
  destruct out; eexists; (split; [reflexivity|]); cbn; (split_and!; [done..|]); intros m ls;
    case_decide as Hd; rewrite ?Z.add_0_r; try done.
  - injection Hd as -> ->. unfold minc, madd. by rewrite mget_mset_eq.
  - unfold minc, madd. by rewrite mget_mset_ne.
Qed.

(** ** A concrete schedule: the source replays a script of active chains,
    goroutines move only when awaited *)
Module SupWitness.
Definition script : Type := list (list ChainInfo).

#[export] Instance env : Env script := {|
  env_wait _ := ret tt; ctx_Err := ret tt; time_Now := ret {| sec := 0; nsec := 0 |};
  env_db := ret tt;
  env_has := ret tt; env_tx e := (None, e); env_commit e := (Committed, e); db_now _ := 0 |}.

#[export] Instance source : ChainSource script := {|
  src_ActiveChains := fun w => match w_ext w with
    | [] => (Err (ErrNew "connection refused"), w)
    | infos :: rest => (Ok infos, mkWorld (w_db w) (w_metrics w) rest)
    end;
  src_ChainConfig c := ret (mkChainConfig c "" "ETH" 18 12000 4000 12 "erc20" ∅) |}.

Definition finish (i : nat) (t : Supervisor) : Supervisor :=
  match insts t !! i with
  | None => t
  | Some x =>
      let t1 := if i_log x then set_inst (end_side true ∘ cancel_inst) i t else t in
      let t2 := if i_trace x then set_inst (end_side false ∘ cancel_inst) i t1 else t1 in
      set_inst close_done i t2
  end.

#[export] Instance schedule : Schedule script := {|
  others s := s;
  recv_done i s := (s.1, finish i s.2);
  sup_select := fun s => (Ok (match w_ext s.1 with [] => SeDone | _ => SeTick end), s);
  range A m := map_to_list m |}.

Lemma finish_steps i t : gsteps t (finish i t).
Proof.
  unfold finish. destruct (insts t !! i) as [x|] eqn:Hx; [|done].
  destruct (i_log x) eqn:Hl, (i_trace x) eqn:Ht.
  - eapply rtc_l; [by apply (g_exit t i x true)|].
    eapply rtc_l; [apply (g_exit _ i (end_side true (cancel_inst x)) false); cbn; [by rewrite lookup_alter_eq, Hx|done]|].
    apply rtc_once. eapply g_close; cbn; [by rewrite !lookup_alter_eq, Hx|done..].
  - eapply rtc_l; [by apply (g_exit t i x true)|].
    apply rtc_once. eapply g_close; cbn; [by rewrite !lookup_alter_eq, Hx|done..].
  - eapply rtc_l; [by apply (g_exit t i x false)|].
    apply rtc_once. eapply g_close; cbn; [by rewrite !lookup_alter_eq, Hx|done..].
  - apply rtc_once. by eapply g_close.
Qed.

#[export] Instance laws : ScheduleLaws script.
Proof.
  split; [done|intros; apply finish_steps| |done|done].
  intros i [w t] y. cbn. unfold finish. destruct (insts t !! i) as [x|] eqn:Hx; [|congruence].
  cbn. rewrite lookup_alter_eq. by intros (z & _ & ->)%fmap_Some.
Qed.

Definition ok_builder (cc : ChainConfig) : M (World script) unit := ret tt.
Definition info (c : Z) (h : string) : ChainInfo := mkChainInfo c "http://node" h.
Definition at_script (sc : script) : SS script := (mkWorld (mkDB [] 1 ∅ 0 [] [] []) ∅ sc, New).

(** a change of fingerprint: the old instance is cancelled, the new one registered *)
Lemma supervisor_one_instance_witness :
  let s := (Supervisor_Run ok_builder 5000 1 (at_script [[info 1 "a"]; [info 1 "b"]])).2.2 in
  insts s !! 0%nat = Some (mkInst 1 true false false true) /\
  insts s !! 1%nat = Some (mkInst 1 false true true false) /\
  (1%nat = 1%nat /\ exists h, running s !! 1 = Some (mkRunner 1 h)).
Proof.
  split_and!; [vm_compute; reflexivity..|].
  apply (supervisor_one_instance ok_builder 5000 1 (at_script [[info 1 "a"]; [info 1 "b"]]).1
           1%nat 1%nat (mkInst 1 false true true false) (mkInst 1 false true true false));
    vm_compute; reflexivity.
Defined.

(** chain 1 runs with fingerprint a, chain 2 is gone, chain 3 is new *)
Definition two_running : SS script := (reconcile ok_builder (at_script [[info 1 "a"; info 2 "x"]; [info 1 "a"; info 3 "y"]])).2.

Lemma two_running_wf : sup_wf two_running.2.
Proof. apply (reconcile_wf ok_builder). apply New_wf. Qed.



Lemma reconcile_starts_all_witness : exists s',
  reconcile ok_builder two_running = (Ok tt, s') /\ dom (running s'.2) = dom (activeOf [info 1 "a"; info 3 "y"]).
Proof.
  apply (reconcile_starts_all ok_builder two_running [info 1 "a"; info 3 "y"] two_running_wf);
    [vm_compute; reflexivity| |].
  - intros c w. eexists. reflexivity.
  - intros cc w. reflexivity.
Defined.

Definition running_one : SS script := (reconcile ok_builder (at_script [[info 1 "a"]])).2.

Lemma supervisor_shutdown_witness : exists s',
  Run_selects ok_builder 1 running_one = (Err (ErrSentinel Canceled), s') /\ running s'.2 = ∅ /\
  insts s'.2 !! 0%nat = Some (mkInst 1 true false false true).
Proof.
  destruct (supervisor_shutdown ok_builder 0 running_one running_one) as (s' & H1 & H2 & _).
  - apply (reconcile_wf ok_builder). apply New_wf.
  - vm_compute. reflexivity.
  - exists s'. split; [exact H1|]. split; [exact H2|].
    assert (Hs : s' = (Run_selects ok_builder 1 running_one).2) by by rewrite H1.
    rewrite Hs. vm_compute. reflexivity.
Defined.

Lemma runLoop_isolates_witness : exists s',
  runLoop 0 1 true (Panic "index out of range") running_one = (Ok tt, s') /\
  insts s'.2 !! 0%nat = Some (mkInst 1 true false true false) /\
  mget (w_metrics s'.1) SupervisorPanics ["1"; "log"] = 1.
Proof.
  destruct (runLoop_isolates 0 (mkInst 1 false true true false) true (Panic "index out of range") running_one)
    as (s' & H1 & H2 & _ & _ & _ & _ & H3); [vm_compute; reflexivity|].
  exists s'. split; [exact H1|]. split; [exact H2|]. rewrite (H3 SupervisorPanics ["1"; "log"]). vm_compute. reflexivity.
Defined.

(** A chain that leaves the active set and comes back is started again
    without waiting for the goroutines of its first instance: two instances
    of the chain have running goroutines at the same time. *)
Lemma reactivation_overlaps :
  let s := (Supervisor_Run ok_builder 5000 2 (at_script [[info 1 "a"]; []; [info 1 "a"]])).2.2 in
  insts s !! 0%nat = Some (mkInst 1 true true true false) /\
  insts s !! 1%nat = Some (mkInst 1 false true true false).
Proof. vm_compute. by split. Qed.
End SupWitness.
