(* ===== verification/Auditor.v ===== *)
(** * Auditor ([internal/audit/auditor.go])

    Rescans random blocks behind the cursor with its own scanners and counts
    the pending rows of such a block that the rescan does not reproduce. *)
From stdpp Require Import base gmap list strings relations.
From Stdlib Require Import ZArith Lia Ascii String.
From stdpp Require Import base strings.
From S2P Require Import Prelude Decimal Errors Effect Retry Time Model Json Metrics Store BufferRepo Scanner Repos Supervisor.

(** [type Buffer interface] of the auditor *)
Class AuditBuffer (E : Type) := {
  abuf_Cursor : Z -> string -> M (World E) Z;
  abuf_PendingInRange : Z -> Z -> Z -> M (World E) (list Deposit)
}.
#[export] Instance BufferRepo_AuditBuffer {E} `{Env E} : AuditBuffer E := {|
  abuf_Cursor := Cursor; abuf_PendingInRange := PendingInRange |}.

(** which case of [Run]'s select fires *)
Inductive audit_event := AeDone | AeFirst | AeTick | AeAge.

(** [math/rand], and the timers of [Run] (armed with their durations, ns) *)
Class AuditEnv (E : Type) := {
  rand_Int63n : Z -> M (World E) Z;
  audit_select : Z -> Z -> M (World E) audit_event
}.

Record Config := mkConfig {
  IntervalSeconds : Z; WindowBlocks : Z (* uint64 *); SafetyMargin : Z (* uint64 *);
  SamplesPerCycle : Z; BlockRescanConfs : Z; FirstCycleDelay : Z (* ns *) }.

(** [New]: the defaults *)
Definition New (cfg : Config) : Config :=
  mkConfig (IntervalSeconds cfg) (WindowBlocks cfg) (SafetyMargin cfg) (SamplesPerCycle cfg)
    (if BlockRescanConfs cfg <=? 0 then 1000 else BlockRescanConfs cfg)
    (if FirstCycleDelay cfg <? 0 then 0 else FirstCycleDelay cfg).

(** which scanner makes events with this log index *)
Definition ownedBy (scannerName : string) (logIndex : Z) : bool :=
  if String.eqb scannerName "log" then -10000 <? logIndex
  else if String.eqb scannerName "trace" then logIndex <=? -100000
  else true.

(** ["%d:%s:%d"] *)
Definition depositKey (chainID : Z) (txHash : string) (logIndex : Z) : string :=
  dec chainID +:+ String ":" (txHash +:+ String ":" (dec logIndex)).

(** [rand.Int63n] panics on a bound that is not positive *)
Definition Int63n {E} `{AuditEnv E} (n : Z) : M (World E) Z :=
  if n <=? 0 then panic "invalid argument to Int63n" else rand_Int63n n.

Section Auditor.
Context {E : Type} `{Env E, AuditBuffer E, ChainSource E, AuditEnv E}.
(** [ScannerBuilder]: (logScan, traceScan, cleanup) *)
Variable builder : ChainConfig -> M (World E) (Scanner E * Scanner E * M (World E) unit).
Variable cfg : Config.

(** the counting loop of [auditBlock] *)
Definition countMissing (scannerName : string) (rescanned : gset string) (pendings : list Deposit) : Z :=
  foldl (fun missing p =>
    if decide (depositKey (ChainID p) (TxHash p) (LogIndex p) ∈ rescanned) then missing
    else if ownedBy scannerName (LogIndex p) then missing + 1 else missing) 0 pendings.

Definition auditBlock (chainID : Z) (chainLabel scannerName : string) (sc : Scanner E) (blk : Z)
    : M (World E) unit :=
  let* events := attempt (ScanBlock sc blk (BlockRescanConfs cfg)) in
  match events with
  | inr _ => emit (minc AuditErrors ["rescan"])
  | inl events =>
      emit (minc AuditBlocksChecked [chainLabel]) ;;;
      let* pendings := attempt (abuf_PendingInRange chainID blk blk) in
      match pendings with
      | inr _ => emit (minc AuditErrors ["db"])
      | inl pendings =>
          let rescanned : gset string := list_to_set
            ((fun e => depositKey (ev_ChainID e) (ev_TxHash e) (ev_LogIndex e)) <$> events) in
          let missing := countMissing scannerName rescanned pendings in
          if 0 <? missing then emit (madd AuditMismatchPendingMissing [chainLabel] missing) else ret tt
      end
  end.

(** the sampling loop, [n] rounds left; [tried] are the blocks done *)
Fixpoint auditSamples (chainID : Z) (sc : Scanner E) (rangeStart rangeEnd : Z) (n : nat) (tried : gset Z)
    : M (World E) unit :=
  match n with
  | O => ret tt
  | S n' =>
      let* alive := attempt ctx_Err in
      match alive with
      | inr _ => ret tt
      | inl _ =>
          let* r := Int63n (i64 (u64 (rangeEnd - rangeStart + 1))) in
          let blk := u64 (rangeStart + u64 r) in
          if decide (blk ∈ tried) then auditSamples chainID sc rangeStart rangeEnd n' tried
          else
            auditBlock chainID (dec chainID) (Name sc) sc blk ;;;
            auditSamples chainID sc rangeStart rangeEnd n' ({[blk]} ∪ tried)
      end
  end.

Definition auditScanner (chainID : Z) (sc : Scanner E) : M (World E) unit :=
  let* cursor := attempt (abuf_Cursor chainID (Name sc)) in
  match cursor with
  | inr _ => emit (minc AuditErrors ["db"])
  | inl cursor =>
      let required := u64 (WindowBlocks cfg + SafetyMargin cfg) in
      if cursor <? required then ret tt
      else
        let rangeEnd := u64 (cursor - SafetyMargin cfg) in
        let rangeStart := u64 (cursor - required) in
        auditSamples chainID sc rangeStart rangeEnd (Z.to_nat (SamplesPerCycle cfg)) ∅
  end.

(** true on success *)
Definition auditChain (chainID : Z) : M (World E) bool :=
  let* chain := attempt (src_ChainConfig chainID) in
  match chain with
  | inr _ => emit (minc AuditErrors ["db"]) ;;; ret false
  | inl chain =>
      let* built := attempt (builder chain) in
      match built with
      | inr _ => emit (minc AuditErrors ["builder"]) ;;; ret false
      | inl (logScan, traceScan, cleanup) =>
          deferred cleanup (
            auditScanner chainID logScan ;;;
            auditScanner chainID traceScan ;;;
            ret true)
      end
  end.

(** the loop over the chains: the number that failed, or [None] when the
    context ended it *)
Fixpoint auditChains (chains : list ChainInfo) (chainErrCount : Z) : M (World E) (option Z) :=
  match chains with
  | [] => ret (Some chainErrCount)
  | ch :: rest =>
      let* alive := attempt ctx_Err in
      match alive with
      | inr _ => ret None
      | inl _ =>
          let* ok := auditChain (ci_ChainID ch) in
          auditChains rest (if (ok : bool) then chainErrCount else chainErrCount + 1)
      end
  end.

(** the auditor's own state is [lastCycleAt] *)
Definition AS : Type := World E * option instant.
Definition alift {A} (m : M (World E) A) : M AS A := fun '(w, t) =>
  let '(r, w') := m w in (r, (w', t)).

Definition runCycle : M AS unit :=
  let* chains := alift (attempt src_ActiveChains) in
  match chains with
  | inr _ => alift (emit (minc AuditErrors ["db"]))
  | inl chains =>
      let* failed := alift (auditChains chains 0) in
      match failed with
      | None => ret tt
      | Some _ =>
          let* now := alift time_Now in
          modify (fun s => (s.1, Some now)) ;;;
          alift (emit (minc AuditCycles [])) ;;;
          alift (emit (mset AuditLastCycleAgeSeconds [] 0))
      end
  end.

(** one cycle, as the tests run it *)
Definition RunOnce : M AS unit := runCycle.

(** the gauge, in nanoseconds *)
Definition updateAgeMetric : M AS unit :=
  let* last := gets snd in
  match last with
  | None => ret tt
  | Some t =>
      let* now := alift time_Now in
      alift (emit (mset AuditLastCycleAgeSeconds []
        ((sec now - sec t) * 1000000000 + (nsec now - nsec t))))
  end.

Fixpoint Run_selects (n : nat) (interval firstDelay : Z) : M AS unit :=
  match n with
  | O => ret tt
  | S n' =>
      let* ev := alift (audit_select interval firstDelay) in
      match ev with
      | AeDone => fail (ErrSentinel Canceled)
      | AeFirst | AeTick => runCycle ;;; Run_selects n' interval firstDelay
      | AeAge => updateAgeMetric ;;; Run_selects n' interval firstDelay
      end
  end.

(** [Run], [n] selects of it *)
Definition Auditor_Run (n : nat) : M AS unit :=
  let interval := i64 (IntervalSeconds cfg * 1000000000) in
  newTicker interval ;;;
  let firstDelay := if FirstCycleDelay cfg =? 0 then 30 * 1000000000 else FirstCycleDelay cfg in
  Run_selects n interval firstDelay.
End Auditor.
