(* ===== verification/AuditorProps.v ===== *)
(** * Properties of the auditor *)
From stdpp Require Import base gmap list strings relations.
From Stdlib Require Import ZArith Lia Ascii String.
From stdpp Require Import base strings.
From S2P Require Import Prelude Decimal Errors Effect Retry Time Model Json Metrics Store BufferRepo Protocol Scanner Repos Supervisor LogScanner TraceScanner Auditor.

(** ** The mismatch count *)

Definition depositKey_of (k : key) : string := let '(c, tx, li) := k in depositKey c tx li.

#[export] Instance depositKey_inj : Inj (=) (=) depositKey_of.
Proof. intros [[c tx] li] [[c' tx'] li']. apply ackID_injective. Qed.

(** a pending key the rescan should have reproduced and did not *)
Definition missed (scannerName : string) (found : list key) (k : key) : Prop :=
  ownedBy scannerName k.2 = true /\ k ∉ found.
#[export] Instance missed_dec scannerName found k : Decision (missed scannerName found k).
Proof. unfold missed. apply _. Defined.

Lemma countMissing_from scannerName found ps : forall n,
  foldl (fun missing p =>
    if decide (depositKey (ChainID p) (TxHash p) (LogIndex p) ∈ (list_to_set (depositKey_of <$> found) : gset string))
    then missing else if ownedBy scannerName (LogIndex p) then missing + 1 else missing) n ps
  = n + Z.of_nat (length (filter (missed scannerName found) (key_of <$> ps))).
Proof.
  induction ps as [|p ps IH]; intros n; [cbn; lia|]. cbn [foldl]. rewrite IH, fmap_cons, filter_cons.
  assert (Hin : depositKey (ChainID p) (TxHash p) (LogIndex p) ∈ (list_to_set (depositKey_of <$> found) : gset string)
                <-> key_of p ∈ found).
  { rewrite elem_of_list_to_set. change (depositKey _ _ _) with (depositKey_of (key_of p)).
    apply list_elem_of_fmap_inj, _. }
  assert (Hm : missed scannerName found (key_of p) <-> ownedBy scannerName (LogIndex p) = true /\ key_of p ∉ found)
    by done.
  destruct (decide (_ ∈ _)) as [Hd%Hin|Hd], (decide (missed _ _ _)) as [[Ho Hf]%Hm|Hn];
    [done|lia|cbn in Ho; rewrite Ho; cbn [length]; lia|].
  destruct (ownedBy scannerName (LogIndex p)); [|lia]. exfalso. apply Hn, Hm. by rewrite <- Hin.
Qed.

Lemma countMissing_eq scannerName (evs : list DepositEvent) ps :
  countMissing scannerName (list_to_set
    ((fun e => depositKey (ev_ChainID e) (ev_TxHash e) (ev_LogIndex e)) <$> evs)) ps
  = Z.of_nat (length (filter (missed scannerName (ev_key <$> evs)) (key_of <$> ps))).
Proof.
  unfold countMissing.
  change (fun e => depositKey (ev_ChainID e) (ev_TxHash e) (ev_LogIndex e)) with (fun e => depositKey_of (ev_key e)).
  rewrite (list_fmap_compose ev_key depositKey_of). by rewrite countMissing_from.
Qed.

Lemma PendingInRange_rows {E} `{Env E} c lo hi (w w1 : World E) :
  env_db w = (Ok tt, w1) -> db_wf (w_db w1) -> exists ds, PendingInRange c lo hi w = (Ok ds, w1) /\
    key_of <$> ds = row_key <$> filter (in_range c (i64 lo) (i64 hi)) (deposit_buffer (w_db w1)).
Proof.
  intros Hok Hwf. unfold PendingInRange, query, query_at, wrapf, bind. rewrite Hok.
  rewrite order_by_id_sorted by (apply StronglySorted_filter_2, Hwf).
  destruct (scanDeposits_ok (filter (in_range c (i64 lo) (i64 hi)) (deposit_buffer (w_db w1)))) as (ds & -> & Hf).
  { apply Forall_filter_2, Hwf. }
  exists ds. split; [done|]. by apply rows_keys.
Qed.

Lemma auditBlock_count {E : Type} `{Env E} cfg c label (sc : Scanner E) blk (w w1 w2 : World E) evs :
  ScanBlock sc blk (BlockRescanConfs cfg) w = (Ok evs, w1) ->
  env_db (mkWorld (w_db w1) (minc AuditBlocksChecked [label] (w_metrics w1)) (w_ext w1)) = (Ok tt, w2) ->
  db_wf (w_db w2) ->
  let rows := row_key <$> filter (in_range c (i64 blk) (i64 blk)) (deposit_buffer (w_db w2)) in
  exists w', auditBlock cfg c label (Name sc) sc blk w = (Ok tt, w') /\
    w_db w' = w_db w2 /\ w_ext w' = w_ext w2 /\
    mget (w_metrics w') AuditMismatchPendingMissing [label] =
    mget (w_metrics w2) AuditMismatchPendingMissing [label] +
      Z.of_nat (length (filter (missed (Name sc) (ev_key <$> evs)) rows)).
Proof.
  intros Hscan Hdb Hwf rows. destruct (PendingInRange_rows c blk blk _ _ Hdb Hwf) as (ds & Hq & Hk).
  unfold auditBlock, bind, attempt. rewrite Hscan. unfold emit, modify. cbv beta iota.
  change (abuf_PendingInRange c blk blk) with (PendingInRange (E := E) c blk blk). rewrite Hq. cbv zeta.
  rewrite countMissing_eq, Hk. fold rows. set (n := length _).
  destruct (Z.ltb_spec 0 (Z.of_nat n)); eexists; (split; [reflexivity|]); cbn; (split_and!; [done..|]).
  - unfold madd. by rewrite mget_mset_eq.
  - lia.
Qed.

(** C30. For a block whose rescan and query succeed, the audit raises the
    mismatch counter by exactly the number of pending rows of the block that
    belong to the rescanning scanner and that the rescan did not reproduce,
    and touches neither the database nor the outside: no alarm without a
    missing row, no missing row without an alarm. *)
Theorem auditBlock_exact {E : Type} `{Env E} (cfg : Config) (c : Z) (label : string) (sc : Scanner E)
    (blk : Z) (w w1 w2 : World E) (evs : list DepositEvent) :
  ScanBlock sc blk (BlockRescanConfs cfg) w = (Ok evs, w1) ->
  env_db (mkWorld (w_db w1) (minc AuditBlocksChecked [label] (w_metrics w1)) (w_ext w1)) = (Ok tt, w2) ->
  db_wf (w_db w2) ->
  let rows := row_key <$> filter (in_range c (i64 blk) (i64 blk)) (deposit_buffer (w_db w2)) in
  exists w', auditBlock cfg c label (Name sc) sc blk w = (Ok tt, w') /\
    w_db w' = w_db w2 /\ w_ext w' = w_ext w2 /\
    mget (w_metrics w') AuditMismatchPendingMissing [label] =
    mget (w_metrics w2) AuditMismatchPendingMissing [label] +
      Z.of_nat (length (filter (missed (Name sc) (ev_key <$> evs)) rows)).
Proof. intros Hscan Hdb Hwf. by apply auditBlock_count with w1. Qed.

(** ** Sampling *)
Section Sampling.
Context {E : Type} `{Env E, AuditBuffer E, AuditEnv E}.
Variables (cfg : Config) (seen : E -> list Z) (sc : Scanner E).

(** the scanner logs the blocks it is asked for; nothing else touches the log *)
Definition keeps {A} (m : M (World E) A) : Prop := forall w, seen (w_ext (m w).2) = seen (w_ext w).
Class LoggedAudit : Prop := {
  scan_logged b conf w : seen (w_ext (ScanBlock sc b conf w).2) = b :: seen (w_ext w);
  ctx_keeps : keeps ctx_Err;
  rand_keeps n : keeps (rand_Int63n n);
  cursor_keeps c s : keeps (abuf_Cursor c s);
  pending_keeps c lo hi : keeps (abuf_PendingInRange c lo hi)
}.
(** [rand.Int63n(n)] is in [0, n) *)
Definition rand_ok : Prop := forall n w r, 0 < n -> (rand_Int63n n w).1 = Ok r -> 0 <= r < n.

Context `{!LoggedAudit}.

Lemma auditBlock_seen c label name b w :
  seen (w_ext (auditBlock cfg c label name sc b w).2) = b :: seen (w_ext w).
Proof.
  unfold auditBlock, bind, attempt. pose proof (scan_logged b (BlockRescanConfs cfg) w) as Hs.
  destruct (ScanBlock sc b _ w) as [[evs|e|p] w1]; cbn in *; [|done..].
  set (w2 := mkWorld _ _ _). pose proof (pending_keeps c b b w2) as Hp.
  destruct (abuf_PendingInRange c b b w2) as [[ps|e|p] w3]; cbn in *; [|congruence..].
  destruct (_ <? _); cbn; congruence.
Qed.

Lemma auditSamples_seen c lo hi n : rand_ok -> 0 <= lo <= hi -> hi < two64 -> hi - lo + 1 < two63 ->
  forall tried w, exists bs,
  seen (w_ext (auditSamples cfg c sc lo hi n tried w).2) = bs ++ seen (w_ext w) /\
  NoDup bs /\ (length bs <= n)%nat /\ Forall (fun b => lo <= b <= hi /\ b ∉ tried) bs.
Proof.
  intros Hrand Hlo Hhi Hw. induction n as [|n IH]; intros tried w.
  { exists []. split; [done|]. split; [constructor|]. split; [done|constructor]. }
  assert (Hnil : forall w', seen (w_ext w') = seen (w_ext w) -> exists bs, seen (w_ext w') = bs ++ seen (w_ext w) /\
    NoDup bs /\ (length bs <= S n)%nat /\ Forall (fun b => lo <= b <= hi /\ b ∉ tried) bs).
  { intros w' ->. exists []. split; [done|]. split; [constructor|]. split; [cbn; lia|constructor]. }
  cbn [auditSamples]. unfold bind at 1, attempt. pose proof (ctx_keeps w) as Hc.
  destruct (ctx_Err w) as [[[]|e|p] w1]; cbn in Hc |- *; [|by apply Hnil..].
  rewrite u64_small, i64_small by width. unfold Int63n. rewrite (proj2 (Z.leb_gt _ _)) by lia.
  unfold bind at 1. pose proof (rand_keeps (hi - lo + 1) w1) as Hr. pose proof (Hrand (hi - lo + 1) w1) as Hro.
  destruct (rand_Int63n _ w1) as [[r|e|p] w2]; cbn in Hr, Hro |- *; [|apply Hnil; congruence..].
  specialize (Hro r ltac:(lia) eq_refl). rewrite (u64_small r), (u64_small (lo + r)) by width.
  destruct (decide (lo + r ∈ tried)) as [Hin|Hnin].
  - destruct (IH tried w2) as (bs & -> & ? & ? & ?). exists bs. rewrite Hr, Hc. auto with lia.
  - unfold bind. pose proof (auditBlock_seen c (dec c) (Name sc) (lo + r) w2) as Hb.
    assert (Hone : forall w', seen (w_ext w') = lo + r :: seen (w_ext w2) ->
      exists bs, seen (w_ext w') = bs ++ seen (w_ext w) /\
        NoDup bs /\ (length bs <= S n)%nat /\ Forall (fun b => lo <= b <= hi /\ b ∉ tried) bs).
    { intros w' ->. exists [lo + r]. rewrite Hr, Hc. split; [done|]. split; [apply NoDup_singleton|].
      split; [cbn; lia|]. repeat constructor; [lia..|done]. }
    destruct (auditBlock cfg c _ _ sc (lo + r) w2) as [[[]|e|p] w3]; cbn in Hb |- *; [|by apply Hone..].
    destruct (IH ({[lo + r]} ∪ tried) w3) as (bs & -> & Hnd & Hlen & Hf).
    exists (bs ++ [lo + r]). rewrite Hb, Hr, Hc, <- app_assoc. split; [done|].
    rewrite Forall_forall in Hf. split_and!.
    + apply NoDup_app. split_and!; [done| |apply NoDup_singleton].
      intros b Hb1 ->%list_elem_of_singleton. destruct (Hf _ Hb1). set_solver.
    + rewrite length_app. cbn. lia.
    + apply Forall_app. split; [|repeat constructor; [lia..|done]].
      apply Forall_forall. intros b Hb1. destruct (Hf _ Hb1). set_solver.
Qed.
End Sampling.

(** C32. The auditor rescans at most [SamplesPerCycle] blocks per scanner and
    cycle, never the same block twice, and only blocks that lie between
    [WindowBlocks + SafetyMargin] and [SafetyMargin] behind the cursor; with
    a cursor nearer to genesis it rescans nothing. *)
Theorem auditScanner_window {E : Type} `{Env E, AuditBuffer E, AuditEnv E}
    (cfg : Config) (seen : E -> list Z) (sc : Scanner E) (c cursor : Z) (w w1 : World E) :
  LoggedAudit seen sc -> (forall n w r, 0 < n -> (rand_Int63n n w).1 = Ok r -> 0 <= r < n) ->
  0 <= WindowBlocks cfg -> 0 <= SafetyMargin cfg -> WindowBlocks cfg + SafetyMargin cfg < two63 - 1 ->
  abuf_Cursor c (Name sc) w = (Ok cursor, w1) -> is_u64 cursor ->
  exists bs, seen (w_ext (auditScanner cfg c sc w).2) = bs ++ seen (w_ext w) /\
    NoDup bs /\ Z.of_nat (length bs) <= Z.max 0 (SamplesPerCycle cfg) /\
    (forall b, b ∈ bs -> WindowBlocks cfg + SafetyMargin cfg <= cursor /\
       cursor - (WindowBlocks cfg + SafetyMargin cfg) <= b <= cursor - SafetyMargin cfg).
Proof.
  intros Hlog Hrand HW HS Hsum Hcur Hu. pose proof (cursor_keeps seen sc c (Name sc) w) as Hk.
  rewrite Hcur in Hk. cbn in Hk. unfold auditScanner, bind, attempt. rewrite Hcur. cbn beta iota.
  rewrite (u64_small (WindowBlocks cfg + SafetyMargin cfg)) by width.
  destruct (Z.ltb_spec cursor (WindowBlocks cfg + SafetyMargin cfg)).
  { exists []. rewrite <- Hk. split; [done|]. split; [constructor|]. split; [cbn; lia|set_solver]. }
  rewrite !u64_small by width.
  destruct (auditSamples_seen cfg seen sc c (cursor - (WindowBlocks cfg + SafetyMargin cfg))
    (cursor - SafetyMargin cfg) (Z.to_nat (SamplesPerCycle cfg)) Hrand) with (tried := (∅ : gset Z)) (w := w1)
    as (bs & Hs & Hnd & Hlen & Hf); [width..|].
  exists bs. rewrite <- Hk. split; [done|]. split; [done|]. split; [lia|].
  intros b Hb. rewrite Forall_forall in Hf. destruct (Hf b Hb). lia.
Qed.

(** ** The auditor only reads *)
Section ReadOnly.
Context {E : Type} `{Env E, AuditBuffer E, ChainSource E, AuditEnv E}.
Variables (builder : ChainConfig -> M (World E) (Scanner E * Scanner E * M (World E) unit)) (cfg : Config).
Variable I : World E -> Prop.

(** the calls the auditor makes keep [I] *)
Class AuditCallsKeep : Prop := {
  ck_metrics w r : I w -> I (mkWorld (w_db w) r (w_ext w));
  ck_ctx : preserves I ctx_Err;
  ck_now : preserves I time_Now;
  ck_rand n : preserves I (rand_Int63n n);
  ck_select i d : preserves I (audit_select i d);
  ck_cursor c s : preserves I (abuf_Cursor c s);
  ck_pending c lo hi : preserves I (abuf_PendingInRange c lo hi);
  ck_active : preserves I src_ActiveChains;
  ck_config c : preserves I (src_ChainConfig c);
  ck_builder cc : hoare I (builder cc) (fun r w => I w /\
    match r with
    | Ok (l, t, cleanup) => (forall b conf, preserves I (ScanBlock l b conf)) /\
        (forall b conf, preserves I (ScanBlock t b conf)) /\ preserves I cleanup
    | _ => True
    end)
}.
Context `{!AuditCallsKeep}.

Lemma keep_emit f : preserves I (emit f).
Proof. apply preserves_emit, ck_metrics. Qed.
#[local] Hint Resolve keep_emit ck_ctx ck_now ck_rand ck_cursor ck_pending ck_active ck_config ck_select : eff.

Lemma auditBlock_keeps c label name sc b :
  (forall b conf, preserves I (ScanBlock sc b conf)) -> preserves I (auditBlock cfg c label name sc b).
Proof. intros Hsc. unfold auditBlock. eff. Qed.

Lemma auditSamples_keeps c sc lo hi n : (forall b conf, preserves I (ScanBlock sc b conf)) ->
  forall tried, preserves I (auditSamples cfg c sc lo hi n tried).
Proof.
  intros Hsc. induction n as [|n IH]; intros tried; cbn [auditSamples]; [eff|].
  apply preserves_bind; [auto with eff|]. intros [_|e]; [|eff].
  apply preserves_bind; [unfold Int63n; eff|]. intros r. case_decide; [apply IH|].
  apply preserves_bind; [by apply auditBlock_keeps|auto].
Qed.

Lemma auditScanner_keeps c sc :
  (forall b conf, preserves I (ScanBlock sc b conf)) -> preserves I (auditScanner cfg c sc).
Proof. intros Hsc. unfold auditScanner. eff. by apply auditSamples_keeps. Qed.

Lemma auditChain_keeps c : preserves I (auditChain builder cfg c).
Proof.
  unfold auditChain. apply preserves_bind; [auto with eff|]. intros [cc|e]; [|eff].
  eapply hoare_bind with (R := fun r w => I w /\
    match r with
    | Ok (inl (l, t, cleanup)) => (forall b conf, preserves I (ScanBlock l b conf)) /\
        (forall b conf, preserves I (ScanBlock t b conf)) /\ preserves I cleanup
    | _ => True
    end).
  - intros w Hw. pose proof (ck_builder cc w Hw) as Hb. unfold attempt.
    by destruct (builder cc w) as [[[[l t] cl]|e|p] w'].
  - intros [[[l t] cl]|e] w [Hw Hb]; [|clear Hb; revert w Hw; apply preserves_bind; auto with eff].
    destruct Hb as (Hl & Ht & Hc). revert w Hw. apply preserves_deferred; [done|].
    eff; by apply auditScanner_keeps.
  - by intros e s [].
  - by intros p s [].
Qed.

Lemma auditChains_keeps chains : forall n, preserves I (auditChains builder cfg chains n).
Proof.
  induction chains as [|ch chains IH]; intros n; cbn [auditChains]; [eff|].
  apply preserves_bind; [auto with eff|]. intros [_|e]; [|eff].
  apply preserves_bind; [apply auditChain_keeps|auto].
Qed.

Lemma alift_keeps {A} (m : M (World E) A) :
  preserves I m -> preserves (fun s : AS => I s.1) (alift m).
Proof. intros Hm [w t] Hw. specialize (Hm w Hw). unfold alift. by destruct (m w). Qed.

Lemma runCycle_keeps : preserves (fun s : AS => I s.1) (runCycle builder cfg).
Proof.
  unfold runCycle. apply preserves_bind; [apply alift_keeps; auto with eff|].
  intros [chains|e]; [|apply alift_keeps; auto with eff].
  apply preserves_bind; [apply alift_keeps, auditChains_keeps|]. intros [n|]; [|auto with eff].
  apply preserves_bind; [apply alift_keeps; auto with eff|intros now].
  apply preserves_bind; [by apply preserves_modify|intros _].
  apply preserves_bind; intros; apply alift_keeps; auto with eff.
Qed.

Lemma Run_selects_keeps n i d : preserves (fun s : AS => I s.1) (Run_selects builder cfg n i d).
Proof.
  induction n as [|n IH]; cbn [Run_selects]; [auto with eff|].
  apply preserves_bind; [apply alift_keeps; auto with eff|].
  intros []; [auto with eff|..]; (apply preserves_bind; [|auto]); [apply runCycle_keeps..|].
  unfold updateAgeMetric. apply preserves_bind; [auto with eff|]. intros [t|]; [|auto with eff].
  apply preserves_bind; intros; apply alift_keeps; auto with eff.
Qed.

Lemma Auditor_Run_keeps n : preserves (fun s : AS => I s.1) (Auditor_Run builder cfg n).
Proof. apply preserves_bind; [apply preserves_newTicker|]. intros _. apply Run_selects_keeps. Qed.
End ReadOnly.

(** The auditor writes nothing but metrics: whatever its reads, rescans
    and timers leave true of the database and the outside is still true
    after any number of its selects, whichever of them fail or panic. *)
Theorem auditor_read_only {E : Type} `{Env E, AuditBuffer E, ChainSource E, AuditEnv E}
    (builder : ChainConfig -> M (World E) (Scanner E * Scanner E * M (World E) unit)) (cfg : Config)
    (I : World E -> Prop) (n : nat) (w : World E) (last : option instant) :
  AuditCallsKeep builder I -> I w -> I (Auditor_Run builder cfg n (w, last)).2.1.
Proof.
  intros Hk Hw. exact (Auditor_Run_keeps builder cfg I n (w, last) Hw).
Qed.

(** A native transfer of a transaction at position 9999 to 99998 of its block
    belongs to neither scanner: the audit never reports its row missing. *)
Lemma audit_blind_spot `{Eth} (s : LogScannerCfg) conf bt (c : nativeCandidate) (from : Address) found :
  9999 <= n_txIdx c <= 99998 ->
  ~ missed "log" found (ev_key (native_event s conf bt (c, from))) /\
  ~ missed "trace" found (ev_key (native_event s conf bt (c, from))).
Proof.
  intros Hi. unfold missed, native_event, nativeLogIndexBase, ownedBy. cbn.
  rewrite (proj2 (Z.ltb_ge _ _)), (proj2 (Z.leb_gt _ _)) by lia. naive_solver.
Qed.

(** Outside that gap every event has exactly the owner that made it: token
    logs and the native transfers of the first 9999 transactions belong to
    the log scanner, internal transfers to the trace scanner. *)
Theorem audit_ownership `{Eth} (s : LogScannerCfg) (cc : ChainConfig) (conf : Z) (bt : string)
    (c : nativeCandidate) (from : Address) (logIndex counter val : Z) (tx : string) (call : callFrame) :
  0 <= n_txIdx c < 9999 -> 0 <= logIndex -> 0 <= counter ->
  (forall name, name = "log" \/ name = "trace" ->
    (ownedBy name (ev_LogIndex (native_event s conf bt (c, from))) = String.eqb name "log" /\
     ownedBy name logIndex = String.eqb name "log" /\
     ownedBy name (ev_LogIndex (trace_event cc tx conf bt counter val call)) = String.eqb name "trace")).
Proof.
  intros Hc Hl Hk name [->| ->]; unfold ownedBy, native_event, trace_event, nativeLogIndexBase, traceLogIndexBase;
    cbn; rewrite ?Z.ltb_lt, ?Z.ltb_ge, ?Z.leb_le, ?Z.leb_gt; lia.
Qed.

(** ** Concrete runs: the scanner logs the blocks it rescans *)
Module AuditWitness.
#[export] Instance env : Env (list Z) := {|
  env_wait _ := ret tt; ctx_Err := ret tt; time_Now := ret {| sec := 1700000000; nsec := 0 |};
  env_db := ret tt;
  env_has := ret tt; env_tx e := (None, e); env_commit e := (Committed, e); db_now _ := 0 |}.
(** "random" offsets: the number of blocks rescanned so far *)
#[export] Instance aenv : AuditEnv (list Z) := {|
  rand_Int63n n := gets (fun w => Z.of_nat (length (w_ext w)) mod n);
  audit_select _ _ := fun w => (Ok (match w_ext w with [] => AeFirst | _ => AeDone end), w) |}.
#[export] Instance source : ChainSource (list Z) := {|
  src_ActiveChains := ret [mkChainInfo 1 "http://node" "h"];
  src_ChainConfig c := ret (mkChainConfig c "" "ETH" 18 12000 4000 12 "erc20" ∅) |}.

Definition scan (name : string) (evs : list DepositEvent) : Scanner (list Z) :=
  mkScanner name (fun b _ w => (Ok evs, mkWorld (w_db w) (w_metrics w) (b :: w_ext w))).
Definition ev (tx : string) (li : Z) : DepositEvent :=
  mkEvent 1 tx li "0xf" "0xt" (Some 5) "ETH" 18 1000 "2023-11-14T22:13:20Z".

(** two pending rows at block 7 *)
Definition two : World (list Z) := mkWorld (w_db BufferWitness.two) ∅ [].
Definition cfg : Config := New (mkConfig 300 4 2 3 0 0).

(** the rescan reproduces one row of the two *)
Lemma auditBlock_exact_witness : exists w',
  auditBlock cfg 1 "1" "log" (scan "log" [ev "0xaa" 0]) 7 two = (Ok tt, w') /\
  mget (w_metrics w') AuditMismatchPendingMissing ["1"] = 1.
Proof.
  destruct (auditBlock_exact cfg 1 "1" (scan "log" [ev "0xaa" 0]) 7 two
    (mkWorld (w_db two) ∅ [7]) (mkWorld (w_db two) (minc AuditBlocksChecked ["1"] ∅) [7]) [ev "0xaa" 0])
    as (w' & Ha & _ & _ & Hm); [reflexivity..|exact BufferWitness.two_wf|].
  exists w'. split; [exact Ha|]. rewrite Hm. vm_compute. reflexivity.
Defined.

Definition at10 : World (list Z) := mkWorld (sql_upsert_cursor 1 "log" 10 (w_db two)) ∅ [].

Lemma logged : LoggedAudit (E := list Z) (fun l => l) (scan "log" []).
Proof. by split. Qed.

Lemma auditScanner_window_witness : exists bs,
  w_ext (auditScanner cfg 1 (scan "log" []) at10).2 = bs ++ [] /\ length bs = 3%nat /\
  forall b, b ∈ bs -> 4 + 2 <= 10 /\ 10 - (4 + 2) <= b <= 10 - 2.
Proof.
  destruct (auditScanner_window cfg (fun l => l) (scan "log" []) 1 10 at10 at10) as (bs & Hs & _ & _ & Hb);
    [exact logged| |done..|].
  - intros n w r Hn [= <-]. by apply Z.mod_pos_bound.
  - exists bs. split; [exact Hs|]. split; [|exact Hb].
    rewrite <- (app_nil_r bs). transitivity (length (w_ext (auditScanner cfg 1 (scan "log" []) at10).2)).
    + f_equal. symmetry. exact Hs.
    + vm_compute. reflexivity.
Defined.

Definition build (cc : ChainConfig) : M (World (list Z)) (Scanner (list Z) * Scanner (list Z) * M (World (list Z)) unit) :=
  ret (scan "log" [], scan "trace" [], ret tt).

Lemma auditor_read_only_witness :
  w_db (Auditor_Run build cfg 2 (at10, None)).2.1 = w_db at10 /\
  mget (w_metrics (Auditor_Run build cfg 2 (at10, None)).2.1) AuditCycles [] = 1.
Proof.
  split; [|vm_compute; reflexivity].
  apply (auditor_read_only build cfg (fun w => w_db w = w_db at10) 2 at10 None); [|reflexivity].
  split; intros; try (intros w Hw; exact Hw).
  - done.
  - intros w Hw. split; [exact Hw|]. cbn. split; [|split; [|apply preserves_ret]]; intros b conf w' Hw'; exact Hw'.
Defined.

Definition eth : Eth := {| addrHex a := dec a; hashHex h := dec h; HexToAddress s := 0; Keccak256Hash s := 0 |}.
Definition ls : LogScannerCfg := mkLS (mkChainConfig 1 "" "ETH" 18 12000 4000 12 "erc20" ∅) 0 false {| MaxRetries := 3; BaseDelay := 1 |} None.

Lemma audit_ownership_witness :
  ownedBy "log" (ev_LogIndex (native_event (H1 := eth) ls 12 "t" (mkCand (mkTx 1 (Some 2) [] 3) 9998 2, 4))) = true.
Proof.
  apply (audit_ownership (H := eth) ls (ls_chain ls) 12 "t" (mkCand (mkTx 1 (Some 2) [] 3) 9998 2) 4 0 0 1 "0x"
           (mkFrame "CALL" "" "" "" "" [])); [cbn; lia|lia|lia|by left].
Defined.

(** A negative AUDIT_WINDOW_BLOCKS is converted to a huge uint64: the sum with
    the margin wraps around and [rand.Int63n] panics, outside any recover. *)
Lemma negative_window_panics :
  (Auditor_Run build (New (mkConfig 300 (u64 (-1)) 2 3 0 0)) 2 (at10, None)).1 = Panic "invalid argument to Int63n".
Proof. vm_compute. reflexivity. Qed.

(** AUDIT_INTERVAL_S = 0 does not switch the auditor off: [NewTicker] panics. *)
Lemma zero_interval_panics :
  (Auditor_Run build (New (mkConfig 0 4 2 3 0 0)) 2 (at10, None)).1 = Panic "non-positive interval for NewTicker".
Proof. vm_compute. reflexivity. Qed.
End AuditWitness.
