(* ===== verification/AuditEnd.v ===== *)
(** * The audit against the chain

    Every row the polling loops store is a deposit of the block it is filed
    under ([rows_genuine]).  So a rescan by a scanner that reports the block
    exactly reproduces every row of the block that belongs to it: the audit
    raises no false alarm then. *)
From stdpp Require Import base gmap list strings relations.
From Stdlib Require Import ZArith Lia Ascii String.
From stdpp Require Import base strings.
From S2P Require Import Prelude Decimal Errors Effect Retry Time Model Json Metrics Store BufferRepo Spec Scanner Loop Repos ReposProps Decoder LogScanner LogScannerProps EndToEnd TraceScanner TraceProps TraceEnd Typed Supervisor Auditor AuditorProps.

(** ** The ground truth of both scanners *)

(** a chain as it is, with the configuration its scanners have *)
Record chain_data := mkChainData {
  cd_ls : LogScannerCfg; cd_block : Z -> Block; cd_logs : Z -> list Log;
  cd_trace : Hash -> callFrame; cd_code : Address -> bool; cd_watched : string -> bool }.

Definition chain_truth `{Eth} (chains : Z -> option chain_data) (c : Z) (scanner : string) (b : Z) : list key :=
  match chains c with
  | Some d =>
      if String.eqb scanner "log" then block_keys (cd_ls d) (cd_block d) (cd_logs d) (cd_watched d) b
      else if String.eqb scanner "trace"
      then trace_keys (ls_chain (cd_ls d)) (cd_block d) (cd_trace d) (cd_code d) (cd_watched d) b
      else []
  | None => []
  end.

(** blocks of fewer than 99999 transactions, logs indexed from 0, decoders as
    the code has them, each chain under its own id *)
Record chains_regular `{Eth} (chains : Z -> option chain_data) : Prop := {
  cr_id : forall c d, chains c = Some d -> cc_ChainID (ls_chain (cd_ls d)) = c;
  cr_txs : forall c d b, chains c = Some d -> Z.of_nat (length (b_Transactions (cd_block d b))) < 99999;
  cr_logs : forall c d b, chains c = Some d -> Forall (fun lg => 0 <= lg_Index lg < two63) (cd_logs d b);
  cr_decoders : forall c d reg t dec, chains c = Some d -> ls_decoders (cd_ls d) = Some reg ->
    Lookup reg t = Some dec -> decoder_regular dec
}.

(** each deposit belongs to the scanner that reports it, for the audit *)
Definition truth_owned (truth : Z -> string -> Z -> list key) : Prop :=
  forall c s b k name, k ∈ truth c s b -> name = "log" \/ name = "trace" ->
    ownedBy name k.2 = true -> k.1.1 = c /\ s = name.

Section Owned.
Context `{Eth}.

Lemma block_keys_chain (d : chain_data) b k :
  (forall reg t dec, ls_decoders (cd_ls d) = Some reg -> Lookup reg t = Some dec -> decoder_regular dec) ->
  k ∈ block_keys (cd_ls d) (cd_block d) (cd_logs d) (cd_watched d) b -> k.1.1 = cc_ChainID (ls_chain (cd_ls d)).
Proof.
  intros Hreg. unfold block_keys. rewrite elem_of_app. intros [Hk|Hk].
  - by eapply native_keys_chain.
  - destruct (ls_decoders (cd_ls d)) as [reg|] eqn:Hd; [|by apply not_elem_of_nil in Hk].
    by apply token_keys_index in Hk as [Hc _]; [|by eauto].
Qed.

Lemma trace_keys_elem ch blockOf traceOf code watched b k :
  k ∈ trace_keys ch blockOf traceOf code watched b -> k.1.1 = cc_ChainID ch /\ k.2 <= traceLogIndexBase.
Proof.
  unfold trace_keys. intros [i Hi]%list_elem_of_lookup. rewrite list_lookup_imap in Hi.
  destruct (_ !! i); [|done]. cbn in Hi. injection Hi as <-. cbn. lia.
Qed.

Lemma chain_truth_owned chains : chains_regular chains -> truth_owned (chain_truth chains).
Proof.
  intros [Hid Htx Hlg Hdec] c s b k name Hk Hname Hown. unfold chain_truth in Hk.
  destruct (chains c) as [d|] eqn:Hd; [|by apply not_elem_of_nil in Hk].
  destruct (String.eqb_spec s "log") as [->|Hs].
  - split; [rewrite <- (Hid c d Hd); eapply block_keys_chain; [by eauto|exact Hk]|].
    assert (-99999 <= k.2) as Hi.
    { unfold block_keys in Hk. apply elem_of_app in Hk as [Hk|Hk].
      - apply native_keys_shape in Hk. pose proof (Htx c d b Hd). lia.
      - destruct (ls_decoders (cd_ls d)) as [reg|] eqn:Hr; [|by apply not_elem_of_nil in Hk].
        apply token_keys_shape in Hk; [lia|by eauto|by eapply Hlg]. }
    destruct Hname as [->| ->]; [done|]. cbn in Hown. apply Z.leb_le in Hown. lia.
  - destruct (String.eqb_spec s "trace") as [->|]; [|by apply not_elem_of_nil in Hk].
    apply trace_keys_elem in Hk as [Hc Hi]. split; [by rewrite Hc, (Hid c d Hd)|].
    destruct Hname as [->| ->]; [|done]. cbn in Hown. apply Z.ltb_lt in Hown. unfold traceLogIndexBase in Hi. lia.
Qed.
End Owned.

(** ** Rows are deposits of their block *)
Section Genuine.
Context {E : Type} `{Env E, ETHClient E}.
Variables (truth : Z -> string -> Z -> list key) (J : E -> Prop).

(** rows of before migration 0002 have no block number *)
Definition row_genuine (r : BufferRow) : Prop :=
  forall v, row_block_number r = Some v -> exists c s, row_key r ∈ truth c s (u64 v).
Definition rows_genuine (w : World E) : Prop :=
  Forall row_genuine (deposit_buffer (w_db w)) /\ J (w_ext w).

Lemma insert_all_genuine now block c s ds db : is_u64 block ->
  (forall k, k ∈ key_of <$> ds -> k ∈ truth c s block) ->
  Forall row_genuine (deposit_buffer db) ->
  Forall row_genuine (deposit_buffer (foldl (insert_db now block) db ds)).
Proof.
  intros Hb Hk. revert db. induction ds as [|d ds IH]; intros db Hdb; [done|]. cbn [foldl].
  apply IH; [intros k Hin; apply Hk; by right|]. cbn. destruct (decide _); [done|].
  apply Forall_app. split; [done|]. constructor; [|done]. intros v [= <-]. exists c, s.
  rewrite u64_i64 by done. apply Hk. left.
Qed.

Lemma save_genuine chainID s block ds :
  preserves rows_genuine env_db ->
  (forall e, J e -> J (env_tx e).2) -> (forall e, J e -> J (env_commit e).2) -> is_u64 block ->
  (forall k, k ∈ key_of <$> ds -> k ∈ truth chainID s block) ->
  preserves rows_genuine (SaveAndAdvance chainID s block ds).
Proof.
  intros Hdb Htx Hcm Hb Hk w Hw. pose proof (Hdb w Hw) as [Hr HJ]. fold (after_roundtrip w) in Hr, HJ.
  pose proof (SaveAndAdvance_frame J Htx Hcm chainID s block ds w HJ) as HJ2.
  pose proof (SaveAndAdvance_cases chainID s block ds w) as Hc. cbv zeta in Hc.
  destruct (SaveAndAdvance _ _ _ _ w) as [r w2]. cbn in *. split; [|done].
  destruct Hc as [(_ & Hdb2 & _)|[(_ & [Hdb2 | [Hdb2 _]])|(_ & ->)]]; rewrite ?Hdb2; try done;
    rewrite save_db_buffer; by eapply insert_all_genuine.
Qed.

(** an empty save of any block stores no row *)
Lemma save_nothing chainID s block :
  preserves rows_genuine env_db ->
  (forall e, J e -> J (env_tx e).2) -> (forall e, J e -> J (env_commit e).2) ->
  preserves rows_genuine (SaveAndAdvance chainID s block []).
Proof.
  intros Hdb Htx Hcm w Hw. pose proof (Hdb w Hw) as [Hr HJ]. fold (after_roundtrip w) in Hr, HJ.
  pose proof (SaveAndAdvance_frame J Htx Hcm chainID s block [] w HJ) as HJ2.
  pose proof (SaveAndAdvance_cases chainID s block [] w) as Hc. cbv zeta in Hc.
  destruct (SaveAndAdvance _ _ _ _ w) as [r w2]. cbn in *. split; [|done].
  by destruct Hc as [(_ & -> & _)|[(_ & [-> | [-> _]])|(_ & ->)]].
Qed.

Lemma Run_genuine chainID (strategy : Scanner E) cfg n :
  calls_keep strategy rows_genuine ->
  (forall e, J e -> J (env_tx e).2) -> (forall e, J e -> J (env_commit e).2) ->
  ScannerSound truth chainID strategy J -> head_u64 ->
  preserves rows_genuine (Run chainID strategy cfg n).
Proof.
  intros Hk Htx Hcm [Hs] Hu. apply Run_keeps; [done|].
  assert (forall f, preserves rows_genuine (emit f)) as Hemit by by intros f w.
  apply pollOnce_keeps; [done..| |intros; by apply save_nothing; [apply Hk|..]].
  intros latest endB b Hb. apply (processBlock_keeps chainID strategy cfg _ Hk Hemit
    (fun b e => ev_key e ∈ truth chainID (Name strategy) b)).
  - intros conf w evs _ [_ HJ] Hev. apply Forall_forall. intros e He.
    apply (Hs b conf w evs HJ Hev). by apply list_elem_of_fmap_2.
  - intros evs ds Hevs Hds. apply save_genuine; [apply Hk|done..|].
    intros k (d & -> & Hd)%list_elem_of_fmap. destruct (Hds d Hd) as (e & He & -> & _).
    rewrite Forall_forall in Hevs. by apply Hevs.
Qed.

(** the rows the audit of a block looks at are the scanner's own *)
Lemma audit_rows_found (sc : Scanner E) c blk evs w :
  truth_owned truth -> Name sc = "log" \/ Name sc = "trace" -> is_u64 blk -> rows_genuine w ->
  (forall k, k ∈ ev_key <$> evs <-> k ∈ truth c (Name sc) blk) ->
  filter (missed (Name sc) (ev_key <$> evs))
    (row_key <$> filter (in_range c (i64 blk) (i64 blk)) (deposit_buffer (w_db w))) = [].
Proof.
  intros Hown Hname Hb [Hrows _] Hev. apply elem_of_nil_inv. intros k.
  rewrite list_elem_of_filter, list_elem_of_fmap. intros ([Ho Hf] & r & -> & Hr).
  apply list_elem_of_filter in Hr as [Hin Hr]. rewrite Forall_forall in Hrows. specialize (Hrows r Hr).
  unfold in_range in Hin. destruct (row_block_number r) as [v|] eqn:Hv; [|naive_solver].
  assert (row_chain_id r = c /\ v = i64 blk) as [Hc ->] by (destruct Hin; split; [done|lia]).
  destruct (Hrows _ Hv) as (c' & s & Hk). rewrite u64_i64 in Hk by done.
  destruct (Hown c' s blk (row_key r) (Name sc) Hk Hname Ho) as [Hc' ->].
  cbn in Hc'. subst. by apply Hf, Hev.
Qed.
End Genuine.

(** C31. Where rescans are faithful, the audit raises no false alarm.  The
    conditions: the scanner of the polling loop and the scanner the audit
    rescans with both report their chain exactly whenever a scan succeeds
    ([ScannerSound]; the log scanner does on an honest node, the trace scanner
    only while every trace call and account lookup answers and it has not
    been disabled), the chains' data is regular, and the buffer starts with
    rows that are deposits of their blocks.  Then, after any number of ticks
    of the loop, whatever calls of it fail, an audit of any block whose rescan
    and query succeed leaves the mismatch counter at its value.  Without the
    first condition a false alarm is possible: a trace scanner disabled by a
    'not available' answer, or one that swallowed a failed account lookup,
    rescans to fewer events than the buffer has. *)
Theorem audit_no_false_alarm {E : Type} `{Env E, ETHClient E, Eth}
    (chains : Z -> option chain_data) (J : E -> Prop)
    (chainID : Z) (strategy : Scanner E) (cfg : LoopConfig) (ticks : nat)
    (acfg : Auditor.Config) (c : Z) (label : string) (sc : Scanner E) (blk : Z)
    (w0 w1 w2 : World E) (evs : list DepositEvent) :
  let truth := chain_truth chains in
  chains_regular chains ->
  ScannerSound truth chainID strategy J -> ScannerSound truth c sc J ->
  calls_keep strategy (rows_genuine truth J) -> head_u64 ->
  (forall b conf, preserves (rows_genuine truth J) (ScanBlock sc b conf)) ->
  (forall e, J e -> J (env_tx e).2) -> (forall e, J e -> J (env_commit e).2) ->
  Name sc = "log" \/ Name sc = "trace" -> is_u64 blk ->
  rows_genuine truth J w0 ->
  let w := (Run chainID strategy cfg ticks w0).2 in
  ScanBlock sc blk (BlockRescanConfs acfg) w = (Ok evs, w1) ->
  env_db (mkWorld (w_db w1) (minc AuditBlocksChecked [label] (w_metrics w1)) (w_ext w1)) = (Ok tt, w2) ->
  db_wf (w_db w2) ->
  exists w', auditBlock acfg c label (Name sc) sc blk w = (Ok tt, w') /\
    mget (w_metrics w') AuditMismatchPendingMissing [label] =
    mget (w_metrics w2) AuditMismatchPendingMissing [label].
Proof.
  cbv zeta. intros Hreg Hs [Hsc] Hk Hu Hkeep Htx Hcm Hname Hb Hw0 Hscan Hdb Hwf.
  pose proof (Run_genuine _ J chainID strategy cfg ticks Hk Htx Hcm Hs Hu w0 Hw0) as Hw.
  set (w := (Run chainID strategy cfg ticks w0).2) in *.
  pose proof (Hkeep blk (BlockRescanConfs acfg) w Hw) as Hw1. rewrite Hscan in Hw1. cbn in Hw1.
  pose proof (keep_db _ _ Hk (mkWorld (w_db w1) (minc AuditBlocksChecked [label] (w_metrics w1)) (w_ext w1)) Hw1) as Hw2.
  rewrite Hdb in Hw2. cbn in Hw2.
  destruct (auditBlock_count acfg c label sc blk w w1 w2 evs Hscan Hdb Hwf) as (w' & Hrun & _ & _ & Hm).
  exists w'. split; [done|]. rewrite Hm.
  rewrite (audit_rows_found (chain_truth chains) J sc c blk evs w2); [cbn; lia|by apply chain_truth_owned|done..|].
  destruct Hw as [_ HJ]. specialize (Hsc blk (BlockRescanConfs acfg) w evs HJ). rewrite Hscan in Hsc. by apply Hsc.
Qed.

Module AuditEndWitness.
Import DecoderWitness EndWitness TypedWitness.

Definition chains (c : Z) : option chain_data :=
  if c =? 1 then Some (mkChainData ls blockOf logsOf (fun _ => zeroFrame) (fun _ => false) watched) else None.

Lemma regular : chains_regular chains.
Proof.
  assert (forall c d, chains c = Some d -> c = 1 /\
    d = mkChainData ls blockOf logsOf (fun _ => zeroFrame) (fun _ => false) watched) as Hd.
  { intros c d. unfold chains. destruct (Z.eqb_spec c 1); [|done]. by intros [= <-]. }
  split; intros c d; [| | |intros reg t dc]; [..|intros [-> ->]%Hd]; [intros [-> ->]%Hd|intros b [-> ->]%Hd..|]; cbn.
  - done.
  - unfold blockOf. cbn. destruct (b =? 102); by vm_compute.
  - unfold logsOf. destruct (b =? 102); repeat constructor; by vm_compute.
  - intros Hr Hl. by apply (sc_registry _ _ config) in Hr as [_ Hr]; apply Hr in Hl.
Qed.

Lemma log_sound : ScannerSound (chain_truth chains) 1 (LogScanner ls) (fun _ => True).
Proof. by apply (LogScanner_Sound ls blockOf logsOf watched _ _ honest config). Qed.

Abbreviation genuine := (rows_genuine (E := Z) (chain_truth chains) (fun _ => True)).
Lemma scan_keeps b conf : preserves genuine (ScanBlock (LogScanner ls) b conf).
Proof. apply LogScanner_preserves; intros; intros w Hw; exact Hw. Qed.
Lemma genuine_kept : calls_keep (LogScanner ls) genuine.
Proof. split; try (intros; intros w Hw; exact Hw). apply scan_keeps. Qed.

Definition acfg : Auditor.Config := New (mkConfig 300 4 2 3 0 0).

Definition w103 : World Z := (Run 1 (LogScanner ls) cfg 1 at100).2.
(** the world the audit of block 102 queries *)
Definition queried (w : World Z) : World Z :=
  with_accounts (mkWorld (w_db (with_accounts w))
    (minc AuditBlocksChecked ["1"] (w_metrics (with_accounts w))) (w_ext (with_accounts w))).
Definition rescan : list DepositEvent :=
  default [] (match (ScanBlock (LogScanner ls) 102 1000 at100).1 with Ok e => Some e | _ => None end).

Lemma rescans (w : World Z) : ScanBlock (LogScanner ls) 102 1000 w = (Ok rescan, with_accounts w).
Proof. vm_compute. reflexivity. Qed.
Lemma queried_wf (w : World Z) : db_wf (w_db w) -> db_wf (w_db (queried w)).
Proof. by intros [H1 H2 H3 H4]. Qed.
Lemma w103_wf : db_wf (w_db w103).
Proof.
  apply (Run_wf 1 (LogScanner ls) cfg (fun _ => True) 1); try done; [|apply wf_kept|apply head|split; [apply empty_wf|done]].
  apply (LogScanner_typed ls blockOf logsOf watched _ honest config); [by split|apply small_blocks|apply small_logs].
Qed.

(** block 102 has two rows, and its audit is silent *)
Lemma audit_no_false_alarm_witness :
  keys_of (w_db w103) = [(1, "0x77", -2); (1, "0x78", 3)] /\
  exists w', auditBlock acfg 1 "1" (Name (LogScanner ls)) (LogScanner ls) 102 w103 = (Ok tt, w') /\
    mget (w_metrics w') AuditMismatchPendingMissing ["1"] = 0.
Proof.
  split; [vm_compute; reflexivity|].
  destruct (audit_no_false_alarm chains (fun _ => True) 1 (LogScanner ls) cfg 1 acfg 1 "1" (LogScanner ls) 102
    at100 (with_accounts w103) (queried w103) rescan) as (w' & Hrun & Hm).
  - apply regular.
  - apply log_sound.
  - apply log_sound.
  - apply genuine_kept.
  - apply head.
  - apply scan_keeps.
  - done.
  - done.
  - by left.
  - by split.
  - split; [constructor|done].
  - apply rescans.
  - reflexivity.
  - apply queried_wf, w103_wf.
  - exists w'. split; [exact Hrun|]. etransitivity; [exact Hm|]. vm_compute. reflexivity.
Defined.
End AuditEndWitness.
