(* ===== verification/Notify.v ===== *)
(** * Wake-up listener ([internal/notify/listener.go])

    Holds one connection in LISTEN state and puts a token into the [wake]
    channel (capacity 1) for every notification; a lost connection is
    retried with exponential backoff. *)
From stdpp Require Import base gmap list strings.
From Stdlib Require Import ZArith Lia Ascii String.
From stdpp Require Import base strings.
From S2P Require Import Prelude Decimal Errors Effect Retry Time Model Json Metrics Store.

(** A state is a world and the content of [wake].  While the listener waits,
    the publisher may take the token. *)
Definition NS (E : Type) : Type := World E * bool.
Definition nlift {E A} (m : M (World E) A) : M (NS E) A := fun '(w, t) =>
  let '(r, w') := m w in (r, (w', t)).

(** the pool connection *)
Class Listening (E : Type) := {
  Acquire : M (World E) unit;
  Release : M (World E) unit;
  ListenExec : string -> M (World E) unit;
  WaitForNotification : M (NS E) unit
}.

Definition initialBackoff : Z := 1000000000.
Definition maxBackoff : Z := 30 * 1000000000.

Section Listener.
Context {E : Type} `{Env E, Listening E}.
Variable channel : string.

(** [select { case wake <- struct{}{}: default: }]: a full channel stays full *)
Definition signal : M (NS E) unit := modify (fun s => (s.1, true)).

(** the notification loop, [m] notifications of it *)
Fixpoint waitLoop (m : nat) : M (NS E) unit :=
  match m with
  | O => ret tt
  | S m' =>
      wrapf "wait notification" WaitForNotification ;;;
      nlift (emit (minc NotifyReceived [])) ;;;
      signal ;;;
      waitLoop m'
  end.

(** [Ok tt] is a connection still listening after [m] notifications; the Go
    function never returns nil *)
Definition runOnce (m : nat) : M (NS E) unit :=
  wrapf "acquire conn" (nlift Acquire) ;;;
  deferred (nlift Release) (
    wrapf ("LISTEN " +:+ channel) (nlift (ListenExec ("LISTEN " +:+ channel))) ;;;
    waitLoop m).

Definition grow (backoff : Z) : Z :=
  if backoff <? maxBackoff then
    let backoff := backoff * 2 in if maxBackoff <? backoff then maxBackoff else backoff
  else backoff.

(** [n] connections of at most [m] notifications each *)
Fixpoint Listener_loop (n m : nat) (backoff : Z) : M (NS E) unit :=
  match n with
  | O => ret tt
  | S n' =>
      nlift ctx_Err ;;;
      let* r := attempt (runOnce m) in
      match r with
      | inl _ => ret tt
      | inr _ =>
          nlift ctx_Err ;;;
          nlift (emit (minc NotifyReconnects [])) ;;;
          nlift (env_wait backoff) ;;;
          Listener_loop n' m (grow backoff)
      end
  end.

Definition Listener_Run (n m : nat) : M (NS E) unit := Listener_loop n m initialBackoff.
End Listener.

(** ** Properties *)

(** the delay before the [i]-th reconnect: 1, 2, 4, 8, 16, 30, 30, .. seconds *)
Definition delay (i : nat) : Z := Z.min (2 ^ Z.of_nat i * initialBackoff) maxBackoff.

Lemma grow_delay i : grow (delay i) = delay (S i).
Proof.
  unfold delay, grow. rewrite Nat2Z.inj_succ, Z.pow_succ_r by lia.
  set (p := 2 ^ Z.of_nat i). assert (0 < p) by (apply Z.pow_pos_nonneg; lia).
  unfold maxBackoff, initialBackoff.
  destruct (Z.ltb_spec (Z.min (p * 1000000000) (30 * 1000000000)) (30 * 1000000000)); [|lia].
  destruct (Z.ltb_spec (30 * 1000000000) (Z.min (p * 1000000000) (30 * 1000000000) * 2)); lia.
Qed.

Section Backoff.
Context {E : Type} `{Env E, Listening E}.
Variables (channel : string) (waited : E -> list Z).

Definition quiet_call {S A} (ext : S -> E) (m : M S A) : Prop := forall s, waited (ext (m s).2) = waited (ext s).

(** waits are logged, nothing else touches the log *)
Class LoggedWaits : Prop := {
  lw_wait d w : waited (w_ext (env_wait d w).2) = waited (w_ext w) ++ [d];
  lw_ctx : quiet_call w_ext ctx_Err;
  lw_acquire : quiet_call w_ext Acquire;
  lw_release : quiet_call w_ext Release;
  lw_exec s : quiet_call w_ext (ListenExec s);
  lw_notification : quiet_call (fun s : NS E => w_ext s.1) WaitForNotification
}.
Context `{!LoggedWaits}.

Abbreviation at_log l := (fun s : NS E => waited (w_ext s.1) = l).

Lemma nlift_log {A} (m : M (World E) A) l : quiet_call w_ext m -> preserves (at_log l) (nlift m).
Proof. intros Hm [w t] Hl. specialize (Hm w). unfold nlift. destruct (m w). cbn in *. congruence. Qed.
Lemma emit_log f l : preserves (at_log l) (nlift (emit f)).
Proof. by intros [w t]. Qed.

Lemma waitLoop_log m l : preserves (at_log l) (waitLoop m).
Proof.
  induction m as [|m IH]; [apply preserves_ret|]. apply preserves_bind.
  { apply preserves_wrapf. intros s Hs. rewrite lw_notification. done. }
  intros _. apply preserves_bind; [apply emit_log|]. intros _.
  apply preserves_bind; [by apply preserves_modify|done].
Qed.

Lemma runOnce_log m l : preserves (at_log l) (runOnce channel m).
Proof.
  apply preserves_bind; [apply preserves_wrapf, nlift_log, lw_acquire|]. intros _.
  apply preserves_deferred; [apply nlift_log, lw_release|].
  apply preserves_bind; [apply preserves_wrapf, nlift_log, lw_exec|]. intros _. apply waitLoop_log.
Qed.

Lemma loop_log n m : forall i s l, waited (w_ext s.1) = l -> exists k, (k <= n)%nat /\
  waited (w_ext (Listener_loop channel n m (delay i) s).2.1) = l ++ (delay <$> seq i k).
Proof.
  induction n as [|n IH]; intros i s l Hs; [exists 0%nat; cbn; rewrite app_nil_r; auto|].
  assert (Hstop : forall s' : NS E, waited (w_ext s'.1) = l -> exists k, (k <= S n)%nat /\
    waited (w_ext s'.1) = l ++ (delay <$> seq i k)).
  { intros s' <-. exists 0%nat. split; [lia|]. cbn. by rewrite app_nil_r. }
  cbn [Listener_loop]. unfold bind at 1. pose proof (nlift_log ctx_Err l lw_ctx s Hs) as L1.
  destruct (nlift ctx_Err s) as [[[]|e|p] s1]; [|by apply Hstop..]. cbn in L1.
  unfold bind at 1. pose proof (preserves_attempt _ _ (runOnce_log m l) s1 L1) as L2.
  destruct (attempt (runOnce channel m) s1) as [[[[]|e]|e|p] s2]; [by apply Hstop| |by apply Hstop..]. cbn in L2.
  unfold bind at 1. pose proof (nlift_log ctx_Err l lw_ctx s2 L2) as L3.
  destruct (nlift ctx_Err s2) as [[[]|e'|p] s3]; [|by apply Hstop..]. cbn in L3.
  unfold bind at 1. pose proof (emit_log (minc NotifyReconnects []) l s3 L3) as L4.
  destruct (nlift (emit _) s3) as [[[]|e'|p] s4]; [|by apply Hstop..]. cbn in L4.
  unfold bind at 1. destruct s4 as [w4 t]. unfold nlift at 1. pose proof (lw_wait (delay i) w4) as L5.
  cbn in L4. rewrite L4 in L5. destruct (env_wait (delay i) w4) as [[[]|e'|p] w5]; cbn in L5 |- *;
    [|by exists 1%nat; split; [lia|]..].
  rewrite grow_delay. destruct (IH (S i) (w5, t) (l ++ [delay i]) L5) as (k & Hk & ->).
  exists (S k). split; [lia|]. cbn. by rewrite <- app_assoc.
Qed.
End Backoff.

(** The reconnect delays of the listener are exactly 1, 2, 4, 8, 16 and
    from then on 30 seconds, counted from process start: a connection that
    worked for any number of notifications does not reset them. *)
Theorem listener_backoff {E : Type} `{Env E, Listening E} (channel : string) (waited : E -> list Z)
    (n m : nat) (w : World E) (wake : bool) :
  LoggedWaits waited -> exists k, (k <= n)%nat /\
  waited (w_ext (Listener_Run channel n m (w, wake)).2.1) =
    waited (w_ext w) ++ ((fun i => Z.min (2 ^ Z.of_nat i * 1000000000) 30000000000) <$> seq 0 k).
Proof.
  intros Hl. unfold Listener_Run. replace initialBackoff with (delay 0) by reflexivity.
  destruct (loop_log channel waited n m 0 (w, wake) (waited (w_ext w)) eq_refl) as (k & Hk & Hw).
  exists k. split; [exact Hk|]. rewrite Hw. reflexivity.
Qed.

(** The last notification of a connection leaves a token for the publisher. *)
Lemma runOnce_leaves_token {E : Type} `{Env E, Listening E} channel m (s s' : NS E) :
  runOnce channel (S m) s = (Ok tt, s') -> s'.2 = true.
Proof.
  assert (Hloop : forall k (t t' : NS E), waitLoop k t = (Ok tt, t') -> (k = 0%nat /\ t' = t) \/ t'.2 = true).
  { induction k as [|k IH]; intros t t'; cbn; [intros [= <-]; by left|]. unfold bind, wrapf.
    destruct (WaitForNotification t) as [[[]|e|p] [w1 b1]]; [|done..]. cbn.
    intros [[_ ->]|Ht]%IH; [by right|by right]. }
  unfold runOnce, bind, wrapf, deferred, nlift. destruct s as [w t].
  destruct (Acquire w) as [[[]|e|p] w1]; [|done..]. destruct (ListenExec _ w1) as [[[]|e|p] w2].
  - destruct (waitLoop (S m) (w2, t)) as [r [w3 t3]] eqn:El. destruct (Release w3) as [[] w4]; intros [= -> <-];
      by apply Hloop in El as [[? _]|?].
  - destruct (Release w2) as [[] ?]; done.
  - destruct (Release w2) as [[] ?]; done.
Qed.

Module NotifyWitness.
(** a broken link: every LISTEN fails; the external state is the log of waits *)
#[export] Instance env : Env (list Z) := {|
  env_wait d := fun w => (Ok tt, mkWorld (w_db w) (w_metrics w) (w_ext w ++ [d]));
  ctx_Err := ret tt; time_Now := ret {| sec := 0; nsec := 0 |};
  env_db := ret tt;
  env_has := ret tt; env_tx e := (None, e); env_commit e := (Committed, e); db_now _ := 0 |}.
#[export] Instance link : Listening (list Z) := {|
  Acquire := ret tt; Release := ret tt; ListenExec _ := fail (ErrSentinel ConnReset);
  WaitForNotification := ret tt |}.
Definition w0 : World (list Z) := mkWorld Quiet.emptyDB ∅ [].

Lemma listener_backoff_witness : exists k, (k <= 7)%nat /\
  w_ext (Listener_Run "deposits" 7 0 (w0, false)).2.1 =
    [] ++ ((fun i => Z.min (2 ^ Z.of_nat i * 1000000000) 30000000000) <$> seq 0 k) /\
  w_ext (Listener_Run "deposits" 7 0 (w0, false)).2.1 =
    (fun s => s * 1000000000) <$> [1; 2; 4; 8; 16; 30; 30].
Proof.
  destruct (listener_backoff "deposits" (fun l => l) 7 0 w0 false) as (k & Hk & Hl); [by split|].
  exists k. split; [exact Hk|]. split; [exact Hl|]. vm_compute. reflexivity.
Defined.
End NotifyWitness.
