(* ===== verification/Config.v ===== *)
(** * Environment configuration ([internal/config/config.go])

    The configuration record, the tags of its fields, and how a failure of
    the parser becomes the [ConfigError] [main] reports.  The parser itself
    ([github.com/caarlos0/env]) is a parameter: [EnvParser] with the documented
    behaviour the code relies on in [EnvParserLaws]. *)
From stdpp Require Import base list sets strings.
From Stdlib Require Import ZArith Lia Ascii String.
From stdpp Require Import base strings.
From S2P Require Import Prelude Decimal Errors Effect.

(** [config.Config]: the environment variables *)
Record EnvConfig := mkEnvConfig {
  DatabaseURL : string; WSTarget : string;
  RPCMaxRetries : Z; RPCRetryBaseDelayMs : Z; env_MaxBlocksPerPoll : Z; env_BlockDelayMs : Z;
  env_ReconnectIntervalMs : Z; env_DrainTimeoutMs : Z; ManagerPollIntervalMs : Z;
  HTTPAddr : string; BufferStatsIntervalS : Z;
  PublisherRequireACK : bool; PublisherACKTimeoutMs : Z; PublisherMaxInFlight : Z;
  AuditEnabled : bool; AuditIntervalS : Z; AuditWindowBlocks : Z; AuditSafetyMargin : Z;
  AuditSamplesPerCycle : Z; EERCAuditorPrivateKey : string; LogLevel : string
}.

(** the envDefault tags; the two required variables are given *)
Definition envDefaults (db ws : string) : EnvConfig :=
  mkEnvConfig db ws 5 1000 50 100 3000 5000 300000 ":8080" 15 false 30000 100 true 3600 1000 50 5 "" "warn".

(** the [env] tag of every field, by the field's Go name, in order *)
Definition configFields : list (string * string) :=
  [("DatabaseURL", "DATABASE_URL,required"); ("WSTarget", "WS_TARGET,required");
   ("RPCMaxRetries", "RPC_MAX_RETRIES"); ("RPCRetryBaseDelayMs", "RPC_RETRY_BASE_DELAY_MS");
   ("MaxBlocksPerPoll", "MAX_BLOCKS_PER_POLL"); ("BlockDelayMs", "BLOCK_DELAY_MS");
   ("ReconnectIntervalMs", "RECONNECT_INTERVAL_MS"); ("DrainTimeoutMs", "DRAIN_TIMEOUT_MS");
   ("ManagerPollIntervalMs", "MANAGER_POLL_INTERVAL_MS");
   ("HTTPAddr", "HTTP_ADDR"); ("BufferStatsIntervalS", "BUFFER_STATS_INTERVAL_S");
   ("PublisherRequireACK", "PUBLISHER_REQUIRE_ACK"); ("PublisherACKTimeoutMs", "PUBLISHER_ACK_TIMEOUT_MS");
   ("PublisherMaxInFlight", "PUBLISHER_MAX_IN_FLIGHT");
   ("AuditEnabled", "AUDIT_ENABLED"); ("AuditIntervalS", "AUDIT_INTERVAL_S");
   ("AuditWindowBlocks", "AUDIT_WINDOW_BLOCKS"); ("AuditSafetyMargin", "AUDIT_SAFETY_MARGIN");
   ("AuditSamplesPerCycle", "AUDIT_SAMPLES_PER_CYCLE");
   ("EERCAuditorPrivateKey", "EERC_AUDITOR_PRIVATE_KEY"); ("LogLevel", "LOG_LEVEL")].

(** [reflect.TypeOf(Config{}).FieldByName] and the field's tag *)
Definition FieldByName (fieldName : string) : option string :=
  snd <$> find (fun f => String.eqb (fst f) fieldName) configFields.

(** [strings.IndexByte(tag, ',')] and the slice before it *)
Fixpoint before_comma (tag : string) : string :=
  match tag with
  | EmptyString => EmptyString
  | String c rest => if Ascii.eqb c "," then EmptyString else String c (before_comma rest)
  end.

Definition envTagOf (fieldName : string) : string :=
  match FieldByName fieldName with
  | None => fieldName
  | Some tag => let tag := before_comma tag in if String.eqb tag "" then fieldName else tag
  end.

(** ** The parser *)

(** the errors [env.Parse] returns; [AggregateError] unwraps to its parts *)
Inductive envError :=
| VarIsNotSetError (Key : string)
| ParseError (Name : string) (Err : goerr)
| OtherEnvError (msg : string)
| AggregateError (Errors : list envError).

(** [errors.As]: the first match, depth first *)
Fixpoint As_NotSet (e : envError) : option string :=
  match e with
  | VarIsNotSetError k => Some k
  | AggregateError es =>
      (fix go (es : list envError) : option string :=
         match es with
         | [] => None
         | e :: es' => match As_NotSet e with Some k => Some k | None => go es' end
         end) es
  | _ => None
  end.
Fixpoint As_Parse (e : envError) : option (string * goerr) :=
  match e with
  | ParseError n err => Some (n, err)
  | AggregateError es =>
      (fix go (es : list envError) : option (string * goerr) :=
         match es with
         | [] => None
         | e :: es' => match As_Parse e with Some r => Some r | None => go es' end
         end) es
  | _ => None
  end.

(** the process environment: a variable may be unset *)
Definition environ : Type := string -> option string.

Class EnvParser := {
  env_Parse : environ -> EnvConfig + envError;
  env_Error : envError -> string (* err.Error() *)
}.

Definition toConfigError `{EnvParser} (err : envError) : goerr :=
  match As_NotSet err with
  | Some key => ConfigError key "required"
  | None =>
      match As_Parse err with
      | Some (name, e) => ConfigError (envTagOf name) (Error e)
      | None => ConfigError "ENV" (env_Error err)
      end
  end.

Definition Load `{EnvParser} (environ : environ) : res EnvConfig :=
  match env_Parse environ with
  | inr err => Err (toConfigError err)
  | inl cfg => Ok cfg
  end.

(** ** Properties *)

(** the variables, and those that must be set *)
Definition variables : list string := (fun f => before_comma (snd f)) <$> configFields.
Definition required : list string := ["DATABASE_URL"; "WS_TARGET"].

(** the parts of an error *)
Fixpoint leaves (e : envError) : list envError :=
  match e with
  | AggregateError es => concat (leaves <$> es)
  | _ => [e]
  end.

Section EnvErrorInd.
Variable P : envError -> Prop.
Hypothesis Hset : forall k, P (VarIsNotSetError k).
Hypothesis Hparse : forall n err, P (ParseError n err).
Hypothesis Hother : forall m, P (OtherEnvError m).
Hypothesis Hagg : forall es, Forall P es -> P (AggregateError es).
Fixpoint envError_tree_ind (e : envError) : P e :=
  match e with
  | VarIsNotSetError k => Hset k
  | ParseError n err => Hparse n err
  | OtherEnvError m => Hother m
  | AggregateError es => Hagg es
      ((fix go (l : list envError) : Forall P l :=
          match l with
          | [] => Forall_nil_2 P
          | x :: l' => Forall_cons_2 P x l' (envError_tree_ind x) (go l')
          end) es)
  end.
End EnvErrorInd.

Lemma As_NotSet_leaves e :
  match As_NotSet e with
  | Some k => VarIsNotSetError k ∈ leaves e
  | None => forall k, VarIsNotSetError k ∉ leaves e
  end.
Proof.
  induction e as [k|n err|m|es IH] using envError_tree_ind; cbn; [set_solver..|].
  induction IH as [|e es He _ IHes]; cbn; [set_solver|].
  destruct (As_NotSet e); [set_solver|]. destruct (_ es); set_solver.
Qed.

Lemma As_Parse_leaves e :
  match As_Parse e with
  | Some (n, err) => ParseError n err ∈ leaves e
  | None => forall n err, ParseError n err ∉ leaves e
  end.
Proof.
  induction e as [k|n err|m|es IH] using envError_tree_ind; cbn; [set_solver..|].
  induction IH as [|e es He _ IHes]; cbn; [set_solver|].
  destruct (As_Parse e) as [[]|]; [set_solver|]. destruct (_ es) as [[]|]; set_solver.
Qed.

(** every field's tag names a variable of its own *)
Lemma envTagOf_field n tag : (n, tag) ∈ configFields -> envTagOf n = before_comma tag /\ envTagOf n ∈ variables.
Proof.
  intros Hin. assert (Forall (fun f => envTagOf f.1 = before_comma f.2) configFields) as Ht.
  { repeat (constructor; [reflexivity|]). constructor. }
  rewrite Forall_forall in Ht. specialize (Ht _ Hin). cbn in Ht. split; [done|].
  rewrite Ht. unfold variables. apply list_elem_of_fmap. by exists (n, tag).
Qed.

(** the documented behaviour of the parser: every missing required variable
    and every unparsable one is reported, among the parts of one error *)
Class EnvParserLaws `{EnvParser} : Prop := {
  ep_complete : forall env cfg v, env_Parse env = inl cfg -> v ∈ required -> env v <> None;
  ep_missing : forall env err v, env_Parse env = inr err -> v ∈ required -> env v = None ->
    VarIsNotSetError v ∈ leaves err;
  ep_not_set : forall env err v, env_Parse env = inr err -> VarIsNotSetError v ∈ leaves err ->
    v ∈ required /\ env v = None;
  ep_field : forall env err n e, env_Parse env = inr err -> ParseError n e ∈ leaves err ->
    exists tag, (n, tag) ∈ configFields
}.

(** C36. A bad environment is reported by the variable's own name.  [Load] succeeds
    only with both required variables set; otherwise its error is always a
    [ConfigError]: when a required variable is missing, it names a missing
    one, whatever else is wrong; when some other variable does not parse, it
    names that variable (not the Go field) with the parser's text. *)
Theorem Load_names_the_variable `{EnvParserLaws} (env : environ) :
  match Load env with
  | Ok cfg => env "DATABASE_URL" <> None /\ env "WS_TARGET" <> None
  | Err e => exists key msg, As_Config e = Some (key, msg) /\
      ((exists v, v ∈ required /\ env v = None) -> key ∈ required /\ env key = None /\ msg = "required") /\
      ((forall v, v ∈ required -> env v <> None) -> forall err, env_Parse env = inr err ->
         (exists n pe, ParseError n pe ∈ leaves err /\ key = envTagOf n /\ key ∈ variables /\ msg = Error pe) \/
         key = "ENV" /\ forall n pe, ParseError n pe ∉ leaves err)
  | Panic _ => False
  end.
Proof.
  unfold Load. destruct (env_Parse env) as [cfg|err] eqn:Hp.
  { split; eapply ep_complete; [done| |done|]; set_solver. }
  unfold toConfigError. pose proof (As_NotSet_leaves err) as Hn.
  destruct (As_NotSet err) as [k|].
  - destruct (ep_not_set _ _ _ Hp Hn) as [Hr Hk]. exists k, "required". split_and!; [done..|].
    intros Hall. by apply Hall in Hr.
  - pose proof (As_Parse_leaves err) as Ha. destruct (As_Parse err) as [[n e]|]; eexists _, _; (split; [done|]);
      (split; [intros (v & Hv & Hm); by apply (ep_missing _ _ _ Hp Hv) in Hm; apply Hn in Hm|]);
      intros _ err' [= <-].
    + left. exists n, e. destruct (ep_field _ _ _ _ Hp Ha) as [tag Htag].
      by destruct (envTagOf_field n tag Htag) as [_ Hv].
    + by right.
Qed.

Module ConfigWitness.
(** a parser that reports the first unset required variable and a
    non-numeric RPC_MAX_RETRIES *)
Definition missing (env : environ) : list envError :=
  VarIsNotSetError <$> filter (fun v => env v = None) required.
Definition bad (env : environ) : list envError :=
  match env "RPC_MAX_RETRIES" with
  | Some v => if String.eqb v "abc" then [ParseError "RPCMaxRetries" (ErrNew "invalid syntax")] else []
  | None => []
  end.
Definition parse (env : environ) : EnvConfig + envError :=
  match bad env ++ missing env with
  | [] => inl (envDefaults (default "" (env "DATABASE_URL")) (default "" (env "WS_TARGET")))
  | es => inr (AggregateError es)
  end.
#[export] Instance parser : EnvParser := {| env_Parse := parse; env_Error _ := "env: " |}.

Lemma leaf_list es : Forall (fun e => leaves e = [e]) es -> leaves (AggregateError es) = es.
Proof. cbn. induction 1 as [|e es He _ IH]; [done|]. cbn. by rewrite He, IH. Qed.
Lemma missing_leaves env : Forall (fun e => leaves e = [e]) (bad env ++ missing env).
Proof.
  apply Forall_app. split.
  - unfold bad. destruct (env _) as [v|]; [|constructor]. destruct (String.eqb v "abc"); by repeat constructor.
  - apply Forall_fmap, Forall_forall. by intros x _.
Qed.
Lemma bad_only env k : VarIsNotSetError k ∉ bad env.
Proof. unfold bad. destruct (env _) as [v|]; [destruct (String.eqb v "abc")|]; set_solver. Qed.
Lemma missing_elem env k : VarIsNotSetError k ∈ missing env <-> k ∈ required /\ env k = None.
Proof. unfold missing. rewrite list_elem_of_fmap. setoid_rewrite list_elem_of_filter. naive_solver. Qed.

#[export] Instance laws : EnvParserLaws.
Proof.
  assert (forall env err, env_Parse env = inr err -> leaves err = bad env ++ missing env) as Hl.
  { intros env err. unfold env_Parse, parser, parse. destruct (bad env ++ missing env) as [|e es] eqn:He; [done|]. intros [= <-].
    rewrite <- He. apply leaf_list, missing_leaves. }
  split.
  - intros env cfg v. unfold env_Parse, parser, parse. destruct (bad env ++ missing env) eqn:He; [|done]. intros _ Hv Hn.
    apply app_nil in He as [_ He]. pose proof (proj2 (missing_elem env v) (conj Hv Hn)) as Hin.
    rewrite He in Hin. by apply not_elem_of_nil in Hin.
  - intros env err v Hp Hv Hn. rewrite (Hl _ _ Hp). apply elem_of_app. right. by apply missing_elem.
  - intros env err v Hp. rewrite (Hl _ _ Hp), elem_of_app. intros [Hb|Hm]; [by apply bad_only in Hb|by apply missing_elem].
  - intros env err n e Hp. rewrite (Hl _ _ Hp), elem_of_app. unfold bad, missing. intros [Hb|Hm].
    + exists "RPC_MAX_RETRIES". destruct (env _) as [v|]; [destruct (String.eqb v "abc")|]; [|set_solver..].
      apply list_elem_of_singleton in Hb. injection Hb as -> ->. set_solver.
    + by apply list_elem_of_fmap in Hm as (? & ? & _).
Qed.

(** both a missing and an unparsable variable: the missing one is named *)
Definition env1 : environ := fun v =>
  if String.eqb v "DATABASE_URL" then Some "postgres://x"
  else if String.eqb v "RPC_MAX_RETRIES" then Some "abc" else None.
Definition env2 : environ := fun v => if String.eqb v "WS_TARGET" then Some "ws://x" else env1 v.

Lemma Load_names_the_variable_witness :
  Load env1 = Err (ConfigError "WS_TARGET" "required") /\
  Load env2 = Err (ConfigError "RPC_MAX_RETRIES" "invalid syntax") /\
  exists key msg, As_Config (ConfigError "WS_TARGET" "required") = Some (key, msg) /\ env1 key = None.
Proof.
  split; [reflexivity|]. split; [reflexivity|].
  destruct (Load_names_the_variable env1) as (key & msg & Hc & Hr & _). exists key, msg. split; [exact Hc|].
  apply Hr. exists "WS_TARGET". split; [right; left|reflexivity].
Defined.
End ConfigWitness.
