(* ===== verification/Logger.v ===== *)
(** * Structured logging ([internal/common/logger/logger.go])

    The logger [main] creates before the configuration is read: its level,
    its handler and its base attributes, from the environment.  What is
    logged where is not modelled; which records pass the level is. *)
From stdpp Require Import base list strings.
From Stdlib Require Import ZArith Lia Ascii String.
From stdpp Require Import base strings.
From S2P Require Import Prelude Decimal Decoder Config.

(** ** [log/slog] levels *)
Definition LevelDebug : Z := -4.
Definition LevelInfo : Z := 0.
Definition LevelWarn : Z := 4.
Definition LevelError : Z := 8.

(** [Level.String()]: the name of the level below, and the distance to it *)
Definition Level_String (l : Z) : string :=
  let str base val :=
    if val =? 0 then base else base +:+ (if 0 <? val then "+" else "") +:+ dec val in
  if l <? LevelInfo then str "DEBUG" (l - LevelDebug)
  else if l <? LevelWarn then str "INFO" (l - LevelInfo)
  else if l <? LevelError then str "WARN" (l - LevelWarn)
  else str "ERROR" (l - LevelError).

(** attribute values, as far as the code looks at them *)
Inductive attrValue := LevelValue (l : Z) | StringValue (s : string) | OtherValue.
Record Attr := mkAttr { a_Key : string; a_Value : attrValue }.
Definition LevelKey : string := "level".

(** ** The factory *)

Definition parseLevel (s : string) : Z :=
  let s := to_lower (TrimSpace s) in
  if String.eqb s "debug" then LevelDebug
  else if String.eqb s "info" then LevelInfo
  else if String.eqb s "error" then LevelError
  else LevelWarn.

Definition lowercaseLevel (a : Attr) : Attr :=
  if String.eqb (a_Key a) LevelKey then
    match a_Value a with
    | LevelValue lv => mkAttr (a_Key a) (StringValue (to_lower (Level_String lv)))
    | _ => a
    end
  else a.

Inductive handler := TextHandler | JSONHandler.
Record Logger := mkLogger { l_handler : handler; l_level : Z; l_attrs : list (string * string) }.

(** [os.Getenv]: the empty string when unset *)
Definition Getenv (env : environ) (k : string) : string := default "" (env k).

Definition New (env : environ) (module : string) : Logger :=
  let h := if String.eqb (TrimSpace (Getenv env "LOG_PRETTY")) "true" then TextHandler else JSONHandler in
  let log := mkLogger h (parseLevel (Getenv env "LOG_LEVEL")) [("module", module)] in
  let chainID := TrimSpace (Getenv env "CHAIN_ID") in
  if String.eqb chainID "" then log
  else mkLogger (l_handler log) (l_level log) (l_attrs log ++ [("chainId", chainID)]).

(** [Handler.Enabled], and the level attribute of a record that passes *)
Definition Enabled (log : Logger) (level : Z) : bool := l_level log <=? level.
Definition levelAttr (level : Z) : Attr := lowercaseLevel (mkAttr LevelKey (LevelValue level)).

(** ** Properties *)

(** The four level names work in any case and with surrounding space,
    anything else is the default; errors are always logged; the level a record
    shows is lower case, and reading that text back gives the level. *)
Theorem logger_levels (env : environ) (module : string) :
  let log := New env module in
  (env "LOG_LEVEL" = None -> l_level log = parseLevel (LogLevel (envDefaults "" ""))) /\
  Enabled log LevelError = true /\
  (forall l, Enabled log l = true <-> parseLevel (Getenv env "LOG_LEVEL") <= l) /\
  (forall l, l ∈ [LevelDebug; LevelInfo; LevelWarn; LevelError] ->
     exists text, levelAttr l = mkAttr LevelKey (StringValue text) /\ to_lower text = text /\
       forall s, to_lower (TrimSpace s) = text -> parseLevel s = l).
Proof.
  cbv zeta. assert (l_level (New env module) = parseLevel (Getenv env "LOG_LEVEL")) as Hl.
  { unfold New. by destruct (String.eqb _ ""). }
  split_and!.
  - intros Hn. rewrite Hl. unfold Getenv. by rewrite Hn.
  - unfold Enabled. rewrite Hl. unfold parseLevel. by repeat destruct (String.eqb _ _).
  - intros l. unfold Enabled. rewrite Hl. apply Z.leb_le.
  - intros l Hin. exists (to_lower (Level_String l)). split; [done|]. split; [apply to_lower_idemp|].
    intros s Hs. unfold parseLevel. rewrite Hs.
    repeat (apply elem_of_cons in Hin as [->|Hin]; [reflexivity|]). by apply not_elem_of_nil in Hin.
Qed.
