(* ===== verification/Shutdown.v ===== *)
(** * Signals ([internal/common/shutdown/shutdown.go])

    [WithSignals] and the [defer stop()] of [main], on the part of os/signal
    they use: which signals are caught, what a caught signal does to the
    context, and the default action of the others. *)
From stdpp Require Import base list sets.
From S2P Require Import Prelude.

(** ** os/signal *)

(** signals whose default action ends a Go program *)
Inductive osSignal := SIGHUP | SIGINT | SIGQUIT | SIGTERM.
#[export] Instance osSignal_eq_dec : EqDecision osSignal.
Proof. solve_decision. Defined.

(** the caught signals, whether the context is done, the signal that ended
    the program by its default action *)
Record sigState := mkSig { caught : list osSignal; ctxDone : bool; killedBy : option osSignal }.

(** the state of a program that never called package signal; the background
    context is never done *)
Definition Background : sigState := mkSig [] false None.

(** a signal arrives: [NotifyContext]'s context is done when one of the
    listed signals arrives; later ones do not trigger the default action *)
Definition deliver (g : osSignal) (s : sigState) : sigState :=
  match killedBy s with
  | Some _ => s
  | None =>
      if bool_decide (g ∈ caught s) then mkSig (caught s) true None
      else mkSig (caught s) (ctxDone s) (Some g)
  end.

(** [signal.NotifyContext] on a background context *)
Definition NotifyContext (sigs : list osSignal) (s : sigState) : sigState :=
  mkSig sigs (ctxDone s) (killedBy s).

(** ** Package shutdown *)

Definition WithSignals (s : sigState) : sigState := NotifyContext [SIGINT; SIGTERM] s.

(** the function it returns, deferred by [main]: unregisters, ends the context *)
Definition stop (s : sigState) : sigState := mkSig [] true (killedBy s).

(** ** Properties *)

Definition arrive (gs : list osSignal) (s : sigState) : sigState := foldl (fun s g => deliver g s) s gs.

Lemma arrive_killed gs s g : killedBy s = Some g -> arrive gs s = s.
Proof.
  revert s. induction gs as [|h gs IH]; intros s Hs; [done|].
  change (arrive gs (deliver h s) = s). unfold deliver. rewrite Hs. by apply IH.
Qed.

(** while the signals are caught, any number of them leaves the program
    running with its context done *)
Lemma arrive_caught gs s :
  killedBy s = None -> (forall g, g ∈ gs -> g ∈ caught s) ->
  arrive gs s = mkSig (caught s) (ctxDone s || negb (bool_decide (gs = []))) None.
Proof.
  revert s. induction gs as [|g gs IH]; intros [c d k] Hk Hc; cbn [caught ctxDone killedBy] in *; subst k.
  - cbn. by rewrite orb_false_r.
  - change (arrive gs (deliver g (mkSig c d None)) = mkSig c (d || true) None). unfold deliver. cbn [caught ctxDone killedBy].
    rewrite bool_decide_eq_true_2 by (apply Hc; left).
    rewrite IH; cbn; [by rewrite orb_true_r|done|intros h Hh; apply Hc; by right].
Qed.

(** the default action of the first signal that is not caught *)
Lemma arrive_default gs s g :
  killedBy s = None -> g ∉ caught s -> (forall h, h ∈ gs -> h ∈ caught s) ->
  forall rest, killedBy (arrive (gs ++ g :: rest) s) = Some g.
Proof.
  intros Hk Hg Hgs rest. unfold arrive. rewrite foldl_app. fold (arrive gs s).
  rewrite (arrive_caught gs s Hk Hgs).
  change (foldl _ ?x (g :: rest)) with (arrive rest (deliver g x)). unfold deliver. cbn.
  rewrite bool_decide_eq_false_2 by done. by rewrite (arrive_killed rest _ g).
Qed.

(** Signals: from [WithSignals] to [stop] the context is done after the
    first SIGINT or SIGTERM and not before, and no number of further ones
    ends the program; SIGHUP and SIGQUIT end it without a shutdown; after
    [stop] the context is done and SIGINT ends the program again. *)
Theorem shutdown_signals (gs : list osSignal) (h : osSignal) :
  (forall g, g ∈ gs -> g = SIGINT \/ g = SIGTERM) -> h = SIGHUP \/ h = SIGQUIT ->
  let s := WithSignals Background in
  let s1 := arrive gs s in
  (ctxDone s1 = true <-> gs <> []) /\ killedBy s1 = None /\
  killedBy (arrive (gs ++ [h]) s) = Some h /\
  ctxDone (stop s1) = true /\ killedBy (deliver SIGINT (stop s1)) = Some SIGINT.
Proof.
  intros Hgs Hh s s1.
  assert (forall g, g ∈ gs -> g ∈ caught s) as Hc.
  { intros g Hg. cbn. destruct (Hgs g Hg) as [->| ->]; set_solver. }
  assert (s1 = mkSig (caught s) (negb (bool_decide (gs = []))) None) as Hs1 by (by apply arrive_caught).
  rewrite Hs1. cbn. split_and!; try done.
  - rewrite negb_true_iff, bool_decide_eq_false. done.
  - apply arrive_default; [done| |done]. cbn. destruct Hh as [->| ->]; set_solver.
Qed.

(** an operator who presses Ctrl-C twice during a slow shutdown *)
Lemma second_signal_ignored :
  arrive [SIGINT; SIGINT] (WithSignals Background) = arrive [SIGINT] (WithSignals Background) /\
  killedBy (arrive [SIGINT; SIGINT] (WithSignals Background)) = None.
Proof. split; reflexivity. Qed.

Lemma shutdown_signals_witness :
  killedBy (arrive [SIGTERM; SIGINT] (WithSignals Background)) = None.
Proof.
  apply (shutdown_signals [SIGTERM; SIGINT] SIGHUP); [|by left].
  intros g Hg. apply elem_of_cons in Hg as [->|Hg]; [by right|]. apply elem_of_cons in Hg as [->|Hg]; [by left|].
  by apply not_elem_of_nil in Hg.
Defined.
