(* ===== verification/HttpServer.v ===== *)
(** * HTTP server and readiness ([internal/httpserver/server.go], [readyMarkingSource] of [cmd/listener/main.go])

    The probes, the routing of [http.ServeMux] for the patterns registered,
    the server's end, and the flag that the supervisor's chain source sets.
    The /metrics and pprof handlers are libraries: a parameter. *)
From stdpp Require Import base gmap list strings.
From Stdlib Require Import ZArith Lia Ascii String.
From stdpp Require Import base strings.
From S2P Require Import Prelude Errors Effect Metrics Store BufferRepo Supervisor Repos.

(** ** Server *)

(** the server's flag and the [sync.Once] of the source that sets it *)
Record Readiness := mkReady { ready : bool; once : bool }.
Record response := mkResp { StatusCode : Z; Body : string }.
Definition HS (E : Type) : Type := World E * Readiness.
Definition hlift {E A} (m : M (World E) A) : M (HS E) A := fun '(w, t) =>
  let '(r, w') := m w in (r, (w', t)).

(** [Pinger], and the server's own life: [None] when the context ends, the
    error of ListenAndServe otherwise; [Shutdown] *)
Class HttpEnv (E : Type) := {
  Ping : M (World E) unit;
  http_select : M (World E) (option goerr);
  Shutdown : M (World E) unit
}.

Section Http.
Context {E : Type} `{Env E, HttpEnv E, ChainSource E}.

(** [New]: the zero flag *)
Definition NewServer : Readiness := mkReady false false.

Definition MarkReady : M (HS E) unit := modify (fun s => (s.1, mkReady true (once s.2))).

(** [http.Error] ends the text with a newline *)
Definition httpError (code : Z) (text : string) : M (HS E) response :=
  ret (mkResp code (text +:+ String (ascii_of_nat 10) "")).

Definition healthz : M (HS E) response := ret (mkResp 200 "ok").

Definition readyz : M (HS E) response :=
  let* r := gets (fun s => ready s.2) in
  if (r : bool) then
    let* p := attempt (hlift Ping) in
    match p with
    | inr err => httpError 503 ("db ping failed: " +:+ Error err)
    | inl _ => ret (mkResp 200 "ready")
    end
  else httpError 503 "not ready: initial reconcile not done".

Definition Server_Run : M (HS E) unit :=
  let* ev := hlift http_select in
  match ev with
  | None => attempt (hlift Shutdown) ;;; fail (ErrSentinel Canceled)
  | Some err => fail (Errorf "http server" err)
  end.

(** *** Routing *)

(** the handlers [Run] registers *)
Inductive endpoint := Healthz | Readyz | MetricsHandler | Pprof (handler : string).
Definition patterns : list (string * endpoint) :=
  [("/healthz", Healthz); ("/readyz", Readyz); ("/metrics", MetricsHandler);
   ("/debug/pprof/", Pprof "Index"); ("/debug/pprof/cmdline", Pprof "Cmdline");
   ("/debug/pprof/profile", Pprof "Profile"); ("/debug/pprof/symbol", Pprof "Symbol");
   ("/debug/pprof/trace", Pprof "Trace")].

(** a pattern that ends in a slash stands for the tree below it *)
Definition subtree (pattern : string) : bool :=
  match String.get (String.length pattern - 1) pattern with
  | Some c => Ascii.eqb c "/"
  | None => false
  end.
Definition pattern_matches (path pattern : string) : bool :=
  if subtree pattern then String.prefix pattern path else String.eqb pattern path.

(** the longest matching pattern *)
Definition longest (best : option (string * endpoint)) (p : string * endpoint) : option (string * endpoint) :=
  match best with
  | Some q => if (String.length q.1 <? String.length p.1)%nat then Some p else best
  | None => Some p
  end.
Definition route (path : string) : option endpoint :=
  snd <$> foldl longest None (filter (fun p => pattern_matches path p.1 = true) patterns).

(** handlers of promhttp and pprof *)
Class LibraryHandlers := { lib_serve : endpoint -> M (World E) response }.

(** a request whose path is in canonical form; the mux sends a request for
    the root of a subtree without its slash there *)
Definition serve `{LibraryHandlers} (path : string) : M (HS E) response :=
  match route path with
  | Some Healthz => healthz
  | Some Readyz => readyz
  | Some h => hlift (lib_serve h)
  | None =>
      if existsb (fun p => subtree p.1 && String.eqb (path +:+ "/") p.1) patterns
      then ret (mkResp 301 "")
      else httpError 404 "404 page not found"
  end.

(** *** The source of the supervisor *)

(** [readyMarkingSource.ActiveChains] with [once.Do(MarkReady)] *)
Definition readyActiveChains : M (HS E) (list ChainInfo) :=
  let* out := hlift src_ActiveChains in
  let* o := gets (fun s => once s.2) in
  (if (o : bool) then ret tt
   else MarkReady ;;; modify (fun s => (s.1, mkReady (ready s.2) true))) ;;;
  ret out.
End Http.

(** ** Properties *)

(** the database answers the ping *)
Definition pings {E : Type} `{HttpEnv E} (w : World E) : bool :=
  match (Ping w).1 with Ok _ => true | _ => false end.

(** The requests and reads of a process, in any order. *)
Section History.
Context {E : Type} `{Env E, HttpEnv E, ChainSource E, !LibraryHandlers (E := E)}.

Inductive http_op :=
| Request (path : string)   (* any client *)
| ReadChains                (* the supervisor's reconcile *)
| Elsewhere (f : World E -> World E).   (* the rest of the process *)

(** the state after an operation, and whether it was a successful read *)
Definition http_do (s : HS E) (op : http_op) : HS E * bool :=
  match op with
  | Request path => ((serve path s).2, false)
  | ReadChains => let r := readyActiveChains s in (r.2, match r.1 with Ok _ => true | _ => false end)
  | Elsewhere f => ((f s.1, s.2), false)
  end.
Fixpoint http_run (ops : list http_op) (s : HS E) : HS E * bool :=
  match ops with
  | [] => (s, false)
  | op :: rest =>
      let '(s1, b1) := http_do s op in
      let '(s2, b2) := http_run rest s1 in (s2, b1 || b2)
  end.

Lemma hlift_keeps {A} (m : M (World E) A) s : (hlift m s).2.2 = s.2.
Proof. destruct s as [w t]. unfold hlift. by destruct (m w). Qed.

Lemma serve_keeps path s : (serve path s).2.2 = s.2.
Proof.
  unfold serve. destruct (route path) as [[| | |h]|]; try (by apply hlift_keeps); try done.
  - unfold readyz, bind, gets, attempt. cbn. destruct (ready s.2); [|done].
    pose proof (hlift_keeps Ping s) as Hk. by destruct (hlift Ping s) as [[[]|e|p] s1].
  - by destruct (existsb _ _).
Qed.

(** a read passes its result on and sets the flag when it succeeds *)
Lemma readyActiveChains_effect s :
  once s.2 = ready s.2 ->
  let '(r, w') := src_ActiveChains s.1 in
  exists t, readyActiveChains s = (r, (w', t)) /\ once t = ready t /\
    ready t = match r with Ok _ => true | _ => ready s.2 end.
Proof.
  destruct s as [w [r o]]. cbn. intros ->.
  unfold readyActiveChains, bind, gets, hlift, MarkReady, modify. cbn.
  destruct (src_ActiveChains w) as [[out|e|p] w1]; cbn; [|by eexists..].
  destruct r; cbn; by eexists.
Qed.

Lemma http_do_flag s op : once s.2 = ready s.2 ->
  let '(s1, b) := http_do s op in once s1.2 = ready s1.2 /\ ready s1.2 = ready s.2 || b.
Proof.
  intros Hs. destruct op as [path| |f]; cbn.
  - rewrite serve_keeps. by rewrite orb_false_r.
  - pose proof (readyActiveChains_effect s Hs) as He. destruct (src_ActiveChains s.1) as [r w1].
    destruct He as (t & -> & Ht & Hr). cbn. split; [done|]. rewrite Hr.
    destruct r; by rewrite ?orb_true_r, ?orb_false_r.
  - by rewrite orb_false_r.
Qed.

Lemma http_run_flag ops s : once s.2 = ready s.2 ->
  let '(s1, b) := http_run ops s in once s1.2 = ready s1.2 /\ ready s1.2 = ready s.2 || b.
Proof.
  revert s. induction ops as [|op ops IH]; intros s Hs; [cbn; by rewrite orb_false_r|].
  cbn. pose proof (http_do_flag s op Hs) as Hd. destruct (http_do s op) as [s1 b1]. destruct Hd as [Ho Hb].
  specialize (IH s1 Ho). destruct (http_run ops s1) as [s2 b2]. destruct IH as [Ho2 Hb2].
  split; [done|]. by rewrite Hb2, Hb, orb_assoc.
Qed.
End History.
Arguments http_op : clear implicits.

(** Readiness: whatever requests, reads and other activity a process has
    seen, [/readyz] answers 200 exactly when some read of the active chains
    has succeeded and the database answers the ping, 503 otherwise; and
    [/healthz] answers 200 in every state. *)
Theorem readiness {E : Type} `{Env E, HttpEnv E, ChainSource E, !LibraryHandlers (E := E)}
    (ops : list (http_op E)) (w : World E) :
  let '(s, read) := http_run ops (w, NewServer) in
  (forall resp s', serve "/readyz" s = (Ok resp, s') ->
     StatusCode resp = if read && pings s.1 then 200 else 503) /\
  serve "/healthz" s = (Ok (mkResp 200 "ok"), s).
Proof.
  pose proof (http_run_flag ops (w, NewServer) eq_refl) as Hf.
  destruct (http_run ops (w, NewServer)) as [s read]. destruct Hf as [_ Hf]. cbn in Hf. split; [|reflexivity].
  intros resp s'. change (serve "/readyz") with (readyz (E := E)).
  unfold readyz, bind, gets, attempt. cbn. rewrite Hf. destruct read; cbn; [|by intros [= <- <-]].
  destruct s as [w1 t]. unfold hlift, pings. cbn.
  destruct (Ping w1) as [[[]|e|p] w2]; cbn; [by intros [= <- <-]..|done].
Qed.

(** [Run] returns the context's error on shutdown, whatever [Shutdown] gives,
    and any other end as a failure. *)
Lemma Server_Run_end {E : Type} `{Env E, HttpEnv E} (s : HS E) (e : goerr) :
  (Server_Run s).1 = Err e ->
  (http_select s.1).1 = Err e \/
  ((http_select s.1).1 = Ok None /\ e = ErrSentinel Canceled) \/
  (exists err, (http_select s.1).1 = Ok (Some err) /\ e = Errorf "http server" err).
Proof.
  destruct s as [w t]. unfold Server_Run, bind, hlift. cbn.
  destruct (http_select w) as [[[err|]|err|p] w1]; cbn; [naive_solver| |naive_solver|done].
  unfold attempt. cbn. destruct (Shutdown w1) as [[[]|e1|p] w2]; cbn; naive_solver.
Qed.

Module HttpWitness.
Import Quiet.
#[export] Instance http : HttpEnv Z := {| Ping := ret tt; http_select := ret None; Shutdown := ret tt |}.
#[export] Instance source : ChainSource Z := {|
  src_ActiveChains := ret []; src_ChainConfig c := fail (ConfigError "chain" "") |}.
#[export] Instance handlers : LibraryHandlers (E := Z) := {| lib_serve h := ret (mkResp 200 "") |}.

(** a first successful read turns 503 into 200 *)
Lemma readiness_example :
  (StatusCode <$> match (serve "/readyz" (start, NewServer)).1 with Ok r => Some r | _ => None end) = Some 503 /\
  (serve "/readyz" (http_run [Request "/readyz"; ReadChains; Request "/metrics"] (start, NewServer)).1).1 = Ok (mkResp 200 "ready").
Proof. split; reflexivity. Qed.

Lemma route_examples :
  route "/debug/pprof/heap" = Some (Pprof "Index") /\ route "/debug/pprof/trace" = Some (Pprof "Trace") /\
  route "/debug/pprof" = None /\ route "/healthz/x" = None.
Proof. repeat split; reflexivity. Qed.
End HttpWitness.
