(* ===== verification/Service.v ===== *)
(** * Component parameters and buffer monitor ([cmd/listener/main.go])

    How [main] turns the configuration into the components' parameters, and
    the goroutine that reports the buffer's backlog. *)
From stdpp Require Import base gmap list strings.
From Stdlib Require Import ZArith Lia Ascii String.
From stdpp Require Import base strings.
From S2P Require Import Prelude Decimal Errors Effect Retry Time Model Json Metrics Store BufferRepo Scanner Repos Decoder Loop Protocol Publisher Supervisor Auditor ReposProps Config.

Definition bufferPollIntervalMs : Z := 500.
Definition bufferMaxBatchSize : Z := 100.

(** ** What [run] passes on *)

Definition retryOpts (cfg : EnvConfig) : Options :=
  {| MaxRetries := RPCMaxRetries cfg; BaseDelay := i64 (RPCRetryBaseDelayMs cfg * 1000000) |}.

Definition publisherConfig (cfg : EnvConfig) : Publisher.Config :=
  Publisher.New (Publisher.mkConfig (WSTarget cfg) (env_ReconnectIntervalMs cfg) (env_DrainTimeoutMs cfg)
    bufferPollIntervalMs bufferMaxBatchSize 0 0 0
    (PublisherRequireACK cfg) (i64 (PublisherACKTimeoutMs cfg * 1000000)) (PublisherMaxInFlight cfg)).

Definition auditConfig (cfg : EnvConfig) : Auditor.Config :=
  Auditor.New (Auditor.mkConfig (AuditIntervalS cfg) (u64 (AuditWindowBlocks cfg)) (u64 (AuditSafetyMargin cfg))
    (AuditSamplesPerCycle cfg) 0 0).

Definition loopCfgFor (cfg : EnvConfig) (chain : ChainConfig) : LoopConfig :=
  {| MinConfirmations := cc_MinConfirmations chain; MaxBlocksPerPoll := env_MaxBlocksPerPoll cfg;
     BlockDelayMs := env_BlockDelayMs cfg; PollingIntervalMs := cc_PollingIntervalMs chain;
     RetryOptions := retryOpts cfg |}.

(** the eERC decryptor: a key gives [EnvDecryptor], no key [NoopDecryptor] *)
Definition decryptorFor (cfg : EnvConfig) : res Decryptor :=
  if String.eqb (EERCAuditorPrivateKey cfg) "" then Ok NoopDecryptor
  else match NewEnvDecryptor (EERCAuditorPrivateKey cfg) with
       | Ok (Some key) => Ok (EnvDecryptor key)
       | Ok None => Ok NoopDecryptor
       | Err e => Err (Errorf "eERC decryptor" e)
       | Panic p => Panic p
       end.

Definition decodersForChain `{Eth} (chainType : string) (decryptor : Decryptor) : DecoderRegistry :=
  if String.eqb chainType "eerc20" then Register (EERC (Some decryptor)) NewRegistry
  else Register StandardERC20 NewRegistry.

(** ** Buffer monitor *)
Section Monitor.
Context {E : Type} `{Env E}.

(** the closure [update]; the age gauge is kept in microseconds *)
Definition update : M (World E) unit :=
  let* st := attempt Buffer_Stats in
  match st with
  | inr _ => ret tt
  | inl st =>
      emit (mset BufferPendingTotal [] (PendingCount st)) ;;;
      emit (mset BufferOldestAgeSeconds [] (OldestAgeMicros st))
  end.

Fixpoint monitorTicks (n : nat) (intervalNs : Z) : M (World E) unit :=
  match n with
  | O => ret tt
  | S n' => env_wait intervalNs ;;; update ;;; monitorTicks n' intervalNs
  end.

(** [n] ticks *)
Definition runBufferMonitor (n : nat) (intervalSec : Z) : M (World E) unit :=
  let intervalSec := if intervalSec <=? 0 then 15 else intervalSec in
  newTicker (i64 (intervalSec * 1000000000)) ;;;
  update ;;;
  monitorTicks n (i64 (intervalSec * 1000000000)).
End Monitor.

(** ** Properties *)

(** a duration of whole milliseconds never wraps to fewer than 64 ns *)
Lemma ms_duration a : 0 < i64 (a * 1000000) -> 64 <= i64 (a * 1000000).
Proof.
  intros Hpos. assert (Hm : i64 (a * 1000000) mod 64 = 0).
  { unfold i64, two63, two64.
    rewrite (Z.mod_eq (a * 1000000 + 9223372036854775808) 18446744073709551616) by lia.
    replace (_ - _) with ((a * 15625 - 288230376151711744 *
      ((a * 1000000 + 9223372036854775808) / 18446744073709551616)) * 64) by lia.
    apply Z.mod_mul. lia. }
  pose proof (Z.div_mod (i64 (a * 1000000)) 64 ltac:(lia)) as Hd. rewrite Hm in Hd. nia.
Qed.

(** No ticker of the scanner loops or of the publisher can panic: for every
    environment configuration, and every chain row with a 32-bit block time,
    the intervals [main] wires are positive durations. *)
Theorem wired_tickers_positive (cfg : EnvConfig) (chain : ChainConfig) (blockTime : Z) :
  is_i32 blockTime -> cc_PollingIntervalMs chain = pollingInterval blockTime ->
  let p := publisherConfig cfg in
  0 < i64 (PollingIntervalMs (loopCfgFor cfg chain) * 1000000) /\
  0 < i64 (PingInterval p) /\ 0 < i64 (Publisher.PollIntervalMs p * 1000000) /\
  0 < i64 (Z.quot (ACKTimeout p) 3).
Proof.
  intros Hb Hc p. cbn. rewrite Hc. split_and!; [|reflexivity|reflexivity|].
  - destruct (pollingInterval_bounds blockTime Hb). rewrite i64_small; width.
  - set (a := i64 (PublisherACKTimeoutMs cfg * 1000000)).
    pose proof (i64_range (PublisherACKTimeoutMs cfg * 1000000)) as Hr.
    pose proof (ms_duration (PublisherACKTimeoutMs cfg)) as Hms. fold a in Hr, Hms.
    destruct (Z.leb_spec a 0); [reflexivity|].
    assert (Hq : 0 < Z.quot a 3 <= a).
    { rewrite Z.quot_div_nonneg by lia. split; [apply Z.div_str_pos; lia|]. apply Z.div_le_upper_bound; lia. }
    rewrite i64_small; [lia|]. width.
Qed.

(** the monitor writes nothing but metrics *)
Lemma monitor_keeps {E : Type} `{Env E} (I : World E -> Prop) n sec :
  (forall f, preserves I (emit f)) -> preserves I env_db -> (forall d, preserves I (env_wait d)) ->
  preserves I (runBufferMonitor n sec).
Proof.
  intros Hemit Hdb Hw.
  assert (preserves I update) as Hup.
  { unfold update, Buffer_Stats, query_at.
    eff; auto; apply preserves_attempt, preserves_bind; [by apply preserves_wrapf|by intros _ w]. }
  assert (forall d, preserves I (monitorTicks n d)) as Hticks by (intros d; induction n; cbn [monitorTicks]; eff; auto).
  unfold runBufferMonitor. cbv zeta. apply preserves_bind; [apply preserves_newTicker|]. intros _.
  apply preserves_bind; auto.
Qed.

(** The monitor reports the buffer as it is: after an update on a working
    link the gauges hold the number of pending rows and the age of the
    oldest; when the query fails they keep their last values. *)
Theorem monitor_reports {E : Type} `{Env E} (w w1 : World E) (r : res unit) :
  env_db w = (r, w1) ->
  let w' := (update w).2 in
  let rows := deposit_buffer (w_db w1) in
  w_db w' = w_db w1 /\
  match r with
  | Ok _ =>
      mget (w_metrics w') BufferPendingTotal [] = Z.of_nat (length rows) /\
      (forall row, row ∈ rows ->
         db_now (w_ext w1) - row_created_at row <= mget (w_metrics w') BufferOldestAgeSeconds []) /\
      (rows = [] -> mget (w_metrics w') BufferOldestAgeSeconds [] = 0)
  | _ => w_metrics w' = w_metrics w1
  end.
Proof.
  intros Hdb. cbv zeta. unfold update, Buffer_Stats, query_at, wrapf, attempt, bind. rewrite Hdb.
  destruct r as [[]|e|p]; [|done..]. cbn [fst snd w_db w_metrics emit modify].
  split; [done|]. split_and!.
  - cbn. rewrite mget_mset_ne by done. by rewrite mget_mset_eq.
  - intros row Hrow. cbn. rewrite mget_mset_eq.
    assert (Hin : db_now (w_ext w1) - row_created_at row ∈
      (fun r => db_now (w_ext w1) - row_created_at r) <$> deposit_buffer (w_db w1)) by (apply list_elem_of_fmap; eauto).
    destruct (_ <$> _) as [|a l]; [by apply not_elem_of_nil in Hin|].
    revert Hin. generalize (db_now (w_ext w1) - row_created_at row). clear. intros x Hx.
    apply elem_of_cons in Hx as [->|Hx]; induction l as [|b l IH]; cbn; try lia.
    + by apply not_elem_of_nil in Hx.
    + apply elem_of_cons in Hx as [->|Hx]; [lia|]. specialize (IH Hx). lia.
  - intros Hrows. cbn. rewrite Hrows. cbn. by rewrite mget_mset_eq.
Qed.

(** Exactly one decoder is registered, by the chain's type. *)
Lemma decodersForChain_exclusive `{Eth} chainType dk t :
  Lookup (decodersForChain chainType dk) t =
    if String.eqb chainType "eerc20"
    then (if decide (t = PrivateTransferTopic) then Some (EERC (Some dk)) else None)
    else (if decide (t = TransferTopic) then Some StandardERC20 else None).
Proof.
  unfold Lookup, decodersForChain. destruct (String.eqb _ _); cbn; case_decide; subst;
    by rewrite ?lookup_insert_eq, ?lookup_insert_ne.
Qed.

Module ServiceWitness.
Import Quiet.
Definition chain1 : ChainConfig := mkChainConfig 1 "" "ETH" 18 12000 4000 12 "erc20" ∅.

Lemma wired_tickers_positive_witness :
  0 < i64 (PollingIntervalMs (loopCfgFor (envDefaults "postgres://db" "ws://adapter") chain1) * 1000000).
Proof.
  apply (wired_tickers_positive (envDefaults "postgres://db" "ws://adapter") chain1 12); [unfold is_i32, two31; lia|reflexivity].
Defined.

Lemma monitor_reports_witness :
  mget (w_metrics (update BufferWitness.two).2) BufferPendingTotal [] = 2.
Proof.
  etrans; [apply (monitor_reports BufferWitness.two BufferWitness.two (Ok tt)); reflexivity|reflexivity].
Defined.
End ServiceWitness.
