(* ===== verification/Process.v ===== *)
(** * The process ([cmd/listener/main.go], [internal/database/pool.go])

    [main] and [run]: start-up in order, the components in one [errgroup],
    the exit code; the builders that dial a chain's node for the supervisor
    and the auditor; the life of the database pool and of a chain's RPC
    client.  [errgroup], [pgxpool] and [rpc] are libraries: parameters, with
    what their documentation promises as laws. *)
From stdpp Require Import base gmap list sets strings relations.
From Stdlib Require Import ZArith Lia Ascii String.
From stdpp Require Import base strings.
From S2P Require Import Prelude Decimal Errors Effect Retry Time Model Json Metrics Store BufferRepo Spec Scanner Repos Decoder LogScanner LogScannerProps Loop TraceScanner TraceEnd Protocol Publisher Supervisor SupervisorProps Auditor Notify ReposProps Config HttpServer Service.

(** ** Libraries *)

(** [pgxpool.New] and [pool.Close]; [Ping] is in [HttpEnv] *)
Class PgxPool (E : Type) := {
  pgxpool_New : string -> M (World E) unit;
  pool_Close : M (World E) unit
}.

(** [rpc.DialContext] and [client.Close] *)
Class RpcDialer (E : Type) := {
  rpc_Dial : string -> M (World E) unit;
  rpc_Close : M (World E) unit
}.

(** [errgroup.WithContext]: a group, one of its functions returned, whether
    the group's context is cancelled, what [Wait] returns *)
Class Errgroup := {
  group : Type;
  WithContext : group;
  g_return : group -> option goerr -> group;
  g_done : group -> bool;
  g_Wait : group -> option goerr
}.
(** "The first call to return a non-nil error cancels the group's context.
    The error will be returned by Wait." *)
Class ErrgroupLaws `{Errgroup} : Prop := {
  eg_new : g_Wait WithContext = None /\ g_done WithContext = false;
  eg_nil g : g_Wait (g_return g None) = g_Wait g /\ g_done (g_return g None) = g_done g;
  eg_err g e : g_done (g_return g (Some e)) = true /\
    g_Wait (g_return g (Some e)) = match g_Wait g with Some first => Some first | None => Some e end
}.

(** ** Builders *)
Section Builders.
Context {E : Type} `{Env E, ETHClient E, TraceCaller E, Eth, Sched E, TraceHost E, RpcDialer E}.
Variables (cfg : EnvConfig) (kcpChainID : Z) (hasKcp : bool) (decryptor : Decryptor).

Definition logScannerFor (chain : ChainConfig) : LogScannerCfg :=
  NewLogScanner chain kcpChainID hasKcp (retryOpts cfg) (Some (decodersForChain (cc_ChainType chain) decryptor)).

(** [newLoopBuilder]: the two loops, each for a number of ticks *)
Definition newLoopBuilder (chain : ChainConfig) : M (World E) ((nat -> M (World E) unit) * (nat -> M (World E) unit)) :=
  wrapf ("dial RPC " +:+ cc_RPCURL chain) (rpc_Dial (cc_RPCURL chain)) ;;;
  let loopCfg := loopCfgFor cfg chain in
  ret (Run (cc_ChainID chain) (LogScanner (logScannerFor chain)) loopCfg,
       Run (cc_ChainID chain) (TraceScannerObj chain (retryOpts cfg)) loopCfg).

(** [newAuditBuilder]: fresh scanners, and the cleanup that closes the client *)
Definition newAuditBuilder (chain : ChainConfig) : M (World E) (Scanner E * Scanner E * M (World E) unit) :=
  wrapf ("dial audit RPC " +:+ cc_RPCURL chain) (rpc_Dial (cc_RPCURL chain)) ;;;
  ret (LogScanner (logScannerFor chain), TraceScannerObj chain (retryOpts cfg), rpc_Close).
End Builders.

(** ** The components *)

(** what [run] builds before it starts them *)
Record wiring := mkWiring {
  wi_cfg : EnvConfig;
  wi_kcp : Z * bool;                    (* kcpID, hasKcp *)
  wi_decryptor : Decryptor;
  wi_channel : string;                  (* notify.New *)
  wi_publisher : Publisher.Config;      (* publisher.New *)
  wi_httpAddr : string;                 (* httpserver.New *)
  wi_shutdownTimeout : Z;
  wi_pollMs : Z;                        (* supervisor.New *)
  wi_statsS : Z;                        (* runBufferMonitor *)
  wi_audit : option Auditor.Config      (* audit.New, when enabled *)
}.

Definition wire (cfg : EnvConfig) (kcp : Z * bool) (decryptor : Decryptor) : wiring :=
  mkWiring cfg kcp decryptor "deposits" (publisherConfig cfg) (HTTPAddr cfg) (5 * 1000000000)
    (ManagerPollIntervalMs cfg) (BufferStatsIntervalS cfg)
    (if AuditEnabled cfg then Some (auditConfig cfg) else None).

(** the goroutines of the group *)
Inductive component := CPublisher | CSupervisor | CHttp | CMonitor | CListener | CAuditor.
#[export] Instance component_eq_dec : EqDecision component.
Proof. solve_decision. Defined.

(** which of the running goroutines returns next, and what; the others go on *)
Class Returns (E : Type) := {
  next_return : wiring -> list component -> M (World E) (component * option goerr)
}.

Section Process.
Context {E : Type} `{Env E, HttpEnv E, PgxPool E, EnvParser, Errgroup, Returns E}.

Definition NewPool (dsn : string) : M (World E) unit :=
  wrapf "pgxpool.New" (pgxpool_New dsn) ;;;
  let* ping := attempt Ping in
  match ping with
  | inr err => pool_Close ;;; fail (Errorf "pgxpool.Ping" err)
  | inl _ => ret tt
  end.

(** the [g.Go] calls, in order *)
Definition components (wi : wiring) : list component :=
  [CPublisher; CSupervisor; CHttp; CMonitor; CListener] ++
  match wi_audit wi with Some _ => [CAuditor] | None => [] end.

(** [g.Wait()]: until [n] goroutines have returned *)
Fixpoint waitAll (wi : wiring) (n : nat) (running : list component) (g : group) : M (World E) (option goerr) :=
  match n with
  | O => ret (g_Wait g)
  | S n' =>
      let* ret_ := next_return wi running in
      waitAll wi n' (filter (fun c => c <> ret_.1) running) (g_return g ret_.2)
  end.

Definition run (env : environ) : M (World E) unit :=
  let* cfg := lift_res (Load env) in
  wrapf "connect Postgres" (NewPool (DatabaseURL cfg)) ;;;
  deferred pool_Close (
    let* kcp := wrapf "read KCP chain ID" KcpChainID in
    let* decryptor := lift_res (decryptorFor cfg) in
    let wi := wire cfg kcp decryptor in
    let* err := waitAll wi (length (components wi)) (components wi) WithContext in
    match err with
    | Some e => if errors_Is e Canceled then ret tt else fail e
    | None => ret tt
    end).

(** what [main] writes before it exits *)
Inductive report :=
| ShutdownComplete
| ConfigErrorExiting (key msg : string)
| ListenerFailed (err : goerr).

(** the exit code and the last log record *)
Definition main (env : environ) : M (World E) (Z * report) :=
  let* r := attempt (run env) in
  match r with
  | inr err =>
      if errors_Is err Canceled then ret (0, ShutdownComplete)
      else match As_Config err with
           | Some (key, msg) => ret (1, ConfigErrorExiting key msg)
           | None => ret (1, ListenerFailed err)
           end
  | inl _ => ret (0, ShutdownComplete)
  end.
End Process.

(** ** A chain's RPC client

    [active] counts the loops still running, [closeOnce] closes the client. *)
Definition i32 (x : Z) : Z := (x + two31) mod (2 * two31) - two31.
Record client := mkClient { active : Z (* atomic.Int32 *); onceDone : bool; closes : nat }.
Definition dialed : client := mkClient 2 false 0.
Definition closeOnce (c : client) : client :=
  if onceDone c then c else mkClient (active c) true (S (closes c)).
(** the deferred function of [wrap], whatever way the loop ended *)
Definition wrapEnd (c : client) : client :=
  let c := mkClient (i32 (active c - 1)) (onceDone c) (closes c) in
  if active c =? 0 then closeOnce c else c.
