(* ===== verification/ProcessProps.v ===== *)
(** * What the process guarantees

    The database pool outlives every component and is closed once; the first
    component to return an error decides how the process ends; only two of
    the components can make it fail; a chain's RPC client is closed once, when
    the last of its loops has ended. *)
From stdpp Require Import base gmap list sets strings relations.
From Stdlib Require Import ZArith Lia Ascii String.
From stdpp Require Import base strings.
From S2P Require Import Prelude Decimal Errors Effect Retry Time Model Json Metrics Store BufferRepo Spec Scanner Repos Decoder LogScanner LogScannerProps Loop TraceScanner TraceEnd Protocol Publisher Supervisor SupervisorProps Auditor Notify ReposProps Config HttpServer Service Process.

(** ** Start-up and shutdown *)

Inductive pool_event := PNew | PClose | PReturn (c : component) (err : option goerr).

Section Lifecycle.
Context {E : Type} `{Env E, HttpEnv E, PgxPool E, EnvParser, ErrgroupLaws, Returns E}.
Variable plog : E -> list pool_event.

Definition logs {A} (m : M (World E) A) (l : res A -> list pool_event) : Prop := forall w,
  plog (w_ext (m w).2) = plog (w_ext w) ++ l (m w).1.
Definition returns_value {A} (r : res A) : Prop := match r with Panic _ => False | _ => True end.

(** The pool and the goroutines log their life, nothing else touches the log;
    a goroutine that returns was running; the calls return. *)
Class LoggedProcess : Prop := {
  lp_new dsn : logs (pgxpool_New dsn) (fun r => match r with Ok _ => [PNew] | _ => [] end);
  lp_close : logs pool_Close (fun _ => [PClose]);
  lp_return wi running : logs (next_return wi running) (fun r => match r with Ok (c, e) => [PReturn c e] | _ => [] end);
  lp_ping : logs Ping (fun _ => []);
  lp_db : logs env_db (fun _ => []);
  lp_running wi running w : running <> [] -> exists c e w', next_return wi running w = (Ok (c, e), w') /\ c ∈ running;
  lp_total_new dsn w : returns_value (pgxpool_New dsn w).1;
  lp_total_ping w : returns_value (Ping w).1;
  lp_total_db w : returns_value (env_db w).1;
  lp_total_close w : (pool_Close w).1 = Ok tt
}.
Context `{!LoggedProcess}.

(** what is known of the errors the components return *)
Variable Q : wiring -> component -> option goerr -> Prop.
Definition returns_in (wi : wiring) : Prop :=
  forall running w c e, (next_return wi running w).1 = Ok (c, e) -> Q wi c e.

(** [Wait] returns the first error *)
Lemma Wait_first rs : forall g, g_Wait (foldl g_return g rs) =
  match g_Wait g with Some e => Some e | None => head (omap id rs) end.
Proof.
  induction rs as [|r rs IH]; intros g; [cbn; by destruct (g_Wait g)|]. cbn [foldl]. rewrite IH.
  destruct r as [e|]; cbn.
  - destruct (eg_err g e) as [_ ->]. by destruct (g_Wait g).
  - by destruct (eg_nil g) as [-> _].
Qed.

Lemma filter_self c (l : list component) : NoDup l -> c ∈ l -> c :: filter (fun x => x <> c) l ≡ₚ l.
Proof.
  intros Hnd Hin. apply NoDup_Permutation; [|done|].
  - constructor; [|by apply NoDup_filter]. rewrite list_elem_of_filter. naive_solver.
  - intros x. rewrite elem_of_cons, list_elem_of_filter. destruct (decide (x = c)); naive_solver.
Qed.

Lemma waitAll_trace wi n : returns_in wi -> forall running g w, NoDup running -> length running = n -> exists rets w',
  waitAll wi n running g w = (Ok (g_Wait (foldl g_return g rets.*2)), w') /\
  plog (w_ext w') = plog (w_ext w) ++ ((fun x => PReturn x.1 x.2) <$> rets) /\ rets.*1 ≡ₚ running /\
  Forall (fun x => Q wi x.1 x.2) rets.
Proof.
  intros HQ. induction n as [|n IH]; intros running g w Hnd Hlen.
  { exists [], w. destruct running; [|done]. cbn. rewrite app_nil_r. by split_and!; try constructor. }
  destruct (lp_running wi running w) as (c & e & w1 & Hr & Hc); [by destruct running|].
  pose proof (lp_return wi running w) as Hlog. rewrite Hr in Hlog. cbn in Hlog.
  pose proof (filter_self c running Hnd Hc) as Hp. pose proof (Permutation_length Hp) as Hl'. cbn in Hl'.
  destruct (IH (filter (fun x => x <> c) running) (g_return g e) w1) as (rets & w2 & Hrun & Hl & Hperm & Hq);
    [by apply NoDup_filter|lia|].
  exists ((c, e) :: rets), w2. split_and!.
  - cbn [waitAll]. unfold bind. rewrite Hr. exact Hrun.
  - rewrite Hl, Hlog, <- app_assoc. done.
  - cbn. by rewrite Hperm.
  - constructor; [|done]. apply (HQ running w). by rewrite Hr.
Qed.

Lemma components_nodup wi : NoDup (components wi).
Proof. unfold components. destruct (wi_audit wi); cbn; apply (bool_decide_unpack _); by vm_compute. Qed.

Lemma hex_DecodeString_total n : forall s p, (String.length s <= n)%nat -> hex_DecodeString s <> Panic p.
Proof.
  induction n as [|n IH]; intros s p Hn; destruct s as [|a [|b s]]; cbn in *; try done; try lia.
  - by destruct (hex_val a).
  - destruct (hex_val a), (hex_val b); try done.
    pose proof (IH s p ltac:(lia)). by destruct (hex_DecodeString s).
Qed.

(** no panic, and the errors are the decryptor's *)
Lemma decryptorFor_cases cfg :
  (exists d, decryptorFor cfg = Ok d) \/ exists e, decryptorFor cfg = Err (Errorf "eERC decryptor" e).
Proof.
  unfold decryptorFor, NewEnvDecryptor. destruct (String.eqb _ ""); [by eauto|].
  destruct (String.eqb _ ""); [by eauto|].
  destruct (hex_DecodeString _) as [raw|e|p] eqn:Hx; [|by eauto|by apply (hex_DecodeString_total _ _ _ (le_n _)) in Hx].
  destruct (_ =? 0); [by eauto|]. destruct (_ =? 0); by eauto.
Qed.

Abbreviation at_log l := (fun w : World E => plog (w_ext w) = l).

Lemma NewPool_cases dsn w r w' : NewPool dsn w = (r, w') ->
  (r = Ok tt /\ plog (w_ext w') = plog (w_ext w) ++ [PNew]) \/
  exists e, r = Err e /\ (plog (w_ext w') = plog (w_ext w) \/ plog (w_ext w') = plog (w_ext w) ++ [PNew; PClose]).
Proof.
  unfold NewPool, bind at 1, wrapf. pose proof (lp_new dsn w) as L1. pose proof (lp_total_new dsn w) as T1.
  destruct (pgxpool_New dsn w) as [[[]|e|p] w1]; cbn in L1, T1; [|intros [= <- <-]; rewrite L1, app_nil_r; eauto|done].
  unfold bind at 1, attempt. pose proof (lp_ping w1) as L2. pose proof (lp_total_ping w1) as T2.
  destruct (Ping w1) as [[[]|e|p] w2]; cbn in L2, T2; [| |done]; rewrite app_nil_r in L2.
  - intros [= <- <-]. left. by rewrite L2, L1.
  - unfold bind. pose proof (lp_close w2) as L3. pose proof (lp_total_close w2) as T3.
    destruct (pool_Close w2) as [rc w3]. cbn in L3, T3. subst rc. intros [= <- <-]. right. eexists. split; [done|].
    right. by rewrite L3, L2, L1, <- app_assoc.
Qed.

(** the errors the process can end with come from the first return *)
Definition verdict (rets : list (component * option goerr)) : res unit :=
  match head (omap id rets.*2) with
  | Some e => if errors_Is e Canceled then Ok tt else Err e
  | None => Ok tt
  end.

Definition run_body (cfg : EnvConfig) : M (World E) unit :=
  let* kcp := wrapf "read KCP chain ID" KcpChainID in
  let* decryptor := lift_res (decryptorFor cfg) in
  let wi := wire cfg kcp decryptor in
  let* err := waitAll wi (length (components wi)) (components wi) WithContext in
  match err with
  | Some e => if errors_Is e Canceled then ret tt else fail e
  | None => ret tt
  end.

Lemma run_body_cases cfg w : (forall kcp dk, returns_in (wire cfg kcp dk)) -> exists r w', run_body cfg w = (r, w') /\
  ((exists p e, r = Err (Errorf p e) /\ p ∈ ["read KCP chain ID"; "eERC decryptor"] /\ plog (w_ext w') = plog (w_ext w)) \/
   exists kcp dk rets, r = verdict rets /\
     (rets.*1 ≡ₚ components (wire cfg kcp dk) /\ Forall (fun x => Q (wire cfg kcp dk) x.1 x.2) rets) /\
     plog (w_ext w') = plog (w_ext w) ++ ((fun x => PReturn x.1 x.2) <$> rets)).
Proof.
  intros HQ. unfold run_body, bind at 1, wrapf, KcpChainID, query, query_at, bind at 1, wrapf.
  pose proof (lp_db w) as L1. pose proof (lp_total_db w) as T1.
  destruct (env_db w) as [[[]|e|p] w1]; cbn in L1, T1; rewrite app_nil_r in L1; [| |done].
  2: { eexists _, _. split; [done|]. left. eexists _, _. split; [done|]. split; [left|done]. }
  match goal with |- context [match match filter ?P ?l with _ => _ end with _ => _ end] =>
    assert (exists kcp : Z * bool, match filter P l with [] => Ok (0, false) | c :: _ => Ok (ch_chain_id c, true) end = Ok kcp)
      as (kcp & ->) by (destruct (filter P l); eauto) end.
  unfold bind at 1, lift_res. destruct (decryptorFor_cases cfg) as [[dk ->]|[e ->]]; cbn beta iota;
    [|eexists _, _; split; [done|]; left; eexists _, _; (split; [done|]); (split; [right; left|done])].
  set (wi := wire cfg kcp dk).
  destruct (waitAll_trace wi (length (components wi)) (HQ kcp dk) (components wi) WithContext w1 (components_nodup wi) eq_refl)
    as (rets & w2 & Hrun & Hl & Hp & Hq).
  unfold bind at 1. rewrite Hrun, Wait_first. destruct eg_new as [-> _].
  exists (verdict rets), w2. split; [|right; exists kcp, dk, rets; rewrite Hl, L1; done].
  unfold verdict. destruct (head _) as [e|]; [|done]. by destruct (errors_Is e Canceled).
Qed.

(** a run that got past the pool closes it last *)
Lemma run_trace env w r w' : (forall cfg kcp dk, Load env = Ok cfg -> returns_in (wire cfg kcp dk)) ->
  run env w = (r, w') -> exists l, plog (w_ext w') = plog (w_ext w) ++ l /\
  ((l = [] /\ exists e, r = Err e /\ (Load env = Err e \/ exists e', e = Errorf "connect Postgres" e')) \/
   (l = [PNew; PClose] /\ exists p e, r = Err (Errorf p e) /\
      p ∈ ["connect Postgres"; "read KCP chain ID"; "eERC decryptor"]) \/
   exists cfg kcp dk rets, Load env = Ok cfg /\ r = verdict rets /\
      (rets.*1 ≡ₚ components (wire cfg kcp dk) /\ Forall (fun x => Q (wire cfg kcp dk) x.1 x.2) rets) /\
      l = PNew :: ((fun x => PReturn x.1 x.2) <$> rets) ++ [PClose]).
Proof.
  intros HQ. unfold run, bind at 1, lift_res at 1. destruct (Load env) as [cfg|e|p] eqn:Hload.
  2: { intros [= <- <-]. exists []. rewrite app_nil_r. split; [done|]. left. eauto. }
  2: { unfold Load in Hload. by destruct (env_Parse env). }
  unfold bind at 1, wrapf at 1. destruct (NewPool (DatabaseURL cfg) w) as [r1 w1] eqn:Hpool.
  apply NewPool_cases in Hpool as [[-> L1]|(e & -> & HL)].
  2: { intros [= <- <-]. destruct HL as [HL|HL]; [exists []; rewrite app_nil_r|exists [PNew; PClose]]; (split; [done|]).
       - left. split; [done|]. eexists. split; [done|]. right. by eexists.
       - right. left. split; [done|]. eexists _, _. split; [done|]. left. }
  unfold deferred. destruct (run_body_cases cfg w1 (fun kcp dk => HQ cfg kcp dk eq_refl)) as (r2 & w2 & Hb & Hcase).
  change (run_body cfg w1 = (r2, w2)) in Hb. unfold run_body in Hb. rewrite Hb.
  pose proof (lp_close w2) as L3. pose proof (lp_total_close w2) as T3.
  destruct (pool_Close w2) as [rc w3]. cbn in L3, T3. subst rc. intros [= <- <-].
  destruct Hcase as [(p & e & -> & Hp & L2)|(kcp & dk & rets & -> & Hp & L2)]; rewrite L3, L2, L1.
  - exists [PNew; PClose]. rewrite <- app_assoc. split; [done|]. right. left. split; [done|].
    exists p, e. split; [done|]. by right.
  - exists (PNew :: ((fun x => PReturn x.1 x.2) <$> rets) ++ [PClose]). rewrite <- !app_assoc. split; [done|].
    right. right. by exists cfg, kcp, dk, rets.
Qed.
End Lifecycle.

(** C16. Orderly start and end.  In every run of the process: before the pool is
    opened nothing is left to close; if start-up fails later, the pool is
    closed at once; otherwise every configured component runs, each returns
    exactly once, and only then the pool is closed, once.  The first component
    to return an error decides: a cancelled context (a signal) ends the
    process with success, any other error is what [run] returns, whatever the
    others return afterwards. *)
Theorem run_lifecycle {E : Type} `{Env E, HttpEnv E, PgxPool E, EnvParser, ErrgroupLaws, Returns E}
    (plog : E -> list pool_event) (env : environ) (w : World E) :
  LoggedProcess plog -> exists l, plog (w_ext (run env w).2) = plog (w_ext w) ++ l /\
  ((l = [] /\ exists e, (run env w).1 = Err e /\ (Load env = Err e \/ exists e', e = Errorf "connect Postgres" e')) \/
   (l = [PNew; PClose] /\ exists p e, (run env w).1 = Err (Errorf p e) /\
      p ∈ ["connect Postgres"; "read KCP chain ID"; "eERC decryptor"]) \/
   exists cfg kcp dk rets, Load env = Ok cfg /\ rets.*1 ≡ₚ components (wire cfg kcp dk) /\
      l = PNew :: ((fun x => PReturn x.1 x.2) <$> rets) ++ [PClose] /\
      (run env w).1 = match head (omap id rets.*2) with
                      | Some e => if errors_Is e Canceled then Ok tt else Err e
                      | None => Ok tt
                      end).
Proof.
  intros Hl. destruct (run env w) as [r w'] eqn:Hrun. cbn [fst snd].
  apply (run_trace plog (fun _ _ _ => True)) in Hrun as (l & Hlog & Hcase); [|done]. exists l. split; [done|].
  destruct Hcase as [?|[?|(cfg & kcp & dk & rets & ? & ? & [? _] & ?)]]; [by left|by right; left|].
  right. right. by exists cfg, kcp, dk, rets.
Qed.

(** ** The errors a component can return *)

(** every error a run of [m] ends with satisfies [P] *)
Definition errs {S A} (P : goerr -> Prop) (m : M S A) : Prop := forall s e, (m s).1 = Err e -> P e.

Section Errs.
Context {S : Type} (P : goerr -> Prop).

Lemma errs_ret {A} (a : A) : errs P (ret (S := S) a).
Proof. by intros s e. Qed.
Lemma errs_fail {A} e : P e -> errs P (fail (S := S) (A := A) e).
Proof. by intros He s e' [= <-]. Qed.
Lemma errs_panic {A} p : errs P (panic (S := S) (A := A) p).
Proof. by intros s e. Qed.
Lemma errs_modify f : errs P (modify (S := S) f).
Proof. by intros s e. Qed.
Lemma errs_gets {A} (f : S -> A) : errs P (gets f).
Proof. by intros s e. Qed.
Lemma errs_attempt {A} (m : M S A) : errs P (attempt m).
Proof. intros s e. unfold attempt. by destruct (m s) as [[] ?]. Qed.
Lemma errs_newTicker d : errs P (newTicker (S := S) d).
Proof. intros s e. unfold newTicker. by destruct (_ <=? _). Qed.
Lemma errs_bind {A B} (m : M S A) (k : A -> M S B) : errs P m -> (forall a, errs P (k a)) -> errs P (bind m k).
Proof.
  intros Hm Hk s e. unfold bind. specialize (Hm s). destruct (m s) as [[a|e'|p] s']; cbn in *; [apply Hk|by intros [= <-]; apply Hm|done].
Qed.
Lemma errs_deferred {A} (c : M S unit) (m : M S A) : errs P m -> errs P (deferred c m).
Proof.
  intros Hm s e. unfold deferred. specialize (Hm s). destruct (m s) as [r s']. cbn in Hm.
  by destruct (c s') as [[] ?]; cbn; [apply Hm|apply Hm|].
Qed.
Lemma errs_foldM {A B} (f : B -> A -> M S B) l : forall b, (forall b a, errs P (f b a)) -> errs P (foldM f b l).
Proof. induction l as [|a l IH]; intros b Hf; cbn [foldM]; [apply errs_ret|]. apply errs_bind; auto. Qed.
End Errs.

(** the liftings of the components into their states *)
Lemma errs_lifted {W T A} (P : goerr -> Prop) (m : M W A) (up : M (W * T) A) :
  (forall w t, (up (w, t)).1 = (m w).1) -> errs P m -> errs P up.
Proof. intros Hup Hm [w t] e He. rewrite Hup in He. by apply (Hm w). Qed.
Lemma errs_nlift {E A} P (m : M (World E) A) : errs P m -> errs P (nlift m).
Proof. apply errs_lifted. intros w t. unfold nlift. by destruct (m w). Qed.
Lemma errs_slift {E A} P (m : M (World E) A) : errs P m -> errs P (slift m).
Proof. apply errs_lifted. intros w t. unfold slift. by destruct (m w). Qed.
Lemma errs_alift {E A} P (m : M (World E) A) : errs P m -> errs P (alift m).
Proof. apply errs_lifted. intros w t. unfold alift. by destruct (m w). Qed.
Lemma errs_hlift {E A} P (m : M (World E) A) : errs P m -> errs P (hlift m).
Proof. apply errs_lifted. intros w t. unfold hlift. by destruct (m w). Qed.

Create HintDb errs.
#[export] Hint Resolve errs_ret errs_fail errs_panic errs_modify errs_gets errs_attempt errs_newTicker errs_deferred
  errs_nlift errs_slift errs_alift errs_hlift : errs.
Ltac errs_step :=
  match goal with
  | |- errs _ (bind _ _) => apply errs_bind; [|intros]
  | |- errs _ (foldM _ _ _) => apply errs_foldM; intros
  | |- errs _ (deferred _ _) => apply errs_deferred
  | |- errs _ (if ?b then _ else _) => destruct b
  | |- errs _ (match ?x with _ => _ end) => destruct x
  | |- errs _ (nlift _) => apply errs_nlift
  | |- errs _ (slift _) => apply errs_slift
  | |- errs _ (alift _) => apply errs_alift
  | |- errs _ (hlift _) => apply errs_hlift
  | |- errs _ (emit _) => apply errs_modify
  | |- errs _ _ => solve [eauto 3 with errs]
  end.
Ltac errs := repeat errs_step.

Definition canceled (e : goerr) : Prop := errors_Is e Canceled = true.

Section Components.
Context {E : Type} `{Env E, Conn E, AuditEnv E, ChainSource E, Schedule E, Listening E, HttpEnv E}.
Context `{!ETHClient E, !TraceCaller E, !Eth, !Sched E, !TraceHost E, !RpcDialer E}.

(** The context of the process is cancelled by signals and by the group, it
    has no deadline; clocks, selects and random numbers do not fail. *)
Class ContextLaws : Prop := {
  cx_ctx : errs canceled ctx_Err;
  cx_wait d : errs canceled (env_wait d);
  cx_now : errs canceled time_Now;
  cx_jitter d : errs canceled (jittered d);
  cx_rand n : errs canceled (rand_Int63n n);
  cx_audit i d : errs canceled (audit_select i d);
  cx_sup : errs canceled sup_select;
  cx_http : errs canceled http_select
}.
Context `{!ContextLaws}.
#[local] Hint Resolve cx_ctx cx_wait cx_now cx_jitter cx_rand cx_audit cx_sup cx_http : errs.
Lemma canceled_sentinel : canceled (ErrSentinel Canceled).
Proof. done. Qed.
#[local] Hint Resolve canceled_sentinel : errs.

Lemma Supervisor_errs builder ms n : errs canceled (Supervisor_Run builder ms n).
Proof.
  assert (errs canceled stopAll) as Hstop by (unfold stopAll, cancel, awaitDone, yields; errs; by intros s e).
  unfold Supervisor_Run. errs. induction n as [|n IH]; cbn [Supervisor.Run_selects]; errs; auto.
Qed.

Lemma auditScanner_errs acfg c (sc : Scanner E) : errs canceled (auditScanner acfg c sc).
Proof.
  assert (forall k, errs canceled (Int63n k)) as Hi by (intros; unfold Int63n; errs).
  assert (forall label name b, errs canceled (auditBlock acfg c label name sc b)) as Hb
    by (intros; unfold auditBlock; errs).
  assert (forall lo hi n tried, errs canceled (auditSamples acfg c sc lo hi n tried)) as Hs.
  { intros lo hi n. induction n as [|n IH]; intros tried; cbn [auditSamples]; errs. }
  unfold auditScanner. errs.
Qed.

Lemma Auditor_errs auditBuilder acfg n : errs canceled (Auditor_Run auditBuilder acfg n).
Proof.
  assert (forall c, errs canceled (auditChain auditBuilder acfg c)) as Hc.
  { intros c. unfold auditChain. errs; apply auditScanner_errs. }
  assert (forall chs k, errs canceled (auditChains auditBuilder acfg chs k)) as Hcs.
  { induction chs as [|ch chs IH]; intros k; cbn [auditChains]; errs; auto. }
  assert (errs canceled (runCycle auditBuilder acfg)) as Hcyc by (unfold runCycle; errs; auto).
  assert (errs canceled (updateAgeMetric (E := E))) as Hage by (unfold updateAgeMetric; errs).
  unfold Auditor_Run. errs. generalize (if FirstCycleDelay acfg =? 0 then 30 * 1000000000 else FirstCycleDelay acfg).
  intros d. induction n as [|n IH]; cbn [Auditor.Run_selects]; errs; auto.
Qed.

Lemma monitor_errs n sec : errs canceled (runBufferMonitor n sec).
Proof.
  assert (errs canceled (update (E := E))) as Hu by (unfold update; errs).
  unfold runBufferMonitor. cbv zeta. errs. induction n as [|n IH]; cbn [monitorTicks]; errs; auto.
Qed.

Lemma listener_errs ch n m : errs canceled (Listener_Run ch n m).
Proof.
  unfold Listener_Run. generalize initialBackoff. induction n as [|n IH]; intros b; cbn [Listener_loop]; errs; auto.
Qed.

Lemma publisher_errs pcfg n :
  errs (fun e => canceled e \/ errors_Is e DeadlineExceeded = true) (Publisher_Run pcfg n).
Proof.
  assert (forall A (m : M (World E) A), errs canceled m ->
    errs (fun e => canceled e \/ errors_Is e DeadlineExceeded = true) m) as Hw by (intros A m Hm s e He; left; by apply (Hm s)).
  unfold Publisher_Run. generalize (Publisher.ReconnectIntervalMs pcfg) at 1.
  assert (forall c, errs (fun e => canceled e \/ errors_Is e DeadlineExceeded = true) (nextBackoff c)) as Hb
    by (intros c; apply Hw; unfold nextBackoff; cbv zeta; eauto with errs).
  induction n as [|n IH]; intros d; cbn [Publisher.Run_loop]; [apply errs_ret|].
  apply errs_bind; [apply Hw, cx_ctx|intros _]. apply errs_bind; [apply errs_modify|intros _].
  apply errs_bind; [apply errs_attempt|]. intros [[]|e].
  - apply errs_bind; [apply errs_modify|intros _]. apply errs_bind; [apply errs_attempt|]. intros [[]|e]; [apply errs_ret|].
    apply errs_bind; [apply errs_modify|intros _]. apply errs_bind; [apply errs_modify|intros _].
    destruct (errors_Is e Canceled || errors_Is e DeadlineExceeded) eqn:He; [|apply IH].
    apply errs_fail. apply orb_true_iff in He as [?|?]; [by left|by right].
  - apply errs_bind; [unfold sleep; errs|intros [|]; [apply errs_bind; [apply Hb|auto]|apply Hw, cx_ctx]].
Qed.

(** the error a component's function returns; the modelled functions return
    only errors *)
Definition returned (wi : wiring) (c : component) (r : option goerr) : Prop :=
  let cfg := wi_cfg wi in
  let loops := newLoopBuilder cfg (wi_kcp wi).1 (wi_kcp wi).2 (wi_decryptor wi) in
  let auditors := newAuditBuilder cfg (wi_kcp wi).1 (wi_kcp wi).2 (wi_decryptor wi) in
  exists e, r = Some e /\
  match c with
  | CPublisher => exists n w, (Publisher_Run (wi_publisher wi) n w).1 = Err e
  | CSupervisor => exists n s, (Supervisor_Run (fun chain => loops chain ;;; ret tt) (wi_pollMs wi) n s).1 = Err e
  | CHttp => exists s, (Server_Run s).1 = Err e
  | CMonitor => exists n w, (runBufferMonitor n (wi_statsS wi) w).1 = Err e
  | CListener => exists n m s, (Listener_Run (wi_channel wi) n m s).1 = Err e
  | CAuditor => exists n s acfg, wi_audit wi = Some acfg /\ (Auditor_Run auditors acfg n s).1 = Err e
  end.

Lemma returned_cases wi c e : returned wi c (Some e) ->
  canceled e \/ (c = CHttp /\ exists e', e = Errorf "http server" e') \/
  (c = CPublisher /\ errors_Is e DeadlineExceeded = true).
Proof.
  intros (e' & [= <-] & Hr). destruct c.
  - destruct Hr as (n & w & Hr). destruct (publisher_errs _ _ _ _ Hr); auto.
  - destruct Hr as (n & s & Hr). left. by apply Supervisor_errs in Hr.
  - destruct Hr as (x & Hr). apply Server_Run_end in Hr as [Hr|[[_ ->]|(err & _ & ->)]]; [left|by left|eauto].
    by apply cx_http in Hr.
  - destruct Hr as (n & w & Hr). left. by apply monitor_errs in Hr.
  - destruct Hr as (n & m & s & Hr). left. by apply listener_errs in Hr.
  - destruct Hr as (n & s & acfg & _ & Hr). left. by apply Auditor_errs in Hr.
Qed.
End Components.

Lemma head_omap_elem (rets : list (component * option goerr)) e :
  head (omap id rets.*2) = Some e -> exists c, (c, Some e) ∈ rets.
Proof.
  induction rets as [|[c [e'|]] rets IH]; cbn; [done|intros [= ->]; exists c; left|].
  intros (c' & Hc)%IH. exists c'. by right.
Qed.

(** C17. Why the process fails.  It exits with 1 exactly when [run] returns an
    error that is not a cancelled context, and then [main] reports that
    error; once the environment is read, the pool connected, the KCP chain
    looked up and the decryptor built, only two things can be the reason: the
    HTTP server failed, or the publisher returned an error with a passed
    deadline in its chain.  No failure of a chain, of the supervisor, of the
    auditor, of the monitor or of the wake-up listener ends the process. *)
Theorem process_failure_causes {E : Type}
    `{Env E, Conn E, AuditEnv E, ChainSource E, Schedule E, Listening E, HttpEnv E, PgxPool E, EnvParser,
      ErrgroupLaws, Returns E, !ETHClient E, !TraceCaller E, !Eth, !Sched E, !TraceHost E, !RpcDialer E}
    (plog : E -> list pool_event) (env : environ) (w : World E) (code : Z) (rep : report) :
  LoggedProcess plog -> ContextLaws ->
  (forall cfg kcp dk running w c r, Load env = Ok cfg ->
     (next_return (wire cfg kcp dk) running w).1 = Ok (c, r) -> returned (wire cfg kcp dk) c r) ->
  (main env w).1 = Ok (code, rep) ->
  (code = 0 /\ rep = ShutdownComplete /\ forall e, (run env w).1 = Err e -> canceled e) \/
  (code = 1 /\ exists e, (run env w).1 = Err e /\
     rep = match As_Config e with Some (key, msg) => ConfigErrorExiting key msg | None => ListenerFailed e end /\
     (Load env = Err e \/
      (exists p e', e = Errorf p e' /\ p ∈ ["connect Postgres"; "read KCP chain ID"; "eERC decryptor"]) \/
      (exists e', e = Errorf "http server" e') \/
      errors_Is e DeadlineExceeded = true)).
Proof.
  intros Hlp Hcx Hret. unfold main, bind, attempt. destruct (run env w) as [r w'] eqn:Hrun. cbn [fst].
  destruct r as [[]|e|p]; [intros [= <- <-]; left; by split_and!| |done].
  destruct (errors_Is e Canceled) eqn:Hc.
  { intros [= <- <-]. left. split_and!; [done..|]. by intros e' [= <-]. }
  intros Hmain. right.
  assert (code = 1 /\ rep = match As_Config e with Some (key, msg) => ConfigErrorExiting key msg | None => ListenerFailed e end)
    as [-> ->] by (destruct (As_Config e) as [[]|]; by injection Hmain as <- <-).
  split; [done|]. exists e. split_and!; [done..|].
  apply (run_trace plog returned) in Hrun as (l & _ & [(_ & e' & [= <-] & [?|(e'' & ->)])|[(_ & p & e' & [= ->] & Hp)|
    (cfg & kcp & dk & rets & _ & Hv & [_ Hq] & _)]]); [..|intros cfg kcp dk Hcfg running w1 c r; by apply Hret].
  - by left.
  - right. left. eexists _, _. split; [done|]. left.
  - right. left. by eexists _, _.
  - unfold verdict in Hv. destruct (head _) as [e'|] eqn:Hh; [|done].
    apply head_omap_elem in Hh as (c & Hin). rewrite Forall_forall in Hq. specialize (Hq _ Hin). cbn in Hq.
    destruct (errors_Is e' Canceled) eqn:He'; [done|]. injection Hv as ->.
    destruct (returned_cases (wire cfg kcp dk) c e' Hq) as [Hcl|[(_ & e'' & ->)|(_ & Hdl)]];
      [unfold canceled in Hcl; congruence| |].
    + right. right. left. by eexists.
    + by right; right; right.
Qed.

(** ** A chain's RPC client *)

(** Every chain instance of the supervisor has the client its builder dialed.
    The steps of the supervisor and of the goroutines, with what they do to
    the clients: a goroutine that ends runs the deferred function of [wrap]
    first. *)
Inductive cstep : Supervisor * gmap nat client -> Supervisor * gmap nat client -> Prop :=
| c_exit s cs i x log : insts s !! i = Some x -> side log x = true ->
    cstep (s, cs) (set_inst (end_side log ∘ cancel_inst) i s, alter wrapEnd i cs)
| c_close s cs i x : insts s !! i = Some x -> i_log x = false -> i_trace x = false ->
    cstep (s, cs) (set_inst close_done i s, cs)
| c_parent s cs : cstep (s, cs) (mkSup (running s) (cancel_inst <$> insts s) (nexti s) true, cs)
| c_spawn s cs c fp : cstep (s, cs) (spawned c fp s, <[nexti s := dialed]> cs)
| c_cancel s cs i : cstep (s, cs) (set_inst cancel_inst i s, cs)
| c_register s cs r : cstep (s, cs) (set_running r s, cs).

(** these are all the steps of the goroutines *)
Lemma gstep_client s s' cs : gstep s s' -> exists cs', cstep (s, cs) (s', cs').
Proof. intros []; eexists; [eapply c_exit|eapply c_close|apply c_parent]; done. Qed.

(** the loops of an instance that still run *)
Definition live (x : inst) : Z := Z.b2z (i_log x) + Z.b2z (i_trace x).

Definition client_ok (x : inst) (c : client) : Prop :=
  active c = live x /\ onceDone c = (live x =? 0) /\ closes c = (if (live x =? 0)%Z then 1 else 0)%nat.

Record clients_ok (s : Supervisor) (cs : gmap nat client) : Prop := {
  co_fresh : forall i x, insts s !! i = Some x -> (i < nexti s)%nat;
  co_client : forall i x, insts s !! i = Some x -> exists c, cs !! i = Some c /\ client_ok x c;
  co_done : forall i x, insts s !! i = Some x -> i_done x = true -> live x = 0
}.

Lemma wrapEnd_ok x c log : client_ok x c -> side log x = true -> client_ok (end_side log (cancel_inst x)) (wrapEnd c).
Proof.
  intros (Ha & Ho & Hn) Hs. unfold client_ok, wrapEnd. rewrite Ha.
  destruct x as [ch ca [] [] d], log; cbn in *; try done; unfold live in *; cbn in *; rewrite ?Ho, ?Hn; done.
Qed.

(** an instance changed in place, with its client *)
Lemma alter_ok f h s cs i : clients_ok s cs ->
  (forall x c, insts s !! i = Some x -> cs !! i = Some c -> client_ok x c -> client_ok (f x) (h c)) ->
  (forall x, insts s !! i = Some x -> i_done (f x) = true -> live (f x) = 0) ->
  clients_ok (set_inst f i s) (alter h i cs).
Proof.
  intros [Hf Hc Hd] Hok Hdone. split; cbn.
  - intros j x Hj. destruct (decide (i = j)) as [->|Hne].
    + rewrite lookup_alter_eq in Hj. apply fmap_Some in Hj as (x0 & Hx & _). by eapply Hf.
    + rewrite lookup_alter_ne in Hj by done. by eapply Hf.
  - intros j x Hj. destruct (decide (i = j)) as [->|Hne].
    + rewrite lookup_alter_eq in Hj. apply fmap_Some in Hj as (x0 & Hx & ->).
      destruct (Hc j x0 Hx) as (c & Hcj & Hco). exists (h c). rewrite lookup_alter_eq, Hcj. split; [done|eauto].
    + rewrite lookup_alter_ne in Hj by done. destruct (Hc j x Hj) as (c & Hcj & Hco). exists c.
      by rewrite lookup_alter_ne.
  - intros j x Hj. destruct (decide (i = j)) as [->|Hne].
    + rewrite lookup_alter_eq in Hj. apply fmap_Some in Hj as (x0 & Hx & ->). by apply Hdone.
    + rewrite lookup_alter_ne in Hj by done. by eapply Hd.
Qed.

Lemma alter_same (cs : gmap nat client) i : alter (fun c => c) i cs = cs.
Proof. apply map_eq. intros j. destruct (decide (i = j)) as [->|]; [rewrite lookup_alter_eq; by destruct (cs !! j)|by rewrite lookup_alter_ne]. Qed.

Lemma live_cancel x : live (cancel_inst x) = live x.
Proof. done. Qed.

Lemma cstep_ok p p' : cstep p p' -> clients_ok p.1 p.2 -> clients_ok p'.1 p'.2.
Proof.
  intros Hstep Hok. destruct Hstep as [s cs i x log Hx Hs|s cs i x Hx Hl Ht|s cs|s cs c fp|s cs i|s cs r]; cbn in *.
  - apply alter_ok; [done|..].
    + intros x' c Hx' Hc Hco. simplify_eq. by apply wrapEnd_ok.
    + intros x' Hx'. simplify_eq. intros Hd.
      assert (live x = 0) as Hz by (apply (co_done _ _ Hok _ _ Hx); by destruct x, log).
      destruct x as [ch ca [] [] d], log; done.
  - rewrite <- (alter_same cs i). apply alter_ok; [done|..].
    + intros x' c Hx' Hc Hco. simplify_eq. exact Hco.
    + intros x' Hx' _. simplify_eq. unfold live. cbn. by rewrite Hl, Ht.
  - destruct Hok as [Hf Hc Hd]. split; cbn; intros i x; rewrite lookup_fmap, fmap_Some; intros (x0 & Hx & ->); eauto.
    + apply (Hc i x0 Hx).
    + by apply (Hd i x0).
  - destruct Hok as [Hf Hc Hd]. split; cbn; intros i x; rewrite lookup_insert_Some.
    + intros [[<- <-]|[_ Hx]]; [lia|]. specialize (Hf i x Hx). lia.
    + intros [[<- <-]|[Hne Hx]]; [exists dialed; by rewrite lookup_insert_eq|].
      rewrite lookup_insert_ne by done. by apply Hc.
    + intros [[<- <-]|[Hne Hx]]; [done|by eapply Hd].
  - rewrite <- (alter_same cs i). apply alter_ok; [done|done|].
    intros x Hx. exact (co_done _ _ Hok i x Hx).
  - by destruct Hok.
Qed.

Lemma csteps_ok p p' : rtc cstep p p' -> clients_ok p.1 p.2 -> clients_ok p'.1 p'.2.
Proof. induction 1; eauto using cstep_ok. Qed.

(** C15. A chain's RPC client is closed exactly once, and never under a running
    loop.  In every state the supervisor and the goroutines can reach: while
    a loop of the chain instance runs, its client has not been closed; when
    both loops have ended, it has been closed once; so it has when the
    supervisor sees the instance's [done] channel closed. *)
Theorem client_closed_once (s : Supervisor) (cs : gmap nat client) (i : nat) (x : inst) :
  rtc cstep (Supervisor.New, ∅) (s, cs) -> insts s !! i = Some x ->
  exists c, cs !! i = Some c /\ closes c = (if i_log x || i_trace x then 0 else 1)%nat /\
    (i_done x = true -> closes c = 1%nat).
Proof.
  intros Hr Hx. assert (clients_ok s cs) as Hok.
  { apply (csteps_ok _ _ Hr). split; cbn; intros j y; by rewrite lookup_empty. }
  destruct (co_client _ _ Hok i x Hx) as (c & Hc & _ & _ & Hn). exists c. split; [done|].
  assert ((live x =? 0) = negb (i_log x || i_trace x)) as Hz by (unfold live; by destruct (i_log x), (i_trace x)).
  split; [rewrite Hn, Hz; by destruct (i_log x || i_trace x)|].
  intros Hd. pose proof (co_done _ _ Hok i x Hx Hd) as Hl. rewrite Hn, Hl. done.
Qed.

Module ClientWitness.
(** a chain started, its log loop ends, its trace loop ends, [done] is closed *)
Definition s1 : Supervisor := spawned 1 "" Supervisor.New.
Definition s2 : Supervisor := set_inst (end_side true ∘ cancel_inst) 0 s1.
Definition s3 : Supervisor := set_inst (end_side false ∘ cancel_inst) 0 s2.
Definition s4 : Supervisor := set_inst close_done 0 s3.
Definition c1 : gmap nat client := <[0%nat := dialed]> ∅.

Lemma reached : rtc cstep (Supervisor.New, ∅) (s4, alter wrapEnd 0%nat (alter wrapEnd 0%nat c1)).
Proof.
  eapply rtc_l; [apply (c_spawn Supervisor.New ∅ 1 "")|].
  eapply rtc_l; [apply (c_exit s1 c1 0 (mkInst 1 false true true false) true); reflexivity|].
  eapply rtc_l; [apply (c_exit s2 _ 0 (mkInst 1 true false true false) false); reflexivity|].
  eapply rtc_l; [apply (c_close s3 _ 0 (mkInst 1 true false false false)); reflexivity|]. apply rtc_refl.
Qed.

Lemma client_closed_once_witness : exists c,
  alter wrapEnd 0%nat (alter wrapEnd 0%nat c1) !! 0%nat = Some c /\ closes c = 1%nat.
Proof.
  destruct (client_closed_once s4 (alter wrapEnd 0%nat (alter wrapEnd 0%nat c1)) 0 (mkInst 1 true false false true)
    reached eq_refl) as (c & Hc & Hn & _).
  exists c. split; [exact Hc|exact Hn].
Defined.
End ClientWitness.

(** ** A concrete process: the HTTP port is taken *)
Module ProcessWitness.
Import ConfigWitness.

Abbreviation L := (list pool_event).
Definition logging {A} (e : pool_event) (a : A) : M (World L) A := fun w =>
  (Ok a, mkWorld (w_db w) (w_metrics w) (w_ext w ++ [e])).

#[export] Instance env : Env L := {|
  env_wait _ := fail (ErrSentinel Canceled); ctx_Err := fail (ErrSentinel Canceled);
  time_Now := ret {| sec := 0; nsec := 0 |}; env_db := ret tt;
  env_has := ret tt;
  env_tx e := (None, e); env_commit e := (Committed, e); db_now _ := 0 |}.
#[export] Instance conn : Conn L := {|
  DialContext := ret tt; WriteMessage _ := ret tt; WritePing := ret tt; select_drain := ret PeDone;
  select_graceful := ret None; drainCtx_Err := ret tt; jittered d := ret d |}.
#[export] Instance audit : AuditEnv L := {| rand_Int63n _ := ret 0; audit_select _ _ := ret AeDone |}.
#[export] Instance source : ChainSource L := {| src_ActiveChains := ret []; src_ChainConfig _ := fail (ErrNew "no chain") |}.
#[export] Instance sched : Schedule L := {|
  others s := s; recv_done _ s := s; sup_select := ret SeDone; range A m := map_to_list m |}.
#[export] Instance listening : Listening L := {|
  Acquire := ret tt; Release := ret tt; ListenExec _ := ret tt; WaitForNotification := fail (ErrSentinel Canceled) |}.
Definition inUse : goerr := ErrNew "bind: address already in use".
#[export] Instance http : HttpEnv L := {| Ping := ret tt; http_select := ret (Some inUse); Shutdown := ret tt |}.
#[export] Instance pool : PgxPool L := {| pgxpool_New _ := logging PNew tt; pool_Close := logging PClose tt |}.
#[export] Instance eg : Errgroup := {|
  group := option goerr; WithContext := None;
  g_return g e := match g with Some _ => g | None => e end;
  g_done g := bool_decide (is_Some g); g_Wait g := g |}.
#[export] Instance eg_laws : ErrgroupLaws.
Proof. split; [done|by intros [e|]|]. by intros [e'|] e. Qed.

(** the server returns first, the others once the context is cancelled *)
Definition what (c : component) : goerr :=
  match c with CHttp => Errorf "http server" inUse | _ => ErrSentinel Canceled end.
Definition first (running : list component) : component :=
  if bool_decide (CHttp ∈ running) then CHttp else default CHttp (head running).
#[export] Instance returns : Returns L := {|
  next_return _ running := let c := first running in logging (PReturn c (Some (what c))) (c, Some (what c)) |}.

Lemma first_running running : running <> [] -> first running ∈ running.
Proof.
  intros Hr. unfold first. destruct (bool_decide_reflect (CHttp ∈ running)); [done|].
  destruct running; [done|]. left.
Qed.
#[export] Instance logged : LoggedProcess (fun l => l).
Proof.
  split; try done; try (intros; intros w; cbn; by rewrite ?app_nil_r).
  intros wi running w Hr. exists (first running), (Some (what (first running))), (next_return wi running w).2.
  split; [reflexivity|by apply first_running].
Qed.
#[export] Instance laws : ContextLaws.
Proof. split; intros; intros w e; try done; by intros [= <-]. Qed.

Definition good : environ := fun v =>
  if String.eqb v "DATABASE_URL" then Some "postgres://x" else if String.eqb v "WS_TARGET" then Some "ws://x" else None.
Definition w0 : World L := mkWorld Quiet.emptyDB ∅ [].
Definition eth : Eth := {| addrHex a := dec a; hashHex h := dec h; HexToAddress s := 0; Keccak256Hash s := 0 |}.
#[export] Existing Instance eth.
#[export] Instance node : ETHClient L := {|
  BlockNumber := ret 0; BlockByNumber _ := ret None; FilterLogs _ := ret []; CodeAt _ := ret [];
  TransactionSender _ _ _ := ret 0 |}.
#[export] Instance tracer : TraceCaller L := {| CallTrace _ := ret JNull |}.
#[export] Instance ssched : Sched L := {| schedule cs := ret cs |}.
#[export] Instance host : TraceHost L := {| ts_get _ := NewTraceState; ts_set _ l := l |}.
#[export] Instance dialer : RpcDialer L := {| rpc_Dial _ := ret tt; rpc_Close := ret tt |}.

Lemma all_returned cfg kcp dk running (w : World L) c r : Load good = Ok cfg ->
  (next_return (wire cfg kcp dk) running w).1 = Ok (c, r) -> returned (wire cfg kcp dk) c r.
Proof.
  intros [= <-] [= <- <-]. generalize (first running) as d. intros d. exists (what d). split; [done|]. destruct d; cbn [what].
  - by exists 1%nat, w0.
  - by exists 1%nat, (w0, Supervisor.New).
  - by exists (w0, mkReady false false).
  - by exists 1%nat, w0.
  - by exists 1%nat, 0%nat, (w0, false).
  - eexists 1%nat, (w0, None), _. by split.
Qed.

Lemma run_lifecycle_witness :
  w_ext (run good w0).2 = [PNew; PReturn CHttp (Some (what CHttp)); PReturn CPublisher (Some (ErrSentinel Canceled));
    PReturn CSupervisor (Some (ErrSentinel Canceled)); PReturn CMonitor (Some (ErrSentinel Canceled));
    PReturn CListener (Some (ErrSentinel Canceled)); PReturn CAuditor (Some (ErrSentinel Canceled)); PClose] /\
  exists l, w_ext (run good w0).2 = [] ++ l.
Proof.
  split; [vm_compute; reflexivity|].
  destruct (run_lifecycle (fun l => l) good w0 logged) as (l & Hl & _). exists l. exact Hl.
Defined.

Lemma process_failure_causes_witness :
  (main good w0).1 = Ok (1, ListenerFailed (what CHttp)) /\ (1 = 0 \/ 1 = 1).
Proof.
  assert ((main good w0).1 = Ok (1, ListenerFailed (what CHttp))) as Hm by (vm_compute; reflexivity).
  split; [exact Hm|].
  destruct (process_failure_causes (fun l => l) good w0 1 (ListenerFailed (what CHttp))
    logged laws all_returned Hm) as [[H _]|[H _]]; [left; exact H|right; exact H].
Defined.
End ProcessWitness.

(** ** A database timeout ends the process *)
Module TimeoutWitness.
(** the link is up, the context alive, connecting to the database times out *)
Definition env : Env Z := {|
  env_wait _ := ret tt; ctx_Err := ret tt; time_Now := ret {| sec := 0; nsec := 0 |};
  env_db := fail (Errorf "failed to connect" (ErrSentinel DeadlineExceeded));
  env_has := fail (Errorf "failed to connect" (ErrSentinel DeadlineExceeded));
  env_tx e := (None, e); env_commit e := (Committed, e); db_now _ := 0 |}.
Definition conn : Conn Z := {|
  DialContext := ret tt; WriteMessage _ := ret tt; WritePing := ret tt; select_drain := ret PePoll;
  select_graceful := ret None; drainCtx_Err := ret tt; jittered d := ret d |}.

(** The publisher takes the timeout of a query for the end of its context: it
    returns that error instead of reconnecting, and as the first component to
    return an error it makes [run] fail with it. *)
Lemma timeout_ends_process (ack : bool) :
  let db := "postgres://db" in
  let cfg := mkEnvConfig db "ws://adapter" 5 1000 50 100 3000 5000 300000 ":8080" 15 ack 30000 100 true 3600 1000 50 5 "" "warn" in
  exists e, (Publisher_Run (H := env) (H0 := BufferRepo_Buffer (H := env)) (H1 := conn) (publisherConfig cfg) 3
    (mkWorld Quiet.emptyDB ∅ 0)).1 = Err e /\
    errors_Is e DeadlineExceeded = true /\ errors_Is e Canceled = false /\
    forall rest, verdict ((CPublisher, Some e) :: rest) = Err e.
Proof. cbv zeta. destruct ack; eexists; (split; [vm_compute; reflexivity|]); done. Qed.
End TimeoutWitness.
