(* ===== verification/System.v ===== *)
(** * The whole listener

    What one goroutine assumes of the others ([Spec.coop_rel]) is what each of
    them guarantees, and any history of runs of the polling loops, the
    publisher, the monitor and the auditor, restarts included, refines the
    ledger: no deposit of any processed block of any chain is lost. *)
From stdpp Require Import base gmap list strings relations.
From Stdlib Require Import ZArith Lia Ascii String.
From stdpp Require Import base strings.
From S2P Require Import Prelude Decimal Errors Effect Retry Time Model Json Metrics Store BufferRepo Spec Scanner Loop LoopProps Protocol Publisher PublisherProps Repos ReposProps Decoder LogScanner LogScannerProps EndToEnd TraceScanner TraceProps TraceEnd Supervisor Auditor AuditorProps AuditEnd Config HttpServer Service Process.

(** ** The guarantee of a polling loop *)

(** a run keeps what its calls, its metrics and its saves keep *)
Lemma Run_saves {E : Type} `{Env E, ETHClient E} (I : World E -> Prop) chainID (strategy : Scanner E) cfg n :
  head_u64 -> calls_keep strategy I -> (forall f, preserves I (emit f)) ->
  (forall b ds, preserves I (SaveAndAdvance chainID (Name strategy) b ds)) ->
  preserves I (Run chainID strategy cfg n).
Proof.
  intros Hu Hk Hemit Hsave. apply Run_keeps; [done|]. apply pollOnce_keeps; [done..| |auto].
  intros. apply (processBlock_keeps _ _ _ _ Hk) with (Q := fun _ _ => True); [done|intros; by apply Forall_true|auto].
Qed.

(** a save writes no cursor but its own *)
Lemma save_other_cursor {E : Type} `{Env E} c s b ds (w : World E) own' :
  own' <> (c, s) ->
  scan_cursor (w_db (SaveAndAdvance c s b ds w).2) !! own' = scan_cursor (w_db (after_roundtrip w)) !! own'.
Proof.
  intros Hne. pose proof (SaveAndAdvance_cases c s b ds w) as Hc. cbv zeta in Hc.
  destruct (SaveAndAdvance _ _ _ _ w) as [r w2]. cbn in *.
  destruct Hc as [(_ & Hdb & _)|[(_ & [Hdb | [Hdb _]])|(_ & ->)]];
    rewrite ?Hdb, ?save_db_cursor, ?lookup_insert_ne by done; done.
Qed.

(** A polling loop writes no cursor but its own. *)
Lemma Run_other_cursor {E : Type} `{Env E, ETHClient E} chainID (strategy : Scanner E) cfg n own' x :
  own' <> (chainID, Name strategy) -> head_u64 ->
  calls_keep strategy (fun w => scan_cursor (w_db w) !! own' = x) ->
  preserves (fun w : World E => scan_cursor (w_db w) !! own' = x) (Run chainID strategy cfg n).
Proof.
  intros Hne Hu Hk. apply Run_saves; [done..|by intros f w|].
  intros b ds w Hw. rewrite save_other_cursor by done. exact (keep_db _ _ Hk w Hw).
Qed.

(** The loops may run beside each other.  A run of a polling loop only makes
    ledger steps and writes no cursor but its own, so the loop of any other
    chain or scanner finds in it what it assumes of the other goroutines; it
    also leaves the scanners' memories consistent. *)
Theorem loop_guarantee {E : Type} `{Env E, ETHClient E}
    (truth : Z -> string -> Z -> list key) (handed : E -> gset key) (J : E -> Prop)
    (chainID : Z) (strategy : Scanner E) (cfg : LoopConfig) (ticks : nat) (w : World E) (own' : Z * string) :
  Cooperative truth handed chainID strategy J -> ScannerSound truth chainID strategy J ->
  bounded (ledger_of handed w) -> head_range -> J (w_ext w) ->
  own' <> (chainID, Name strategy) ->
  (forall x, calls_keep strategy (fun w => scan_cursor (w_db w) !! own' = x)) ->
  coop_rel truth handed own' w (Run chainID strategy cfg ticks w).2 /\
  J (w_ext (Run chainID strategy cfg ticks w).2).
Proof.
  intros Hc Hs Hb Hh HJ Hne Hk.
  assert (forall l, abs handed w l -> loop_inv truth handed J l (Run chainID strategy cfg ticks w).2) as Hrun.
  { intros l Ha. apply (Run_reach truth handed chainID strategy cfg J l ticks); [|done|].
    - intros c s n Hn. destruct Ha as [Hcur _ _]. rewrite <- Hcur in Hn. exact (Hb c s n Hn).
    - split; [|done]. exists l. by split. }
  split; [split|].
  - by apply (Run_other_cursor chainID strategy cfg ticks own' _ Hne (head_range_u64 Hh) (Hk _) w).
  - intros l Ha. destruct (Hrun l Ha) as [(l' & Hr & Ha') _]. by exists l'.
  - destruct (reachable_refl truth handed w) as (l & _ & Ha). exact (proj2 (Hrun l Ha)).
Qed.

(** ** Histories *)
Section System.
Context {E : Type} `{Env E, Conn E, AuditEnv E, ChainSource E}.
Variables (truth : Z -> string -> Z -> list key) (handed : E -> gset key) (J : E -> Prop).

(** a run of one of the goroutines [main] and the supervisor start, for a
    number of iterations; it may end with an error or a panic *)
Inductive activity :=
| RunLoop (node : ETHClient E) (chainID : Z) (strategy : Scanner E) (cfg : LoopConfig) (ticks : nat)
| RunPublisher (cfg : Publisher.Config) (n : nat)
| RunMonitor (intervalSec : Z) (n : nat)
| RunAuditor (builder : ChainConfig -> M (World E) (Scanner E * Scanner E * M (World E) unit))
    (cfg : Auditor.Config) (n : nat).

Definition perform (w : World E) (a : activity) : World E :=
  match a with
  | RunLoop node chainID strategy cfg ticks => (Run (H0 := node) chainID strategy cfg ticks w).2
  | RunPublisher cfg n => (Publisher_Run cfg n w).2
  | RunMonitor intervalSec n => (runBufferMonitor n intervalSec w).2
  | RunAuditor builder cfg n => (Auditor_Run builder cfg n (w, None)).2.1
  end.

Definition history (acts : list activity) (w : World E) : World E := foldl perform w acts.

Abbreviation coop := (cooperates_with truth handed J).

(** what each goroutine relies on: during its calls the others make ledger
    steps, its scanner reports the chain, the Adapter acknowledges only what
    it took over *)
Definition activity_ok (a : activity) : Prop :=
  match a with
  | RunLoop node chainID strategy cfg _ =>
      Cooperative (H0 := node) truth handed chainID strategy J /\ ScannerSound truth chainID strategy J /\
      head_range (H := node)
  | RunPublisher cfg _ =>
      (forall own, coop own env_db) /\ AdapterContract truth handed J /\
      RequireACK cfg = true /\ 0 <= MaxInFlight cfg
  | RunMonitor _ _ => (forall own, coop own env_db) /\ (forall own d, coop own (env_wait d))
  | RunAuditor builder cfg _ =>
      forall own w0, AuditCallsKeep builder (fun w => coop_rel truth handed own w0 w /\ J (w_ext w))
  end.

Lemma emit_coop own f : coop own (emit f).
Proof. intros w HJ. split; [by apply coop_same|done]. Qed.

Lemma monitor_coop own sec n :
  (forall own, coop own env_db) -> (forall own d, coop own (env_wait d)) -> coop own (runBufferMonitor n sec).
Proof.
  intros Hdb Hw. apply cooperates_with_preserves. intros w0.
  apply monitor_keeps; intros; apply cooperates_with_preserves; auto using emit_coop.
Qed.

(** every activity refines the ledger *)
Lemma perform_inv l0 a w : bounded l0 -> activity_ok a ->
  loop_inv truth handed J l0 w -> loop_inv truth handed J l0 (perform w a).
Proof.
  intros Hb Hok Hw.
  assert (forall (A : Type) (m : M (World E) A), coop (0, "") m -> loop_inv truth handed J l0 (m w).2) as Hcoop.
  { intros A m Hm. destruct Hw as [(l & Hr & Ha) HJ]. destruct (Hm w HJ) as [[_ Hl] HJ'].
    destruct (Hl l Ha) as (l' & Hr' & Ha'). split; [|done]. exists l'. split; [by etrans|done]. }
  destruct a as [node c s cfg n|cfg n|sec n|builder cfg n]; cbn [perform activity_ok] in *.
  - destruct Hok as (Hc & Hs & Hh). by apply (Run_reach (H0 := node) truth handed c s cfg J l0 n).
  - destruct Hok as (Hdb & Ha & Hack & Hm). apply Hcoop.
    by apply Publisher_Run_coop; [apply BufferRepo_contract|..].
  - destruct Hok. by apply Hcoop, monitor_coop.
  - enough (coop (0, "") (fun w => let s := Auditor_Run builder cfg n (w, None) in (s.1, s.2.1))) as Hm
      by exact (Hcoop _ _ Hm).
    intros w1 HJ. exact (Auditor_Run_keeps builder cfg _ n (w1, None) (conj (PreOrder_Reflexive w1) HJ)).
Qed.

Lemma history_inv l0 acts : forall w, bounded l0 -> Forall activity_ok acts ->
  loop_inv truth handed J l0 w -> loop_inv truth handed J l0 (history acts w).
Proof.
  induction acts as [|a acts IH]; intros w Hb Hok Hw; [done|].
  apply Forall_cons in Hok as [Ha Hok]. apply IH; [done..|]. by apply perform_inv.
Qed.
End System.

(** No deposit of any chain is lost, whatever the listener does.  The polling
    loops of any chains and scanners, the publisher in ACK mode, the monitor
    and the auditor run in any order, each as often and as long as one likes,
    ending in success, error or panic; a process restart starts new runs.  As
    long as each relies on the others only for ledger steps, every deposit of
    every block processed since start-up, of every chain and scanner, is
    buffered or was taken over by the Adapter. *)
Theorem system_nothing_lost {E : Type} `{Env E, Conn E, AuditEnv E, ChainSource E}
    (truth : Z -> string -> Z -> list key) (handed : E -> gset key) (J : E -> Prop)
    (acts : list activity) (w0 : World E) :
  bounded (ledger_of handed w0) -> J (w_ext w0) -> Forall (activity_ok truth handed J) acts ->
  nothing_lost truth handed w0 (history acts w0).
Proof.
  intros Hb HJ Hok. apply reachable_nothing_lost.
  apply (history_inv truth handed J (ledger_of handed w0) acts w0 Hb Hok).
  split; [apply reachable_refl|exact HJ].
Qed.

(** ** The loops [main] builds *)

(** the decoders of a chain are registered once each and behave *)
Lemma decodersForChain_ok `{Eth} chainType dk :
  registry_wf (decodersForChain chainType dk) /\
  forall t d, Lookup (decodersForChain chainType dk) t = Some d -> decoder_regular d.
Proof.
  split.
  - unfold decodersForChain. destruct (String.eqb _ _); apply Register_spec, NewRegistry_wf.
  - intros t d. rewrite decodersForChain_exclusive. destruct (String.eqb _ _); (destruct (decide _); [|done]);
      intros [= <-]; [apply EERC_regular|apply StandardERC20_regular].
Qed.

Lemma wired_scanner_config `{Eth} cfg kcp hasKcp dk chain blockOf :
  0 <= RPCMaxRetries cfg -> 0 <= cc_Decimals chain ->
  (forall a info, cc_Contracts chain !! a = Some info -> 0 <= c_Decimals info) ->
  (forall b, minRFC3339 <= i64 (b_Time (blockOf b)) < maxRFC3339) ->
  scanner_config (logScannerFor cfg kcp hasKcp dk chain) blockOf.
Proof.
  intros Hr Hd Hc Ht. split; cbn; [done..| |done]. intros reg [= <-]. apply decodersForChain_ok.
Qed.

(** C2. From the configuration to the ledger, for the two loops
    [newLoopBuilder] returns for a chain, with a non-negative RPC_MAX_RETRIES
    and non-negative decimals.  The node answers truthfully when it answers;
    every trace call of the trace scanner, after its retries, and every
    single-account lookup gives an answer (it may also not return); call trees
    keep to the EVM's depth limit, block times and heads are in range; the
    watched accounts do not change.
    Other node calls, the other database round trips ([Cursor], [HasMany],
    BEGIN), statements and commits may fail at will, and the other goroutines
    make any ledger steps meanwhile.  Then neither loop loses a deposit of a
    block it processes, native, token or internal. *)
Theorem built_loops_lose_nothing {E : Type}
    `{Env E, ETHClient E, TraceCaller E, Eth, Sched E, TraceHostLaws E, !RpcDialer E}
    (cfg : EnvConfig) (kcp : Z) (hasKcp : bool) (dk : Decryptor) (chain : ChainConfig)
    (chains : Z -> option chain_data) (d : chain_data) (handed : E -> gset key)
    (logRun traceRun : nat -> M (World E) unit) (ticks : nat) (w w1 : World E) :
  let truth := chain_truth chains in
  newLoopBuilder cfg kcp hasKcp dk chain w = (Ok (logRun, traceRun), w1) ->
  chains (cc_ChainID chain) = Some d -> cd_ls d = logScannerFor cfg kcp hasKcp dk chain ->
  0 <= RPCMaxRetries cfg -> 0 <= cc_Decimals chain ->
  (forall a info, cc_Contracts chain !! a = Some info -> 0 <= c_Decimals info) ->
  (forall b, minRFC3339 <= i64 (b_Time (cd_block d b)) < maxRFC3339) ->
  honest_node (cd_ls d) (cd_block d) (cd_logs d) (cd_watched d) ->
  honest_tracer (retryOpts cfg) (cd_block d) (cd_trace d) (cd_code d) ->
  accounts_readable chain (cd_watched d) True ->
  (forall t e, handed (ts_set t e) = handed e) ->
  (forall s, calls_cooperate truth handed (trace_inv (cd_code d)) (cc_ChainID chain, s)) ->
  cooperates_with truth handed (trace_inv (cd_code d)) (cc_ChainID chain, "trace") env_has ->
  (forall tx, cooperates_with truth handed (trace_inv (cd_code d)) (cc_ChainID chain, "trace") (CallTrace tx)) ->
  bounded (ledger_of handed w1) -> head_range -> ts_get (w_ext w1) = NewTraceState ->
  nothing_lost truth handed w1 (logRun ticks w1).2 /\ nothing_lost truth handed w1 (traceRun ticks w1).2.
Proof.
  cbv zeta. intros Hb Hch Hls Hr Hd Hct Ht Hn Htr Hacc Hset Hc Hhas Hct' Hbd Hh Hnew.
  unfold newLoopBuilder, bind, wrapf in Hb. destruct (rpc_Dial _ w) as [[[]|e|p] w']; [|done..].
  injection Hb as <- <- <-. rewrite Hls in Hn.
  pose proof (wired_scanner_config cfg kcp hasKcp dk chain (cd_block d) Hr Hd Hct Ht) as Hsc.
  set (J := trace_inv (cd_code d)). set (truth := chain_truth chains) in *.
  assert (J (w_ext w')) as HJ by (unfold J, trace_inv; rewrite Hnew; apply NewTraceState_mem).
  assert (loop_inv truth handed J (ledger_of handed w') w') as Hinv by (split; [apply reachable_refl|done]).
  split; apply reachable_nothing_lost.
  - pose proof (LogScanner_Cooperative (logScannerFor cfg kcp hasKcp dk chain) truth handed J (Hc "log")).
    assert (ScannerSound truth (cc_ChainID chain) (LogScanner (logScannerFor cfg kcp hasKcp dk chain)) J).
    { apply (LogScanner_Sound _ (cd_block d) (cd_logs d) (cd_watched d) truth J Hn Hsc).
      intros b. unfold truth, chain_truth. cbn. by rewrite Hch, Hls. }
    by apply (Run_reach truth handed (cc_ChainID chain) _ (loopCfgFor cfg chain) J _ ticks Hbd Hh w').
  - pose proof (TraceScanner_Cooperative chain (retryOpts cfg) (cd_block d) (cd_trace d) (cd_code d) (cd_watched d)
      truth handed Htr Hacc Hr Hset (Hc "trace") Hhas Hct').
    assert (ScannerSound truth (cc_ChainID chain) (TraceScannerObj chain (retryOpts cfg)) J).
    { apply (TraceScanner_Sound chain (retryOpts cfg) (cd_block d) (cd_trace d) (cd_code d) (cd_watched d)); try done.
      intros b. unfold truth, chain_truth. by rewrite Hch, Hls. }
    by apply (Run_reach truth handed (cc_ChainID chain) _ (loopCfgFor cfg chain) J _ ticks Hbd Hh w').
Qed.

(** ** A concrete system: both loops of a chain, the publisher, the monitor,
    the auditor *)
Module SystemWitness.
Import DecoderWitness.

Record ext := mkExt { x_clock : Z; x_trace : TraceState; x_taken : gset key; x_next : list key }.
Definition accounts9 (db : DB) : DB :=
  mkDB (deposit_buffer db) (buffer_seq db) (scan_cursor db) (notified db) [(1, "0x9")] (chain db) (token db).

#[export] Instance env : Env ext := {|
  env_wait _ := ret tt; ctx_Err := ret tt;
  time_Now := gets (fun w => {| sec := x_clock (w_ext w); nsec := 0 |});
  env_db := fun w => (Ok tt, mkWorld (accounts9 (w_db w)) (w_metrics w) (w_ext w));
  env_has := fun w => (Ok tt, mkWorld (accounts9 (w_db w)) (w_metrics w) (w_ext w));
  env_tx e := (None, e); env_commit e := (Committed, e); db_now e := x_clock e |}.

(** block 102: a plain transfer and a contract call that pays on *)
Definition blockOf (b : Z) : Block :=
  mkBlock 1700000000 b (if b =? 102 then [mkTx 55 (Some 9) [] 25; mkTx 77 (Some 7) [1] 0] else []).
#[export] Instance node : ETHClient ext := {|
  BlockNumber := ret 114; BlockByNumber b := ret (Some (blockOf b)); FilterLogs _ := ret [];
  CodeAt a := ret (if a =? 7 then [1] else []); TransactionSender _ _ _ := ret 8 |}.
#[export] Instance tracer : TraceCaller ext := {| CallTrace _ := ret TraceWitness.doc |}.
#[export] Instance sched : Sched ext := {| schedule cs := ret cs |}.
#[export] Instance host : TraceHost ext := {|
  ts_get := x_trace; ts_set t e := mkExt (x_clock e) t (x_taken e) (x_next e) |}.
#[export] Instance host_laws : TraceHostLaws ext.
Proof. by split. Qed.

(** an Adapter that takes over and acknowledges the keys of [x_next] *)
Definition take (w : World ext) : res pub_event * World ext :=
  match x_next (w_ext w) with
  | [] => (Ok PePoll, w)
  | k :: ks =>
      let e := w_ext w in
      if decide (k ∈ keys_of (w_db w))
      then (Ok (PeAck (key_id k)), mkWorld (w_db w) (w_metrics w)
             (mkExt (x_clock e) (x_trace e) ({[k]} ∪ x_taken e) ks))
      else (Ok PePoll, w)
  end.
#[export] Instance adapter : Conn ext := {|
  DialContext := ret tt; WriteMessage _ := ret tt; WritePing := ret tt; select_drain := take;
  select_graceful := ret None; drainCtx_Err := ret tt; jittered d := ret d |}.
#[export] Instance audit : AuditEnv ext := {| rand_Int63n _ := ret 0; audit_select _ _ := ret AeTick |}.
#[export] Instance source : ChainSource ext := {|
  src_ActiveChains := ret [mkChainInfo 1 "ETH" ""]; src_ChainConfig c := ret TraceWitness.chain0 |}.

Definition cfg0 : EnvConfig := envDefaults "postgres://db" "ws://adapter".
Definition opt : Options := retryOpts cfg0.
Definition ls : LogScannerCfg := logScannerFor cfg0 0 false NoopDecryptor TraceWitness.chain0.
Definition watched (a : string) : bool := String.eqb a "0x9".
Definition contract (a : Address) : bool := a =? 7.
Definition trace : Scanner ext := TraceScannerObj TraceWitness.chain0 opt.
Definition cd : chain_data := mkChainData ls blockOf (fun _ => []) (fun _ => TraceEndWitness.frame) contract watched.
Definition chains (c : Z) : option chain_data := if c =? 1 then Some cd else None.
Definition truth : Z -> string -> Z -> list key := chain_truth chains.
Abbreviation J := (trace_inv contract).

Lemma rows9 la : account_row (accounts9 (w_db TraceWitness.w9)) 1 la = watched la.
Proof. unfold account_row, watched. cbn. rewrite orb_false_r. exact (String.eqb_sym "0x9" la). Qed.

Lemma sys_honest : honest_node ls blockOf (fun _ => []) watched.
Proof.
  split.
  - by intros b w r [= <-].
  - by intros q w logs [= <-] _.
  - by intros b lg ?%not_elem_of_nil.
  - intros w w' [= <-] la. apply rows9.
  - by intros cs w order [= <-].
Qed.
Lemma honest_trace : honest_tracer opt blockOf (fun _ => TraceEndWitness.frame) contract.
Proof.
  split.
  - by intros b w r [= <-].
  - intros w a code [= <-]. unfold contract. by destruct (a =? 7).
  - by intros b tx w _.
  - intros b tx _. repeat constructor. by vm_compute.
Qed.
Lemma sys_readable : accounts_readable TraceWitness.chain0 watched True.
Proof. intros w la. apply rows9. Qed.
Lemma sys_times (b : Z) : minRFC3339 <= i64 (b_Time (blockOf b)) < maxRFC3339.
Proof. by vm_compute. Qed.
Lemma sys_config : scanner_config ls blockOf.
Proof. by apply wired_scanner_config; [..|apply sys_times]. Qed.

(** calls that touch neither cursors, rows, hand-overs nor the cache *)
Lemma still own {A} (m : M (World ext) A) :
  (forall w, scan_cursor (w_db (m w).2) = scan_cursor (w_db w) /\
     deposit_buffer (w_db (m w).2) = deposit_buffer (w_db w) /\ w_ext (m w).2 = w_ext w) ->
  cooperates_with truth x_taken J own m.
Proof.
  intros Hm w HJ. destruct (Hm w) as (Hc & Hb & He). rewrite He. split; [|done].
  split; [by rewrite Hc|]. intros l [H1 H2 H3]. exists l. split; [done|].
  split; [by rewrite Hc|unfold keys_of; by rewrite Hb|by rewrite He].
Qed.
Lemma calls own : calls_cooperate truth x_taken J own.
Proof. split; try done; intros; by apply still. Qed.
Lemma contract_ok : AdapterContract truth x_taken J.
Proof.
  split; try (intros; by apply still); try done.
  - intros own w HJ. cbn. unfold take. destruct (x_next (w_ext w)) as [|k ks]; [by split|].
    destruct (decide _) as [Hk|]; [|by split]. split; [|done].
    split; [done|]. intros l [Hc Hb Hh]. eexists. split; [apply rtc_once, (step_hand truth l k); by apply Hb|].
    split; cbn; [done..|by rewrite Hh].
  - intros w id k. cbn. unfold take. destruct (x_next (w_ext w)) as [|k' ks]; [done|].
    destruct (decide _); [|done]. intros [= <-] ->%(inj key_id). cbn. set_solver.
Qed.

Definition cfg : Publisher.Config := Publisher.New (Publisher.mkConfig "ws://adapter" 3000 5000 500 100 0 0 0 true 0 0).
Definition build (cc : ChainConfig) : M (World ext) (Scanner ext * Scanner ext * M (World ext) unit) :=
  ret (LogScanner ls, trace, ret tt).
Definition acts : list (activity (E := ext)) :=
  [RunLoop node 1 (LogScanner ls) EndWitness.cfg 1; RunPublisher cfg 4;
   RunLoop node 1 trace EndWitness.cfg 1; RunMonitor 15 2;
   RunAuditor build (Auditor.New (Auditor.mkConfig 300 1 1 1 0 0)) 1;
   RunLoop node 1 (LogScanner ls) EndWitness.cfg 3].

Lemma log_ok n : activity_ok truth x_taken J (RunLoop node 1 (LogScanner ls) EndWitness.cfg n).
Proof.
  split_and!; [by apply (LogScanner_Cooperative ls), calls| |by intros w k [= <-]].
  by apply (LogScanner_Sound ls blockOf (fun _ => []) watched truth J sys_honest sys_config).
Qed.
Lemma trace_ok n : activity_ok truth x_taken J (RunLoop node 1 trace EndWitness.cfg n).
Proof.
  split_and!; [| |by intros w k [= <-]].
  - apply (TraceScanner_Cooperative TraceWitness.chain0 opt blockOf (fun _ => TraceEndWitness.frame) contract watched);
      [apply honest_trace|apply sys_readable|done|done|apply calls|by apply still|intros; by apply still].
  - apply (TraceScanner_Sound TraceWitness.chain0 opt blockOf (fun _ => TraceEndWitness.frame) contract watched);
      [apply honest_trace|apply sys_readable|done..].
Qed.
Lemma auditor_ok c n : activity_ok truth x_taken J (RunAuditor build c n).
Proof.
  intros own w0. split; try (intros; apply cooperates_with_preserves; by apply still).
  - intros w r [Hw HJ]. split; [|done]. etrans; [exact Hw|by apply coop_same].
  - intros cc w Hw. split; [exact Hw|]. cbn. split_and!; [..|apply preserves_ret]; intros b conf;
      apply cooperates_with_preserves; [by apply LogScanner_coop, calls|].
    apply (TraceScanner_coop TraceWitness.chain0 opt blockOf (fun _ => TraceEndWitness.frame) contract watched);
      [apply honest_trace|apply sys_readable|done|done|apply calls|by apply still|intros; by apply still].
Qed.

Lemma acts_ok : Forall (activity_ok truth x_taken J) acts.
Proof.
  assert (forall own, cooperates_with truth x_taken J own env_db) as Hdb by (intros; by apply still).
  constructor; [apply log_ok|]. constructor; [split_and!; [done|apply contract_ok|done..]|].
  constructor; [apply trace_ok|]. constructor; [split; [done|intros; by apply still]|].
  constructor; [apply auditor_ok|]. constructor; [apply log_ok|constructor].
Qed.

Definition at100 : World ext :=
  mkWorld (mkDB [] 1 {[ (1, "log") := 100; (1, "trace") := 101 ]} 0 [] [] []) ∅
    (mkExt 1700000000 NewTraceState ∅ [(1, "0x55", -1)]).

(** the native deposit went to the Adapter, the internal one is waiting *)
Lemma system_nothing_lost_witness :
  nothing_lost truth x_taken at100 (history acts at100) /\
  keys_of (w_db (history acts at100)) = [(1, "0x77", -100000)] /\
  x_taken (w_ext (history acts at100)) = {[ (1, "0x55", -1) ]} /\
  scan_cursor (w_db (history acts at100)) !! (1, "trace") = Some 105.
Proof.
  split; [|split_and!; vm_compute; reflexivity].
  apply (system_nothing_lost truth x_taken J acts at100).
  - intros c s n. cbn. rewrite lookup_fmap, fmap_Some. intros (v & Hv & ->).
    apply lookup_insert_Some in Hv as [[_ <-]|[_ [_ <-]%lookup_singleton_Some]]; reflexivity.
  - apply NewTraceState_mem.
  - apply acts_ok.
Defined.

Lemma loop_guarantee_witness :
  coop_rel truth x_taken (1, "trace") at100 (Run 1 (LogScanner ls) EndWitness.cfg 1 at100).2 /\
  scan_cursor (w_db (Run 1 (LogScanner ls) EndWitness.cfg 1 at100).2) !! (1, "log") = Some 104.
Proof.
  split; [|vm_compute; reflexivity]. destruct (log_ok 1) as (Hc & Hs & Hh).
  apply (loop_guarantee truth x_taken J 1 (LogScanner ls) EndWitness.cfg 1 at100 (1, "trace") Hc Hs).
  - intros c s n. cbn. rewrite lookup_fmap, fmap_Some. intros (v & Hv & ->).
    apply lookup_insert_Some in Hv as [[_ <-]|[_ [_ <-]%lookup_singleton_Some]]; reflexivity.
  - exact Hh.
  - apply NewTraceState_mem.
  - discriminate.
  - intros x. split; try (intros; intros w Hw; exact Hw).
    intros b conf. apply LogScanner_preserves; intros; intros w Hw; exact Hw.
Defined.

#[export] Instance dialer : RpcDialer ext := {| rpc_Dial _ := ret tt; rpc_Close := ret tt |}.

(** the first database round trip fails (the clock shows 0 until then) *)
Definition started (w : World ext) : World ext := let e := w_ext w in
  mkWorld (w_db w) (w_metrics w) (mkExt 1700000000 (x_trace e) (x_taken e) (x_next e)).
Definition flaky : Env ext := {|
  env_wait _ := ret tt; ctx_Err := ret tt; time_Now := time_Now;
  env_db := fun w => if x_clock (w_ext w) =? 0 then (Err (ErrSentinel ConnRefused), started w) else env_db w;
  env_has := env_has;
  env_tx e := (None, e); env_commit e := (Committed, e); db_now e := x_clock e |}.

Lemma flaky_honest : honest_node (H := flaky) ls blockOf (fun _ => []) watched.
Proof.
  destruct sys_honest as [H1 H2 H3 H4 H5]. split; [exact H1|exact H2|exact H3| |exact H5].
  intros w w'. cbn. destruct (_ =? 0); [done|apply H4].
Qed.
Lemma flaky_trace : honest_tracer (H := flaky) opt blockOf (fun _ => TraceEndWitness.frame) contract.
Proof. destruct honest_trace as [H1 H2 _ H4]. split; [exact H1|exact H2| |exact H4]. by intros b tx w _. Qed.
Lemma flaky_calls own : calls_cooperate (H := flaky) truth x_taken J own.
Proof.
  split; try done; try (intros; by apply still). cbn. intros w HJ.
  destruct (_ =? 0); [split; [by apply coop_same|done]|]. exact (still own (@env_db ext env) (fun _ => conj eq_refl (conj eq_refl eq_refl)) w HJ).
Qed.

Definition down100 : World ext := mkWorld (w_db at100) ∅ (mkExt 0 NewTraceState ∅ []).
(** the first poll of each loop fails, the second one stores its deposit *)
Lemma built_loops_lose_nothing_witness : exists logRun traceRun,
  newLoopBuilder (H := flaky) cfg0 0 false NoopDecryptor TraceWitness.chain0 down100 = (Ok (logRun, traceRun), down100) /\
  nothing_lost truth x_taken down100 (logRun 1%nat down100).2 /\
  nothing_lost truth x_taken down100 (traceRun 1%nat down100).2 /\
  keys_of (w_db (logRun 1%nat down100).2) = [(1, "0x55", -1)] /\
  scan_cursor (w_db (logRun 1%nat down100).2) !! (1, "log") = Some 102 /\
  scan_cursor (w_db (logRun 0%nat down100).2) !! (1, "log") = Some 100 /\
  keys_of (w_db (traceRun 1%nat down100).2) = [(1, "0x77", -100000)] /\
  scan_cursor (w_db (traceRun 1%nat down100).2) !! (1, "trace") = Some 102.
Proof.
  eexists _, _. split; [reflexivity|]. apply and_assoc. split; [|split_and!; vm_compute; reflexivity].
  apply (built_loops_lose_nothing (H := flaky) cfg0 0 false NoopDecryptor TraceWitness.chain0 chains cd x_taken
    _ _ 1 down100 down100).
  - reflexivity.
  - reflexivity.
  - reflexivity.
  - done.
  - done.
  - intros a info. cbn. by rewrite lookup_empty.
  - apply sys_times.
  - apply flaky_honest.
  - apply flaky_trace.
  - intros w la. apply rows9.
  - done.
  - intros s. apply flaky_calls.
  - by apply still.
  - intros. by apply still.
  - intros c s n. cbn. rewrite lookup_fmap, fmap_Some. intros (v & Hv & ->).
    apply lookup_insert_Some in Hv as [[_ <-]|[_ [_ <-]%lookup_singleton_Some]]; reflexivity.
  - intros w n [= <-]. split; [done|reflexivity].
  - reflexivity.
Defined.
End SystemWitness.
