(* ===== verification/Interleave.v ===== *)
(** * Goroutines in parallel

    The contract between goroutines ([Spec.coop_rel]), closed.  A goroutine of
    the process is one of the programs of the other files; between two of its
    calls to the outside it runs alone on the tables, during a call the others
    run.  So what a goroutine has done is determined by what it found when
    each of its calls returned, and a step of the process is: one goroutine
    sees the tables as the others left them and runs to its next call.
    [sys_step] is that relation, over any number of goroutines that start,
    run, and are killed at any point; the owners of the other tables take steps
    of their own, and the Adapter speaks through the publisher's connection.

    A transaction is one step, at the moment of its COMMIT: its statements
    read nothing that the code uses.  The metrics registry a goroutine sees is
    its own here; it influences nothing else. *)
From stdpp Require Import base gmap list strings relations.
From Stdlib Require Import ZArith Lia Ascii String.
From stdpp Require Import base strings.
From S2P Require Import Prelude Decimal Errors Effect Retry Time Model Json Metrics Store BufferRepo Spec Scanner Loop LoopProps Protocol Publisher PublisherProps Repos ReposProps Decoder LogScanner LogScannerProps EndToEnd TraceScanner TraceProps TraceEnd Supervisor Auditor AuditorProps AuditEnd Config HttpServer Service Process System.

(** ** What is shared *)

(** the tables, and the deposits given over to the Adapter: acknowledged by it
    over the connection, or, in fire-and-forget mode, written to it *)
Record shared := mkShared { sh_db : DB; sh_taken : gset key }.
#[export] Instance shared_eq_dec : EqDecision shared.
Proof. solve_decision. Defined.

Definition as_world (sh : shared) : World (gset key) := mkWorld (sh_db sh) ∅ (sh_taken sh).
Definition sh_ledger (sh : shared) : ledger := ledger_of id (as_world sh).
Definition cursor_of (sh : shared) (own : Z * string) : option Z := scan_cursor (sh_db sh) !! own.

(** the accounts the listener watches; the Adapter does not change them while
    the system runs (a goroutine that saw a change would stop) *)
Class AccountTable := account_table : list (Z * string).

(** ** A goroutine's view

    Its own outside [L] (clock, node, connection, whatever varies with it),
    the Adapter's set, what it is still going to see: for each call, the
    shared state before and after it; and what it saw last. *)
Section View.
Context {L : Type} `{!AccountTable}.

Record view := mkView {
  v_local : L; v_taken : gset key; v_todo : list (shared * shared); v_since : shared }.

Definition set_local (l : L) (v : view) : view := mkView l (v_taken v) (v_todo v) (v_since v).
Definition with_local (l : L) (w : World view) : World view :=
  mkWorld (w_db w) (w_metrics w) (set_local l (w_ext w)).
Definition seen_by (w : World view) : shared := mkShared (w_db w) (v_taken (w_ext w)).

(** a call returns: the goroutine finds the shared state changed *)
Definition observe (w : World view) : option (World view) :=
  match v_todo (w_ext w) with
  | (before, after) :: rest =>
      if decide (before = seen_by w /\ accounts (sh_db after) = account_table)
      then Some (mkWorld (sh_db after) (w_metrics w) (mkView (v_local (w_ext w)) (sh_taken after) rest after))
      else None
  | [] => None
  end.

(** a call to the outside: it waits for the others, then answers as the
    goroutine's own outside does; without anything more to see it does not
    return *)
Definition outer {A} (m : M (World L) A) : M (World view) A := fun w =>
  match observe w with
  | None => (Panic "the call has not returned", w)
  | Some w1 =>
      let '(r, w2) := m (mkWorld (w_db w1) (w_metrics w1) (v_local (w_ext w1))) in
      (r, with_local (w_ext w2) w1)
  end.

(** an answer is the goroutine's own outside's, over the accounts as they are *)
Lemma outer_answers {A} (m : M (World L) A) w a : (outer m w).1 = Ok a ->
  accounts (w_db (outer m w).2) = account_table /\ exists wl, (m wl).1 = Ok a.
Proof.
  unfold outer, observe. destruct (v_todo (w_ext w)) as [|[b s] rest]; [done|]. case_decide as Hd; [|done].
  destruct Hd as [_ Hacc]. match goal with |- context [m ?x] => set (wl := x) end.
  destruct (m wl) as [r w2] eqn:Hm. intros [= ->]. split; [done|]. exists wl. by rewrite Hm.
Qed.

(** a call whose outside always answers may only not return *)
Lemma outer_outcome {A} (m : M (World L) A) w (P : A -> Prop) : (forall wl, outcome False (m wl) (fun a _ => P a)) ->
  outcome True (outer m w) (fun a w' => P a /\ accounts (w_db w') = account_table).
Proof.
  intros Hm. unfold outer, observe. destruct (v_todo (w_ext w)) as [|[b s] rest]; [done|].
  case_decide as Hd; [|done]. destruct Hd as [_ Hacc]. match goal with |- context [m ?x] => specialize (Hm x) end.
  by destruct (m _) as [[a|e|p] w2].
Qed.

(** stored deposits are given over *)
Definition given (Q : key -> bool) (w : World view) : list key := filter (fun k => Q k = true) (keys_of (w_db w)).
Definition give (Q : key -> bool) : M (World view) unit := modify (fun w => let v := w_ext w in
  mkWorld (w_db w) (w_metrics w) (mkView (v_local v) (list_to_set (given Q w) ∪ v_taken v) (v_todo v) (v_since v))).
(** by an acknowledgement of their id *)
Definition has_id (id : string) (k : key) : bool := String.eqb (key_id k) id.
(** by the message that carries them *)
Definition is_payload (raw : json) (k : key) : bool :=
  match raw with
  | JObj ((n1, JNum c) :: (n2, JStr tx) :: (n3, JNum li) :: _) =>
      String.eqb n1 "ChainID" && String.eqb n2 "TxHash" && String.eqb n3 "LogIndex" && bool_decide (k = (c, tx, li))
  | _ => false
  end.
Lemma is_payload_marshal d : is_payload (marshalDeposit d) (key_of d) = true.
Proof. cbn. by apply bool_decide_eq_true. Qed.
End View.
Arguments view : clear implicits.

(** ** The code on a view *)
Section Instances.
Context {L : Type} `{!AccountTable}.

#[export] Instance view_env `{Env L} : Env (view L) := {|
  env_wait d := outer (env_wait d); ctx_Err := outer ctx_Err; time_Now := outer time_Now; env_db := outer env_db;
  env_has := outer env_has;
  env_tx v := let '(o, l) := env_tx (v_local v) in (o, set_local l v);
  env_commit v := let '(o, l) := env_commit (v_local v) in (o, set_local l v);
  db_now v := db_now (v_local v) |}.
#[export] Instance view_node `{ETHClient L} : ETHClient (view L) := {|
  BlockNumber := outer BlockNumber; BlockByNumber n := outer (BlockByNumber n);
  FilterLogs q := outer (FilterLogs q); CodeAt a := outer (CodeAt a);
  TransactionSender tx h i := outer (TransactionSender tx h i) |}.
#[export] Instance view_tracer `{TraceCaller L} : TraceCaller (view L) := {| CallTrace tx := outer (CallTrace tx) |}.
#[export] Instance view_sched `{Sched L} : Sched (view L) := {| schedule cs := outer (schedule cs) |}.
#[export] Instance view_host `{TraceHost L} : TraceHost (view L) := {|
  ts_get v := ts_get (v_local v); ts_set t v := set_local (ts_set t (v_local v)) v |}.
#[export] Instance view_audit `{AuditEnv L} : AuditEnv (view L) := {|
  rand_Int63n n := outer (rand_Int63n n); audit_select i d := outer (audit_select i d) |}.
#[export] Instance view_dialer `{RpcDialer L} : RpcDialer (view L) := {|
  rpc_Dial url := outer (rpc_Dial url); rpc_Close := outer rpc_Close |}.
(** The connection, with acknowledgements ([ack]) or without.  Any id may be
    acknowledged, at any time; the code takes it for what it is. *)
Definition view_conn (ack : bool) `{Conn L} : Conn (view L) := {|
  DialContext := outer DialContext; WritePing := outer WritePing;
  WriteMessage raw := outer (WriteMessage raw) ;;; if ack then ret tt else give (is_payload raw);
  select_drain :=
    let* ev := outer select_drain in
    match ev with PeAck id => give (has_id id) | _ => ret tt end ;;; ret ev;
  select_graceful :=
    let* got := outer select_graceful in
    match got with Some id => give (has_id id) | None => ret tt end ;;; ret got;
  drainCtx_Err := outer drainCtx_Err; jittered d := outer (jittered d) |}.
End Instances.

(** ** What a goroutine is going to see *)
Fixpoint last_after (s : shared) (todo : list (shared * shared)) : shared :=
  match todo with [] => s | (_, a) :: rest => last_after a rest end.

Section Viewed.
Context {L : Type} `{!AccountTable}.
(** what the others do to the shared state, and what holds of it *)
Variables (Q : shared -> shared -> Prop) (P : shared -> Prop) (z : shared) (Jl : L -> Prop).

(** what is still to be seen is what the others may do; the last of it is [z];
    the goroutine's memory satisfies [Jl] *)
Record viewed (v : view L) : Prop := {
  pr_todo : Forall (fun x => Q x.1 x.2 /\ P x.2) (v_todo v);
  pr_since : P (v_since v);
  pr_last : last_after (v_since v) (v_todo v) = z;
  pr_local : Jl (v_local v)
}.

Lemma viewed_see (w w1 : World (view L)) : viewed (w_ext w) -> observe w = Some w1 ->
  viewed (w_ext w1) /\ Q (seen_by w) (seen_by w1) /\ v_since (w_ext w1) = seen_by w1.
Proof.
  intros [Ht Hs Hl HJ]. unfold observe. destruct (v_todo (w_ext w)) as [|[b a] rest] eqn:Htodo; [done|].
  case_decide as Hd; [|done]. destruct Hd as [-> _]. intros [= <-]. apply Forall_cons in Ht as [[Hr Hb] Ht].
  split_and!; [by split|by destruct a|by destruct a].
Qed.

Lemma viewed_local l v : viewed v -> Jl l -> viewed (set_local l v).
Proof. by intros [? ? ? _] ?. Qed.
End Viewed.

(** ** What a goroutine keeps *)
(** waiting in the buffer, or given over *)
Definition waiting (sh : shared) (k : key) : Prop := k ∈ keys_of (sh_db sh) \/ k ∈ sh_taken sh.

Section Keeps.
Context {L : Type} `{!AccountTable}.
Variable truth : Z -> string -> Z -> list key.

(** from one shared state to another by ledger steps *)
Definition evolves (b a : shared) : Prop := forall l, abs id (as_world b) l ->
  exists l', rtc (step truth) l l' /\ abs id (as_world a) l'.
(** what the others do, for a goroutine that owns a cursor or none *)
Definition rely (own : option (Z * string)) (b a : shared) : Prop :=
  evolves b a /\ forall c, own = Some c -> cursor_of a c = cursor_of b c.
(** what a goroutine does *)
Definition guarantee (own : option (Z * string)) (b a : shared) : Prop :=
  evolves b a /\ forall c, own <> Some c -> cursor_of a c = cursor_of b c.

#[export] Instance evolves_preorder : PreOrder evolves.
Proof.
  split.
  - intros b l Hl. by exists l.
  - intros x y z Hxy Hyz l Hl. destruct (Hxy l Hl) as (l1 & Hr1 & Hl1). destruct (Hyz l1 Hl1) as (l2 & Hr2 & Hl2).
    exists l2. split; [by etrans|done].
Qed.

Lemma rely_guarantee own own' b a : own = None \/ own' <> own -> guarantee own' b a -> rely own b a.
Proof. intros Hne [He Hc]. split; [done|]. intros c ->. apply Hc. by destruct Hne as [?|Hne]. Qed.

Lemma rely_trans own x y z : rely own x y -> rely own y z -> rely own x z.
Proof. intros [H1 C1] [H2 C2]. split; [by etrans|]. intros c Hc. by rewrite (C2 c Hc), (C1 c Hc). Qed.

(** the base of a ledger is free *)
Lemma sh_ledger_evolves b a l : rtc (step truth) (sh_ledger b) l -> abs id (as_world a) l -> evolves b a.
Proof.
  intros Hr Ha l0 [Hc Hb Hh]. destruct (rtc_rebase truth _ _ (l_base l0) Hr) as (b1 & Hr1).
  exists (mkLedger (l_cursor l) b1 (l_buffer l) (l_handed l)). split; [|by destruct Ha].
  replace l0 with (mkLedger (l_cursor (sh_ledger b)) (l_base l0) (l_buffer (sh_ledger b)) (l_handed (sh_ledger b))); [done|].
  destruct l0 as [cu ba bu ha]. cbn in *. f_equal; [done| |done].
  apply set_eq. intros k. rewrite elem_of_list_to_set. apply Hb.
Qed.

Lemma abs_sh_ledger sh : abs id (as_world sh) (sh_ledger sh).
Proof. split; cbn; [done| |done]. intros k. by rewrite elem_of_list_to_set. Qed.

Lemma evolves_taken b a : evolves b a -> sh_taken b ⊆ sh_taken a.
Proof.
  intros He. destruct (He _ (abs_sh_ledger b)) as (l & Hr & [_ _ Hh]). cbn in Hh. rewrite Hh. exact (handed_rtc _ _ _ Hr).
Qed.

Lemma evolves_waiting b a k : evolves b a -> waiting b k -> waiting a k.
Proof.
  intros He Hk. destruct (He _ (abs_sh_ledger b)) as (l & Hr & [_ Hb Hh]). cbn in Hh. unfold waiting. rewrite Hb, Hh.
  apply (waiting_rtc _ _ _ k Hr). cbn. by rewrite elem_of_list_to_set.
Qed.

(** giving over is a ledger step per deposit *)
Lemma hand_all (ks : list key) (l : ledger) : Forall (fun k => k ∈ l_buffer l) ks ->
  rtc (step truth) l (mkLedger (l_cursor l) (l_base l) (l_buffer l) (list_to_set ks ∪ l_handed l)).
Proof.
  intros Hks. induction Hks as [|k ks Hk _ IH].
  - replace (mkLedger _ _ _ _) with l; [done|]. destruct l. cbn. f_equal. set_solver.
  - eapply rtc_r; [exact IH|]. replace (list_to_set (k :: ks) ∪ l_handed l) with ({[k]} ∪ (list_to_set ks ∪ l_handed l))
      by (cbn; set_solver). by apply (step_hand truth (mkLedger _ _ _ _)).
Qed.

Abbreviation taken := (v_taken (L := L)).
Lemma give_steps Q (w : World (view L)) l : abs taken w l ->
  exists l', rtc (step truth) l l' /\ abs taken (give Q w).2 l'.
Proof.
  intros [Hc Hb Hh]. eexists. split; [apply (hand_all (given Q w))|].
  - apply Forall_forall. intros k [_ Hk]%list_elem_of_filter. by apply Hb.
  - split; cbn; [done..|]. by rewrite Hh.
Qed.

Definition base (v : view L) : ledger := sh_ledger (v_since v).

Variables (own : option (Z * string)) (z : shared) (Jl : L -> Prop).

Definition prepared : view L -> Prop := viewed (rely own) (fun s => bounded (sh_ledger s) /\ keyed (sh_db s)) z Jl.

(** ledger steps since the last time it saw the others' work *)
Abbreviation tracked := (tracked_inv truth taken prepared base).
(** and no cursor but its own written since *)
Definition others_kept (w : World (view L)) : Prop :=
  forall c, own <> Some c -> scan_cursor (w_db w) !! c = cursor_of (v_since (w_ext w)) c.
Definition goroutine_inv (w : World (view L)) : Prop := tracked w /\ others_kept w /\ keyed (w_db w).

(** an operation of the goroutine's own outside that leaves its memory alone *)
Definition own_call {A} (m : M (World L) A) : Prop := forall w, Jl (w_ext w) -> Jl (w_ext (m w).2).

(** a property of views that seeing the others' work keeps *)
Record observing (I : World (view L) -> Prop) : Prop := {
  ob_see : forall w w1, I w -> Jl (v_local (w_ext w)) -> observe w = Some w1 -> I w1;
  ob_local : forall w l, I w -> Jl l -> I (with_local l w);
  ob_memory : forall w, I w -> Jl (v_local (w_ext w));
  ob_emit : forall w r, I w -> I (mkWorld (w_db w) r (w_ext w))
}.

Lemma observe_local (w w1 : World (view L)) : observe w = Some w1 -> v_local (w_ext w1) = v_local (w_ext w).
Proof.
  unfold observe. destruct (v_todo (w_ext w)) as [|[b a] rest]; [done|]. case_decide; [|done]. by intros [= <-].
Qed.

Lemma outer_keeps I {A} (m : M (World L) A) : observing I -> own_call m -> preserves I (outer m).
Proof.
  intros HI Hm w Hw. unfold outer. destruct (observe w) as [w1|] eqn:Ho; [|done].
  pose proof (ob_memory _ HI _ Hw) as HJ. pose proof (ob_see _ HI _ _ Hw HJ Ho) as Hw1.
  specialize (Hm (mkWorld (w_db w1) (w_metrics w1) (v_local (w_ext w1)))).
  destruct (m _) as [r w2]. apply (ob_local _ HI); [done|]. apply Hm. cbn. by rewrite (observe_local _ _ Ho).
Qed.

Lemma prepared_see (w w1 : World (view L)) : prepared (w_ext w) -> observe w = Some w1 ->
  prepared (w_ext w1) /\ rely own (seen_by w) (seen_by w1) /\ v_since (w_ext w1) = seen_by w1.
Proof. apply viewed_see. Qed.

Lemma prepared_local l v : prepared v -> Jl l -> prepared (set_local l v).
Proof. apply viewed_local. Qed.

(** the world it sees is reachable from itself *)
Lemma tracked_see (w w1 : World (view L)) : prepared (w_ext w) -> observe w = Some w1 -> tracked w1.
Proof.
  intros Hp Ho. destruct (prepared_see _ _ Hp Ho) as (Hp1 & _ & Hs). split; [|done].
  unfold base. rewrite Hs. exists (sh_ledger (seen_by w1)). split; [done|].
  split; cbn; [done| |done]. intros k. by rewrite elem_of_list_to_set.
Qed.

Lemma tracked_observing : observing tracked.
Proof.
  split.
  - intros w w1 [_ Hp] _. by apply tracked_see.
  - intros w l [(lg & Hr & Ha) Hp] HJ. split; [by exists lg|by apply prepared_local].
  - intros w [_ Hp]. apply Hp.
  - intros w r [(lg & Hr & []) Hp]. split; [by exists lg|done].
Qed.

Lemma inv_observing : observing goroutine_inv.
Proof.
  split.
  - intros w w1 [[_ Hp] _] _ Ho. split; [by eapply tracked_see|].
    destruct (prepared_see _ _ Hp Ho) as (Hp1 & _ & Hs). split; [intros c _; by rewrite Hs|].
    pose proof (proj2 (pr_since _ _ _ _ _ Hp1)) as Hk. by rewrite Hs in Hk.
  - intros w l [Ht Hk] HJ. split; [by apply (ob_local _ tracked_observing)|done].
  - intros w [[_ Hp] _]. apply Hp.
  - intros w r [Ht Hk]. split; [by apply (ob_emit _ tracked_observing)|done].
Qed.

(** during a call the others do what they may *)
Lemma coop_observing c w0 : own = Some c ->
  observing (fun w => coop_rel truth taken c w0 w /\ prepared (w_ext w)).
Proof.
  intros Hown. split.
  - intros w w1 [Hc Hp] _ Ho. destruct (prepared_see _ _ Hp Ho) as (Hp1 & [He Hcur] & _). split; [|done].
    etrans; [exact Hc|]. split; [by apply (Hcur c)|]. intros l Ha.
    destruct (He l) as (l' & Hr & Ha'); [exact Ha|]. by exists l'.
  - intros w l [Hc Hp] HJ. split; [etrans; [exact Hc|by apply coop_same]|by apply prepared_local].
  - intros w [_ Hp]. apply Hp.
  - intros w r [Hc Hp]. split; [etrans; [exact Hc|by apply coop_same]|done].
Qed.

Lemma outer_coop c {A} (m : M (World L) A) : own = Some c -> own_call m ->
  cooperates_with truth taken prepared c (outer m).
Proof. intros Hc Hm. apply cooperates_with_preserves. intros w0. by apply outer_keeps; [apply coop_observing|]. Qed.
End Keeps.

(** ** The polling loops on a view *)
Section Loops.
Context {L : Type} `{!AccountTable, Env L, ETHClient L, TraceCaller L, Eth, Sched L}.
Variables (truth : Z -> string -> Z -> list key) (z : shared) (Jl : L -> Prop).

(** the calls of the loops leave the goroutine's memory alone *)
Record loop_calls : Prop := {
  lc_wait d : own_call Jl (env_wait d);
  lc_now : own_call Jl time_Now;
  lc_db : own_call Jl env_db;
  lc_has : own_call Jl env_has;
  lc_head : own_call Jl BlockNumber;
  lc_block n : own_call Jl (BlockByNumber n);
  lc_logs q : own_call Jl (FilterLogs q);
  lc_code a : own_call Jl (CodeAt a);
  lc_sender tx h i : own_call Jl (TransactionSender tx h i);
  lc_trace tx : own_call Jl (CallTrace tx);
  lc_sched cs : own_call Jl (schedule cs);
  lc_tx l : Jl l -> Jl (env_tx l).2;
  lc_commit l : Jl l -> Jl (env_commit l).2
}.
Hypothesis Hcalls : loop_calls.

Variables (chainID : Z) (strategy : Scanner (view L)) (cfg : LoopConfig).
Abbreviation owner := (Some (chainID, Name strategy)).
Hypothesis Hscan : forall I b conf, observing Jl I -> preserves I (ScanBlock strategy b conf).

Lemma tx_view (v : view L) :
  (env_tx v).2 = set_local (env_tx (v_local v)).2 v /\ (env_commit v).2 = set_local (env_commit (v_local v)).2 v.
Proof. cbn. by destruct (env_tx _), (env_commit _). Qed.

Lemma loop_cooperative : Cooperative truth (v_taken (L := L)) chainID strategy (prepared truth owner z Jl).
Proof.
  split; try (intros; apply (outer_coop _ _ _ _ (chainID, Name strategy)); [done|apply Hcalls]).
  - intros b conf. apply cooperates_with_preserves. intros w0. by apply Hscan, coop_observing.
  - intros v. destruct (tx_view v) as [-> _]. split; [done|]. intros Hp. apply prepared_local; [done|]. by apply Hcalls, Hp.
  - intros v. destruct (tx_view v) as [_ ->]. split; [done|]. intros Hp. apply prepared_local; [done|]. by apply Hcalls, Hp.
Qed.

Lemma loop_tracked : Tracked truth (v_taken (L := L)) strategy (prepared truth owner z Jl) base.
Proof.
  split; try (intros; apply (outer_keeps Jl); [apply tracked_observing|apply Hcalls]).
  - intros b conf. apply Hscan, tracked_observing.
  - intros v. by destruct (tx_view v) as [-> _].
  - intros v. by destruct (tx_view v) as [_ ->].
Qed.

(** no other cursor is written, and rows only under their own keys *)
Definition kept (w : World (view L)) : Prop :=
  others_kept owner w /\ keyed (w_db w) /\ prepared truth owner z Jl (w_ext w).

Lemma kept_observing : observing Jl kept.
Proof.
  split.
  - intros w w1 (_ & _ & Hp) _ Ho. destruct (prepared_see _ _ _ _ _ _ Hp Ho) as (Hp1 & _ & Hs).
    pose proof (proj2 (pr_since _ _ _ _ _ Hp1)) as Hk. rewrite Hs in Hk. split_and!; [|done..].
    intros c _. by rewrite Hs.
  - intros w l (Hk & Hd & Hp) HJ. split_and!; [done..|by apply prepared_local].
  - intros w (_ & _ & Hp). apply Hp.
  - by intros w r (Hk & Hd & Hp).
Qed.

Lemma save_kept b ds : preserves kept (SaveAndAdvance chainID (Name strategy) b ds).
Proof.
  intros w Hw. pose proof (outer_keeps Jl kept env_db kept_observing (lc_db Hcalls) w Hw) as (Hk & Hd & Hp).
  change ((outer env_db w).2) with (after_roundtrip w) in Hk, Hd, Hp.
  destruct (SaveAndAdvance_frame (fun v => v_since v = v_since (w_ext (after_roundtrip w)) /\
    prepared truth owner z Jl v)) with (c := chainID) (s := Name strategy) (block := b) (ds := ds) (w := w) as [Hs Hp2].
  - intros v [Hv Hpv]. destruct (tx_view v) as [-> _]. split; [done|]. apply prepared_local; [done|]. by apply Hcalls, Hpv.
  - intros v [Hv Hpv]. destruct (tx_view v) as [_ ->]. split; [done|]. apply prepared_local; [done|]. by apply Hcalls, Hpv.
  - done.
  - split_and!; [|by apply save_keyed|done]. intros c Hc. rewrite Hs, save_other_cursor by congruence. by apply Hk.
Qed.

Lemma loop_keeps `{!ScannerSound truth chainID strategy (prepared truth owner z Jl)} n :
  head_range (E := view L) -> preserves (goroutine_inv truth owner z Jl) (Run chainID strategy cfg n).
Proof.
  intros Hh w [Ht Hk]. pose proof loop_cooperative. pose proof loop_tracked. split.
  - apply (Run_tracked truth _ chainID strategy cfg (prepared truth owner z Jl) base n); [|done..].
    intros v Hv. apply (pr_since _ _ _ _ _ Hv).
  - enough (kept (Run chainID strategy cfg n w).2) as (Hk1 & Hd1 & _) by done.
    destruct Hk as [Hk Hd]. apply (Run_saves kept chainID strategy cfg n (head_range_u64 Hh)); [..|split_and!; [done..|apply Ht]].
    + split; try (intros; apply (outer_keeps Jl); [apply kept_observing|apply Hcalls]). intros. apply Hscan, kept_observing.
    + intros f. apply preserves_emit. intros w' r. apply (ob_emit _ _ kept_observing).
    + apply save_kept.
Qed.
End Loops.

(** the two scanners keep what seeing the others' work keeps *)
Section Scanners.
Context {L : Type} `{!AccountTable, Env L, ETHClient L, TraceCaller L, Eth, Sched L, TraceHostLaws L}.
Variables (Jl : L -> Prop) (I : World (view L) -> Prop).
Hypothesis HI : observing Jl I.
Hypothesis Hcalls : loop_calls Jl.

Lemma log_scan_keeps s b conf : preserves I (ScanBlock (LogScanner s) b conf).
Proof. apply LogScanner_preserves; intros; by apply (outer_keeps Jl), Hcalls. Qed.

#[export] Instance view_host_laws : TraceHostLaws (view L).
Proof. split. intros t v. exact (ts_get_set (E := L) t (v_local v)). Qed.

Lemma trace_scan_keeps (T : TraceState -> Prop) chain_ opt b conf :
  (forall l, Jl l <-> T (ts_get l)) ->
  (forall s : TS (view L), T s.2 -> T (TraceScanner_ScanBlock chain_ opt b conf s).2.2) ->
  preserves I (ScanBlock (TraceScannerObj chain_ opt) b conf).
Proof.
  intros HJ Hmem. apply (TraceScanner_keeps I T); try (intros; by apply (outer_keeps Jl), Hcalls).
  - intros w Hw. by apply HJ, (ob_memory _ _ HI).
  - done.
  - intros w t Hw Ht. apply (ob_local _ _ HI w (ts_set t (v_local (w_ext w))) Hw). apply HJ. by rewrite ts_get_set.
Qed.
End Scanners.

(** ** The publisher, the monitor and the auditor on a view

    They write no cursor: what they need of an invariant is [reading]. *)
Section Readers.
Context {L : Type} `{!AccountTable, Env L}.
Variables (truth : Z -> string -> Z -> list key) (z : shared).
Abbreviation any := (fun _ : L => True).

Record reading (I : World (view L) -> Prop) : Prop := {
  rd_observing : observing any I;
  rd_keyed w : I w -> keyed (w_db w);
  (* deleting what was given over, and giving over *)
  rd_delete w k : I w -> k ∈ v_taken (w_ext w) -> I (mkWorld (sql_delete k (w_db w)) (w_metrics w) (w_ext w));
  rd_give Q : preserves I (give Q);
  (* while the others run, what was waiting waits on *)
  rd_waiting w w1 k : I w -> observe w = Some w1 -> waiting (seen_by w) k -> waiting (seen_by w1) k;
  rd_taken w w1 : I w -> observe w = Some w1 -> v_taken (w_ext w) ⊆ v_taken (w_ext w1)
}.

Lemma inv_reading : reading (goroutine_inv truth None z any).
Proof.
  split; [apply inv_observing|..].
  - by intros w (_ & _ & Hk).
  - intros w k ([(l & Hr & Ha) Hp] & Hk & Hd) Hin.
    destruct (coop_delete truth (v_taken (L := L)) (0, "") w k Hin) as [_ Hc].
    split_and!; [split; [|done]|done|by apply keyed_delete].
    destruct (Hc l Ha) as (l' & Hr' & Ha'). exists l'. split; [by etrans|done].
  - intros Q w ([(l & Hr & Ha) [Hp1 Hp2 Hp3 Hp4]] & Hk & Hd).
    destruct (give_steps truth Q w l Ha) as (l' & Hr' & Ha').
    split_and!; [split; [exists l'; split; [by etrans|done]|by split]|done..].
  - intros w w1 k [[_ Hp] _] Ho. destruct (prepared_see _ _ _ _ _ _ Hp Ho) as (_ & [He _] & _).
    exact (evolves_waiting _ _ _ k He).
  - intros w w1 [[_ Hp] _] Ho. destruct (prepared_see _ _ _ _ _ _ Hp Ho) as (_ & [He _] & _). exact (evolves_taken _ _ _ He).
Qed.

Variable I : World (view L) -> Prop.
Hypothesis HI : reading I.

Lemma outer_any {A} (m : M (World L) A) : preserves I (outer m).
Proof. by apply (outer_keeps any); [apply HI|]. Qed.

Lemma emit_any f : preserves I (emit f).
Proof. apply preserves_emit. intros w r. apply (ob_emit _ _ (rd_observing _ HI)). Qed.

(** a stored deposit stays known, one given over stays so *)
Abbreviation known := (fun (w : World (view L)) k => waiting (seen_by w) k).
Abbreviation gone := (fun (w : World (view L)) k => k ∈ v_taken (w_ext w)).

Lemma known_observing k : observing any (fun w => I w /\ known w k).
Proof.
  pose proof (rd_observing _ HI) as Hob. split.
  - intros w w1 [Hw Hk] HJ Ho. split; [by apply (ob_see _ _ Hob w)|]. by apply (rd_waiting _ HI w).
  - intros w l [Hw Hk] HJ. split; [by apply (ob_local _ _ Hob)|done].
  - done.
  - intros w r [Hw Hk]. split; [by apply (ob_emit _ _ Hob)|done].
Qed.
Lemma gone_observing k : observing any (fun w => I w /\ gone w k).
Proof.
  pose proof (rd_observing _ HI) as Hob. split.
  - intros w w1 [Hw Hk] HJ Ho. split; [by apply (ob_see _ _ Hob w)|]. by apply (rd_taken _ HI w).
  - intros w l [Hw Hk] HJ. split; [by apply (ob_local _ _ Hob)|done].
  - done.
  - intros w r [Hw Hk]. split; [by apply (ob_emit _ _ Hob)|done].
Qed.

Abbreviation steady_ := (steady I known).
Lemma outer_steady {A} (m : M (World L) A) : steady_ (outer m).
Proof. split; [apply outer_any|]. intros k. by apply (outer_keeps any); [apply known_observing|]. Qed.
Lemma give_steady Q : steady_ (give Q).
Proof.
  split; [apply (rd_give _ HI)|]. intros k w [Hw Hk]. split; [by apply (rd_give _ HI)|].
  destruct Hk as [Hk|Hk]; [by left|right]. cbn. set_solver.
Qed.
Lemma steady_ret {A} (a : A) : steady_ (ret a).
Proof. split; [|intros k]; apply preserves_ret. Qed.
Lemma steady_bind {A B} (m : M (World (view L)) A) (k : A -> M (World (view L)) B) :
  steady_ m -> (forall a, steady_ (k a)) -> steady_ (bind m k).
Proof. intros [Hm Hm'] Hk. split; [|intros x]; apply preserves_bind; auto; intros a; apply Hk. Qed.
Hint Resolve outer_steady give_steady steady_ret : eff.

(** what is given over is with the Adapter *)
Lemma give_gone Q k (w : World (view L)) : Q k = true -> known w k -> gone (give Q w).2 k.
Proof.
  intros HQ [Hk|Hk]; cbn in *; [|set_solver]. apply elem_of_union_l, elem_of_list_to_set, list_elem_of_filter. done.
Qed.

Lemma ack_any c tx li (w : World (view L)) : I w -> gone w (c, tx, li) ->
  I (Ack c tx li w).2 /\ forall k, known w k -> known (Ack c tx li w).2 k.
Proof.
  intros Hw Hg. unfold Ack, wrapf. destruct (decide _); [|done]. unfold exec, bind.
  destruct (outer_keeps any _ env_db (gone_observing (c, tx, li)) (fun _ _ => Logic.I) w (conj Hw Hg)) as [Hw1 Hg1].
  pose proof (fun k Hk => outer_keeps any _ env_db (known_observing k) (fun _ _ => Logic.I) w (conj Hw Hk)) as Hk1.
  change (env_db w) with (outer env_db w). destruct (outer env_db w) as [[[]|err|p] w1]; cbn in *.
  2,3: split; [done|]; intros k Hk; by apply Hk1.
  split; [by apply (rd_delete _ HI w1)|]. intros k Hk. destruct (Hk1 k Hk) as [_ [Hin|Hin]]; [|by right].
  destruct (decide (k = (c, tx, li))) as [->|]; [by right|left]. by apply delete_keys.
Qed.

Context `{Conn L}.
Variable ack : bool.
#[local] Instance conn : Conn (view L) := view_conn ack.

Lemma select_acked (w : World (view L)) id k : I w -> known w k -> key_id k = id ->
  ((select_drain w).1 = Ok (PeAck id) -> gone (select_drain w).2 k) /\
  ((select_graceful w).1 = Ok (Some id) -> gone (select_graceful w).2 k).
Proof.
  intros Hw Hk Hid. assert (has_id id k = true) as Hh by by apply String.eqb_eq.
  split; cbn; unfold bind, ret.
  - pose proof (proj2 (outer_steady select_drain) k w (conj Hw Hk)) as [_ Hk1].
    destruct (outer select_drain w) as [[[| | |id'| | |]|e|p] w1]; try done. cbn [give modify fst snd].
    intros [= ->]. by apply (give_gone (has_id id) k w1).
  - pose proof (proj2 (outer_steady select_graceful) k w (conj Hw Hk)) as [_ Hk1].
    destruct (outer select_graceful w) as [[[id'|]|e|p] w1]; try done. cbn [give modify fst snd].
    intros [= ->]. by apply (give_gone (has_id id) k w1).
Qed.

Lemma conn_steady : (forall raw, steady_ (WriteMessage raw)) /\ steady_ select_drain /\ steady_ select_graceful.
Proof.
  split_and!; [intros raw|..]; cbn; (apply steady_bind; [apply outer_steady|]).
  - intros _. destruct ack; auto with eff.
  - intros ev. apply steady_bind; [|auto with eff]. destruct ev; auto with eff.
  - intros got. apply steady_bind; [|auto with eff]. destruct got; auto with eff.
Qed.

(** in either mode *)
Lemma publisher_keeps cfg n : RequireACK cfg = ack -> 0 <= MaxInFlight cfg -> preserves I (Publisher_Run cfg n).
Proof.
  intros Hack Hm. destruct conn_steady as (Hs1 & Hs2 & Hs3).
  assert (forall n, steady_ (buf_PendingAll n)) as Hpend.
  { intros m. split; [|intros k]; apply preserves_query; apply outer_steady. }
  apply (Publisher_Run_P I known gone cfg); try done; try (intros; apply outer_any).
  - split; try done; try (intros; apply outer_steady).
    + intros n' w ds w' Hw Hp. pose proof (proj1 (Hpend n') w Hw) as Hw'. rewrite Hp in Hw'.
      eapply Forall_impl; [exact (PendingAll_listed _ _ _ _ Hp (rd_keyed _ HI _ Hw'))|]. intros d Hd. by left.
    + apply ack_any.
    + intros w r. apply (ob_emit _ _ (rd_observing _ HI)).
    + intros w id k Hw Hk Hr Hid. by apply (select_acked w id k Hw Hk Hid).
    + intros w id k Hw Hk Hr Hid. by apply (select_acked w id k Hw Hk Hid).
  - rewrite Hack. intros Ha. split; [|apply outer_any]. intros w d w' Hw Hk. cbn. rewrite Ha. unfold bind.
    pose proof (proj2 (outer_steady (WriteMessage (marshalDeposit d))) (key_of d) w (conj Hw Hk)) as [_ Hk1].
    destruct (outer _ w) as [[[]|e|p] w1]; [|done..]. intros [= <-].
    by apply (give_gone (is_payload (marshalDeposit d)) (key_of d) w1); [apply is_payload_marshal|].
Qed.

Lemma monitor_any n sec : preserves I (runBufferMonitor n sec).
Proof. apply monitor_keeps; intros; [apply emit_any|apply outer_any..]. Qed.

Context `{ETHClient L, TraceCaller L, Eth, Sched L, TraceHostLaws L, AuditEnv L, !RpcDialer L, !Sha}.

Lemma auditor_keeps ecfg kcp hasKcp dk cfg n (last : option instant) :
  preserves I (fun w => let s := Auditor_Run (newAuditBuilder ecfg kcp hasKcp dk) cfg n (w, last) in (s.1, s.2.1)).
Proof.
  intros w Hw. cbn. refine (Auditor_Run_keeps (newAuditBuilder ecfg kcp hasKcp dk) cfg I n (w, last) Hw).
  assert (forall c, preserves I (src_ChainConfig c)) as Hcc.
  { intros c. cbn. unfold ChainConfig_of, tokensOf. eff; apply preserves_query, outer_any. }
  split; try (intros; apply outer_any); try done; try (intros; apply preserves_query, outer_any).
  { intros w' r. apply (ob_emit _ _ (rd_observing _ HI)). }
  intros cc w' Hw'. unfold newAuditBuilder, bind, wrapf.
  pose proof (outer_any (rpc_Dial (cc_RPCURL cc)) w' Hw') as Hd. change (rpc_Dial (cc_RPCURL cc) w') with (outer (rpc_Dial (cc_RPCURL cc)) w').
  assert (loop_calls any) as Hcalls by by split.
  destruct (outer _ w') as [[[]|e|p] w1]; cbn [fst snd] in *; [|done..].
  split; [done|]. split; [|split; [|apply outer_any]].
  - intros b conf. by apply (log_scan_keeps any); [apply HI|].
  - intros b conf. by apply (trace_scan_keeps any) with (T := fun _ => True); [apply HI|..].
Qed.
End Readers.
