(* ===== verification/Parallel.v ===== *)
(** * The process, interleaved

    Any number of the program's goroutines ([goroutine]: what [main] and the
    supervisor start) over the shared tables, as a step relation: one starts,
    one runs to its next call, one is killed, the owners of the other tables
    write them.  The publisher runs in the mode PUBLISHER_REQUIRE_ACK sets; a
    deposit is given over when the Adapter's acknowledgement reaches it, or,
    without acknowledgements, when the write succeeds.  The supervisor, the
    wake-up listener and the HTTP server write none of these tables; what the
    first does to the others is among the starts and kills.  With one living
    loop per cursor ([alone]) every execution refines the ledger, by rule
    induction; without that restriction see [Overlap.v], which has the theorems
    about both. *)
From stdpp Require Import base gmap list strings relations.
From Stdlib Require Import ZArith Lia Ascii String.
From stdpp Require Import base strings.
From S2P Require Import Prelude Decimal Errors Effect Retry Time Model Json Metrics Store BufferRepo Spec Scanner Loop LoopProps Protocol Publisher PublisherProps Repos ReposProps Decoder LogScanner LogScannerProps EndToEnd TraceScanner TraceProps TraceEnd Supervisor Auditor AuditorProps AuditEnd Config HttpServer Service Process System Interleave.

Section Parallel.
Context {L : Type} `{!AccountTable, Env L, Eth, Sched L, TraceHostLaws L, AuditEnv L, Conn L, !RpcDialer L, !Sha}.
Variables (cfg : EnvConfig) (kcp : Z) (hasKcp : bool) (dk : Decryptor) (chains : Z -> option chain_data).

Abbreviation truth := (chain_truth chains).
Abbreviation prog := (M (World (view L)) unit).

(** ** What is started *)

(** What the loops of a chain rely on.  The node tells the truth when it
    answers ([cs_node]; its calls may fail); a trace call may not return but
    does not fail ([cs_tracer]), nor does a single-account lookup
    ([cs_accounts]): the trace scanner drops transfers otherwise.  Nothing is
    asked of the other round trips, the statements and the commits. *)
Record chain_served (node : ETHClient L) (tracer : TraceCaller L) (chain : ChainConfig) (d : chain_data) : Prop := {
  cs_chain : chains (cc_ChainID chain) = Some d;
  cs_scanner : cd_ls d = logScannerFor cfg kcp hasKcp dk chain;
  cs_retries : 0 <= RPCMaxRetries cfg;
  cs_decimals : 0 <= cc_Decimals chain;
  cs_contracts : forall a info, cc_Contracts chain !! a = Some info -> 0 <= c_Decimals info;
  cs_times : forall b, minRFC3339 <= i64 (b_Time (cd_block d b)) < maxRFC3339;
  cs_node : honest_node (E := view L) (cd_ls d) (cd_block d) (cd_logs d) (cd_watched d);
  cs_tracer : honest_tracer (E := view L) (retryOpts cfg) (cd_block d) (cd_trace d) (cd_code d);
  cs_accounts : accounts_readable (E := view L) chain (cd_watched d) True;
  cs_head : head_range (E := view L);
  (* the calls leave the trace scanner's cache alone *)
  cs_calls : loop_calls (trace_inv (E := L) (cd_code d))
}.

(** a goroutine: the cursor it owns, how its memory starts, its program *)
Inductive goroutine : option (Z * string) -> (L -> Prop) -> prog -> Prop :=
| C_log node tracer chain d (w w' : World (view L)) logRun traceRun ticks :
    chain_served node tracer chain d ->
    newLoopBuilder cfg kcp hasKcp dk chain w = (Ok (logRun, traceRun), w') ->
    goroutine (Some (cc_ChainID chain, "log")) (fun _ => True) (logRun ticks)
| C_trace node tracer chain d (w w' : World (view L)) logRun traceRun ticks :
    chain_served node tracer chain d ->
    newLoopBuilder cfg kcp hasKcp dk chain w = (Ok (logRun, traceRun), w') ->
    goroutine (Some (cc_ChainID chain, "trace")) (fun l => ts_get l = NewTraceState) (traceRun ticks)
| C_publisher n :
    goroutine None (fun _ => True) (Publisher_Run (H1 := view_conn (PublisherRequireACK cfg)) (publisherConfig cfg) n)
| C_monitor n :
    goroutine None (fun _ => True) (runBufferMonitor n (BufferStatsIntervalS cfg))
| C_auditor (node : ETHClient L) (tracer : TraceCaller L) n :
    AuditEnabled cfg = true ->
    goroutine None (fun _ => True) (fun w =>
      let s := Auditor_Run (newAuditBuilder cfg kcp hasKcp dk) (auditConfig cfg) n (w, None) in (s.1, s.2.1)).

(** each keeps its side of the contract *)
Definition keeps_contract (own : option (Z * string)) (init : L -> Prop) (p : prog) : Prop :=
  exists Jl : L -> Prop, (forall l, init l -> Jl l) /\ forall z, preserves (goroutine_inv truth own z Jl) p.

Section Served.
Context (node : ETHClient L) (tracer : TraceCaller L) (chain : ChainConfig) (d : chain_data).
Hypothesis Hs : chain_served node tracer chain d.

Lemma served_config : scanner_config (logScannerFor cfg kcp hasKcp dk chain) (cd_block d).
Proof. destruct Hs. by apply wired_scanner_config. Qed.

(** both scanners report what the chain has, and leave alone what seeing the
    others' work leaves alone *)
Lemma log_served (J : view L -> Prop) : ScannerSound truth (cc_ChainID chain) (LogScanner (logScannerFor cfg kcp hasKcp dk chain)) J.
Proof.
  apply (LogScanner_Sound (logScannerFor cfg kcp hasKcp dk chain) (cd_block d) (cd_logs d) (cd_watched d)); [|apply served_config|].
  - rewrite <- (cs_scanner _ _ _ _ Hs). apply Hs.
  - intros b. unfold chain_truth. cbn. by rewrite (cs_chain _ _ _ _ Hs), (cs_scanner _ _ _ _ Hs).
Qed.

Lemma trace_served (J : view L -> Prop) : (forall v, J v -> trace_inv (cd_code d) (v_local v)) ->
  ScannerSound truth (cc_ChainID chain) (TraceScannerObj chain (retryOpts cfg)) J.
Proof.
  intros HJ. apply (ScannerSound_mono _ _ _ (trace_inv (E := view L) (cd_code d))); [exact HJ|].
  apply (TraceScanner_Sound chain (retryOpts cfg) (cd_block d) (cd_trace d) (cd_code d) (cd_watched d)); try apply Hs.
  intros b. unfold chain_truth. by rewrite (cs_chain _ _ _ _ Hs), (cs_scanner _ _ _ _ Hs).
Qed.

Lemma trace_served_keeps (I : World (view L) -> Prop) b conf : observing (trace_inv (cd_code d)) I ->
  preserves I (ScanBlock (TraceScannerObj chain (retryOpts cfg)) b conf).
Proof.
  intros HI. apply (trace_scan_keeps _ _ HI (cs_calls _ _ _ _ Hs) (trace_mem (cd_code d))); [done|].
  apply (trace_ScanBlock_mem chain (retryOpts cfg) (cd_block d) (cd_trace d) (cd_code d) (cd_watched d)); apply Hs.
Qed.

Lemma any_calls : loop_calls (fun _ : L => True).
Proof. by split. Qed.

Lemma log_loop_keeps n : keeps_contract (Some (cc_ChainID chain, "log")) (fun _ => True)
  (Run (cc_ChainID chain) (LogScanner (logScannerFor cfg kcp hasKcp dk chain)) (loopCfgFor cfg chain) n).
Proof.
  exists (fun _ => True). split; [done|]. intros z. pose proof (log_served (prepared truth (Some (cc_ChainID chain, "log")) z (fun _ => True))).
  apply (loop_keeps truth z _ any_calls _ (LogScanner (logScannerFor cfg kcp hasKcp dk chain))); [|assumption|apply Hs].
  intros I b conf HI. exact (log_scan_keeps _ _ HI any_calls _ b conf).
Qed.

Lemma trace_loop_keeps n : keeps_contract (Some (cc_ChainID chain, "trace")) (fun l => ts_get l = NewTraceState)
  (Run (cc_ChainID chain) (TraceScannerObj chain (retryOpts cfg)) (loopCfgFor cfg chain) n).
Proof.
  exists (trace_inv (cd_code d)). split; [intros l Hl; unfold trace_inv; rewrite Hl; apply NewTraceState_mem|]. intros z.
  pose proof (trace_served (prepared truth (Some (cc_ChainID chain, "trace")) z (trace_inv (cd_code d))) (fun v Hv => pr_local _ _ _ _ _ Hv)).
  apply (loop_keeps truth z _ (cs_calls _ _ _ _ Hs) _ (TraceScannerObj chain (retryOpts cfg))); [|assumption|apply Hs].
  intros I b conf. apply trace_served_keeps.
Qed.

(** the two programs [newLoopBuilder] returns *)
Lemma built_programs (w w' : World (view L)) lr tr : newLoopBuilder cfg kcp hasKcp dk chain w = (Ok (lr, tr), w') ->
  lr = Run (cc_ChainID chain) (LogScanner (logScannerFor cfg kcp hasKcp dk chain)) (loopCfgFor cfg chain) /\
  tr = Run (cc_ChainID chain) (TraceScannerObj chain (retryOpts cfg)) (loopCfgFor cfg chain).
Proof.
  unfold newLoopBuilder, bind, wrapf. destruct (rpc_Dial _ w) as [[[]|e|p] w1]; [|done..]. by intros [= <- <- _].
Qed.
End Served.

Lemma goroutine_keeps own init p : goroutine own init p -> keeps_contract own init p.
Proof.
  intros [node tracer chain d w w' lr tr n Hs Hb|node tracer chain d w w' lr tr n Hs Hb|n|n|node tracer n Ha].
  - apply built_programs in Hb as [-> _]. by apply (log_loop_keeps node tracer chain d).
  - apply built_programs in Hb as [_ ->]. by apply (trace_loop_keeps node tracer chain d).
  - exists (fun _ => True). split; [done|]. intros z. apply publisher_keeps; [apply (inv_reading truth)|done|]. cbn. destruct (Z.leb_spec (PublisherMaxInFlight cfg) 0); lia.
  - exists (fun _ => True). split; [done|]. intros z. apply monitor_any, (inv_reading truth).
  - exists (fun _ => True). split; [done|]. intros z. by apply auditor_keeps; [apply (inv_reading truth)|].
Qed.

(** ** The process *)

(** a started goroutine: what it has seen, call by call, and how it left the
    tables at the call it is in *)
Record thread := mkThread {
  t_own : option (Z * string); t_prog : prog; t_local : L;
  t_start : shared; t_seen : list (shared * shared); t_left : shared }.

(** the run up to the first call it has not seen the return of *)
Definition run_thread (p : prog) (l : L) (start : shared) (seen : list (shared * shared)) : World (view L) :=
  (p (mkWorld (sh_db start) ∅ (mkView l (sh_taken start) seen start))).2.

(** [alone]: no two that live own the same cursor *)
Inductive sys_step (alone : bool) : shared * list thread -> shared * list thread -> Prop :=
(* a goroutine starts *)
| S_start sh ths own init p l :
    goroutine own init p -> init l ->
    (alone = true -> Forall (fun t => t_own t = own -> own = None) ths) ->
    let w := run_thread p l sh [] in
    v_todo (w_ext w) = [] ->
    sys_step alone (sh, ths) (seen_by w, mkThread own p l sh [] (seen_by w) :: ths)
(* its call returns, and it runs to the next *)
| S_resume sh ths1 ths2 t :
    let seen := t_seen t ++ [(t_left t, sh)] in
    let w := run_thread (t_prog t) (t_local t) (t_start t) seen in
    v_todo (w_ext w) = [] ->
    sys_step alone (sh, ths1 ++ t :: ths2)
      (seen_by w, ths1 ++ mkThread (t_own t) (t_prog t) (t_local t) (t_start t) seen (seen_by w) :: ths2)
(* it has ended, or dies with the process, wherever it is *)
| S_kill sh ths1 ths2 t :
    sys_step alone (sh, ths1 ++ t :: ths2) (sh, ths1 ++ ths2)
(* the owners of the other tables write them *)
| S_tables sh ths db :
    scan_cursor db = scan_cursor (sh_db sh) -> deposit_buffer db = deposit_buffer (sh_db sh) ->
    sys_step alone (sh, ths) (mkShared db (sh_taken sh), ths).

(** ** Rule induction *)

Lemma last_after_snoc s seen b a : last_after s (seen ++ [(b, a)]) = a.
Proof. revert s. induction seen as [|[b' a'] seen IH]; intros s; [done|apply IH]. Qed.

(** block numbers fit, rows are under their own keys *)
Definition tables_ok (sh : shared) : Prop := bounded (sh_ledger sh) /\ keyed (sh_db sh).
Abbreviation seen_ok own := (Forall (fun x => rely truth own x.1 x.2 /\ tables_ok x.2)).

(** between two of its calls a goroutine makes ledger steps, and writes no
    cursor but its own *)
Lemma run_guarantee own init p l start seen :
  goroutine own init p -> init l -> tables_ok start -> seen_ok own seen ->
  let w := run_thread p l start seen in
  v_todo (w_ext w) = [] -> guarantee truth own (last_after start seen) (seen_by w) /\ keyed (sh_db (seen_by w)).
Proof.
  intros Hc Hl Hb Hseen. cbv zeta. intros Hdone. destruct (goroutine_keeps own init p Hc) as (Jl & Hinit & Hp).
  set (z := last_after start seen).
  destruct (Hp z (mkWorld (sh_db start) ∅ (mkView l (sh_taken start) seen start))) as [[(lg & Hr & Ha) Hpr] [Hk Hd]].
  - split; [split|split; [done|apply Hb]]; [|split; [done..|by apply Hinit]].
    exists (sh_ledger start). split; [done|exact (abs_sh_ledger start)].
  - fold (run_thread p l start seen) in *. set (w := run_thread p l start seen) in *.
    pose proof (pr_last _ _ _ _ _ Hpr) as Hz. rewrite Hdone in Hz. cbn in Hz. unfold base in Hr. rewrite Hz in Hr.
    split; [|done]. split; [by apply (sh_ledger_evolves truth _ _ lg)|]. intros c Hn. rewrite <- Hz. by apply Hk.
Qed.

(** a goroutine that lives: started as [goroutine] says, it saw what the
    others may do, and they have done no more since its call began *)
Record thread_ok (sh : shared) (t : thread) : Prop := {
  to_goroutine : exists init, goroutine (t_own t) init (t_prog t) /\ init (t_local t);
  to_start : tables_ok (t_start t);
  to_seen : seen_ok (t_own t) (t_seen t);
  to_left : rely truth (t_own t) (t_left t) sh
}.

(** the whole: the tables are reachable from where they were, every cursor
    has one living owner at most *)
Record sys_inv (sh0 : shared) (st : shared * list thread) : Prop := {
  si_evolves : evolves truth sh0 st.1;
  si_keyed : keyed (sh_db st.1);
  si_threads : Forall (thread_ok st.1) st.2;
  si_owners : NoDup (omap t_own st.2)
}.

Lemma thread_ok_rely sh sh' t : rely truth (t_own t) sh sh' -> thread_ok sh t -> thread_ok sh' t.
Proof. intros Hr [Hc Hs Hseen Hl]. split; [done..|]. by apply (rely_trans truth (t_own t) _ sh). Qed.

Lemma evolves_bounded b a : evolves truth b a -> bounded (sh_ledger b) -> bounded (sh_ledger a).
Proof.
  intros He Hb. destruct (He _ (abs_sh_ledger b)) as (l & Hr & Ha). pose proof (bounded_rtc truth _ _ Hr Hb) as Hl.
  intros c s n. cbn. pose proof (abs_cursor _ _ _ Ha) as Hc. cbn in Hc. rewrite Hc. apply Hl.
Qed.

(** the step that no goroutine takes *)
Lemma tables_evolve sh db : scan_cursor db = scan_cursor (sh_db sh) -> deposit_buffer db = deposit_buffer (sh_db sh) ->
  evolves truth sh (mkShared db (sh_taken sh)).
Proof.
  intros Hcur Hbuf lg [Hc Hb Hh]. exists lg. split; [done|]. split; cbn in *; [by rewrite Hcur| |done].
  intros k. unfold keys_of. by rewrite Hbuf.
Qed.

(** a goroutine's run is among what the others expect *)
Lemma others_expect own sh sh' ths : guarantee truth own sh sh' ->
  (forall c, own = Some c -> c ∉ omap t_own ths) -> Forall (thread_ok sh) ths -> Forall (thread_ok sh') ths.
Proof.
  intros Hg Hne. rewrite !Forall_forall. intros Ht t Hin. apply (thread_ok_rely sh); [|by apply Ht].
  apply (rely_guarantee truth _ own); [|done]. destruct (t_own t) as [c|] eqn:Hc; [right|by left].
  intros ->. apply (Hne c eq_refl). apply list_elem_of_omap. by exists t.
Qed.

Lemma sys_step_inv sh0 st st' : bounded (sh_ledger sh0) -> sys_step true st st' -> sys_inv sh0 st -> sys_inv sh0 st'.
Proof.
  intros Hb Hstep. destruct Hstep as [sh ths own init p l Hc Hl Hown w Hdone|sh ths1 ths2 t seen w Hdone|sh ths1 ths2 t|sh ths db Hcur Hbuf];
    intros Hinv.
  - destruct Hinv as [He Hk Ht Ho]. cbn in He, Hk, Ht, Ho.
    assert (tables_ok sh) as Hbs by (split; [exact (evolves_bounded _ _ He Hb)|done]).
    destruct (run_guarantee own init p l sh [] Hc Hl Hbs (Forall_nil_2 _) Hdone) as [Hg Hk']. fold w in Hg, Hk'. cbn in Hg.
    assert (forall c, own = Some c -> c ∉ omap t_own ths) as Hfree.
    { intros c -> Hin. apply list_elem_of_omap in Hin as (t & Ht' & Hoc). specialize (Hown eq_refl).
      rewrite Forall_forall in Hown. by specialize (Hown t Ht' Hoc). }
    split; cbn; [etrans; [exact He|apply Hg]|exact Hk'| |].
    + constructor; [split; cbn; [by exists init|done|done|by split]|]. by apply (others_expect own sh).
    + destruct own as [c|]; [|done]. apply NoDup_cons. split; [by apply Hfree|done].
  - destruct Hinv as [He Hk Ht Ho]. cbn in He, Hk, Ht, Ho. rewrite Forall_app, Forall_cons in Ht. destruct Ht as (Ht1 & Ht & Ht2).
    assert (tables_ok sh) as Hbs by (split; [exact (evolves_bounded _ _ He Hb)|done]).
    destruct Ht as [(init & Hc & Hl) Hst Hseen Hleft].
    assert (seen_ok (t_own t) seen) as Hseen' by (apply Forall_app; split; [done|by apply Forall_singleton]).
    destruct (run_guarantee (t_own t) init (t_prog t) (t_local t) (t_start t) seen Hc Hl Hst Hseen' Hdone) as [Hg Hk'].
    fold w in Hg, Hk'. unfold seen in Hg. rewrite last_after_snoc in Hg. rewrite omap_app in Ho. cbn in Ho.
    split; cbn; [etrans; [exact He|apply Hg]|exact Hk'| |by rewrite omap_app].
    assert (forall c, t_own t = Some c -> c ∉ omap t_own ths1 /\ c ∉ omap t_own ths2) as Hfree.
    { intros c Hown. rewrite Hown in Ho. apply NoDup_app in Ho as (_ & Hd & [Hn _]%NoDup_cons). split; [|done].
      intros Hin. apply (Hd c Hin). left. }
    apply Forall_app. split; [apply (others_expect (t_own t) sh); [done|by intros c Hc'; apply (Hfree c Hc')|done]|].
    constructor; [|apply (others_expect (t_own t) sh); [done|by intros c Hc'; apply (Hfree c Hc')|done]].
    split; cbn; [by exists init|done|done|by split].
  - destruct Hinv as [He Hk Ht Ho]. cbn in *. split; cbn; [done..| |].
    + rewrite Forall_app, Forall_cons in Ht. destruct Ht as (? & _ & ?). apply Forall_app. by split.
    + rewrite omap_app in *. cbn in Ho. destruct (t_own t); [|done].
      apply NoDup_app in Ho as (H1' & H2' & H3'). apply NoDup_cons in H3' as [_ H3']. apply NoDup_app. split_and!; [done| |done].
      intros x Hx Hin. apply (H2' x Hx). by right.
  - destruct Hinv as [He Hk Ht Ho]. cbn in *.
    assert (guarantee truth None sh (mkShared db (sh_taken sh))) as Hg.
    { split; [by apply tables_evolve|]. intros c _. unfold cursor_of. cbn. by rewrite Hcur. }
    split; cbn; [etrans; [exact He|apply Hg]|unfold keyed; by rewrite Hbuf|by apply (others_expect None sh)|done].
Qed.

Lemma sys_steps_inv sh0 st st' : bounded (sh_ledger sh0) -> rtc (sys_step true) st st' -> sys_inv sh0 st -> sys_inv sh0 st'.
Proof. intros Hb. induction 1; eauto using sys_step_inv. Qed.

(** with one living loop per cursor the whole refines the ledger *)
Lemma alone_invariant sh0 st : tables_ok sh0 -> rtc (sys_step true) (sh0, []) st -> sys_inv sh0 st.
Proof. intros [Hb Hk] Hr. apply (sys_steps_inv sh0 _ _ Hb Hr). split; [done..|constructor|constructor]. Qed.
End Parallel.

(** ** Executions

    A script of steps, run. *)
Section Script.
Context {L : Type} `{!AccountTable, Env L, Eth, Sched L, TraceHostLaws L, AuditEnv L, Conn L, !RpcDialer L, !Sha}.
Variables (cfg : EnvConfig) (kcp : Z) (hasKcp : bool) (dk : Decryptor) (chains : Z -> option chain_data) (alone : bool).

Inductive command :=
| Start (own : option (Z * string)) (p : M (World (view L)) unit) (l : L)
| Resume (i : nat)
| Kill (i : nat).

Definition command_ok (c : command) : Prop :=
  match c with
  | Start own p l => exists init, goroutine cfg kcp hasKcp dk chains own init p /\ init l
  | _ => True
  end.

Definition exec_command (st : shared * list (thread (L := L))) (c : command) : option (shared * list (thread (L := L))) :=
  let '(sh, ths) := st in
  match c with
  | Start own p l =>
      let w := run_thread p l sh [] in
      if decide ((alone = true -> Forall (fun t => t_own t = own -> own = None) ths) /\ v_todo (w_ext w) = [])
      then Some (seen_by w, mkThread own p l sh [] (seen_by w) :: ths) else None
  | Resume i =>
      match ths !! i with
      | None => None
      | Some t =>
          let seen := t_seen t ++ [(t_left t, sh)] in
          let w := run_thread (t_prog t) (t_local t) (t_start t) seen in
          if decide (v_todo (w_ext w) = [])
          then Some (seen_by w, take i ths ++
            mkThread (t_own t) (t_prog t) (t_local t) (t_start t) seen (seen_by w) :: drop (S i) ths)
          else None
      end
  | Kill i => match ths !! i with Some _ => Some (sh, take i ths ++ drop (S i) ths) | None => None end
  end.

Definition exec_script (st : shared * list (thread (L := L))) (cs : list command) : option (shared * list (thread (L := L))) :=
  foldl (fun o c => match o with Some st => exec_command st c | None => None end) (Some st) cs.

Lemma exec_command_sound st c st' : command_ok c -> exec_command st c = Some st' ->
  sys_step cfg kcp hasKcp dk chains alone st st'.
Proof.
  destruct st as [sh ths]. intros Hok. destruct c as [own p l|i|i]; cbn [exec_command].
  - cbv zeta. case_decide as Hd; [|done]. intros [= <-]. destruct Hok as (init & Hc & Hl), Hd. by eapply S_start.
  - destruct (ths !! i) as [t|] eqn:Hi; [|done]. cbv zeta. case_decide as Hd; [|done]. intros [= <-].
    apply take_drop_middle in Hi. revert Hi. generalize (take i ths), (drop (S i) ths). intros ths1 ths2 <-. by apply S_resume.
  - destruct (ths !! i) as [t|] eqn:Hi; [|done]. intros [= <-].
    apply take_drop_middle in Hi. revert Hi. generalize (take i ths), (drop (S i) ths). intros ths1 ths2 <-. by apply S_kill.
Qed.

Lemma exec_script_sound cs : forall st st', Forall command_ok cs -> exec_script st cs = Some st' ->
  rtc (sys_step cfg kcp hasKcp dk chains alone) st st'.
Proof.
  induction cs as [|c cs IH]; intros st st' Hok.
  - intros [= <-]. done.
  - apply Forall_cons in Hok as [Hc Hok]. unfold exec_script. cbn [foldl].
    destruct (exec_command st c) as [st1|] eqn:Hst.
    + intros Hr. eapply rtc_l; [by eapply exec_command_sound|by apply IH].
    + clear. intros Hn. exfalso. induction cs; [done|auto].
Qed.

Lemma exec_script_app cs1 cs2 st : exec_script st (cs1 ++ cs2) =
  match exec_script st cs1 with Some st1 => exec_script st1 cs2 | None => None end.
Proof. unfold exec_script. rewrite foldl_app. destruct (foldl _ _ cs1); [done|]. induction cs2; auto. Qed.
End Script.
Arguments command : clear implicits.

(** ** A concrete execution *)
Module ParallelWitness.
Import DecoderWitness SystemWitness.

#[export] Instance nine : AccountTable := [(1, "0x9")].
#[export] Instance sha : Sha := {| sha256_hex s := s |}.
(** with PUBLISHER_REQUIRE_ACK and without *)
Definition cfgA (ack : bool) : EnvConfig :=
  mkEnvConfig "postgres://db" "ws://adapter" 5 1000 50 100 3000 5000 300000 ":8080" 15 ack 30000 100 true 3600 1000 50 5 "" "warn".
Definition cfg1 : EnvConfig := cfgA true.
Definition logP : M (World (view ext)) unit :=
  Run 1 (LogScanner (logScannerFor cfg1 0 false NoopDecryptor TraceWitness.chain0)) (loopCfgFor cfg1 TraceWitness.chain0) 2.
Definition traceP : M (World (view ext)) unit :=
  Run 1 (TraceScannerObj TraceWitness.chain0 (retryOpts cfg1)) (loopCfgFor cfg1 TraceWitness.chain0) 2.
Definition pub (ack : bool) : M (World (view ext)) unit :=
  Publisher_Run (H1 := view_conn ack) (publisherConfig (cfgA ack)) 5.
Definition pubP : M (World (view ext)) unit := pub true.
Definition l0 : ext := mkExt 1700000000 NewTraceState ∅ [(1, "0x55", -1)].
Definition sh100 : shared := mkShared (accounts9 (w_db at100)) ∅.


Lemma table9 db la : accounts db = account_table -> account_row db 1 la = watched la.
Proof. intros Ha. rewrite <- (rows9 la). unfold account_row. by rewrite Ha. Qed.

(** each answer a goroutine gets is the node's *)
Lemma served ack : chain_served (cfgA ack) 0 false NoopDecryptor chains node tracer TraceWitness.chain0 cd.
Proof.
  split; try done.
  - split.
    + by intros b w r (_ & wl & [= <-])%outer_answers.
    + by intros q w lg (_ & wl & [= <-])%outer_answers _.
    + by intros b lg ?%not_elem_of_nil.
    + intros w w' Ho la. apply table9. pose proof (outer_answers env_db w tt) as Ha.
      change (env_db w) with (outer env_db w) in Ho. rewrite Ho in Ha. by apply Ha.
    + by intros cs w order (_ & wl & [= <-])%outer_answers.
  - split.
    + by intros b w r (_ & wl & [= <-])%outer_answers.
    + intros w a code (_ & wl & [= <-])%outer_answers. change (cd_code cd a) with (a =? 7). by destruct (a =? 7).
    + intros b tx w _. apply outcome_Do; [done|].
      pose proof (outer_outcome (CallTrace (hashHex (tx_Hash tx))) w (fun raw => unmarshalFrame raw = Ok TraceEndWitness.frame)) as Ho.
      specialize (Ho (fun _ => Logic.eq_refl)). cbn in *. destruct (outer _ w) as [[a|e|p] w']; [apply Ho|done..].
    + intros b tx _. repeat constructor. by vm_compute.
  - intros w. pose proof (outer_outcome env_has w (fun _ => True) (fun _ => Logic.I)) as Ho. cbn in *.
    destruct (outer _ w) as [[a|e|p] w']; [|done..]. intros la. by apply table9, Ho.
  - by intros w n (_ & wl & [= <-])%outer_answers.
  - split; try (intros; intros w Hw; exact Hw); by intros l Hl.
Qed.

(** a world in which the dial returns *)
Definition dialling : World (view ext) :=
  mkWorld (sh_db sh100) ∅ (mkView l0 ∅ [(sh100, sh100)] sh100).
Lemma built ack : { w' | newLoopBuilder (cfgA ack) 0 false NoopDecryptor TraceWitness.chain0 dialling =
  (Ok (Run 1 (LogScanner (logScannerFor cfg1 0 false NoopDecryptor TraceWitness.chain0)) (loopCfgFor cfg1 TraceWitness.chain0),
       Run 1 (TraceScannerObj TraceWitness.chain0 (retryOpts cfg1)) (loopCfgFor cfg1 TraceWitness.chain0)), w') }.
Proof. eexists. unfold newLoopBuilder, bind, wrapf. reflexivity. Qed.

Definition script : list (command ext) :=
  [Start (Some (1, "log")) logP l0; Start (Some (1, "trace")) traceP l0; Start None pubP l0] ++
  concat (replicate 5 [Resume 2; Resume 1]) ++ [Kill 1; Start (Some (1, "trace")) traceP l0] ++
  replicate 10 (Resume 2) ++ concat (replicate 9 [Resume 1; Resume 0]).

Lemma start_ok ack own p : (own, p) ∈ [(Some (1, "log"), logP); (Some (1, "trace"), traceP); (None, pub ack)] ->
  command_ok (cfgA ack) 0 false NoopDecryptor chains (Start own p l0).
Proof.
  intros [[= -> ->]|[[= -> ->]|[[= -> ->]|[]%not_elem_of_nil]%elem_of_cons]%elem_of_cons]%elem_of_cons.
  - exists (fun _ => True). split; [|done]. exact (C_log _ _ _ _ _ _ _ _ _ dialling _ _ _ 2 (served ack) (proj2_sig (built ack))).
  - exists (fun l => ts_get l = NewTraceState). split; [|done]. exact (C_trace _ _ _ _ _ _ _ _ _ dialling _ _ _ 2 (served ack) (proj2_sig (built ack))).
  - by exists (fun _ => True); split; [apply C_publisher|].
Qed.

Lemma script_ok : Forall (command_ok cfg1 0 false NoopDecryptor chains) script.
Proof. repeat constructor; try done; apply (start_ok true); set_solver. Qed.

Lemma bounded100 : bounded (sh_ledger sh100).
Proof.
  intros c s n. cbn. rewrite lookup_fmap, fmap_Some. intros (v & Hv & ->).
  apply lookup_insert_Some in Hv as [[_ <-]|[_ [_ <-]%lookup_singleton_Some]]; reflexivity.
Qed.

(** what the tables hold *)
Definition tables (sh : shared) : list key * list key * option Z * option Z :=
  (keys_of (sh_db sh), elements (sh_taken sh), cursor_of sh (1, "log"), cursor_of sh (1, "trace")).
(** both loops and the publisher interleaved; the first trace loop is killed
    inside block 102 and another started; the native deposit is acknowledged
    and deleted, the internal one is waiting *)
Lemma script_runs : tables ∘ fst <$> exec_script true (sh100, []) script =
  Some ([(1, "0x77", -100000)], [(1, "0x55", -1)], Some 102, Some 102).
Proof. vm_compute. reflexivity. Qed.

End ParallelWitness.
