(* ===== verification/Overlap.v ===== *)
(** * Overlapping loops

    [Parallel.v] lets one loop live per chain and scanner.  The supervisor
    does not quite keep to that: it forgets a chain it has cancelled before
    the chain's loops have ended, so a chain that is deactivated and activated
    again has an old loop and a new one for a while
    ([SupervisorProps.reactivation_overlaps]).  Then the cursor is
    written by both and may go back.  Here: nothing is lost for all that.  A
    loop stands only where every block since the start is covered, so
    whichever of them writes the cursor last writes a covered block.

    [sound] is what holds of the tables whoever runs, [grows] what a goroutine
    may see happen; no goroutine needs a cursor of its own. *)
From stdpp Require Import base gmap list strings relations.
From Stdlib Require Import ZArith Lia Ascii String.
From stdpp Require Import base strings.
From S2P Require Import Prelude Decimal Errors Effect Retry Time Model Json Metrics Store BufferRepo Spec Scanner Loop LoopProps Protocol Publisher PublisherProps Repos ReposProps Decoder LogScanner LogScannerProps EndToEnd TraceScanner TraceProps TraceEnd Supervisor Auditor AuditorProps AuditEnd Config HttpServer Service Process System Interleave Parallel.

(** ** Sound tables *)
Section Sound.
Variable truth : Z -> string -> Z -> list key.

Definition covered (sh : shared) (c : Z) (s : string) (b : Z) : Prop := forall k, k ∈ truth c s b -> waiting sh k.

(** what happens to the tables in time, whoever runs *)
Definition grows (b a : shared) : Prop := (forall k, waiting b k -> waiting a k) /\ sh_taken b ⊆ sh_taken a.
#[export] Instance grows_preorder : PreOrder grows.
Proof. split; [by split|]. intros x y z [H1 T1] [H2 T2]. split; [auto|by etrans]. Qed.

Lemma evolves_grows b a : evolves truth b a -> grows b a.
Proof. intros He. split; [intros k; by apply (evolves_waiting truth)|exact (evolves_taken _ _ _ He)]. Qed.

Lemma evolves_cursor b a own v : evolves truth b a -> cursor_of b own = Some v -> u64 v <> 0 ->
  exists v', cursor_of a own = Some v' /\ u64 v <= u64 v'.
Proof.
  intros He Hv Hnz. destruct (He _ (abs_sh_ledger b)) as (l & Hl & [Hc _ _]). cbn in Hc. pose proof (u64_range v) as [? ?].
  destruct (cursor_rtc truth _ _ own (u64 v) Hl) as (n & Hn & Hle);
    [cbn; unfold cursor_of in Hv; by rewrite lookup_fmap, Hv|lia|].
  rewrite <- Hc, lookup_fmap, fmap_Some in Hn. destruct Hn as (v' & Hv' & ->). by exists v'.
Qed.

Variable sh0 : shared.

(** every block since the start is covered up to [n] *)
Definition covered_to (c : Z) (s : string) (n : Z) (sh : shared) : Prop :=
  forall base, cursor_of sh0 (c, s) = Some base -> u64 base <> 0 ->
    u64 base <= n /\ forall b, u64 base < b <= n -> covered sh c s b.
(** the chain had not been started *)
Definition unstarted (c : Z) (s : string) : Prop := forall base, cursor_of sh0 (c, s) = Some base -> u64 base = 0.

Record sound (sh : shared) : Prop := {
  so_bounded : bounded (sh_ledger sh);
  so_keyed : keyed (sh_db sh);
  so_covered c s base : cursor_of sh0 (c, s) = Some base -> u64 base <> 0 ->
    exists n, cursor_of sh (c, s) = Some n /\ covered_to c s (u64 n) sh;
  so_genuine k : waiting sh k -> waiting sh0 k \/ exists c s b, k ∈ truth c s b
}.

Lemma sound_start : bounded (sh_ledger sh0) -> keyed (sh_db sh0) -> sound sh0.
Proof.
  intros Hb Hk. split; [done..| |by left]. intros c s base Hc Hnz. exists base. split; [done|].
  intros base' Hc' _. simplify_eq. split; [done|]. lia.
Qed.

Lemma sound_nothing_lost sh : sound sh -> nothing_lost truth id (as_world sh0) (as_world sh).
Proof.
  intros Hs c s base n b k Hb Hnz Hn Hr Hk. destruct (so_covered _ Hs c s base Hb Hnz) as (n' & Hn' & Hc).
  unfold cursor_of in Hn'. cbn in Hn. simplify_eq. exact (proj2 (Hc base Hb Hnz) b Hr k Hk).
Qed.

Lemma covered_to_grows c s n sh sh' : grows sh sh' -> covered_to c s n sh -> covered_to c s n sh'.
Proof.
  intros Hg Hc base Hb Hnz. destruct (Hc base Hb Hnz) as [Hle Hcov]. split; [done|].
  intros b Hr k Hk. apply Hg. by eapply Hcov.
Qed.

(** what reading a cursor tells a loop *)
Lemma sound_cursor sh c s : sound sh ->
  (cursor_of sh (c, s) = None -> unstarted c s) /\
  forall v, cursor_of sh (c, s) = Some v ->
    u64 v < maxBlock /\ covered_to c s (u64 v) sh /\ (u64 v = 0 -> unstarted c s).
Proof.
  intros Hs. assert (forall v, cursor_of sh (c, s) = Some v -> covered_to c s (u64 v) sh) as Hcov.
  { intros v Hv base Hb Hnz. destruct (so_covered _ Hs c s base Hb Hnz) as (n & Hn & Hc). simplify_eq. by apply Hc. }
  split.
  - intros Hn base Hb. destruct (decide (u64 base = 0)) as [|Hnz]; [done|].
    destruct (so_covered _ Hs c s base Hb Hnz) as (n & Hn' & _). congruence.
  - intros v Hv. split; [|split; [by apply Hcov|]].
    + apply (so_bounded _ Hs c s). cbn. unfold cursor_of in Hv. by rewrite lookup_fmap, Hv.
    + intros Hz base Hb. destruct (decide (u64 base = 0)) as [|Hnz]; [done|].
      destruct (Hcov v Hv base Hb Hnz) as [Hle _]. pose proof (u64_range base) as [? ?]. lia.
Qed.

(** ledger steps keep it *)
Lemma evolves_sound sh sh' : evolves truth sh sh' -> keyed (sh_db sh') -> sound sh -> sound sh'.
Proof.
  intros He Hkd Hs. pose proof (evolves_grows _ _ He) as Hg.
  destruct (He _ (abs_sh_ledger sh)) as (l & Hr & Ha). split; [|done|..].
  - intros c s n Hn. apply (bounded_rtc truth _ _ Hr (so_bounded _ Hs) c s n).
    pose proof (abs_cursor _ _ _ Ha) as <-. exact Hn.
  - intros c s base Hb Hnz. destruct (so_covered _ Hs c s base Hb Hnz) as (n & Hn & Hc).
    destruct (Hc base Hb Hnz) as [Hle _]. pose proof (u64_range base) as [? ?].
    destruct (evolves_cursor sh sh' (c, s) n He Hn) as (m' & Hm' & Hnm); [lia|]. exists m'. split; [done|]. intros base' Hb' _. simplify_eq. split; [lia|].
    intros b Hrange. destruct (decide (b <= u64 n)).
    + apply (covered_to_grows c s (u64 n) sh sh' Hg Hc base Hb Hnz). lia.
    + intros k Hk. apply (reachable_nothing_lost truth id (as_world sh) (as_world sh')) with (c := c) (s := s) (base := n) (n := m') (b := b);
        [by exists l|done|lia|done|lia|done].
  - intros k Hk. destruct Ha as [_ Hbuf Hh]. cbn in Hh. unfold waiting in Hk. rewrite Hbuf, Hh in Hk.
    destruct (genuine_rtc truth (list_to_set (keys_of (sh_db sh)) ∪ sh_taken sh) _ _ Hr) with (k := k) as [Hin|?]; [|done| |by right].
    + intros k' Hk'. left. cbn in Hk'. set_solver.
    + apply (so_genuine _ Hs). unfold waiting. set_solver.
Qed.

(** a committed block *)
Definition put (now : Z) (c : Z) (s : string) (b : Z) (ds : list Deposit) (sh : shared) : shared :=
  mkShared (save_db now c s b ds (sh_db sh)) (sh_taken sh).

Lemma put_grows now c s b ds sh : grows sh (put now c s b ds sh).
Proof. split; [|done]. intros k [Hk|Hk]; [left|by right]. cbn. rewrite save_db_keys. by left. Qed.

Lemma put_sound now c s b ds sh :
  0 <= b < maxBlock -> (forall k, k ∈ key_of <$> ds -> k ∈ truth c s b) ->
  covered_to c s b (put now c s b ds sh) -> sound sh -> sound (put now c s b ds sh).
Proof.
  intros Hb Hk Hcov Hs. pose proof (put_grows now c s b ds sh) as Hg.
  assert (u64 (i64 b) = b) as Hbb by (apply u64_i64; unfold maxBlock in *; width). split; [|apply keyed_save, Hs|..].
  - intros c' s' n. cbn. rewrite save_db_cursor, lookup_fmap, fmap_Some. intros (v & Hv & ->).
    apply lookup_insert_Some in Hv as [[_ <-]|[_ Hv]]; [lia|]. apply (so_bounded _ Hs c' s').
    cbn. by rewrite lookup_fmap, Hv.
  - intros c' s' base Hbase Hnz. unfold cursor_of. cbn. rewrite save_db_cursor.
    destruct (decide ((c, s) = (c', s'))) as [[= <- <-]|Hne].
    + rewrite lookup_insert_eq. eexists. split; [done|]. by rewrite Hbb.
    + rewrite lookup_insert_ne by done. destruct (so_covered _ Hs c' s' base Hbase Hnz) as (n & Hn & Hc).
      exists n. split; [done|]. by apply (covered_to_grows _ _ _ sh).
  - intros k. unfold waiting. cbn. rewrite save_db_keys. intros [[Hin|Hin]|Hin];
      [apply (so_genuine _ Hs); by left|right; exists c, s, b; auto|apply (so_genuine _ Hs); by right].
Qed.

(** the next block of a loop that stands at [n] *)
Lemma put_next now c s n ds sh : (forall k, k ∈ key_of <$> ds <-> k ∈ truth c s (n + 1)) ->
  covered_to c s n sh -> covered_to c s (n + 1) (put now c s (n + 1) ds sh).
Proof.
  intros Hk Hc base Hb Hnz. destruct (covered_to_grows _ _ _ _ _ (put_grows now c s (n + 1) ds sh) Hc base Hb Hnz) as [Hle Hcov].
  split; [lia|]. intros b Hr. destruct (decide (b = n + 1)) as [->|]; [|apply Hcov; lia].
  intros k Hin. left. cbn. rewrite save_db_keys. right. by apply Hk.
Qed.
End Sound.

(** ** On a goroutine's view *)
Section OnView.
Context {L : Type} `{!AccountTable}.
Variables (truth : Z -> string -> Z -> list key) (sh0 z : shared) (Jl : L -> Prop).

Abbreviation view_ok := (viewed grows (sound truth sh0) z Jl).
(** sound tables, nothing gone since it last saw the others' work *)
Record overlap_inv (w : World (view L)) : Prop := {
  ov_sound : sound truth sh0 (seen_by w);
  ov_grows : grows (v_since (w_ext w)) (seen_by w);
  ov_view : view_ok (w_ext w)
}.

Lemma overlap_see (w w1 : World (view L)) : overlap_inv w -> observe w = Some w1 ->
  overlap_inv w1 /\ grows (seen_by w) (seen_by w1).
Proof.
  intros [Hs Hg Hv] Ho. destruct (viewed_see _ _ _ _ _ _ Hv Ho) as (Hv1 & Hg1 & Hsince).
  split; [|done]. split; [rewrite <- Hsince; apply Hv1|by rewrite Hsince|done].
Qed.

(** a part of the tables that only grows is observed to *)
Lemma growing_observing (Q : shared -> Prop) : (forall b a, grows b a -> Q b -> Q a) ->
  observing Jl (fun w => overlap_inv w /\ Q (seen_by w)).
Proof.
  intros HQ. split.
  - intros w w1 [Hw Hq] _ Ho. destruct (overlap_see w w1 Hw Ho) as [Hw1 Hg]. split; [done|by eapply HQ].
  - intros w l [[Hs Hg Hv] Hq] HJ. split; [|done]. split; [done..|by apply viewed_local].
  - intros w [[_ _ Hv] _]. apply Hv.
  - by intros w r [[Hs Hg Hv] Hq].
Qed.

Lemma overlap_observing : observing Jl overlap_inv.
Proof.
  split.
  - intros w w1 Hw _ Ho. by apply (overlap_see w w1).
  - intros w l [Hs Hg Hv] HJ. split; [done..|by apply viewed_local].
  - intros w [_ _ Hv]. apply Hv.
  - by intros w r [Hs Hg Hv].
Qed.
End OnView.

Lemma overlap_reading {L : Type} `{!AccountTable} truth sh0 z :
  reading (overlap_inv (L := L) truth sh0 z (fun _ => True)).
Proof.
  assert (forall (w w' : World (view L)), overlap_inv truth sh0 z (fun _ => True) w ->
    viewed grows (sound truth sh0) z (fun _ => True) (w_ext w') -> v_since (w_ext w') = v_since (w_ext w) ->
    (forall l, abs (v_taken (L := L)) w l -> exists l', rtc (step truth) l l' /\ abs (v_taken (L := L)) w' l') ->
    keyed (w_db w') -> overlap_inv truth sh0 z (fun _ => True) w') as Hstep.
  { intros w w' [Hs Hg Hv] Hv' Hsi He Hk.
    assert (evolves truth (seen_by w) (seen_by w')) as Hev.
    { intros l Hl. destruct (He l Hl) as (l' & Hr & Ha). by exists l'. }
    split; [by apply (evolves_sound truth sh0 _ _ Hev)| |done].
    rewrite Hsi. etrans; [exact Hg|exact (evolves_grows _ _ _ Hev)]. }
  split; [apply overlap_observing|..].
  - intros w [Hs _ _]. exact (so_keyed _ _ _ Hs).
  - intros w k Hw Hk. pose proof (ov_view _ _ _ _ _ Hw) as Hv. apply (Hstep w); [done..| |].
    + exact (proj2 (coop_delete truth (v_taken (L := L)) (0, "") w k Hk)).
    + apply keyed_delete, (so_keyed _ _ _ (ov_sound _ _ _ _ _ Hw)).
  - intros Q w Hw. destruct (ov_view _ _ _ _ _ Hw) as [V1 V2 V3 V4]. apply (Hstep w); [done|by split|done| |].
    + intros l. apply give_steps.
    + exact (so_keyed _ _ _ (ov_sound _ _ _ _ _ Hw)).
  - intros w w1 k Hw Ho. by apply (overlap_see _ _ _ _ w w1 Hw Ho).
  - intros w w1 Hw Ho. apply (overlap_see _ _ _ _ w w1 Hw Ho).
Qed.

(** ** A loop among others of its kind *)
Section OverlapLoop.
Context {L : Type} `{!AccountTable, Env L, ETHClient L, TraceCaller L, Eth, Sched L}.
Variables (truth : Z -> string -> Z -> list key) (sh0 z : shared) (Jl : L -> Prop).
Hypothesis Hcalls : loop_calls Jl.
Variables (chainID : Z) (strategy : Scanner (view L)) (cfg : LoopConfig).
Hypothesis Hscan : forall I b conf, observing Jl I -> preserves I (ScanBlock strategy b conf).

Abbreviation s := (Name strategy).
Abbreviation I := (overlap_inv truth sh0 z Jl).
Abbreviation view_ok := (viewed grows (sound truth sh0) z Jl).
Abbreviation at_ n := (fun w => covered_to truth sh0 chainID s n (seen_by w)).

Lemma observing_calls (J : World (view L) -> Prop) : observing Jl J -> calls_keep strategy J.
Proof. intros HJ. split; intros; first [by apply Hscan|by apply (outer_keeps Jl), Hcalls]. Qed.

Lemma stands_observing n : observing Jl (fun w => I w /\ at_ n w).
Proof. apply (growing_observing _ _ _ _ (covered_to truth sh0 chainID s n)). intros b a. apply covered_to_grows. Qed.

(** a save, by what becomes of the tables *)
Lemma save_overlap b ds (Pre : World (view L) -> Prop) (Post : World (view L) -> Prop) :
  observing Jl (fun w => I w /\ Pre w) ->
  (forall w now, I w -> Pre w -> sound truth sh0 (put now chainID s b ds (seen_by w)) /\
    forall w', seen_by w' = put now chainID s b ds (seen_by w) -> Post w') ->
  hoare (fun w => I w /\ Pre w) (SaveAndAdvance chainID s b ds) (fun r w => I w /\ (r = Ok tt -> Post w)).
Proof.
  intros Hob Hput w Hw. pose proof (outer_keeps Jl _ env_db Hob (lc_db _ Hcalls) w Hw) as [[Hs Hg Hv] Hpre].
  change ((outer env_db w).2) with (after_roundtrip w) in Hs, Hg, Hv, Hpre.
  pose proof (SaveAndAdvance_cases chainID s b ds w) as Hc.
  pose proof (SaveAndAdvance_frame (fun v => v_taken v = v_taken (w_ext (after_roundtrip w)) /\
    v_since v = v_since (w_ext (after_roundtrip w)) /\ view_ok v)) as Hf.
  specialize (Hf ltac:(intros v (? & ? & Hvv); destruct (tx_view v) as [-> _]; split_and!; [done..|];
    apply viewed_local; [done|]; by apply Hcalls, Hvv)).
  specialize (Hf ltac:(intros v (? & ? & Hvv); destruct (tx_view v) as [_ ->]; split_and!; [done..|];
    apply viewed_local; [done|]; by apply Hcalls, Hvv)).
  specialize (Hf chainID s b ds w (conj eq_refl (conj eq_refl Hv))). cbv zeta in Hc.
  destruct (SaveAndAdvance _ _ _ _ w) as [r w2]. cbn [fst snd] in *. destruct Hf as (Ht & Hsi & Hv2).
  assert (w_db w2 = w_db (after_roundtrip w) -> I w2) as Hsame.
  { intros Hdb. assert (seen_by w2 = seen_by (after_roundtrip w)) as He by (unfold seen_by; by rewrite Hdb, Ht).
    split; [by rewrite He|by rewrite He, Hsi|done]. }
  assert (forall now, w_db w2 = save_db now chainID s b ds (w_db (after_roundtrip w)) -> I w2 /\ Post w2) as Hsaved.
  { intros now Hdb. assert (seen_by w2 = put now chainID s b ds (seen_by (after_roundtrip w))) as He
      by (unfold seen_by, put; by rewrite Hdb, Ht).
    destruct (Hput (after_roundtrip w) now (Build_overlap_inv _ _ _ _ _ Hs Hg Hv) Hpre) as [Hs2 Hpost].
    split; [|by apply Hpost]. split; [by rewrite He| |done].
    rewrite He, Hsi. etrans; [exact Hg|apply put_grows]. }
  destruct Hc as [(_ & Hdb & _)|[([err ->] & [Hdb|[Hdb _]])|([p ->] & ->)]].
  - destruct (Hsaved _ Hdb). auto.
  - split; [by apply Hsame|done].
  - destruct (Hsaved _ Hdb). auto.
  - split; [by apply Hsame|done].
Qed.

Lemma overlap_logic `{!ScannerSound truth chainID strategy view_ok} :
  loop_logic chainID strategy I (fun n w => at_ n w) (fun _ => unstarted sh0 chainID s) (truth chainID s).
Proof.
  split.
  - apply observing_calls, overlap_observing.
  - intros n. apply observing_calls, stands_observing.
  - intros f. apply preserves_emit. intros w r. apply (ob_emit _ _ (overlap_observing _ _ _ _)).
  - intros n f. apply preserves_emit. intros w r. apply (ob_emit _ _ (stands_observing n)).
  - intros b conf w evs [_ _ Hv] Hr. exact (scan_sound truth chainID strategy _ b conf w evs Hv Hr).
  - intros n ds Hb Hk. apply (save_overlap _ _ (at_ n) (at_ (n + 1))); [apply stands_observing|].
    intros w now [Hs _ _] Hn. pose proof (put_next truth sh0 now chainID s n ds _ Hk Hn) as Hnext. split; [|by intros w' ->].
    apply put_sound; [done|intros k; apply Hk|done..].
  - intros b Hb w [Hw Hu]. refine (proj1 (save_overlap b [] (fun _ => True) (fun _ => True) _ _ w (conj Hw Logic.I))).
    + apply (growing_observing _ _ _ _ (fun _ => True)). done.
    + intros w' now [Hs _ _] _. split; [|done]. apply put_sound; [done|by intros k ?%not_elem_of_nil| |done].
      intros base Hbase Hnz. by apply Hu in Hbase.
  - intros w Hw. pose proof (outer_keeps Jl _ env_db (overlap_observing _ _ _ _) (lc_db _ Hcalls) w Hw) as Hw1.
    unfold Cursor, query, query_at, wrapf, bind. change (env_db w) with (outer env_db w).
    destruct (outer env_db w) as [[[]|err|p] w1]; cbn in *; [|by split..]. split; [done|].
    destruct (sound_cursor truth sh0 _ chainID s (ov_sound _ _ _ _ _ Hw1)) as [Hnone Hsome].
    destruct (scan_cursor (w_db w1) !! (chainID, s)) as [v|] eqn:Hv; cbn; intros c [= <-]; [|split; [width|auto]].
    destruct (Hsome v Hv) as (Hlt & Hc & Hz). split; [apply u64_range|].
    destruct (decide (u64 v = 0)) as [He|]; [rewrite He; auto|auto].
Qed.

Lemma overlap_loop_keeps `{!ScannerSound truth chainID strategy view_ok} n :
  head_range (E := view L) -> preserves I (Run chainID strategy cfg n).
Proof. intros Hh. by eapply Run_logic; [apply overlap_logic|]. Qed.
End OverlapLoop.

(** ** The process, loops overlapping *)
Section System.
Context {L : Type} `{!AccountTable, Env L, Eth, Sched L, TraceHostLaws L, AuditEnv L, Conn L, !RpcDialer L, !Sha}.
Variables (cfg : EnvConfig) (kcp : Z) (hasKcp : bool) (dk : Decryptor) (chains : Z -> option chain_data).
Variable sh0 : shared.

Abbreviation truth := (chain_truth chains).
Abbreviation goroutine := (goroutine cfg kcp hasKcp dk chains).
Abbreviation sound := (sound truth sh0).

(** every goroutine of the process keeps the tables sound, whoever else runs *)
Lemma goroutine_overlaps own init (p : M (World (view L)) unit) : goroutine own init p ->
  exists Jl : L -> Prop, (forall l, init l -> Jl l) /\ forall z, preserves (overlap_inv truth sh0 z Jl) p.
Proof.
  intros [node tracer chain d w w' lr tr n Hs Hb|node tracer chain d w w' lr tr n Hs Hb|n|n|node tracer n Ha].
  - apply built_programs in Hb as [-> _]. exists (fun _ => True). split; [done|]. intros z.
    pose proof (log_served _ _ _ _ _ node tracer chain d Hs (viewed grows sound z (fun _ => True))).
    apply (overlap_loop_keeps truth sh0 z _ (any_calls _ _) _ (LogScanner (logScannerFor cfg kcp hasKcp dk chain))); [|assumption|apply Hs].
    intros I b conf HI. exact (log_scan_keeps _ _ HI (any_calls _ _) _ b conf).
  - apply built_programs in Hb as [_ ->]. exists (trace_inv (cd_code d)).
    split; [intros l Hl; unfold trace_inv; rewrite Hl; apply NewTraceState_mem|]. intros z.
    pose proof (trace_served _ _ _ _ _ node tracer chain d Hs (viewed grows sound z (trace_inv (cd_code d))) (fun v Hv => pr_local _ _ _ _ _ Hv)).
    apply (overlap_loop_keeps truth sh0 z _ (cs_calls _ _ _ _ _ _ _ _ _ Hs) _ (TraceScannerObj chain (retryOpts cfg))); [|assumption|apply Hs].
    intros I b conf HI. exact (trace_served_keeps _ _ _ _ _ node tracer chain d Hs I b conf HI).
  - exists (fun _ => True). split; [done|]. intros z. apply publisher_keeps; [apply (overlap_reading truth)|done|].
    cbn. destruct (Z.leb_spec (PublisherMaxInFlight cfg) 0); lia.
  - exists (fun _ => True). split; [done|]. intros z. apply monitor_any, (overlap_reading truth).
  - exists (fun _ => True). split; [done|]. intros z. by apply auditor_keeps; [apply (overlap_reading truth)|].
Qed.

Abbreviation seen_sound := (Forall (fun x => grows x.1 x.2 /\ sound x.2)).

Lemma run_overlaps own init (p : M (World (view L)) unit) l start seen :
  goroutine own init p -> init l -> sound start -> seen_sound seen ->
  let w := run_thread p l start seen in
  v_todo (w_ext w) = [] -> sound (seen_by w) /\ grows (last_after start seen) (seen_by w).
Proof.
  intros Hc Hl Hb Hseen. cbv zeta. intros Hdone. destruct (goroutine_overlaps own init p Hc) as (Jl & Hinit & Hp).
  destruct (Hp (last_after start seen) (mkWorld (sh_db start) ∅ (mkView l (sh_taken start) seen start))) as [Hs Hg Hv].
  - split; cbn; [by destruct start|by destruct start|]. split; cbn; auto.
  - fold (run_thread p l start seen) in *. pose proof (pr_last _ _ _ _ _ Hv) as Hz. rewrite Hdone in Hz. cbn in Hz. by rewrite <- Hz.
Qed.

Record thread_sound (sh : shared) (t : thread (L := L)) : Prop := {
  ts_goroutine : exists init, goroutine (t_own t) init (t_prog t) /\ init (t_local t);
  ts_start : sound (t_start t);
  ts_seen : seen_sound (t_seen t);
  ts_left : grows (t_left t) sh
}.
Definition overlap_state (st : shared * list (thread (L := L))) : Prop :=
  sound st.1 /\ Forall (thread_sound st.1) st.2.

Lemma threads_grow sh sh' ths : grows sh sh' -> Forall (thread_sound sh) ths -> Forall (thread_sound sh') ths.
Proof. intros Hg Ht. eapply Forall_impl; [exact Ht|]. intros t [Hc Hs Hseen Hl]. split; [done..|]. by etrans. Qed.

Lemma overlap_step alone st st' : sys_step cfg kcp hasKcp dk chains alone st st' ->
  overlap_state st -> overlap_state st' /\ grows st.1 st'.1.
Proof.
  intros [sh ths own init p l Hc Hl _ w Hdone|sh ths1 ths2 t seen w Hdone|sh ths1 ths2 t|sh ths db Hcur Hbuf] [Hs Ht];
    cbn [fst snd] in *.
  - destruct (run_overlaps own init p l sh [] Hc Hl Hs (Forall_nil_2 _) Hdone) as [Hs' Hg]. fold w in Hs', Hg. cbn in Hg.
    split; [|done]. split; [done|]. constructor; [by split; cbn; eauto|by apply (threads_grow sh)].
  - rewrite Forall_app, Forall_cons in Ht. destruct Ht as (Ht1 & [(init & Hc & Hl) Hst Hseen Hleft] & Ht2).
    assert (seen_sound seen) as Hseen' by (apply Forall_app; split; [done|by apply Forall_singleton]).
    destruct (run_overlaps (t_own t) init (t_prog t) (t_local t) (t_start t) seen Hc Hl Hst Hseen' Hdone) as [Hs' Hg].
    fold w in Hs', Hg. unfold seen in Hg. rewrite last_after_snoc in Hg. split; [|done]. split; [done|].
    apply Forall_app. split; [by apply (threads_grow sh)|]. constructor; [by split; cbn; eauto|by apply (threads_grow sh)].
  - rewrite Forall_app, Forall_cons in Ht. destruct Ht as (? & _ & ?). split; [|done]. split; [done|]. by apply Forall_app.
  - assert (evolves truth sh (mkShared db (sh_taken sh))) as He by by apply tables_evolve.
    split; [|by apply (evolves_grows truth)]. split; [|by eapply threads_grow; [apply (evolves_grows truth)|]].
    apply (evolves_sound truth sh0 sh); [done| |done]. unfold keyed. cbn. rewrite Hbuf. apply Hs.
Qed.

Lemma overlap_steps alone st st' : rtc (sys_step cfg kcp hasKcp dk chains alone) st st' ->
  overlap_state st -> overlap_state st' /\ grows st.1 st'.1.
Proof.
  induction 1 as [st|st st1 st' Hstep _ IH]; [by split|]. intros Hst.
  destruct (overlap_step alone _ _ Hstep Hst) as [Hst1 Hg]. destruct (IH Hst1) as [Hst' Hg']. split; [done|by etrans].
Qed.
End System.

(** C1. No interleaving loses a deposit or makes one up.  The polling loops of
    any chains, the publisher in either mode, the monitor and the auditor, as
    [main] and the supervisor build them, run in parallel: each stops at every
    call it makes to the outside, the others go on meanwhile, and it goes on
    with the tables as it then finds them; any of them starts at any time, dies
    at any call, and (unless [alone]) several loops of one chain and scanner
    may live at once and overwrite each other's cursor.  Then every deposit of
    every block from the start to the cursor is in [deposit_buffer] or was
    given over to the Adapter, that is, the Adapter acknowledged it over the
    connection, or, without PUBLISHER_REQUIRE_ACK, it was written to the
    connection (and may be lost there); and everything buffered or given over
    was so at the start or is in some block of its chain.

    Assumed ([chain_served]): the nodes answer truthfully when they answer;
    every trace call of a trace scanner, after its retries, and every
    single-account lookup gives an answer or does not return (a failing one
    loses transfers: [collect_swallows_lookup_error], [trace_disabled_for_good]);
    call trees keep to the EVM's depth limit; the watched accounts do not
    change; configured decimals and RPC_MAX_RETRIES are not negative; block
    times and heads are in range.  Other calls, round trips, statements and
    commits may fail; the Adapter may acknowledge anything.  At the start block
    numbers fit and each row's payload is of its row's key ([keyed]). *)
Theorem interleaved_nothing_lost {L : Type}
    `{!AccountTable, Env L, Eth, Sched L, TraceHostLaws L, AuditEnv L, Conn L, !RpcDialer L, !Sha}
    (cfg : EnvConfig) (kcp : Z) (hasKcp : bool) (dk : Decryptor) (chains : Z -> option chain_data) (alone : bool)
    (sh0 sh : shared) (ths : list thread) :
  bounded (sh_ledger sh0) -> keyed (sh_db sh0) ->
  rtc (sys_step cfg kcp hasKcp dk chains alone) (sh0, []) (sh, ths) ->
  nothing_lost (chain_truth chains) id (as_world sh0) (as_world sh) /\
  forall k, waiting sh k -> waiting sh0 k \/ exists c s b, k ∈ chain_truth chains c s b.
Proof.
  intros Hb Hk Hr. destruct (overlap_steps cfg kcp hasKcp dk chains sh0 alone _ _ Hr) as [[Hs _] _].
  { split; [by apply sound_start|constructor]. }
  split; [by apply sound_nothing_lost|apply (so_genuine _ _ _ Hs)].
Qed.

(** C12. Nothing goes back.  Any loops, the publisher in either mode, the
    monitor and the auditor run interleaved.  Assumed: nodes answer truthfully
    when they answer, trace calls (after their retries) and single-account
    lookups of trace scanners do not fail, call trees keep to the EVM's depth
    limit, the watched accounts do not change, block times and heads are in
    range, configured decimals and RPC_MAX_RETRIES are not negative, and each
    row's payload is of its key at the start.  From any moment to any later
    one: a deposit that was buffered or given over (acknowledged by the Adapter
    or, without PUBLISHER_REQUIRE_ACK, only written to the connection) is still
    one of the two, one given over stays so; across kills and restarts, failed
    commits, lost replies and overlapping loops; and where each cursor has one
    living loop at most, a started cursor never decreases. *)
Theorem interleaved_monotone {L : Type}
    `{!AccountTable, Env L, Eth, Sched L, TraceHostLaws L, AuditEnv L, Conn L, !RpcDialer L, !Sha}
    (cfg : EnvConfig) (kcp : Z) (hasKcp : bool) (dk : Decryptor) (chains : Z -> option chain_data) (alone : bool)
    (sh0 sh1 sh2 : shared) (ths1 ths2 : list thread) :
  bounded (sh_ledger sh0) -> keyed (sh_db sh0) ->
  rtc (sys_step cfg kcp hasKcp dk chains alone) (sh0, []) (sh1, ths1) ->
  rtc (sys_step cfg kcp hasKcp dk chains alone) (sh1, ths1) (sh2, ths2) ->
  (forall k, waiting sh1 k -> waiting sh2 k) /\ sh_taken sh1 ⊆ sh_taken sh2 /\
  (alone = true -> forall own v, cursor_of sh1 own = Some v -> u64 v <> 0 ->
    exists v', cursor_of sh2 own = Some v' /\ u64 v <= u64 v').
Proof.
  intros Hb Hk Hr1 Hr2. destruct (overlap_steps cfg kcp hasKcp dk chains sh0 alone _ _ Hr1) as [Hst _].
  { split; [by apply sound_start|constructor]. }
  destruct (overlap_steps cfg kcp hasKcp dk chains sh0 alone _ _ Hr2 Hst) as [_ [Hw Ht]].
  split; [exact Hw|]. split; [exact Ht|]. intros -> own v Hv Hnz.
  destruct (alone_invariant cfg kcp hasKcp dk chains sh0 _ (conj Hb Hk) Hr1) as [He1 Hk1 Ht1 Ho1].
  destruct (sys_steps_inv cfg kcp hasKcp dk chains sh1 _ _ (evolves_bounded chains _ _ He1 Hb) Hr2) as [He _ _ _]; [by split|].
  by apply (evolves_cursor (chain_truth chains) sh1 sh2).
Qed.

(** ** Concrete executions *)
Module OverlapWitness.
Import DecoderWitness SystemWitness ParallelWitness.

(** the chain was left at block 100 *)
Definition sh100' : shared := mkShared (sql_upsert_cursor 1 "trace" 100 (sh_db sh100)) ∅.
Lemma bounded100' : bounded (sh_ledger sh100').
Proof.
  intros c s n. cbn. rewrite lookup_fmap, fmap_Some. intros (v & Hv & ->).
  repeat (apply lookup_insert_Some in Hv as [[_ <-]|[_ Hv]]; [reflexivity|]).
  apply lookup_singleton_Some in Hv as [_ <-]. reflexivity.
Qed.

Definition startTrace : command ext := Start (Some (1, "trace")) traceP l0.

(** a second trace loop starts while the first is inside block 101, and is
    done with block 102 when the first saves 101 *)
Definition overlapping : list (command ext) :=
  [Start (Some (1, "log")) logP l0; Start None pubP l0; startTrace] ++ replicate 3 (Resume 0) ++
  [startTrace] ++ replicate 12 (Resume 0) ++ replicate 15 (Resume 3) ++
  replicate 9 (Resume 2) ++ [Resume 1].

Lemma overlapping_ok : Forall (command_ok cfg1 0 false NoopDecryptor chains) overlapping.
Proof. repeat constructor; try done; apply (start_ok true); set_solver. Qed.

Lemma overlapping_runs : tables ∘ fst <$> exec_script false (sh100', []) overlapping =
  Some ([(1, "0x77", -100000)], [(1, "0x55", -1)], Some 102, Some 101).
Proof. vm_compute. reflexivity. Qed.

(** without acknowledgements: the native deposit is written and deleted *)
Definition fire_and_forget : list (command ext) :=
  [Start (Some (1, "log")) logP l0; Start None (pub false) l0] ++ replicate 12 (Resume 1) ++ replicate 12 (Resume 0).
Lemma fire_ok : Forall (command_ok (cfgA false) 0 false NoopDecryptor chains) fire_and_forget.
Proof. repeat constructor; try done; apply (start_ok false); set_solver. Qed.
Lemma fire_runs : tables ∘ fst <$> exec_script false (sh100', []) fire_and_forget =
  Some ([], [(1, "0x55", -1)], Some 102, Some 100).
Proof. vm_compute. reflexivity. Qed.

(** the first trace loop has put the cursor back to 101; the deposit of block
    102 that the second saved is still there.  And without acknowledgements *)
Lemma interleaved_nothing_lost_witness :
  (exists sh ths,
    rtc (sys_step cfg1 0 false NoopDecryptor chains false) (sh100', []) (sh, ths) /\
    tables sh = ([(1, "0x77", -100000)], [(1, "0x55", -1)], Some 102, Some 101) /\
    nothing_lost (chain_truth chains) id (as_world sh100') (as_world sh)) /\
  exists sh ths,
    rtc (sys_step (cfgA false) 0 false NoopDecryptor chains false) (sh100', []) (sh, ths) /\
    tables sh = ([], [(1, "0x55", -1)], Some 102, Some 100) /\
    nothing_lost (chain_truth chains) id (as_world sh100') (as_world sh).
Proof.
  assert (keyed (sh_db sh100')) as Hk by constructor. split.
  - pose proof overlapping_runs as Htab. destruct (exec_script false (sh100', []) overlapping) as [[sh ths]|] eqn:Hrun; [|discriminate].
    change (Some (tables sh) = Some ([(1, "0x77", -100000)], [(1, "0x55", -1)], Some 102, Some 101)) in Htab.
    apply (inj Some) in Htab.
    pose proof (exec_script_sound cfg1 0 false NoopDecryptor chains false overlapping _ _ overlapping_ok Hrun) as Hr.
    exists sh, ths. split; [exact Hr|]. split; [exact Htab|].
    apply (interleaved_nothing_lost cfg1 0 false NoopDecryptor chains false sh100' sh ths); [exact bounded100'|exact Hk|exact Hr].
  - pose proof fire_runs as Htab. destruct (exec_script false (sh100', []) fire_and_forget) as [[sh ths]|] eqn:Hrun; [|discriminate].
    change (Some (tables sh) = Some ([], [(1, "0x55", -1)], Some 102, Some 100)) in Htab.
    apply (inj Some) in Htab.
    pose proof (exec_script_sound (cfgA false) 0 false NoopDecryptor chains false fire_and_forget _ _ fire_ok Hrun) as Hr.
    exists sh, ths. split; [exact Hr|]. split; [exact Htab|].
    apply (interleaved_nothing_lost (cfgA false) 0 false NoopDecryptor chains false sh100' sh ths); [exact bounded100'|exact Hk|exact Hr].
Defined.

(** with one trace loop at a time: the native deposit was waiting before the
    Adapter took it over, and the cursors go on *)
Definition before_take : list (command ext) := firstn 25 script.
Definition since_take : list (command ext) := skipn 25 script.
Lemma before_take_runs : tables ∘ fst <$> exec_script true (sh100, []) before_take =
  Some ([(1, "0x55", -1)], [], Some 102, Some 101).
Proof. vm_compute. reflexivity. Qed.

Lemma interleaved_monotone_witness : exists sh1 sh2,
  tables sh1 = ([(1, "0x55", -1)], [], Some 102, Some 101) /\
  tables sh2 = ([(1, "0x77", -100000)], [(1, "0x55", -1)], Some 102, Some 102) /\
  sh_taken sh1 ⊆ sh_taken sh2.
Proof.
  pose proof before_take_runs as Htab1. pose proof script_runs as Htab2.
  replace script with (before_take ++ since_take) in Htab2 by reflexivity. rewrite exec_script_app in Htab2.
  pose proof script_ok as Hok. replace script with (before_take ++ since_take) in Hok by reflexivity.
  apply Forall_app in Hok as [Hok1 Hok2].
  destruct (exec_script true (sh100, []) before_take) as [[sh1 ths1]|] eqn:Hrun1; [|discriminate].
  destruct (exec_script true (sh1, ths1) since_take) as [[sh2 ths2]|] eqn:Hrun2; [|discriminate].
  change (Some (tables sh1) = Some ([(1, "0x55", -1)], [], Some 102, Some 101)) in Htab1.
  change (Some (tables sh2) = Some ([(1, "0x77", -100000)], [(1, "0x55", -1)], Some 102, Some 102)) in Htab2.
  apply (inj Some) in Htab1, Htab2.
  exists sh1, sh2. split; [exact Htab1|]. split; [exact Htab2|].
  apply (interleaved_monotone cfg1 0 false NoopDecryptor chains true sh100 sh1 sh2 ths1 ths2 bounded100 ltac:(constructor));
    [exact (exec_script_sound _ _ _ _ _ true before_take _ _ Hok1 Hrun1)|exact (exec_script_sound _ _ _ _ _ true since_take _ _ Hok2 Hrun2)].
Defined.
End OverlapWitness.
